(** * g_poll and GWakeup: a shallow embedding of glib/gpoll.c and glib/gwakeup.c

    The C sources select one of several implementations of [g_poll] and of
    [GWakeup] with the preprocessor.  Every implementation is embedded in a
    module of its own, so that the functions keep the names they have in C:

    - [BareMetal]: the [G_OS_NONE] variant (sleep/wake hooks, atomic flag);
    - [Kqueue]:    the [HAVE_KQUEUE] variant (kernel event queue);
    - [SelectEmu]: the select(2) based emulation of poll(2);
    - [Win32]:     the [G_OS_WIN32] variant (handle waits, worker threads);
    - [Unix]:      the eventfd and pipe variant of [GWakeup].

    Pointers are integers with [NULL = 0]; objects reached through pointers
    live in a finite map from addresses.  Dereferencing an address that is
    not in the map is undefined behaviour in C and yields [None] here.
    Operating-system calls and platform hooks are arguments of the model. *)

From stdpp Require Import base option list gmap.
From Stdlib Require Import ZArith Lia.
From Equations Require Import Equations.

Local Open Scope Z_scope.

(** ** C integer types *)

(** Value of a [w]-bit unsigned object after a store of [x]. *)
Definition wrap_unsigned (w x : Z) : Z := x mod 2 ^ w.

(** Value of a [w]-bit two's complement object after a store of [x]. *)
Definition wrap_signed (w x : Z) : Z :=
  (x + 2 ^ (w - 1)) mod 2 ^ w - 2 ^ (w - 1).

Definition to_gint : Z -> Z := wrap_signed 32.
Definition to_guint : Z -> Z := wrap_unsigned 32.
Definition to_gint64 : Z -> Z := wrap_signed 64.
Definition to_DWORD : Z -> Z := wrap_unsigned 32.

Definition G_MAXINT : Z := 2 ^ 31 - 1.
Definition G_MAXINT64 : Z := 2 ^ 63 - 1.

(** A value together with the equation that names it, for definitions
    whose termination depends on the case taken. *)
Definition inspect {A} (a : A) : {b : A | a = b} := exist _ a eq_refl.

Definition NULL : Z := 0.
Definition FALSE : Z := 0.
Definition TRUE : Z := 1.

(** ** The G_OS_NONE implementation *)

Module BareMetal.

(** Constants of headers that are not part of the sources at hand
    (giochannel.h, gwakeup-private.h, gwait.h, gdatetime.h). *)
Class Config := {
  G_IO_IN : Z;
  G_WAIT_WAKEUP_HANDLE : Z;
  G_WAIT_INFINITE : Z;
  G_TIME_SPAN_MILLISECOND : Z
}.

(** [struct _GWakeup]: the atomic flag and the token of the poll call
    that currently has the handle in its set. *)
Record GWakeup := {
  signalled : Z;
  token : Z
}.

Record GPollFD := {
  fd : Z;
  events : Z;
  revents : Z;
  user_data : Z
}.

Definition set_revents (p : GPollFD) (r : Z) : GPollFD :=
  {| fd := fd p; events := events p; revents := r;
     user_data := user_data p |}.

(** [struct _GPollOperation]; the array and its length are one list. *)
Record GPollOperation := {
  fds : list GPollFD
}.

(** What the code can observe and change: the [GWakeup] objects, the
    monotonic clock, and the tokens handed to [g_wait_wake]
    (most recent first). *)
Record World := {
  heap : gmap Z GWakeup;
  now : Z;
  wake_log : list Z
}.

Definition with_heap (w : World) (h : gmap Z GWakeup) : World :=
  {| heap := h; now := now w; wake_log := wake_log w |}.

(** The clock moves while the thread is in [g_wait_sleep]; the time
    the loops of [g_poll] themselves take is not modelled, so that the
    two readings of a call are equal. *)
Definition g_get_monotonic_time (w : World) : Z := now w.

Definition g_wait_wake (t : Z) (w : World) : World :=
  {| heap := heap w; now := now w; wake_log := t :: wake_log w |}.

Section WithConfig.
Context {cfg : Config}.

(** The platform's [g_wait_sleep (token, timeout_us)]: it returns
    after the time and the other threads have changed the world. *)
Variable g_wait_sleep : Z -> Z -> World -> World.

(** [g_wakeup_new], where [a] is the address [g_slice_new] returns. *)
Definition g_wakeup_new (a : Z) (w : World) : World :=
  with_heap w (<[a := {| signalled := FALSE; token := NULL |}]> (heap w)).

Definition g_wakeup_get_pollfd (wakeup : Z) (poll_fd : GPollFD) : GPollFD :=
  {| fd := G_WAIT_WAKEUP_HANDLE; events := G_IO_IN;
     revents := revents poll_fd; user_data := wakeup |}.

Definition g_wakeup_acknowledge (wakeup : Z) (w : World) : option World :=
  k ← heap w !! wakeup;
  Some (with_heap w
          (<[wakeup := {| signalled := FALSE; token := token k |}]> (heap w))).

Definition g_wakeup_signal (wakeup : Z) (w : World) : option World :=
  k ← heap w !! wakeup;
  let w' := with_heap w
              (<[wakeup := {| signalled := TRUE; token := token k |}]> (heap w)) in
  let t := token k in
  if decide (t ≠ NULL) then Some (g_wait_wake t w') else Some w'.

(** The two loops of [g_poll] that store the token ([tok]) or [NULL]
    in every wakeup handle of the set. *)
Fixpoint set_tokens (tok : Z) (l : list GPollFD) (h : gmap Z GWakeup)
  : option (gmap Z GWakeup) :=
  match l with
  | [] => Some h
  | p :: rest =>
      if decide (fd p = G_WAIT_WAKEUP_HANDLE) then
        k ← h !! user_data p;
        set_tokens tok rest
          (<[user_data p := {| signalled := signalled k; token := tok |}]> h)
      else set_tokens tok rest h
  end.

(** The readiness pass: the inner [for] loop of the [for (;;)] body.
    [ready] is the [gint] counter on entry. *)
Fixpoint check_fds (h : gmap Z GWakeup) (l : list GPollFD) (ready : Z)
  : option (list GPollFD * Z) :=
  match l with
  | [] => Some ([], ready)
  | p :: rest =>
      if decide (fd p = G_WAIT_WAKEUP_HANDLE) then
        k ← h !! user_data p;
        if decide (signalled k ≠ 0) then
          '(rest', r) ← check_fds h rest (to_gint (ready + 1));
          Some (set_revents p G_IO_IN :: rest', r)
        else
          '(rest', r) ← check_fds h rest ready;
          Some (set_revents p 0 :: rest', r)
      else
        '(rest', r) ← check_fds h rest ready;
        Some (set_revents p 0 :: rest', r)
  end.

(** What the body of [for (;;)] does after the readiness pass. *)
Inductive next_step :=
| Done
| Sleep (timeout_us : Z).

Definition after_check (timeout deadline : Z) (slept : bool) (ready : Z)
    (w : World) : next_step :=
  if decide (ready ≠ 0 ∨ timeout = 0 ∨ slept = true) then Done
  else if decide (timeout = -1) then Sleep G_WAIT_INFINITE
  else
    let now := g_get_monotonic_time w in
    if decide (now >= deadline) then Done
    else Sleep (to_gint64 (deadline - now)).

(** The [for (;;)] loop; [n] bounds the number of passes. *)
Fixpoint poll_loop (n : nat) (tok timeout deadline : Z) (slept : bool)
    (l : list GPollFD) (w : World) : option (list GPollFD * Z * World) :=
  match n with
  | O => None
  | S n' =>
      '(l', ready) ← check_fds (heap w) l 0;
      match after_check timeout deadline slept ready w with
      | Done => Some (l', ready, w)
      | Sleep timeout_us =>
          poll_loop n' tok timeout deadline true l'
            (g_wait_sleep tok timeout_us w)
      end
  end.

Definition compute_deadline (timeout : Z) (w : World) : Z :=
  if decide (timeout = -1) then G_MAXINT64
  else to_gint64 (g_get_monotonic_time w
                  + timeout * G_TIME_SPAN_MILLISECOND).

(** [g_poll (fds, nfds, timeout)]; [tok] is the address of the local
    [GPollOperation].  The loop leaves after its second pass at the
    latest (see [poll_loop_two_passes]). *)
Definition g_poll (tok : Z) (l : list GPollFD) (timeout : Z) (w : World)
  : option (list GPollFD * Z * World) :=
  let deadline := compute_deadline timeout w in
  h1 ← set_tokens tok l (heap w);
  '(l', ready, w2) ← poll_loop 2 tok timeout deadline false l (with_heap w h1);
  h3 ← set_tokens NULL l' (heap w2);
  Some (l', ready, with_heap w2 h3).

Fixpoint g_wait_is_set_loop (h : gmap Z GWakeup) (l : list GPollFD)
  : option bool :=
  match l with
  | [] => Some false
  | p :: rest =>
      if decide (fd p = G_WAIT_WAKEUP_HANDLE) then
        k ← h !! user_data p;
        if decide (signalled k ≠ 0) then Some true
        else g_wait_is_set_loop h rest
      else g_wait_is_set_loop h rest
  end.

(** [g_wait_is_set (token)], the token being the address of [op]. *)
Definition g_wait_is_set (op : GPollOperation) (w : World) : option bool :=
  g_wait_is_set_loop (heap w) (fds op).

End WithConfig.

End BareMetal.

(** ** The HAVE_KQUEUE implementation *)

Module Kqueue.

(** Constants of gpoll.h, gwakeup-private.h and <sys/event.h>.
    [EV_OOBAND] and [EVFILT_EXCEPT] exist on some systems only. *)
Class Config := {
  G_IO_IN : Z;
  G_IO_OUT : Z;
  G_IO_PRI : Z;
  G_IO_ERR : Z;
  G_IO_HUP : Z;
  G_KQUEUE_WAKEUP_HANDLE : Z;
  EV_EOF : Z;
  EV_ERROR : Z;
  EV_OOBAND : option Z;
  have_EVFILT_EXCEPT : bool
}.

Inductive filter_t :=
| EVFILT_READ
| EVFILT_WRITE
| EVFILT_EXCEPT
| EVFILT_USER.

#[global] Instance filter_t_eq_dec : EqDecision filter_t.
Proof. solve_decision. Defined.

(** The four shapes of [EV_SET] in the sources.  [udata] is the index
    of the [GPollFD] the C code passes by address. *)
Inductive change :=
| AddUser (ident : Z)        (* EVFILT_USER, EV_ADD, NOTE_FFCOPY *)
| DeleteUser (ident : Z)     (* EVFILT_USER, EV_DELETE *)
| TriggerUser (ident : Z)    (* EVFILT_USER, 0, NOTE_TRIGGER *)
| AddFd (f : filter_t) (ident : Z) (udata : nat). (* EV_ADD *)

(** A [struct kevent] as the kernel returns it. *)
Record kevent_t := {
  ident : Z;
  filter : filter_t;
  flags : Z;
  fflags : Z;
  udata : option nat
}.

(** [struct _GWakeup]; the mutex only serialises the functions below. *)
Record GWakeup := {
  kq : Z;
  pending : Z
}.

Record GPollFD := {
  fd : Z;
  events : Z;
  revents : Z;
  handle : Z
}.

Definition set_revents (p : GPollFD) (r : Z) : GPollFD :=
  {| fd := fd p; events := events p; revents := r; handle := handle p |}.

(** A kernel event queue: the user events with their triggered state
    and the registered descriptor filters. *)
Record KQueue := {
  users : gmap Z bool;
  fd_filters : list (filter_t * Z * nat)
}.

Record World := {
  heap : gmap Z GWakeup;
  kernel : gmap Z KQueue
}.

Definition with_heap (w : World) (h : gmap Z GWakeup) : World :=
  {| heap := h; kernel := kernel w |}.

Definition with_kernel (w : World) (k : gmap Z KQueue) : World :=
  {| heap := heap w; kernel := k |}.

(** What the operating system decides during one call of [g_poll]. *)
Record OS := {
  kqueue_ret : Z;                      (* result of kqueue () *)
  fd_add_ok : filter_t -> Z -> bool;   (* can the filter be attached *)
  collect_fails : bool;                (* the collecting kevent () fails *)
  fires : filter_t -> Z -> nat -> option (Z * Z)
                                       (* flags and fflags of a filter
                                          that has an event *)
}.

Section WithConfig.
Context {cfg : Config}.

(** *** The kernel side of kevent(2) *)

Definition empty_queue : KQueue := {| users := ∅; fd_filters := [] |}.

Definition apply_change (os : OS) (c : change) (q : KQueue) : option KQueue :=
  match c with
  | AddUser i =>
      match users q !! i with
      | Some _ => Some q
      | None => Some {| users := <[i := false]> (users q);
                        fd_filters := fd_filters q |}
      end
  | DeleteUser i =>
      match users q !! i with
      | Some _ => Some {| users := delete i (users q);
                          fd_filters := fd_filters q |}
      | None => None
      end
  | TriggerUser i =>
      match users q !! i with
      | Some _ => Some {| users := <[i := true]> (users q);
                          fd_filters := fd_filters q |}
      | None => None
      end
  | AddFd f i u =>
      if fd_add_ok os f i
      then Some {| users := users q;
                   fd_filters := fd_filters q ++ [(f, i, u)] |}
      else None
  end.

Definition error_event (c : change) : kevent_t :=
  match c with
  | AddUser i | DeleteUser i | TriggerUser i =>
      {| ident := i; filter := EVFILT_USER; flags := EV_ERROR;
         fflags := 0; udata := None |}
  | AddFd f i u =>
      {| ident := i; filter := f; flags := EV_ERROR;
         fflags := 0; udata := Some u |}
  end.

(** The changelist is processed in order.  A change that fails is
    reported in the event list if there is room, otherwise the call
    stops there and fails. *)
Fixpoint apply_changes (os : OS) (cs : list change) (room : nat)
    (q : KQueue) : KQueue * list kevent_t * bool :=
  match cs with
  | [] => (q, [], true)
  | c :: rest =>
      match apply_change os c q with
      | Some q' => apply_changes os rest room q'
      | None =>
          match room with
          | O => (q, [], false)
          | S room' =>
              let '(q', errs, ok) := apply_changes os rest room' q in
              (q', error_event c :: errs, ok)
          end
      end
  end.

Definition user_events (q : KQueue) : list kevent_t :=
  (λ iu, {| ident := iu.1; filter := EVFILT_USER; flags := 0;
            fflags := 0; udata := None |})
    <$> map_to_list (base.filter (λ iu, iu.2 = true) (users q)).

Definition fd_events (os : OS) (q : KQueue) : list kevent_t :=
  omap (λ r : filter_t * Z * nat,
          let '(f, i, u) := r in
          (λ ff : Z * Z, {| ident := i; filter := f; flags := ff.1;
                            fflags := ff.2; udata := Some u |})
            <$> fires os f i u)
       (fd_filters q).

(** [kevent (kq, changelist, nchanges, eventlist, nevents, ts)]:
    the return value, the event list and the new world. *)
Definition kevent (os : OS) (kq_ : Z) (cs : list change) (nevents : Z)
    (w : World) : Z * list kevent_t * World :=
  match kernel w !! kq_ with
  | None => (-1, [], w)
  | Some q =>
      let '(q', errs, ok) := apply_changes os cs (Z.to_nat nevents) q in
      let w' := with_kernel w (<[kq_ := q']> (kernel w)) in
      if negb ok then (-1, [], w')
      else if decide (errs ≠ []) then (Z.of_nat (length errs), errs, w')
      else if decide (nevents <= 0) then (0, [], w')
      else if collect_fails os then (-1, [], w')
      else
        let evs := take (Z.to_nat nevents) (user_events q' ++ fd_events os q') in
        (Z.of_nat (length evs), evs, w')
  end.

(** [kqueue ()] and [close (kq)]. *)
Definition kqueue (os : OS) (w : World) : Z * World :=
  if decide (kqueue_ret os = -1) then (-1, w)
  else (kqueue_ret os,
        with_kernel w (<[kqueue_ret os := empty_queue]> (kernel w))).

Definition close (kq_ : Z) (w : World) : World :=
  with_kernel w (delete kq_ (kernel w)).

(** *** gwakeup.c *)

(** An [OS] for the calls of the wakeup functions, which attach no
    descriptor filter and collect nothing. *)
Definition no_os : OS :=
  {| kqueue_ret := -1; fd_add_ok := λ _ _, true;
     collect_fails := false; fires := λ _ _ _, None |}.

Definition g_wakeup_new (a : Z) (w : World) : World :=
  with_heap w (<[a := {| kq := -1; pending := 0 |}]> (heap w)).

Definition g_wakeup_get_pollfd (wakeup : Z) (poll_fd : GPollFD) : GPollFD :=
  {| fd := G_KQUEUE_WAKEUP_HANDLE; events := G_IO_IN;
     revents := revents poll_fd; handle := wakeup |}.

Definition g_wakeup_signal_unlocked (wakeup : Z) (w : World) : option World :=
  k ← heap w !! wakeup;
  let w1 :=
    if decide (kq k ≠ -1)
    then (kevent no_os (kq k) [TriggerUser wakeup] 0 w).2
    else w in
  Some (with_heap w1
          (<[wakeup := {| kq := kq k; pending := to_guint (pending k + 1) |}]>
             (heap w1))).

Definition _g_wakeup_kqueue_realize (wakeup kq_ : Z) (w : World) : option World :=
  k ← heap w !! wakeup;
  let w1 := with_heap w
              (<[wakeup := {| kq := kq_; pending := pending k |}]> (heap w)) in
  if decide (pending k ≠ 0) then g_wakeup_signal_unlocked wakeup w1
  else Some w1.

Definition _g_wakeup_kqueue_unrealize (wakeup : Z) (w : World) : option World :=
  k ← heap w !! wakeup;
  Some (with_heap w
          (<[wakeup := {| kq := -1; pending := pending k |}]> (heap w))).

Definition g_wakeup_acknowledge (wakeup : Z) (w : World) : option World :=
  k ← heap w !! wakeup;
  let w1 := (kevent no_os (kq k) [DeleteUser wakeup; AddUser wakeup] 0 w).2 in
  Some (with_heap w1
          (<[wakeup := {| kq := kq k; pending := 0 |}]> (heap w1))).

Definition g_wakeup_signal (wakeup : Z) (w : World) : option World :=
  g_wakeup_signal_unlocked wakeup w.

(** *** gpoll.c *)

(** [(int) nfds], the bound of every loop over [fds]. *)
Definition int_nfds (l : list GPollFD) : nat :=
  Z.to_nat (to_gint (Z.of_nat (length l))).

(** A loop [for (i = 0; i < (int) nfds; i++)] that rewrites [fds[i]]. *)
Definition for_fds (f : GPollFD -> GPollFD) (l : list GPollFD) : list GPollFD :=
  (f <$> take (int_nfds l) l) ++ drop (int_nfds l) l.

Definition is_wakeup (p : GPollFD) : bool :=
  bool_decide (fd p = G_KQUEUE_WAKEUP_HANDLE).

Definition test_bits (x mask : Z) : bool := bool_decide (Z.land x mask ≠ 0).

(** The entries the first loop of [g_poll] writes for [fds[i]]. *)
Definition fd_changes (i : nat) (p : GPollFD) : list change :=
  if is_wakeup p then [AddUser (handle p)]
  else if decide (fd p >= 0) then
    (if test_bits (events p) G_IO_IN
     then [AddFd EVFILT_READ (fd p) i] else [])
    ++ (if test_bits (events p) G_IO_OUT
        then [AddFd EVFILT_WRITE (fd p) i] else [])
    ++ (if have_EVFILT_EXCEPT && test_bits (events p) G_IO_PRI
        then [AddFd EVFILT_EXCEPT (fd p) i] else [])
  else [].

Definition changelist (l : list GPollFD) : list change :=
  concat (imap fd_changes (take (int_nfds l) l)).

Definition num_wakeup_fds (l : list GPollFD) : Z :=
  to_guint (Z.of_nat (length (base.filter (λ p, is_wakeup p = true)
                                (take (int_nfds l) l)))).

(** [pfd->revents |= bits] on the [gushort] field. *)
Definition or_revents (bits : Z) (p : GPollFD) : GPollFD :=
  set_revents p (wrap_unsigned 16 (Z.lor (revents p) bits)).

Definition or_revents_if (c : bool) (bits : Z) (p : GPollFD) : GPollFD :=
  if c then or_revents bits p else p.

(** The cases of the [switch] that work on [pfd = ev->udata]. *)
Definition handle_fd_event (ev : kevent_t) (p : GPollFD) : GPollFD :=
  match filter ev with
  | EVFILT_READ =>
      let p := or_revents_if (test_bits (events p) G_IO_IN) G_IO_IN p in
      let p := match EV_OOBAND with
               | Some oob =>
                   or_revents_if (test_bits (events p) G_IO_PRI
                                  && test_bits (flags ev) oob) G_IO_PRI p
               | None => p
               end in
      let p := if test_bits (flags ev) EV_EOF
               then or_revents_if (bool_decide (fflags ev ≠ 0)) G_IO_ERR
                      (or_revents G_IO_HUP p)
               else p in
      or_revents_if (test_bits (flags ev) EV_ERROR) G_IO_ERR p
  | EVFILT_WRITE =>
      let p := or_revents_if (test_bits (events p) G_IO_OUT) G_IO_OUT p in
      or_revents_if (test_bits (flags ev) (Z.lor EV_EOF EV_ERROR)) G_IO_ERR p
  | EVFILT_EXCEPT =>
      let p := or_revents_if (test_bits (events p) G_IO_PRI) G_IO_PRI p in
      let p := or_revents_if (test_bits (flags ev) EV_EOF) G_IO_HUP p in
      or_revents_if (test_bits (flags ev) EV_ERROR) G_IO_ERR p
  | EVFILT_USER => p
  end.

(** The [EVFILT_USER] case: every entry of the set that stands for
    the wakeup handle [ev->ident]. *)
Definition handle_user_event (ev : kevent_t) (p : GPollFD) : GPollFD :=
  if is_wakeup p && bool_decide (handle p = ident ev)
  then or_revents_if (test_bits (events p) G_IO_IN) G_IO_IN p
  else p.

(** One pass of the body of [for (i = 0; i < ret; i++)]. *)
Definition handle_event (l : list GPollFD) (ev : kevent_t)
  : option (list GPollFD) :=
  match filter ev with
  | EVFILT_USER => Some (for_fds (handle_user_event ev) l)
  | EVFILT_EXCEPT =>
      if have_EVFILT_EXCEPT then
        i ← udata ev; p ← l !! i; Some (<[i := handle_fd_event ev p]> l)
      else Some l
  | _ => i ← udata ev; p ← l !! i; Some (<[i := handle_fd_event ev p]> l)
  end.

Fixpoint handle_events (l : list GPollFD) (evs : list kevent_t)
  : option (list GPollFD) :=
  match evs with
  | [] => Some l
  | ev :: rest => l' ← handle_event l ev; handle_events l' rest
  end.

(** The recount of lines 672-680, on an [int]. *)
Fixpoint count_ready (l : list GPollFD) (ret : Z) : Z :=
  match l with
  | [] => ret
  | p :: rest =>
      count_ready rest (if decide (revents p ≠ 0) then to_gint (ret + 1) else ret)
  end.

(** A loop over the wakeup entries of the set that calls [f] on the
    handle of each. *)
Fixpoint for_wakeups (f : Z -> World -> option World) (l : list GPollFD)
    (w : World) : option World :=
  match l with
  | [] => Some w
  | p :: rest =>
      if is_wakeup p then w' ← f (handle p) w; for_wakeups f rest w'
      else for_wakeups f rest w
  end.

(** From the label [beach] to the end. *)
Definition beach (kq_ : Z) (l : list GPollFD) (ret : Z) (w : World)
  : option (list GPollFD * Z * World) :=
  w1 ← (if decide (num_wakeup_fds l > 0)
        then for_wakeups _g_wakeup_kqueue_unrealize (take (int_nfds l) l) w
        else Some w);
  Some (l, ret, close kq_ w1).

(** From the loop that clears [revents] to the label [beach]. *)
Definition collect_results (kq_ : Z) (l : list GPollFD) (ret : Z)
    (evs : list kevent_t) (w : World) : option (list GPollFD * Z * World) :=
  let l0 := for_fds (λ p, set_revents p 0) l in
  l1 ← handle_events l0 (take (Z.to_nat ret) evs);
  let ret' := if decide (ret > 0)
              then count_ready (take (int_nfds l1) l1) 0
              else ret in
  beach kq_ l1 ret' w.

(** [g_poll (fds, nfds, timeout)].  The timeout reaches the kernel
    only; what the kernel makes of it is part of [os]. *)
Definition g_poll (os : OS) (l : list GPollFD) (timeout : Z) (w : World)
  : option (list GPollFD * Z * World) :=
  let '(kq_, w0) := kqueue os w in
  if decide (kq_ = -1) then Some (l, -1, w0)
  else
    let max_events := to_guint (Z.of_nat (length l) * 3) in
    if decide (num_wakeup_fds l = 0) then
      let '(ret, evs, w1) := kevent os kq_ (changelist l) (to_gint max_events) w0 in
      collect_results kq_ l ret evs w1
    else
      let '(ret, _, w1) := kevent os kq_ (changelist l) 0 w0 in
      if decide (ret = -1) then beach kq_ l ret w1
      else
        w2 ← for_wakeups (λ a, _g_wakeup_kqueue_realize a kq_)
               (take (int_nfds l) l) w1;
        let '(ret, evs, w3) := kevent os kq_ [] (to_gint max_events) w2 in
        collect_results kq_ l ret evs w3.

End WithConfig.

End Kqueue.

(** ** The select(2) emulation *)

Module SelectEmu.

(** Constants of gpoll.h and <sys/select.h>. *)
Class Config := {
  G_IO_IN : Z;
  G_IO_OUT : Z;
  G_IO_PRI : Z;
  FD_SETSIZE : Z
}.

Record GPollFD := {
  fd : Z;
  events : Z;
  revents : Z
}.

Definition set_revents (p : GPollFD) (r : Z) : GPollFD :=
  {| fd := fd p; events := events p; revents := r |}.

Record timeval := {
  tv_sec : Z;
  tv_usec : Z
}.

(** What select(2) hands back: its return value and the three sets. *)
Record select_result := {
  sel_ret : Z;
  sel_rset : gset Z;
  sel_wset : gset Z;
  sel_xset : gset Z
}.

Section WithConfig.
Context {cfg : Config}.

(** [select (nfds, &rset, &wset, &xset, timeout)] of the platform. *)
Variable select :
  Z -> gset Z -> gset Z -> gset Z -> option timeval -> select_result.

(** [FD_SET] and [FD_ISSET] index a bit array of [FD_SETSIZE] bits. *)
Definition FD_SET (d : Z) (s : gset Z) : option (gset Z) :=
  if decide (0 <= d < FD_SETSIZE) then Some ({[d]} ∪ s) else None.

Definition FD_ISSET (d : Z) (s : gset Z) : option bool :=
  if decide (0 <= d < FD_SETSIZE) then Some (bool_decide (d ∈ s)) else None.

Definition FD_SET_if (c : bool) (d : Z) (s : gset Z) : option (gset Z) :=
  if c then FD_SET d s else Some s.

Definition test_bits (x mask : Z) : bool := bool_decide (Z.land x mask ≠ 0).

(** The first loop: the three sets and [maxfd]. *)
Fixpoint build_sets (l : list GPollFD) (rset wset xset : gset Z) (maxfd : Z)
  : option (gset Z * gset Z * gset Z * Z) :=
  match l with
  | [] => Some (rset, wset, xset, maxfd)
  | f :: rest =>
      if decide (fd f >= 0) then
        rset' ← FD_SET_if (test_bits (events f) G_IO_IN) (fd f) rset;
        wset' ← FD_SET_if (test_bits (events f) G_IO_OUT) (fd f) wset;
        xset' ← FD_SET_if (test_bits (events f) G_IO_PRI) (fd f) xset;
        let maxfd' :=
          if bool_decide (fd f > maxfd)
             && test_bits (events f) (Z.lor (Z.lor G_IO_IN G_IO_OUT) G_IO_PRI)
          then fd f else maxfd in
        build_sets rest rset' wset' xset' maxfd'
      else build_sets rest rset wset xset maxfd
  end.

Definition or_revents_if (c : bool) (bits : Z) (p : GPollFD) : GPollFD :=
  if c then set_revents p (wrap_unsigned 16 (Z.lor (revents p) bits)) else p.

(** The body of the second loop. *)
Definition derive_revents (r : select_result) (f : GPollFD) : option GPollFD :=
  let f0 := set_revents f 0 in
  if decide (fd f >= 0) then
    in_r ← FD_ISSET (fd f) (sel_rset r);
    in_w ← FD_ISSET (fd f) (sel_wset r);
    in_x ← FD_ISSET (fd f) (sel_xset r);
    Some (or_revents_if in_x G_IO_PRI
            (or_revents_if in_w G_IO_OUT
               (or_revents_if in_r G_IO_IN f0)))
  else Some f0.

(** [g_poll (fds, nfds, timeout)]. *)
Definition g_poll (l : list GPollFD) (timeout : Z)
  : option (list GPollFD * Z) :=
  '(rset, wset, xset, maxfd) ← build_sets l ∅ ∅ ∅ 0;
  let tv := {| tv_sec := Z.quot timeout 1000;
               tv_usec := Z.rem timeout 1000 * 1000 |} in
  let r := select (to_gint (maxfd + 1)) rset wset xset
             (if decide (timeout = -1) then None else Some tv) in
  let ready := sel_ret r in
  if decide (ready > 0) then
    l' ← mapM (derive_revents r) l;
    Some (l', ready)
  else Some (l, ready).

End WithConfig.

(** select(2) as POSIX specifies it, for a system on which the
    descriptors in [readable], [writable] and [exceptional] are ready:
    every set is cut down to its ready members below [nfds], and the
    return value is the total number of bits left in the three sets. *)
Definition posix_select (readable writable exceptional : gset Z)
    (nfds : Z) (rset wset xset : gset Z) (tv : option timeval)
  : select_result :=
  let cut (s ready : gset Z) :=
    base.filter (λ d, d < nfds) (s ∩ ready) in
  let r := cut rset readable in
  let w := cut wset writable in
  let x := cut xset exceptional in
  {| sel_ret := Z.of_nat (size r + size w + size x);
     sel_rset := r; sel_wset := w; sel_xset := x |}.

End SelectEmu.

(** ** The G_OS_WIN32 implementation *)

Module Win32.

(** Constants of gpoll.h, giochannel.h and <windows.h>. *)
Class Config := {
  G_IO_IN : Z;
  G_WIN32_MSG_HANDLE : Z;
  MAXIMUM_WAIT_OBJECTS : Z;
  INFINITE : Z;
  WAIT_OBJECT_0 : Z;
  WAIT_TIMEOUT : Z;
  WAIT_IO_COMPLETION : Z;
  WAIT_FAILED : Z
}.

Record GPollFD := {
  fd : Z;
  events : Z;
  revents : Z
}.

Definition set_revents (p : GPollFD) (r : Z) : GPollFD :=
  {| fd := fd p; events := events p; revents := r |}.

(** A [GPollFD *] of the code: [&stop_event] or [&fds[i]]. *)
Inductive ptr :=
| StopFd
| Fd (i : nat).

#[global] Instance ptr_eq_dec : EqDecision ptr.
Proof. solve_decision. Defined.

(** The native wait calls, with the handles they are given. *)
Inductive wait_call :=
| MsgWaitForMultipleObjectsEx (handles : list Z) (timeout_ms : Z)
| WaitForMultipleObjectsEx (handles : list Z) (timeout_ms : Z)
| WaitForSingleObjectEx (timeout_ms : Z)
| WaitForMultipleObjects (handles : list Z) (wait_all : bool) (timeout_ms : Z).

(** Number of objects a call waits on, besides the message queue. *)
Definition nCount (c : wait_call) : Z :=
  match c with
  | MsgWaitForMultipleObjectsEx hs _
  | WaitForMultipleObjectsEx hs _
  | WaitForMultipleObjects hs _ _ => Z.of_nat (length hs)
  | WaitForSingleObjectEx _ => 1
  end.

(** What the operating system decides during one call of [g_poll]:
    the [DWORD] the n-th wait call of the run returns, the event
    [CreateEventW] returns, and the handle [_beginthreadex] returns for
    the i-th worker (0 if the thread could not be created; such a
    worker does not run and has no exit code). *)
Record OS := {
  wait_result : nat -> wait_call -> Z;
  CreateEventW_ret : Z;
  thread_handle : nat -> Z
}.

(** The memory [g_poll] works on, and the wait calls issued so far. *)
Record Mem := {
  fds : list GPollFD;
  stop_event : GPollFD;
  calls : list wait_call
}.

(** [GWin32PollThreadData]: [handles] and [handle_to_fd] are one list
    of pairs, [nhandles] is its length. *)
Record GWin32PollThreadData := {
  slots : list (Z * ptr);
  msg_fd : option ptr;
  stop_fd : option ptr;
  timeout_ms : Z
}.

Definition read_fd (p : ptr) (m : Mem) : option GPollFD :=
  match p with
  | StopFd => Some (stop_event m)
  | Fd i => fds m !! i
  end.

Definition write_revents (p : ptr) (r : Z) (m : Mem) : option Mem :=
  match p with
  | StopFd =>
      Some {| fds := fds m; stop_event := set_revents (stop_event m) r;
              calls := calls m |}
  | Fd i =>
      f ← fds m !! i;
      Some {| fds := <[i := set_revents f r]> (fds m);
              stop_event := stop_event m; calls := calls m |}
  end.

Definition do_wait (os : OS) (c : wait_call) (m : Mem) : Z * Mem :=
  (to_DWORD (wait_result os (length (calls m)) c),
   {| fds := fds m; stop_event := stop_event m; calls := calls m ++ [c] |}).

Section WithConfig.
Context {cfg : Config}.

(** The wait at the head of [poll_rest]. *)
Definition first_wait (os : OS) (msg : option ptr) (sl : list (Z * ptr))
    (timeout : Z) (m : Mem) : Z * Mem :=
  match msg with
  | Some _ => do_wait os (MsgWaitForMultipleObjectsEx (sl.*1) timeout) m
  | None =>
      if decide (length sl = 0%nat) then
        if decide (timeout = INFINITE) then (WAIT_FAILED, m)
        else (WAIT_TIMEOUT, (do_wait os (WaitForSingleObjectEx timeout) m).2)
      else do_wait os (WaitForMultipleObjectsEx (sl.*1) timeout) m
  end.

(** The [if ... else if] chain on [ready]. *)
Inductive outcome :=
| Failed
| Nothing
| Message (mf : ptr)
| Handle (idx : nat)
| Other.

Definition classify (msg : option ptr) (nhandles : Z) (ready : Z) : outcome :=
  if decide (ready = WAIT_FAILED) then Failed
  else if decide (ready = WAIT_TIMEOUT ∨ ready = WAIT_IO_COMPLETION) then Nothing
  else
    match msg with
    | Some mf =>
        if decide (ready = to_DWORD (WAIT_OBJECT_0 + nhandles)) then Message mf
        else if decide (ready < to_DWORD (WAIT_OBJECT_0 + nhandles))
             then Handle (Z.to_nat (to_DWORD (ready - WAIT_OBJECT_0)))
             else Other
    | None =>
        if decide (ready < to_DWORD (WAIT_OBJECT_0 + nhandles))
        then Handle (Z.to_nat (to_DWORD (ready - WAIT_OBJECT_0)))
        else Other
    end.

Definition or_revents (p : ptr) (bits : Z) (m : Mem) : option Mem :=
  f ← read_fd p m;
  write_revents p (wrap_unsigned 16 (Z.lor (revents f) bits)) m.

(** [(recursed_result == -1) ? -1 : retval + recursed_result] *)
Definition add_recursed (retval : Z) (rec : option (Z * Mem)) : option (Z * Mem) :=
  '(recursed_result, m) ← rec;
  Some (if decide (recursed_result = -1) then -1 else retval + recursed_result, m).

Equations? poll_rest (os : OS) (msg stop : option ptr) (sl : list (Z * ptr))
    (timeout : Z) (m : Mem) : option (Z * Mem)
  by wf (2 * length sl + match msg with Some _ => 1 | None => 0 end)%nat lt :=
poll_rest os msg stop sl timeout m with
    inspect (classify msg (Z.of_nat (length sl))
               (first_wait os msg sl timeout m).1) := {
  | exist _ Failed _ => Some (-1, (first_wait os msg sl timeout m).2)
  | exist _ Nothing _ => Some (0, (first_wait os msg sl timeout m).2)
  | exist _ Other _ => Some (0, (first_wait os msg sl timeout m).2)
  | exist _ (Message mf) _ =>
      match or_revents mf G_IO_IN (first_wait os msg sl timeout m).2 with
      | None => None
      | Some m2 =>
          if decide (timeout ≠ 0 ∨ length sl = 0%nat) then Some (1, m2)
          else add_recursed 1 (poll_rest os None stop sl 0 m2)
      end
  | exist _ (Handle idx) _ with inspect (drop idx sl) := {
      | exist _ [] _ => None
      | exist _ ((h, f) :: shorter) _ =>
          match read_fd f (first_wait os msg sl timeout m).2 with
          | None => None
          | Some g =>
              match write_revents f (events g)
                      (first_wait os msg sl timeout m).2 with
              | None => None
              | Some m2 =>
                  let retval := if decide (Some f ≠ stop) then 1 else 0 in
                  if decide (timeout = 0 ∧ (1 < length sl)%nat)
                  then add_recursed retval (poll_rest os None stop shorter 0 m2)
                  else Some (retval, m2)
              end
          end } }.
Proof.
  - unfold classify in *. destruct msg; [lia|].
    repeat case_decide; discriminate.
  - assert (Hl : length (drop idx sl) = S (length shorter)).
    { pose proof e0 as E. simpl in E. by rewrite E. }
    rewrite length_drop in Hl. destruct msg; lia.
Qed.

Definition poll_single_thread (os : OS) (data : GWin32PollThreadData)
    (m : Mem) : option (Z * Mem) :=
  let nhandles := length (slots data) in
  if decide ((1 < nhandles)%nat ∨ ((0 < nhandles)%nat ∧ msg_fd data ≠ None)) then
    '(retval, m1) ← poll_rest os (msg_fd data) (stop_fd data) (slots data) 0 m;
    if decide (retval = 0 ∧ (timeout_ms data = INFINITE ∨ timeout_ms data > 0))
    then poll_rest os (msg_fd data) (stop_fd data) (slots data)
           (timeout_ms data) m1
    else Some (retval, m1)
  else
    poll_rest os (msg_fd data) (stop_fd data) (slots data) (timeout_ms data) m.

(** [GWin32PollThreadData data = { 0, }] and [g_new0]. *)
Definition zero_data : GWin32PollThreadData :=
  {| slots := []; msg_fd := None; stop_fd := None; timeout_ms := 0 |}.

Definition add_slot (h : Z) (f : ptr) (data : GWin32PollThreadData)
  : GWin32PollThreadData :=
  {| slots := slots data ++ [(h, f)]; msg_fd := msg_fd data;
     stop_fd := stop_fd data; timeout_ms := timeout_ms data |}.

Definition set_msg_fd (f : option ptr) (data : GWin32PollThreadData)
  : GWin32PollThreadData :=
  {| slots := slots data; msg_fd := f;
     stop_fd := stop_fd data; timeout_ms := timeout_ms data |}.

(** The loop of [fill_poll_thread_data] over [&fds[i]] for the
    indices [idxs]; it ends early at the [break]. *)
Fixpoint fill_loop (idxs : list nat) (data : GWin32PollThreadData)
    (m : Mem) : option (GWin32PollThreadData * Mem) :=
  match idxs with
  | [] => Some (data, m)
  | i :: rest =>
      let nhandles := Z.of_nat (length (slots data)) in
      if decide (nhandles = MAXIMUM_WAIT_OBJECTS
                 ∨ (msg_fd data ≠ None ∧ nhandles = MAXIMUM_WAIT_OBJECTS - 1))
      then Some (data, m)
      else
        f ← fds m !! i;
        let data' :=
          if decide (fd f = G_WIN32_MSG_HANDLE ∧ Z.land (events f) G_IO_IN ≠ 0)
          then set_msg_fd (Some (Fd i)) data
          else if decide (fd f > 0) then add_slot (fd f) (Fd i) data
               else data in
        m' ← write_revents (Fd i) 0 m;
        fill_loop rest data' m'
  end.

(** [fill_poll_thread_data (fds + base, n, timeout_ms, stop_fd, data)];
    a failing [g_assert] aborts the program. *)
Definition fill_poll_thread_data (base n : nat) (timeout : Z)
    (stop : option ptr) (data : GWin32PollThreadData) (m : Mem)
  : option (GWin32PollThreadData * Mem) :=
  let data0 := {| slots := slots data; msg_fd := msg_fd data;
                  stop_fd := stop_fd data; timeout_ms := timeout |} in
  data1 ← match stop with
          | Some s =>
              if decide (Z.of_nat (length (slots data0)) < MAXIMUM_WAIT_OBJECTS)
              then
                sf ← read_fd s m;
                Some {| slots := slots data0 ++ [(fd sf, s)];
                        msg_fd := msg_fd data0; stop_fd := stop;
                        timeout_ms := timeout |}
              else None
          | None => Some data0
          end;
  fill_loop (seq base n) data1 m.

Definition MAXIMUM_WAIT_OBJECTS_PER_THREAD : Z := MAXIMUM_WAIT_OBJECTS - 1.

(** [threads_remain] and [nthreads] as lines 439-448 compute them. *)
Definition threads_remain (nfds : Z) : Z :=
  nfds mod MAXIMUM_WAIT_OBJECTS_PER_THREAD.

Definition nthreads (nfds : Z) : Z :=
  let n := nfds / MAXIMUM_WAIT_OBJECTS_PER_THREAD in
  let n := if decide (threads_remain nfds > 0) then to_guint (n + 1) else n in
  if decide (n > MAXIMUM_WAIT_OBJECTS_PER_THREAD)
  then MAXIMUM_WAIT_OBJECTS_PER_THREAD else n.

(** [thread_fds] of the worker [i]. *)
Definition thread_fds (nfds : Z) (i : nat) : Z :=
  if decide (Z.of_nat i = to_guint (nthreads nfds - 1) ∧ threads_remain nfds > 0)
  then threads_remain nfds
  else MAXIMUM_WAIT_OBJECTS_PER_THREAD.

(** The state of the loop that fills the thread data and starts the
    workers.  A worker touches its own group of [fds] and
    [stop_event] only, so it is run to its end when it is started;
    [exit_codes] holds what [GetExitCodeThread] will find. *)
Record spawn_state := {
  fds_idx : nat;
  main_msg_fd : option ptr;
  threads_data : list GWin32PollThreadData;
  exit_codes : list (option Z);
  mem : Mem
}.

Definition spawn_thread (os : OS) (timeout nfds : Z) (i : nat)
    (st : spawn_state) : option spawn_state :=
  let n := Z.to_nat (thread_fds nfds i) in
  '(data, m1) ← fill_poll_thread_data (fds_idx st) n timeout (Some StopFd)
                  zero_data (mem st);
  let msg := match msg_fd data with
             | Some f => Some f
             | None => main_msg_fd st
             end in
  let data' := set_msg_fd None data in
  '(code, m2) ← (if decide (thread_handle os i = 0) then Some (None, m1)
                 else
                   '(retval, m) ← poll_single_thread os data' m1;
                   Some (Some (to_DWORD retval), m));
  Some {| fds_idx := fds_idx st + n; main_msg_fd := msg;
          threads_data := threads_data st ++ [data'];
          exit_codes := exit_codes st ++ [code]; mem := m2 |}.

Fixpoint spawn_threads (os : OS) (timeout nfds : Z) (ids : list nat)
    (st : spawn_state) : option spawn_state :=
  match ids with
  | [] => Some st
  | i :: rest =>
      st' ← spawn_thread os timeout nfds i st;
      spawn_threads os timeout nfds rest st'
  end.

(** The loop over [GetExitCodeThread]. *)
Definition merge_exit_code (retval : Z) (code : option Z) : Z :=
  match code with
  | Some thread_retval =>
      if decide (retval = -1) then -1
      else if decide (thread_retval = to_DWORD (-1)) then -1
           else to_gint (to_DWORD (retval + thread_retval))
  | None => retval
  end.

Definition reset_revents (m : Mem) : Mem :=
  {| fds := (λ f, set_revents f 0) <$> fds m;
     stop_event := stop_event m; calls := calls m |}.

(** [timeout] as the wait calls get it: -1 becomes [INFINITE], and the
    [gint] is passed for a [DWORD]. *)
Definition timeout_arg (timeout : Z) : Z :=
  to_DWORD (if decide (timeout = -1) then to_gint INFINITE else timeout).

(** The memory at the start of the path without threads, where
    [stop_event] is not used ... *)
Definition single_mem (l : list GPollFD) : Mem :=
  {| fds := l; stop_event := {| fd := 0; events := 0; revents := 0 |};
     calls := [] |}.

(** ... and of the path with threads, after [CreateEventW]. *)
Definition threads_mem (os : OS) (l : list GPollFD) : Mem :=
  {| fds := l;
     stop_event := {| fd := CreateEventW_ret os; events := G_IO_IN; revents := 0 |};
     calls := [] |}.

(** The loop [for (i = 0; i < nthreads; i++)]. *)
Definition spawn_all (os : OS) (l : list GPollFD) (timeout : Z)
  : option spawn_state :=
  let nfds := Z.of_nat (length l) in
  spawn_threads os (timeout_arg timeout) nfds (seq 0 (Z.to_nat (nthreads nfds)))
    {| fds_idx := 0; main_msg_fd := None; threads_data := [];
       exit_codes := []; mem := threads_mem os l |}.

(** [g_poll (fds, nfds, timeout)]: the descriptors on return, the
    return value, and the native wait calls that were issued. *)
Definition g_poll (os : OS) (l : list GPollFD) (timeout : Z)
  : option (list GPollFD * Z * list wait_call) :=
  let nfds := Z.of_nat (length l) in
  if decide (nfds <= MAXIMUM_WAIT_OBJECTS) then
    '(data, m1) ← fill_poll_thread_data 0 (length l) (timeout_arg timeout) None
                    zero_data (single_mem l);
    '(retval, m2) ← poll_single_thread os data m1;
    let m3 := if decide (retval = -1) then reset_revents m2 else m2 in
    Some (fds m3, retval, calls m3)
  else
    st ← spawn_all os l timeout;
    let thread_handles := thread_handle os <$> seq 0 (Z.to_nat (nthreads nfds)) in
    let '(ready, m2) :=
      match main_msg_fd st with
      | Some _ =>
          do_wait os (MsgWaitForMultipleObjectsEx thread_handles
                        (timeout_arg timeout)) (mem st)
      | None =>
          do_wait os (WaitForMultipleObjects thread_handles false
                        (timeout_arg timeout)) (mem st)
      end in
    let m3 := (do_wait os (WaitForMultipleObjects thread_handles true INFINITE)
                 m2).2 in
    '(retval, m4) ←
      match main_msg_fd st with
      | Some mf =>
          if decide (ready = to_DWORD (WAIT_OBJECT_0 + nthreads nfds))
          then m ← or_revents mf G_IO_IN m3; Some (1, m)
          else Some (0, m3)
      | None => Some (0, m3)
      end;
    let retval := foldl merge_exit_code retval (exit_codes st) in
    let m5 := if decide (retval = -1) then reset_revents m4 else m4 in
    Some (fds m5, retval, calls m5).

End WithConfig.

End Win32.

(** ** The eventfd and pipe implementation of GWakeup *)

Module Unix.

(** Constants of gpoll.h, and what the preprocessor and the kernel
    decide: whether [__linux__] and [TEST_EVENTFD_FALLBACK] are
    defined, and how many bytes a pipe holds. *)
Class Config := {
  G_IO_IN : Z;
  linux : bool;
  TEST_EVENTFD_FALLBACK : bool;
  pipe_capacity : Z
}.

(** [struct _GWakeup { gint fds[2]; }] *)
Record GWakeup := {
  fds0 : Z;
  fds1 : Z
}.

Record GPollFD := {
  fd : Z;
  events : Z;
  revents : Z
}.

(** An open file description, as far as this code can meet one: an
    eventfd with its 64-bit counter, the read end of a pipe with the
    bytes in the pipe, and the write end of the pipe whose read end is
    the descriptor [read_end].  All of them are non-blocking. *)
Inductive file :=
| EventFd (counter : Z)
| PipeRead (buffer : list Z)
| PipeWrite (read_end : Z).

#[global] Instance file_eq_dec : EqDecision file.
Proof. solve_decision. Defined.

Inductive errno_t :=
| EINTR
| EAGAIN
| EBADF
| EINVAL
| EPIPE.

#[global] Instance errno_eq_dec : EqDecision errno_t.
Proof. solve_decision. Defined.

(** The calls of [glib_fd_callbacks]. *)
Inductive fd_event :=
| on_fd_opened (fd : Z)
| on_fd_closed (fd : Z).

(** What the code can observe and change: the [GWakeup] objects, the
    open files, [errno], for each coming [read] or [write] whether a
    signal interrupts it before it transfers anything, and the calls
    of [glib_fd_callbacks] (most recent first). *)
Record World := {
  heap : gmap Z GWakeup;
  files : gmap Z file;
  errno : errno_t;
  interrupts : list bool;
  fd_log : list fd_event
}.

Definition with_heap (w : World) (h : gmap Z GWakeup) : World :=
  {| heap := h; files := files w; errno := errno w;
     interrupts := interrupts w; fd_log := fd_log w |}.

Definition with_files (w : World) (f : gmap Z file) : World :=
  {| heap := heap w; files := f; errno := errno w;
     interrupts := interrupts w; fd_log := fd_log w |}.

Definition with_errno (w : World) (e : errno_t) : World :=
  {| heap := heap w; files := files w; errno := e;
     interrupts := interrupts w; fd_log := fd_log w |}.

Definition with_interrupts (w : World) (i : list bool) : World :=
  {| heap := heap w; files := files w; errno := errno w;
     interrupts := i; fd_log := fd_log w |}.

Definition glib_fd_callback (e : fd_event) (w : World) : World :=
  {| heap := heap w; files := files w; errno := errno w;
     interrupts := interrupts w; fd_log := e :: fd_log w |}.

(** What the operating system and the functions of glib-unix.c decide
    during [g_wakeup_new]: the descriptor [eventfd ()] returns (-1 if
    it fails), the descriptors [g_unix_open_pipe] stores (none if it
    fails), and whether [g_unix_set_fd_nonblocking] succeeds. *)
Record OS := {
  eventfd_ret : Z;
  pipe_ret : option (Z * Z);
  nonblocking_ok : Z -> bool
}.

Definition EVENTFD_MAX : Z := 2 ^ 64 - 2.

Section WithConfig.
Context {cfg : Config}.

(** *** The kernel side *)

Definition has_writer (fd : Z) (fs : gmap Z file) : bool :=
  bool_decide (Exists (λ kv : Z * file, kv.2 = PipeWrite fd) (map_to_list fs)).

(** Is the coming system call interrupted? *)
Definition interrupted (w : World) : bool * World :=
  match interrupts w with
  | [] => (false, w)
  | b :: rest => (b, with_interrupts w rest)
  end.

(** [read (fd, buffer, count)]; the bytes go to a buffer that the
    caller never looks at. *)
Definition read (fd : Z) (count : nat) (w : World) : Z * World :=
  let '(int, w) := interrupted w in
  if int then (-1, with_errno w EINTR)
  else
    match files w !! fd with
    | Some (EventFd c) =>
        if decide (count < 8)%nat then (-1, with_errno w EINVAL)
        else if decide (c = 0) then (-1, with_errno w EAGAIN)
        else (8, with_files w (<[fd := EventFd 0]> (files w)))
    | Some (PipeRead buf) =>
        match buf with
        | [] => if has_writer fd (files w) then (-1, with_errno w EAGAIN)
                else (0, w)
        | _ =>
            let n := Nat.min count (length buf) in
            (Z.of_nat n, with_files w (<[fd := PipeRead (drop n buf)]> (files w)))
        end
    | _ => (-1, with_errno w EBADF)
    end.

(** [write (fd, &value, count)] for an integer object [value] of
    [count] bytes, which a pipe takes whole or not at all; [SIGPIPE] is
    ignored. *)
Definition bytes_of (count : nat) (value : Z) : list Z :=
  (λ i, Z.land (Z.shiftr value (8 * Z.of_nat i)) 255) <$> seq 0 count.

Definition write (fd : Z) (value : Z) (count : nat) (w : World) : Z * World :=
  let '(int, w) := interrupted w in
  if int then (-1, with_errno w EINTR)
  else
    match files w !! fd with
    | Some (EventFd c) =>
        if decide (count < 8)%nat then (-1, with_errno w EINVAL)
        else if decide (value = 2 ^ 64 - 1) then (-1, with_errno w EINVAL)
        else if decide (c + value > EVENTFD_MAX) then (-1, with_errno w EAGAIN)
        else (8, with_files w (<[fd := EventFd (c + value)]> (files w)))
    | Some (PipeWrite r) =>
        match files w !! r with
        | Some (PipeRead buf) =>
            if decide (Z.of_nat (length buf) + Z.of_nat count > pipe_capacity)
            then (-1, with_errno w EAGAIN)
            else (Z.of_nat count,
                  with_files w (<[r := PipeRead (buf ++ bytes_of count value)]>
                                  (files w)))
        | _ => (-1, with_errno w EPIPE)
        end
    | _ => (-1, with_errno w EBADF)
    end.

Definition close (fd : Z) (w : World) : World :=
  with_files w (delete fd (files w)).

Definition eventfd (os : OS) (initval : Z) (w : World) : Z * World :=
  if decide (eventfd_ret os = -1) then (-1, w)
  else (eventfd_ret os,
        with_files w (<[eventfd_ret os := EventFd initval]> (files w))).

(** [g_unix_open_pipe (fds, FD_CLOEXEC, &error)] of glib-unix.c *)
Definition g_unix_open_pipe (os : OS) (w : World) : option (Z * Z) * World :=
  match pipe_ret os with
  | Some (r, wr) =>
      (Some (r, wr),
       with_files w (<[wr := PipeWrite r]> (<[r := PipeRead []]> (files w))))
  | None => (None, w)
  end.

(** *** gwakeup.c *)

(** [g_wakeup_new], where [a] is the address [g_slice_new] returns;
    [g_error] aborts the program. *)
Definition open_pipes (os : OS) (a : Z) (w : World) : option World :=
  match g_unix_open_pipe os w with
  | (None, _) => None
  | (Some (r, wr), w1) =>
      let w2 := glib_fd_callback (on_fd_opened r) w1 in
      let w3 := glib_fd_callback (on_fd_opened wr) w2 in
      if negb (nonblocking_ok os r) || negb (nonblocking_ok os wr) then None
      else Some (with_heap w3 (<[a := {| fds0 := r; fds1 := wr |}]> (heap w3)))
  end.

Definition g_wakeup_new (os : OS) (a : Z) (w : World) : option World :=
  if linux then
    let '(fd0, w1) := if TEST_EVENTFD_FALLBACK then (-1, w) else eventfd os 0 w in
    if decide (fd0 ≠ -1) then
      let w2 := glib_fd_callback (on_fd_opened fd0) w1 in
      Some (with_heap w2 (<[a := {| fds0 := fd0; fds1 := -1 |}]> (heap w2)))
    else open_pipes os a w1
  else open_pipes os a w.

Definition g_wakeup_get_pollfd (wakeup : Z) (poll_fd : GPollFD) (w : World)
  : option GPollFD :=
  k ← heap w !! wakeup;
  Some {| fd := fds0 k; events := G_IO_IN; revents := revents poll_fd |}.

(** Bytes that [read] can take from [fd]. *)
Definition buffered (fd : Z) (w : World) : nat :=
  match files w !! fd with
  | Some (PipeRead buf) => length buf
  | _ => 0%nat
  end.

Lemma read_full_shrinks fd w n w' :
  read fd 16 w = (n, w') → n = 16 → (buffered fd w' < buffered fd w)%nat.
Proof.
  unfold read, interrupted, buffered.
  destruct (interrupts w) as [|[] rest]; simpl;
    try (intros [= <- <-]; discriminate);
    (destruct (files w !! fd) as [[c|buf|r]|] eqn:Hf; simpl;
     [repeat case_decide | | |]; try (intros [= <- <-]; discriminate);
     (destruct buf as [|b buf];
      [destruct (has_writer _ _); intros [= <- <-]; discriminate|];
      intros [= <- <-] Hn; simpl; rewrite lookup_insert_eq;
      destruct buf; simpl in *; try lia;
      rewrite ?length_drop; simpl; lia)).
Qed.

(** [while (read (fd, buffer, sizeof buffer) == sizeof buffer);] *)
Equations? read_until_empty (fd : Z) (w : World) : World
  by wf (buffered fd w) lt :=
read_until_empty fd w with inspect (read fd 16 w) := {
  | exist _ (n, w') _ with decide (n = 16) := {
      | left _ => read_until_empty fd w'
      | right _ => w' } }.
Proof. by eapply read_full_shrinks. Qed.

Definition g_wakeup_acknowledge (wakeup : Z) (w : World) : option World :=
  k ← heap w !! wakeup;
  Some (read_until_empty (fds0 k) w).

Lemma write_interrupted_shrinks fd value count w res w' :
  write fd value count w = (res, w') → res = -1 ∧ errno w' = EINTR →
  (length (interrupts w') < length (interrupts w))%nat.
Proof.
  unfold write, interrupted.
  destruct (interrupts w) as [|[] rest] eqn:Hi; simpl.
  - destruct (files w !! fd) as [[c|buf|r]|]; simpl;
      [repeat case_decide | | destruct (files w !! r) as [[| |]|];
                               [|repeat case_decide| |] |];
      intros [= <- <-] [? ?]; simpl in *; try discriminate; lia.
  - intros [= <- <-] _. simpl. lia.
  - destruct (files w !! fd) as [[c|buf|r]|]; simpl;
      [repeat case_decide | | destruct (files w !! r) as [[| |]|];
                               [|repeat case_decide| |] |];
      intros [= <- <-] [? ?]; simpl in *; try discriminate; lia.
Qed.

(** [do res = write (fd, &one, sizeof one);
     while (res == -1 && errno == EINTR);] *)
Equations? write_retry (fd : Z) (value : Z) (count : nat) (w : World)
  : Z * World by wf (length (interrupts w)) lt :=
write_retry fd value count w with inspect (write fd value count w) := {
  | exist _ (res, w') _ with decide (res = -1 ∧ errno w' = EINTR) := {
      | left _ => write_retry fd value count w'
      | right _ => (res, w') } }.
Proof. by eapply write_interrupted_shrinks. Qed.

Definition g_wakeup_signal (wakeup : Z) (w : World) : option World :=
  k ← heap w !! wakeup;
  if decide (fds1 k = -1) then Some (write_retry (fds0 k) 1 8 w).2
  else Some (write_retry (fds1 k) 1 1 w).2.

Definition g_wakeup_free (wakeup : Z) (w : World) : option World :=
  k ← heap w !! wakeup;
  let w1 := glib_fd_callback (on_fd_closed (fds0 k)) (close (fds0 k) w) in
  let w2 := if decide (fds1 k ≠ -1)
            then glib_fd_callback (on_fd_closed (fds1 k)) (close (fds1 k) w1)
            else w1 in
  Some (with_heap w2 (delete wakeup (heap w2))).

End WithConfig.

End Unix.

(** * Properties *)

(** ** C integers *)

Lemma to_gint_id (x : Z) : - 2 ^ 31 <= x <= G_MAXINT -> to_gint x = x.
Proof.
  unfold to_gint, wrap_signed, G_MAXINT. intros Hx.
  change (2 ^ (32 - 1)) with 2147483648 in *. change (2 ^ 32) with 4294967296.
  change (2 ^ 31) with 2147483648 in *.
  rewrite Z.mod_small; lia.
Qed.

Lemma to_gint64_id (x : Z) : - 2 ^ 63 <= x <= G_MAXINT64 -> to_gint64 x = x.
Proof.
  unfold to_gint64, wrap_signed, G_MAXINT64. intros Hx.
  change (2 ^ (64 - 1)) with 9223372036854775808 in *.
  change (2 ^ 64) with 18446744073709551616.
  change (2 ^ 63) with 9223372036854775808 in *.
  rewrite Z.mod_small; lia.
Qed.

Lemma to_guint_id (x : Z) : 0 <= x < 2 ^ 32 -> to_guint x = x.
Proof. intros Hx. unfold to_guint, wrap_unsigned. by rewrite Z.mod_small. Qed.

(** ** The G_OS_NONE implementation *)

Section BareMetalFacts.
Import BareMetal.
Context {cfg : Config}.
Variable g_wait_sleep : Z -> Z -> World -> World.

(** Every wakeup entry of the set points to a live [GWakeup]. *)
Definition valid_set (h : gmap Z GWakeup) (l : list GPollFD) : Prop :=
  ∀ p, p ∈ l → fd p = G_WAIT_WAKEUP_HANDLE → is_Some (h !! user_data p).

(** The entry [p] is a wakeup entry whose handle has its flag set. *)
Definition is_ready (h : gmap Z GWakeup) (p : GPollFD) : bool :=
  bool_decide (fd p = G_WAIT_WAKEUP_HANDLE)
  && match h !! user_data p with
     | Some k => bool_decide (signalled k ≠ 0)
     | None => false
     end.

Definition ready_count (h : gmap Z GWakeup) (l : list GPollFD) : nat :=
  length (base.filter (λ p, is_ready h p = true) l).

(** What one readiness pass writes into an entry. *)
Definition mark (h : gmap Z GWakeup) (p : GPollFD) : GPollFD :=
  set_revents p (if is_ready h p then G_IO_IN else 0).

(** Two sets with the same descriptors and handles, entry by entry. *)
Definition same_ids (l l' : list GPollFD) : Prop :=
  Forall2 (λ p p', fd p' = fd p ∧ user_data p' = user_data p) l l'.

Lemma same_ids_refl l : same_ids l l.
Proof. induction l; constructor; auto. Qed.

Lemma same_ids_trans l1 l2 l3 : same_ids l1 l2 → same_ids l2 l3 → same_ids l1 l3.
Proof.
  intros H12. revert l3. induction H12 as [|p q l1 l2 [? ?] _ IH];
    intros l3 H23; inversion H23 as [|? r ? l3' [? ?] ?]; subst; constructor.
  - split; congruence.
  - by apply IH.
Qed.

Lemma same_ids_mark h l : same_ids l (mark h <$> l).
Proof. induction l; constructor; auto. Qed.

Lemma same_ids_elem l l' p' :
  same_ids l l' → p' ∈ l' →
  ∃ p, p ∈ l ∧ fd p' = fd p ∧ user_data p' = user_data p.
Proof.
  induction 1 as [|p q l l' [? ?] _ IH]; intros Hin.
  - by apply elem_of_nil in Hin.
  - apply elem_of_cons in Hin as [->|Hin].
    + exists p. split; [left|done].
    + destruct (IH Hin) as (p0 & ? & ?). exists p0. split; [by right|done].
Qed.

Lemma valid_set_same_ids h l l' : same_ids l l' → valid_set h l → valid_set h l'.
Proof.
  intros Hs Hv p' Hin Hfd.
  destruct (same_ids_elem _ _ _ Hs Hin) as (p & Hp & Hf & Hu).
  rewrite Hu. apply Hv; [done | congruence].
Qed.

Lemma valid_set_Forall h l :
  Forall (λ p, fd p = G_WAIT_WAKEUP_HANDLE → is_Some (h !! user_data p)) l →
  valid_set h l.
Proof. rewrite Forall_forall. intros Hall p Hp. by apply Hall. Qed.

Lemma valid_set_cons h p l :
  valid_set h (p :: l) →
  (fd p = G_WAIT_WAKEUP_HANDLE → is_Some (h !! user_data p)) ∧ valid_set h l.
Proof.
  intros Hv. split.
  - apply Hv. left.
  - intros q Hq. apply Hv. by right.
Qed.

(** *** The token loops *)

Lemma set_tokens_same_ids tok l l' h :
  same_ids l l' → set_tokens tok l' h = set_tokens tok l h.
Proof.
  intros Hs. revert h. induction Hs as [|p q l l' [Hf Hu] _ IH]; intros h; [done|].
  simpl. rewrite Hf, Hu. case_decide; [|apply IH].
  destruct (h !! user_data p); simpl; [apply IH | done].
Qed.

Lemma set_tokens_total tok l h :
  valid_set h l → is_Some (set_tokens tok l h).
Proof.
  revert h. induction l as [|p l IH]; intros h Hv; simpl; [by eexists|].
  apply valid_set_cons in Hv as [Hp Hv].
  case_decide as Hfd; [|by apply IH].
  destruct (Hp Hfd) as [k ->]. simpl. apply IH.
  intros q Hq Hfq. destruct (decide (user_data q = user_data p)) as [->|Hne].
  - rewrite lookup_insert_eq. by eexists.
  - rewrite lookup_insert_ne by done. by apply Hv.
Qed.

(** The loops write the [token] field and nothing else. *)
Lemma set_tokens_signalled tok l h h' a :
  set_tokens tok l h = Some h' →
  signalled <$> h' !! a = signalled <$> h !! a.
Proof.
  revert h. induction l as [|p l IH]; intros h; simpl.
  - by intros [= ->].
  - case_decide; [|apply IH].
    destruct (h !! user_data p) as [k|] eqn:Hk; simpl; [|done].
    intros Hs. rewrite (IH _ Hs).
    destruct (decide (user_data p = a)) as [<-|Hne].
    + by rewrite lookup_insert_eq, Hk.
    + by rewrite lookup_insert_ne.
Qed.

Lemma set_tokens_keeps tok l h h' a k :
  set_tokens tok l h = Some h' → h !! a = Some k → token k = tok →
  ∃ k', h' !! a = Some k' ∧ token k' = tok.
Proof.
  revert h k. induction l as [|p l IH]; intros h k; simpl.
  - intros [= ->] ? ?. by exists k.
  - case_decide; [|apply IH].
    destruct (h !! user_data p) as [k0|] eqn:Hk0; simpl; [|done].
    intros Hs Ha Ht.
    destruct (decide (user_data p = a)) as [Heq|Hne].
    + eapply (IH _ _ Hs); [by rewrite Heq, lookup_insert_eq | done].
    + eapply (IH _ _ Hs); [by rewrite lookup_insert_ne | done].
Qed.

Lemma set_tokens_sets tok l h h' p :
  set_tokens tok l h = Some h' → p ∈ l → fd p = G_WAIT_WAKEUP_HANDLE →
  ∃ k, h' !! user_data p = Some k ∧ token k = tok.
Proof.
  revert h. induction l as [|q l IH]; intros h Hs Hin Hfd.
  - by apply elem_of_nil in Hin.
  - simpl in Hs. apply elem_of_cons in Hin as [->|Hin].
    + rewrite decide_True in Hs by done.
      destruct (h !! user_data q) as [k0|] eqn:Hk0; simpl in Hs; [|done].
      eapply (set_tokens_keeps _ _ _ _ _ _ Hs); [apply lookup_insert_eq | done].
    + case_decide; [|by eapply IH].
      destruct (h !! user_data q); simpl in Hs; [|done]. by eapply IH.
Qed.

Lemma set_tokens_valid tok l h h' l0 :
  set_tokens tok l h = Some h' → valid_set h l0 → valid_set h' l0.
Proof.
  intros Hs Hv p Hin Hfd. specialize (Hv p Hin Hfd).
  pose proof (set_tokens_signalled _ _ _ _ (user_data p) Hs) as Hsig.
  destruct Hv as [k Hk]. rewrite Hk in Hsig.
  destruct (h' !! user_data p); [by eexists | done].
Qed.

(** *** The readiness pass *)

Lemma ready_count_cons h p l :
  ready_count h (p :: l)
  = ((if is_ready h p then 1 else 0) + ready_count h l)%nat.
Proof.
  unfold ready_count. destruct (is_ready h p) eqn:Hp.
  - by rewrite filter_cons_True.
  - rewrite filter_cons_False; [done | by rewrite Hp].
Qed.

Lemma ready_count_le h l : (ready_count h l <= length l)%nat.
Proof. apply length_filter. Qed.

Lemma is_ready_wakeup h p k :
  fd p = G_WAIT_WAKEUP_HANDLE → h !! user_data p = Some k →
  is_ready h p = bool_decide (signalled k ≠ 0).
Proof. intros Hfd Hk. unfold is_ready. by rewrite Hk, bool_decide_true. Qed.

Lemma is_ready_other h p : fd p ≠ G_WAIT_WAKEUP_HANDLE → is_ready h p = false.
Proof. intros Hfd. unfold is_ready. by rewrite bool_decide_false. Qed.

(** The pass rewrites every [revents]; the counter may wrap. *)
Lemma check_fds_marks h l r :
  valid_set h l → ∃ r', check_fds h l r = Some (mark h <$> l, r').
Proof.
  revert r. induction l as [|p l IH]; intros r Hv; simpl; [by eexists|].
  apply valid_set_cons in Hv as [Hp Hv]. unfold mark at 1.
  case_decide as Hfd.
  - destruct (Hp Hfd) as [k Hk]. rewrite (is_ready_wakeup _ _ _ Hfd Hk), Hk. simpl.
    case_decide as Hsig.
    + destruct (IH (to_gint (r + 1)) Hv) as [r' ->]. simpl.
      rewrite bool_decide_true by done. by eexists.
    + destruct (IH r Hv) as [r' ->]. simpl.
      rewrite bool_decide_false by lia. by eexists.
  - rewrite (is_ready_other _ _ Hfd).
    destruct (IH r Hv) as [r' ->]. simpl. by eexists.
Qed.

(** Without a wrap the counter is the number of ready entries. *)
Lemma check_fds_count h l r l' r' :
  check_fds h l r = Some (l', r') →
  - 2 ^ 31 <= r → r + Z.of_nat (length l) <= G_MAXINT →
  r' = r + Z.of_nat (ready_count h l).
Proof.
  revert r l'. induction l as [|p l IH]; intros r l'; simpl.
  - intros [= <- <-] _ _. unfold ready_count. simpl. lia.
  - intros Hc Hlo Hhi. rewrite ready_count_cons.
    case_decide as Hfd.
    + destruct (h !! user_data p) as [k|] eqn:Hk; simpl in Hc; [|done].
      rewrite (is_ready_wakeup _ _ _ Hfd Hk).
      case_decide as Hsig.
      * destruct (check_fds h l (to_gint (r + 1))) as [[l0 r0]|] eqn:Hrest;
          simpl in Hc; [|done].
        injection Hc as <- <-. rewrite bool_decide_true by done.
        rewrite to_gint_id in Hrest by lia.
        rewrite (IH _ _ Hrest) by lia. lia.
      * destruct (check_fds h l r) as [[l0 r0]|] eqn:Hrest; simpl in Hc; [|done].
        injection Hc as <- <-. rewrite bool_decide_false by lia.
        rewrite (IH _ _ Hrest) by lia. lia.
    + rewrite (is_ready_other _ _ Hfd).
      destruct (check_fds h l r) as [[l0 r0]|] eqn:Hrest; simpl in Hc; [|done].
      injection Hc as <- <-. rewrite (IH _ _ Hrest) by lia. lia.
Qed.

Lemma check_fds_spec h l :
  valid_set h l → Z.of_nat (length l) <= G_MAXINT →
  check_fds h l 0 = Some (mark h <$> l, Z.of_nat (ready_count h l)).
Proof.
  intros Hv Hlen. destruct (check_fds_marks h l 0 Hv) as [r' Hc].
  rewrite Hc. by rewrite (check_fds_count _ _ _ _ _ Hc) by lia.
Qed.

(** *** The loop *)

Lemma after_check_slept timeout deadline ready w :
  after_check timeout deadline true ready w = Done.
Proof. unfold after_check. rewrite decide_True; [done | by right; right]. Qed.

(** The body of [for (;;)] runs twice at most: a third pass is never
    needed, whatever bound the loop is given. *)
Lemma poll_loop_two_passes n tok timeout deadline l w :
  poll_loop g_wait_sleep (S (S n)) tok timeout deadline false l w
  = poll_loop g_wait_sleep 2 tok timeout deadline false l w.
Proof.
  simpl. destruct (check_fds (heap w) l 0) as [[l1 r1]|]; simpl; [|done].
  destruct (after_check timeout deadline false r1 w) as [|t]; [done|].
  destruct (check_fds (heap (g_wait_sleep tok t w)) l1 0) as [[l2 r2]|];
    simpl; [|done].
  by rewrite after_check_slept.
Qed.

(** The hook leaves the handles of the set allocated. *)
Definition sleep_keeps_handles (l : list GPollFD) : Prop :=
  ∀ tok t w, valid_set (heap w) l → valid_set (heap (g_wait_sleep tok t w)) l.

(** The two ways through the loop. *)
Lemma poll_loop_cases tok timeout deadline l w :
  valid_set (heap w) l → sleep_keeps_handles l →
  ∃ r, check_fds (heap w) l 0 = Some (mark (heap w) <$> l, r)
    ∧ ((after_check timeout deadline false r w = Done
        ∧ poll_loop g_wait_sleep 2 tok timeout deadline false l w
          = Some (mark (heap w) <$> l, r, w))
       ∨ (∃ t r',
            after_check timeout deadline false r w = Sleep t
            ∧ check_fds (heap (g_wait_sleep tok t w)) (mark (heap w) <$> l) 0
              = Some (mark (heap (g_wait_sleep tok t w)) <$> (mark (heap w) <$> l), r')
            ∧ poll_loop g_wait_sleep 2 tok timeout deadline false l w
              = Some (mark (heap (g_wait_sleep tok t w)) <$> (mark (heap w) <$> l),
                      r', g_wait_sleep tok t w))).
Proof.
  intros Hv Hkeep. destruct (check_fds_marks (heap w) l 0 Hv) as [r Hc].
  exists r. split; [done|]. simpl. rewrite Hc. simpl.
  destruct (after_check timeout deadline false r w) as [|t] eqn:Hstep.
  - by left.
  - right.
    assert (Hv' : valid_set (heap (g_wait_sleep tok t w)) (mark (heap w) <$> l)).
    { eapply valid_set_same_ids; [apply same_ids_mark|]. by apply Hkeep. }
    destruct (check_fds_marks _ _ 0 Hv') as [r' Hc']. exists t, r'.
    split; [done|]. split; [done|]. rewrite Hc'. simpl.
    by rewrite after_check_slept.
Qed.

(** *** [g_poll] *)

(** [g_poll] step by step: the tokens are stored, the wait loop runs
    on that heap and ends, the tokens are cleared on the heap the loop
    leaves. *)
Lemma g_poll_unfold tok l timeout w :
  valid_set (heap w) l → sleep_keeps_handles l →
  ∃ h1 l' ready w2 h3,
    set_tokens tok l (heap w) = Some h1
    ∧ poll_loop g_wait_sleep 2 tok timeout (compute_deadline timeout w) false l
        (with_heap w h1) = Some (l', ready, w2)
    ∧ set_tokens NULL l (heap w2) = Some h3
    ∧ g_poll g_wait_sleep tok l timeout w = Some (l', ready, with_heap w2 h3)
    ∧ (∀ a, (∀ t w1, signalled <$> heap (g_wait_sleep tok t w1) !! a
                     = signalled <$> heap w1 !! a) →
            signalled <$> heap w2 !! a = signalled <$> h1 !! a).
Proof.
  intros Hv Hkeep.
  destruct (set_tokens_total tok l (heap w) Hv) as [h1 Hh1].
  assert (Hv1 : valid_set (heap (with_heap w h1)) l)
    by (eapply set_tokens_valid; eauto).
  destruct (poll_loop_cases tok timeout (compute_deadline timeout w) l
              (with_heap w h1) Hv1 Hkeep) as (r & Hc & Hloop).
  assert (∃ l' ready w2,
            poll_loop g_wait_sleep 2 tok timeout (compute_deadline timeout w)
              false l (with_heap w h1) = Some (l', ready, w2)
            ∧ same_ids l l' ∧ valid_set (heap w2) l
            ∧ ∀ a, (∀ t w1, signalled <$> heap (g_wait_sleep tok t w1) !! a
                            = signalled <$> heap w1 !! a) →
                   signalled <$> heap w2 !! a = signalled <$> h1 !! a)
    as (l' & ready & w2 & Hpl & Hids & Hv2 & Hfr).
  { destruct Hloop as [[_ Hpl] | (t & r' & _ & _ & Hpl)].
    - eexists _, _, _. split; [exact Hpl|]. split; [apply same_ids_mark|].
      split; [exact Hv1 | done].
    - eexists _, _, _. split; [exact Hpl|].
      split; [eapply same_ids_trans; apply same_ids_mark|].
      split; [by apply Hkeep|]. intros a Ha. by rewrite Ha. }
  assert (Hst : set_tokens NULL l' (heap w2) = set_tokens NULL l (heap w2))
    by (by apply set_tokens_same_ids).
  destruct (set_tokens_total NULL l (heap w2) Hv2) as [h3 Hh3].
  exists h1, l', ready, w2, h3.
  split; [done|]. split; [done|]. split; [done|]. split; [|done].
  unfold g_poll. rewrite Hh1. cbn -[poll_loop]. rewrite Hpl. cbn -[poll_loop].
  rewrite Hst, Hh3. done.
Qed.

(** C7.  For a set whose wakeup entries point to live handles, and a
    sleep hook that frees none of them: the first loop stores the call's
    token in every wakeup handle of the set and writes no [signalled]
    flag; the wait loop runs on that heap, ends, and changes the world
    only by calling the hook (not at all when an entry is ready at the
    first pass or [timeout = 0]); the last loop stores [NULL] in every
    wakeup handle of the set, on the heap the wait loop has left, and
    writes no flag either.  So every flag on return is what the hook
    has made of it: a signal that comes in during the sleep is still
    there, and a flag the hook leaves alone is the same before and
    after the call.  The statement covers every way out of the loop: a
    ready entry, [timeout = 0], the expired deadline, and the pass
    after the sleep. *)
Theorem g_poll_registers_and_clears_token tok l timeout w :
  valid_set (heap w) l → sleep_keeps_handles l →
  ∃ h1 l' ready w2 h3,
    set_tokens tok l (heap w) = Some h1
    ∧ (∀ p, p ∈ l → fd p = G_WAIT_WAKEUP_HANDLE →
         ∃ k, h1 !! user_data p = Some k ∧ token k = tok)
    ∧ poll_loop g_wait_sleep 2 tok timeout (compute_deadline timeout w) false l
        (with_heap w h1) = Some (l', ready, w2)
    ∧ g_poll g_wait_sleep tok l timeout w = Some (l', ready, with_heap w2 h3)
    ∧ (∀ p, p ∈ l → fd p = G_WAIT_WAKEUP_HANDLE →
         ∃ k, h3 !! user_data p = Some k ∧ token k = NULL)
    ∧ (∀ a, (∀ t w1, signalled <$> heap (g_wait_sleep tok t w1) !! a
                     = signalled <$> heap w1 !! a) →
            signalled <$> h3 !! a = signalled <$> heap w !! a)
    ∧ (∀ a, signalled <$> h1 !! a = signalled <$> heap w !! a)
    ∧ (w2 = with_heap w h1 ∨ ∃ t, w2 = g_wait_sleep tok t (with_heap w h1))
    ∧ (∀ l0 r0, check_fds h1 l 0 = Some (l0, r0) → r0 ≠ 0 ∨ timeout = 0 →
         w2 = with_heap w h1)
    ∧ set_tokens NULL l (heap w2) = Some h3
    ∧ (∀ a, signalled <$> h3 !! a = signalled <$> heap w2 !! a).
Proof.
  intros Hv Hkeep.
  destruct (g_poll_unfold tok l timeout w Hv Hkeep)
    as (h1 & l' & ready & w2 & h3 & Hh1 & Hpl & Hh3 & Hpoll & Hfr).
  exists h1, l', ready, w2, h3.
  split; [done|]. split; [intros p; by apply (set_tokens_sets _ _ _ _ _ Hh1)|].
  split; [done|]. split; [done|].
  split; [intros p; by apply (set_tokens_sets _ _ _ _ _ Hh3)|].
  split.
  { intros a Ha.
    rewrite (set_tokens_signalled _ _ _ _ a Hh3), (Hfr a Ha).
    apply (set_tokens_signalled _ _ _ _ a Hh1). }
  split; [intros a; apply (set_tokens_signalled _ _ _ _ a Hh1)|].
  assert (Hv1 : valid_set (heap (with_heap w h1)) l)
    by (eapply set_tokens_valid; eauto).
  destruct (poll_loop_cases tok timeout (compute_deadline timeout w) l
              (with_heap w h1) Hv1 Hkeep) as (r & Hc & Hcases).
  split; [|split; [|split; [done|]]].
  - destruct Hcases as [[_ Hpl'] | (t & r' & _ & _ & Hpl')];
      rewrite Hpl' in Hpl; injection Hpl as _ _ <-; [by left | right; by exists t].
  - intros l0 r0 Hc0 Hr0. simpl in Hc. rewrite Hc in Hc0. injection Hc0 as _ <-.
    destruct Hcases as [[_ Hpl'] | (t & r' & Hstep & _)].
    + rewrite Hpl' in Hpl. by injection Hpl as _ _ <-.
    + unfold after_check in Hstep. rewrite decide_True in Hstep; [done|].
      destruct Hr0 as [?|?]; [by left | right; by left].
  - intros a. apply (set_tokens_signalled _ _ _ _ a Hh3).
Qed.

(** [is_ready] reads the descriptor, the handle and its flag only. *)
Lemma is_ready_ext h h' p :
  signalled <$> h' !! user_data p = signalled <$> h !! user_data p →
  is_ready h' p = is_ready h p.
Proof.
  unfold is_ready. intros Hs.
  destruct (h' !! user_data p), (h !! user_data p); simpl in Hs; try done.
  by injection Hs as ->.
Qed.

Lemma ready_count_ext h h' (f : GPollFD → GPollFD) l :
  (∀ p, p ∈ l → is_ready h' (f p) = is_ready h p) →
  ready_count h' (f <$> l) = ready_count h l.
Proof.
  induction l as [|p l IH]; intros Hp; [done|].
  rewrite fmap_cons, !ready_count_cons, Hp by left.
  rewrite IH; [done|]. intros q Hq. apply Hp. by right.
Qed.

Lemma mark_ext h h' (l : list GPollFD) :
  (∀ a, signalled <$> h' !! a = signalled <$> h !! a) →
  mark h' <$> l = mark h <$> l.
Proof.
  intros Hs. apply list_fmap_ext. intros _ p _. unfold mark.
  by rewrite (is_ready_ext h h').
Qed.

(** A call with [timeout = 0]: one pass, no sleep. *)
Lemma g_poll_nonblocking tok l w :
  valid_set (heap w) l → Z.of_nat (length l) <= G_MAXINT →
  ∃ h3,
    g_poll g_wait_sleep tok l 0 w
    = Some (mark (heap w) <$> l, Z.of_nat (ready_count (heap w) l), with_heap w h3)
    ∧ (∀ a, signalled <$> h3 !! a = signalled <$> heap w !! a)
    ∧ valid_set h3 l.
Proof.
  intros Hv Hlen.
  destruct (set_tokens_total tok l (heap w) Hv) as [h1 Hh1].
  assert (Hv1 : valid_set h1 l) by (eapply set_tokens_valid; eauto).
  assert (Hs1 : ∀ a, signalled <$> h1 !! a = signalled <$> heap w !! a)
    by (intros a; by eapply set_tokens_signalled).
  destruct (set_tokens_total NULL l h1 Hv1) as [h3 Hh3].
  exists h3. split; [|split].
  - unfold g_poll. rewrite Hh1. simpl.
    rewrite (check_fds_spec h1 l Hv1 Hlen). simpl.
    unfold after_check. rewrite decide_True by (right; by left).
    simpl. rewrite (set_tokens_same_ids NULL l _ h1 (same_ids_mark h1 l)), Hh3.
    simpl. rewrite (mark_ext (heap w) h1 l Hs1).
    rewrite <- (list_fmap_id l) at 2.
    rewrite (ready_count_ext (heap w) h1 id l); [done|].
    intros p _. by apply is_ready_ext.
  - intros a. by rewrite (set_tokens_signalled _ _ _ _ a Hh3).
  - eapply set_tokens_valid; eauto.
Qed.

(** *** Signal, poll, acknowledge, poll *)

Lemma g_wakeup_signal_heap a w k :
  heap w !! a = Some k →
  ∃ w1, g_wakeup_signal a w = Some w1
      ∧ heap w1 = <[a := {| signalled := TRUE; token := token k |}]> (heap w)
      ∧ now w1 = now w.
Proof.
  intros Hk. unfold g_wakeup_signal. rewrite Hk. simpl.
  case_decide; eexists; (split; [done|]); done.
Qed.

Lemma g_wakeup_acknowledge_heap a w k :
  heap w !! a = Some k →
  g_wakeup_acknowledge a w
  = Some (with_heap w (<[a := {| signalled := FALSE; token := token k |}]> (heap w))).
Proof. intros Hk. unfold g_wakeup_acknowledge. by rewrite Hk. Qed.

Lemma valid_set_insert h l a k :
  valid_set h l → valid_set (<[a := k]> h) l.
Proof.
  intros Hv p Hp Hfd. destruct (decide (a = user_data p)) as [->|Hne].
  - rewrite lookup_insert_eq. by eexists.
  - rewrite lookup_insert_ne by done. by apply Hv.
Qed.

Lemma ready_count_pos h l p :
  p ∈ l → is_ready h p = true → (0 < ready_count h l)%nat.
Proof.
  intros Hin Hr. unfold ready_count.
  assert (Hf : p ∈ base.filter (λ p, is_ready h p = true) l)
    by (by apply list_elem_of_filter).
  destruct (base.filter _ l); [by apply elem_of_nil in Hf | simpl; lia].
Qed.

(** The ready entries of the set that stand for another handle than [a]. *)
Definition others_ready (a : Z) (h : gmap Z GWakeup) (l : list GPollFD) : nat :=
  length (base.filter (λ p, is_ready h p = true ∧ user_data p ≠ a) l).

Lemma ready_count_others a h h' (f : GPollFD → GPollFD) l :
  (∀ p, p ∈ l →
     is_ready h' (f p) = bool_decide (is_ready h p = true ∧ user_data p ≠ a)) →
  ready_count h' (f <$> l) = others_ready a h l.
Proof.
  unfold others_ready.
  induction l as [|p l IH]; intros Hp; [done|].
  rewrite fmap_cons, ready_count_cons, Hp by left.
  rewrite IH by (intros q Hq; apply Hp; by right).
  case_bool_decide.
  - by rewrite filter_cons_True.
  - by rewrite filter_cons_False.
Qed.

Lemma others_ready_none a h l :
  (∀ p, p ∈ l → is_ready h p = true → user_data p = a) → others_ready a h l = 0%nat.
Proof.
  unfold others_ready. induction l as [|p l IH]; intros Hp; [done|].
  rewrite filter_cons_False.
  - apply IH. intros q Hq. apply Hp. by right.
  - intros [Hr Hne]. apply Hne, Hp; [left | done].
Qed.

(** C3, as the code has it.  After [g_wakeup_signal (a)], a [g_poll] with
    [timeout = 0] on a set with an entry for [a] returns a positive count
    and stores [G_IO_IN] in that entry; after [g_wakeup_acknowledge (a)]
    the next such call stores 0 in that entry, and its return value is
    the number of entries that stand for other handles that are still
    signalled: 0 when there is none. *)
Theorem signal_poll_acknowledge_poll tok a l w :
  valid_set (heap w) l → Z.of_nat (length l) <= G_MAXINT →
  (∃ p, p ∈ l ∧ fd p = G_WAIT_WAKEUP_HANDLE ∧ user_data p = a) →
  ∃ w1 l1 r1 w2 w3 l3 r3 w4,
    g_wakeup_signal a w = Some w1
    ∧ g_poll g_wait_sleep tok l 0 w1 = Some (l1, r1, w2)
    ∧ r1 > 0
    ∧ g_wakeup_acknowledge a w2 = Some w3
    ∧ g_poll g_wait_sleep tok l1 0 w3 = Some (l3, r3, w4)
    ∧ r3 = Z.of_nat (others_ready a (heap w) l)
    ∧ ((∀ p, p ∈ l → is_ready (heap w) p = true → user_data p = a) → r3 = 0)
    ∧ ∀ i p, l !! i = Some p → fd p = G_WAIT_WAKEUP_HANDLE → user_data p = a →
        revents <$> l1 !! i = Some G_IO_IN ∧ revents <$> l3 !! i = Some 0.
Proof.
  intros Hv Hlen (p0 & Hp0 & Hfd0 & Hu0).
  destruct (Hv p0 Hp0 Hfd0) as [k Hk]. rewrite Hu0 in Hk.
  destruct (g_wakeup_signal_heap a w k Hk) as (w1 & Hsig & Hh1 & _).
  assert (Hv1 : valid_set (heap w1) l) by (rewrite Hh1; by apply valid_set_insert).
  destruct (g_poll_nonblocking tok l w1 Hv1 Hlen) as (h2 & Hpoll1 & Hs2 & Hv2).
  assert (Hk2 : ∃ k2, h2 !! a = Some k2).
  { destruct (Hv2 p0 Hp0 Hfd0) as [k2 Hk2]. rewrite Hu0 in Hk2. by exists k2. }
  destruct Hk2 as [k2 Hk2].
  set (h3 := <[a := {| signalled := FALSE; token := token k2 |}]> h2).
  assert (Hack : g_wakeup_acknowledge a (with_heap w1 h2) = Some (with_heap (with_heap w1 h2) h3))
    by (by apply g_wakeup_acknowledge_heap).
  set (l1 := mark (heap w1) <$> l).
  assert (Hv3 : valid_set (heap (with_heap (with_heap w1 h2) h3)) l1).
  { eapply valid_set_same_ids; [apply same_ids_mark|]. by apply valid_set_insert. }
  assert (Hlen1 : Z.of_nat (length l1) <= G_MAXINT)
    by (unfold l1; by rewrite length_fmap).
  destruct (g_poll_nonblocking tok l1 _ Hv3 Hlen1) as (h4 & Hpoll2 & _ & _).
  (* readiness of an entry for [a] after the signal and after the acknowledge *)
  assert (Hra : ∀ p, fd p = G_WAIT_WAKEUP_HANDLE → user_data p = a →
                     is_ready (heap w1) p = true).
  { intros p Hfd Hu.
    rewrite (is_ready_wakeup _ _ {| signalled := TRUE; token := token k |} Hfd);
      [done|]. by rewrite Hh1, Hu, lookup_insert_eq. }
  assert (Hr3 : ∀ p, is_ready h3 (mark (heap w1) p)
                     = bool_decide (is_ready (heap w) p = true ∧ user_data p ≠ a)).
  { intros p. destruct (decide (user_data p = a)) as [Hu|Hu].
    - rewrite bool_decide_false by (intros [_ ?]; done).
      unfold is_ready. simpl. rewrite Hu. unfold h3. rewrite lookup_insert_eq.
      simpl. by rewrite andb_false_r.
    - transitivity (is_ready (heap w) p).
      + change (is_ready h3 (mark (heap w1) p)) with (is_ready h3 p).
        apply is_ready_ext. unfold h3. rewrite lookup_insert_ne by done.
        rewrite Hs2, Hh1. by rewrite lookup_insert_ne.
      + destruct (is_ready (heap w) p).
        * by rewrite bool_decide_true.
        * by rewrite bool_decide_false by (intros [? _]; done). }
  eexists w1, l1, _, _, _, _, _, _.
  split; [done|]. split; [exact Hpoll1|]. split.
  { pose proof (ready_count_pos (heap w1) l p0 Hp0 (Hra p0 Hfd0 Hu0)). lia. }
  split; [exact Hack|]. split; [exact Hpoll2|].
  assert (Hcount : ready_count h3 l1 = others_ready a (heap w) l).
  { unfold l1. apply ready_count_others. intros p _. apply Hr3. }
  simpl. rewrite Hcount. split; [done|]. split.
  { intros Hnone. by rewrite others_ready_none. }
  intros i p Hi Hfd Hu. unfold l1. rewrite !list_lookup_fmap, Hi. simpl.
  split.
  - unfold mark. by rewrite (Hra p Hfd Hu).
  - f_equal. change (mark h3 (mark (heap w1) p)) with
      (set_revents (mark (heap w1) p)
         (if is_ready h3 (mark (heap w1) p) then G_IO_IN else 0)).
    rewrite Hr3, bool_decide_false by (intros [_ ?]; done). done.
Qed.

(** *** The deadline *)



(** *** [g_wait_is_set] *)

Lemma g_wait_is_set_loop_spec h l :
  valid_set h l →
  g_wait_is_set_loop h l
  = Some (bool_decide (Exists (λ p, is_ready h p = true) l)).
Proof.
  induction l as [|p l IH]; intros Hv; simpl.
  - done.
  - apply valid_set_cons in Hv as [Hp Hv]. case_decide as Hfd.
    + destruct (Hp Hfd) as [k Hk]. rewrite Hk. simpl.
      pose proof (is_ready_wakeup h p k Hfd Hk) as Hr.
      destruct (decide (signalled k ≠ 0)) as [Hsig|Hsig].
      * f_equal. symmetry. apply bool_decide_eq_true_2, Exists_cons_hd.
        rewrite Hr. by apply bool_decide_eq_true_2.
      * rewrite (IH Hv). f_equal. apply bool_decide_ext.
        rewrite Exists_cons, Hr.
        rewrite (bool_decide_eq_false_2 (signalled k ≠ 0)) by done.
        intuition discriminate.
    + rewrite (IH Hv). f_equal. apply bool_decide_ext.
      rewrite Exists_cons, (is_ready_other h p Hfd). intuition discriminate.
Qed.

(** C10.  For a token whose set points to live handles, [g_wait_is_set]
    returns; it returns TRUE exactly when some entry of the set carries
    the wakeup sentinel and the [signalled] flag of its handle is not 0;
    it returns FALSE for a set without an entry that carries the
    sentinel. *)
Theorem g_wait_is_set_iff op w :
  valid_set (heap w) (fds op) →
  (∃ b, g_wait_is_set op w = Some b)
  ∧ (g_wait_is_set op w = Some true
     ↔ ∃ p k, p ∈ fds op ∧ fd p = G_WAIT_WAKEUP_HANDLE
              ∧ heap w !! user_data p = Some k ∧ signalled k ≠ 0)
  ∧ ((∀ p, p ∈ fds op → fd p ≠ G_WAIT_WAKEUP_HANDLE) →
     g_wait_is_set op w = Some false).
Proof.
  intros Hv. unfold g_wait_is_set. rewrite (g_wait_is_set_loop_spec _ _ Hv).
  split; [by eexists|]. split; [split|].
  - intros [= Hb]. apply bool_decide_eq_true_1 in Hb.
    apply Exists_exists in Hb as (p & Hp & Hr).
    unfold is_ready in Hr. apply andb_prop in Hr as [Hfd Hs].
    apply bool_decide_eq_true_1 in Hfd.
    destruct (heap w !! user_data p) as [k|] eqn:Hk; [|done].
    apply bool_decide_eq_true_1 in Hs. by exists p, k.
  - intros (p & k & Hp & Hfd & Hk & Hs). f_equal.
    apply bool_decide_eq_true_2, Exists_exists. exists p. split; [done|].
    by rewrite (is_ready_wakeup _ _ _ Hfd Hk), bool_decide_true.
  - intros Hnone. f_equal. apply bool_decide_eq_false_2.
    rewrite Exists_exists. intros (p & Hp & Hr).
    by rewrite (is_ready_other _ _ (Hnone p Hp)) in Hr.
Qed.

(** *** The return value and repeated signals *)

Lemma marked_nonzero_count h l :
  G_IO_IN ≠ 0 →
  length (base.filter (λ p, revents p ≠ 0) (mark h <$> l)) = ready_count h l.
Proof.
  intros Hin. induction l as [|p l IH]; [done|].
  rewrite fmap_cons, ready_count_cons. unfold mark at 1.
  destruct (is_ready h p).
  - rewrite filter_cons_True by done. simpl. by rewrite IH.
  - rewrite filter_cons_False by (simpl; lia). by rewrite IH.
Qed.

(** What [g_poll] returns is the number of entries it leaves with a
    [revents] that is not 0 (a set of at most [G_MAXINT] entries). *)
Lemma g_poll_counts_ready_entries tok l timeout w l' r w' :
  valid_set (heap w) l → sleep_keeps_handles l →
  Z.of_nat (length l) <= G_MAXINT → G_IO_IN ≠ 0 →
  g_poll g_wait_sleep tok l timeout w = Some (l', r, w') →
  r = Z.of_nat (length (base.filter (λ p, revents p ≠ 0) l')).
Proof.
  intros Hv Hkeep Hlen Hin Hpoll.
  destruct (g_poll_unfold tok l timeout w Hv Hkeep)
    as (h1 & l0 & r0 & w2 & h3 & Hh1 & Hloop & _ & Hpoll' & _).
  rewrite Hpoll' in Hpoll. injection Hpoll as -> -> <-.
  assert (Hv1 : valid_set (heap (with_heap w h1)) l)
    by (eapply set_tokens_valid; eauto).
  assert (Hgen : ∀ h (l1 : list GPollFD) r1,
            check_fds h l1 0 = Some (mark h <$> l1, r1) →
            Z.of_nat (length l1) <= G_MAXINT →
            r1 = Z.of_nat (length (base.filter (λ p, revents p ≠ 0) (mark h <$> l1)))).
  { intros h l1 r1 Hc Hl.
    rewrite (check_fds_count _ _ _ _ _ Hc), marked_nonzero_count by lia. lia. }
  destruct (poll_loop_cases tok timeout (compute_deadline timeout w) l
              (with_heap w h1) Hv1 Hkeep) as (r1 & Hc & Hcases).
  destruct Hcases as [[_ Hpl] | (t & r2 & _ & Hc' & Hpl)];
    rewrite Hpl in Hloop; injection Hloop as <- <- _.
  - by apply Hgen.
  - apply Hgen; [done | by rewrite length_fmap].
Qed.

(** Signals before the next acknowledge leave the flag as one signal
    leaves it. *)
Lemma g_wakeup_signal_twice a w w1 w2 :
  g_wakeup_signal a w = Some w1 → g_wakeup_signal a w1 = Some w2 →
  heap w2 = heap w1.
Proof.
  intros H1 H2.
  destruct (heap w !! a) as [k|] eqn:Hk;
    [|unfold g_wakeup_signal in H1; by rewrite Hk in H1].
  destruct (g_wakeup_signal_heap a w k Hk) as (w1' & E1 & Hh1 & _).
  rewrite H1 in E1. injection E1 as <-.
  assert (Hk1 : heap w1 !! a = Some {| signalled := TRUE; token := token k |})
    by (by rewrite Hh1, lookup_insert_eq).
  destruct (g_wakeup_signal_heap a w1 _ Hk1) as (w2' & E2 & Hh2 & _).
  rewrite H2 in E2. injection E2 as <-.
  rewrite Hh2, Hh1. simpl. apply insert_insert_eq.
Qed.

End BareMetalFacts.

(** *** Sample runs of the G_OS_NONE implementation *)

(** [G_IO_IN] and [G_TIME_SPAN_MILLISECOND] as GLib's public headers
    define them; the two constants of gwait.h are sample values. *)
Definition bare_metal_config : BareMetal.Config :=
  {| BareMetal.G_IO_IN := 1;
     BareMetal.G_WAIT_WAKEUP_HANDLE := -2;
     BareMetal.G_WAIT_INFINITE := -1;
     BareMetal.G_TIME_SPAN_MILLISECOND := 1000 |}.

(** A sleep hook that sleeps for the time it is given. *)
Definition timed_sleep (tok timeout_us : Z) (w : BareMetal.World) : BareMetal.World :=
  {| BareMetal.heap := BareMetal.heap w;
     BareMetal.now := BareMetal.now w + timeout_us;
     BareMetal.wake_log := BareMetal.wake_log w |}.


(** The entry [g_wakeup_get_pollfd] makes for the handle at [a]. *)
Definition wakeup_pollfd (a : Z) : BareMetal.GPollFD :=
  BareMetal.g_wakeup_get_pollfd (cfg := bare_metal_config) a
    {| BareMetal.fd := 0; BareMetal.events := 0; BareMetal.revents := 0;
       BareMetal.user_data := 0 |}.

(** Two idle handles at the addresses 10 and 20, at time 0. *)
Definition two_handles : BareMetal.World :=
  BareMetal.g_wakeup_new 20
    (BareMetal.g_wakeup_new 10
       {| BareMetal.heap := ∅; BareMetal.now := 0; BareMetal.wake_log := [] |}).

(** C3, counterexample.  Both handles of the set are signalled; after
    the acknowledge of the first, the next non-blocking call returns 1,
    not 0. *)
Lemma poll_after_acknowledge_counts_other_handle :
  ∃ w0 w1 l1 r1 w2 w3 l3 w4,
    BareMetal.g_wakeup_signal 20 two_handles = Some w0
    ∧ BareMetal.g_wakeup_signal 10 w0 = Some w1
    ∧ BareMetal.g_poll (cfg := bare_metal_config) timed_sleep 99
        [wakeup_pollfd 10; wakeup_pollfd 20] 0 w1 = Some (l1, r1, w2)
    ∧ BareMetal.g_wakeup_acknowledge 10 w2 = Some w3
    ∧ BareMetal.g_poll (cfg := bare_metal_config) timed_sleep 99 l1 0 w3
      = Some (l3, 1, w4)
    ∧ BareMetal.revents <$> l3 = [0; 1].
Proof.
  eexists _, _, _, _, _, _, _, _.
  repeat split; vm_compute; reflexivity.
Qed.

Lemma signal_poll_acknowledge_poll_witness :
  valid_set (cfg := bare_metal_config) (BareMetal.heap two_handles)
    [wakeup_pollfd 10; wakeup_pollfd 20]
  ∧ ∃ w1 l1 r1 w2 w3 l3 w4,
      BareMetal.g_wakeup_signal 10 two_handles = Some w1
      ∧ BareMetal.g_poll (cfg := bare_metal_config) timed_sleep 99
          [wakeup_pollfd 10; wakeup_pollfd 20] 0 w1 = Some (l1, r1, w2)
      ∧ r1 > 0
      ∧ BareMetal.g_wakeup_acknowledge 10 w2 = Some w3
      ∧ BareMetal.g_poll (cfg := bare_metal_config) timed_sleep 99 l1 0 w3
        = Some (l3, 0, w4).
Proof.
  assert (Hv : valid_set (cfg := bare_metal_config) (BareMetal.heap two_handles)
                 [wakeup_pollfd 10; wakeup_pollfd 20]).
  { apply valid_set_Forall. apply (bool_decide_unpack _). vm_compute. exact I. }
  split; [exact Hv|].
  destruct (signal_poll_acknowledge_poll (cfg := bare_metal_config) timed_sleep
              99 10 [wakeup_pollfd 10; wakeup_pollfd 20] two_handles Hv)
    as (w1 & l1 & r1 & w2 & w3 & l3 & r3 & w4 & H1 & H2 & H3 & H4 & H5 & H6 & _).
  - vm_compute. discriminate.
  - exists (wakeup_pollfd 10). split; [left | split; reflexivity].
  - exists w1, l1, r1, w2, w3, l3, w4.
    repeat split; try assumption.
    rewrite H5, H6. reflexivity.
Defined.



(** A sleep hook during which another thread signals the handle at
    the address 20. *)
Definition signal_during_sleep (tok timeout_us : Z) (w : BareMetal.World)
  : BareMetal.World :=
  match BareMetal.g_wakeup_signal 20 w with
  | Some w' =>
      {| BareMetal.heap := BareMetal.heap w';
         BareMetal.now := BareMetal.now w + timeout_us;
         BareMetal.wake_log := BareMetal.wake_log w' |}
  | None => w
  end.

Lemma signal_during_sleep_keeps_handles l :
  sleep_keeps_handles (cfg := bare_metal_config) signal_during_sleep l.
Proof.
  intros tok t w Hv p Hp Hfd. specialize (Hv p Hp Hfd).
  unfold signal_during_sleep, BareMetal.g_wakeup_signal.
  destruct (BareMetal.heap w !! 20) as [k|] eqn:Hk; simpl; [|done].
  case_decide; simpl;
    (destruct (decide (BareMetal.user_data p = 20)) as [->|Hne];
     [rewrite lookup_insert_eq; by eexists | by rewrite lookup_insert_ne]).
Qed.

Lemma g_poll_registers_and_clears_token_witness :
  valid_set (cfg := bare_metal_config) (BareMetal.heap two_handles)
    [wakeup_pollfd 10; wakeup_pollfd 20]
  ∧ ∃ l' w',
      BareMetal.g_poll (cfg := bare_metal_config) signal_during_sleep 99
        [wakeup_pollfd 10; wakeup_pollfd 20] 5 two_handles = Some (l', 1, w')
      ∧ BareMetal.token <$> BareMetal.heap w' !! 10 = Some NULL
      ∧ BareMetal.token <$> BareMetal.heap w' !! 20 = Some NULL
      ∧ BareMetal.signalled <$> BareMetal.heap two_handles !! 20 = Some FALSE
      ∧ BareMetal.signalled <$> BareMetal.heap w' !! 20 = Some TRUE
      ∧ BareMetal.signalled <$> BareMetal.heap w' !! 10 = Some FALSE.
Proof.
  assert (Hv : valid_set (cfg := bare_metal_config) (BareMetal.heap two_handles)
                 [wakeup_pollfd 10; wakeup_pollfd 20]).
  { apply valid_set_Forall. apply (bool_decide_unpack _). vm_compute. exact I. }
  split; [exact Hv|].
  destruct (g_poll_registers_and_clears_token (cfg := bare_metal_config)
              signal_during_sleep 99 [wakeup_pollfd 10; wakeup_pollfd 20] 5
              two_handles Hv (signal_during_sleep_keeps_handles _))
    as (h1 & l' & ready & w2 & h3 & Hh1 & _ & Hloop & Hpoll & Hnull & _ & _
        & _ & _ & _ & Hflags).
  assert (Hw2 : ready = 1 ∧ BareMetal.signalled <$> BareMetal.heap w2 !! 20 = Some TRUE
                ∧ BareMetal.signalled <$> BareMetal.heap w2 !! 10 = Some FALSE).
  { assert (E : h1 = {[ 10 := {| BareMetal.signalled := FALSE; BareMetal.token := 99 |};
                        20 := {| BareMetal.signalled := FALSE; BareMetal.token := 99 |} ]})
      by (vm_compute in Hh1; injection Hh1 as <-; vm_compute; reflexivity).
    subst h1. vm_compute in Hloop. injection Hloop as _ <- <-.
    split; [reflexivity|]. split; vm_compute; reflexivity. }
  destruct Hw2 as (-> & H20 & H10).
  exists l', (BareMetal.with_heap w2 h3). split; [exact Hpoll|].
  split; [|split; [|split; [vm_compute; reflexivity|]]].
  - destruct (Hnull (wakeup_pollfd 10)) as (k & Hk1 & Hk2);
      [left | reflexivity |].
    change (h3 !! 10 = Some k) in Hk1. simpl. rewrite Hk1. simpl.
    by rewrite Hk2.
  - destruct (Hnull (wakeup_pollfd 20)) as (k & Hk1 & Hk2);
      [right; left | reflexivity |].
    change (h3 !! 20 = Some k) in Hk1. simpl. rewrite Hk1. simpl.
    by rewrite Hk2.
  - split; simpl; rewrite Hflags; [exact H20 | exact H10].
Defined.

Lemma g_wait_is_set_iff_witness :
  ∃ w1,
    BareMetal.g_wakeup_signal 20 two_handles = Some w1
    ∧ valid_set (cfg := bare_metal_config) (BareMetal.heap w1)
        [wakeup_pollfd 10; wakeup_pollfd 20]
    ∧ BareMetal.g_wait_is_set (cfg := bare_metal_config)
        {| BareMetal.fds := [wakeup_pollfd 10; wakeup_pollfd 20] |} w1 = Some true.
Proof.
  eexists. split; [vm_compute; reflexivity|].
  match goal with |- ?V ∧ _ => assert (Hv : V) end.
  { apply valid_set_Forall. apply (bool_decide_unpack _). vm_compute. exact I. }
  split; [exact Hv|].
  apply (g_wait_is_set_iff (cfg := bare_metal_config)
           {| BareMetal.fds := [wakeup_pollfd 10; wakeup_pollfd 20] |} _ Hv).
  exists (wakeup_pollfd 20), {| BareMetal.signalled := TRUE; BareMetal.token := NULL |}.
  split; [right; left|]. split; [reflexivity|]. split; [|discriminate].
  vm_compute. reflexivity.
Defined.

(** ** The HAVE_KQUEUE implementation *)

Section KqueueFacts.
Import Kqueue.
Context {cfg : Config}.

(** Every wakeup entry of the set points to a live [GWakeup]. *)
Definition kq_valid_set (h : gmap Z GWakeup) (l : list GPollFD) : Prop :=
  ∀ p, p ∈ l → is_wakeup p = true → is_Some (h !! handle p).

Lemma kq_valid_set_Forall h l :
  Forall (λ p, is_wakeup p = true → is_Some (h !! handle p)) l →
  kq_valid_set h l.
Proof. rewrite Forall_forall. intros Hall p Hp. by apply Hall. Qed.

Lemma kq_valid_set_cons h p l :
  kq_valid_set h (p :: l) →
  (is_wakeup p = true → is_Some (h !! handle p)) ∧ kq_valid_set h l.
Proof.
  intros Hv. split.
  - apply Hv. left.
  - intros q Hq. apply Hv. by right.
Qed.

(** *** Loops over the set *)

Lemma int_nfds_id (l : list GPollFD) :
  Z.of_nat (length l) <= G_MAXINT → int_nfds l = length l.
Proof.
  intros Hl. unfold int_nfds. rewrite to_gint_id; [lia|].
  change (2 ^ 31) with 2147483648. lia.
Qed.

Lemma take_int_nfds (l : list GPollFD) :
  Z.of_nat (length l) <= G_MAXINT → take (int_nfds l) l = l.
Proof. intros Hl. rewrite int_nfds_id by done. apply firstn_all. Qed.

Lemma for_fds_fmap f (l : list GPollFD) :
  Z.of_nat (length l) <= G_MAXINT → for_fds f l = f <$> l.
Proof.
  intros Hl. unfold for_fds. rewrite take_int_nfds by done.
  rewrite int_nfds_id, drop_all by done. apply app_nil_r.
Qed.

(** The changelist of [g_poll] holds additions only, at most three for
    an entry, each with the index of its entry. *)
Definition is_add (c : change) : Prop :=
  match c with
  | AddUser _ | AddFd _ _ _ => True
  | _ => False
  end.

Lemma fd_changes_adds i p c : c ∈ fd_changes i p → is_add c.
Proof.
  unfold fd_changes.
  repeat (case_match; simpl); rewrite ?elem_of_app, ?elem_of_cons, ?elem_of_nil;
    intros Hc; repeat destruct Hc as [Hc|Hc]; subst; simpl; done.
Qed.

Lemma fd_changes_length i p : (length (fd_changes i p) <= 3)%nat.
Proof. unfold fd_changes. repeat (case_match; simpl); lia. Qed.

Lemma fd_changes_index i p f d u : AddFd f d u ∈ fd_changes i p → u = i.
Proof.
  unfold fd_changes.
  repeat (case_match; simpl); rewrite ?elem_of_app, ?elem_of_cons, ?elem_of_nil;
    intros Hc; repeat destruct Hc as [Hc|Hc]; try done; by injection Hc.
Qed.

Lemma fd_changes_wakeup i p :
  is_wakeup p = true → fd_changes i p = [AddUser (handle p)].
Proof. intros Hw. unfold fd_changes. by rewrite Hw. Qed.

Lemma elem_of_concat_imap {A B} (f : nat → A → list B) (l : list A) (y : B) :
  y ∈ concat (imap f l) ↔ ∃ i x, l !! i = Some x ∧ y ∈ f i x.
Proof.
  revert f. induction l as [|x l IH]; intros f; simpl.
  - rewrite elem_of_nil. split; [done | by intros (i & z & Hi & _)].
  - rewrite elem_of_app, IH. split.
    + intros [Hy | (i & z & Hi & Hy)].
      * by exists 0%nat, x.
      * by exists (S i), z.
    + intros ([|i] & z & Hi & Hy).
      * injection Hi as <-. by left.
      * right. by exists i, z.
Qed.

Lemma length_concat_imap {A B} (f : nat → A → list B) (l : list A) n :
  (∀ i x, length (f i x) <= n)%nat →
  (length (concat (imap f l)) <= n * length l)%nat.
Proof.
  revert f. induction l as [|x l IH]; intros f Hf; simpl; [lia|].
  rewrite length_app. specialize (IH (f ∘ S) (λ i, Hf (S i))).
  specialize (Hf 0%nat x). lia.
Qed.

Lemma changelist_adds l c : c ∈ changelist l → is_add c.
Proof.
  unfold changelist. rewrite elem_of_concat_imap.
  intros (i & p & _ & Hc). by eapply fd_changes_adds.
Qed.

Lemma changelist_index l f d u :
  AddFd f d u ∈ changelist l → (u < length l)%nat.
Proof.
  unfold changelist. rewrite elem_of_concat_imap.
  intros (i & p & Hi & Hc). apply fd_changes_index in Hc as ->.
  apply lookup_lt_Some in Hi. rewrite length_take in Hi. lia.
Qed.

Lemma changelist_length l : (length (changelist l) <= 3 * length l)%nat.
Proof.
  unfold changelist.
  etransitivity; [apply (length_concat_imap _ _ 3), fd_changes_length|].
  rewrite length_take. lia.
Qed.

Lemma changelist_wakeup l i p :
  Z.of_nat (length l) <= G_MAXINT →
  l !! i = Some p → is_wakeup p = true → AddUser (handle p) ∈ changelist l.
Proof.
  intros Hl Hi Hw. unfold changelist. rewrite take_int_nfds by done.
  apply elem_of_concat_imap. exists i, p. split; [done|].
  rewrite fd_changes_wakeup by done. left.
Qed.

(** *** The kernel queue during a call *)

(** A changelist of additions that the system accepts is taken whole. *)
Lemma apply_changes_adds os cs room q :
  (∀ c, c ∈ cs → is_add c) → (∀ f i, fd_add_ok os f i = true) →
  ∃ q', apply_changes os cs room q = (q', [], true)
    ∧ (∀ i, AddUser i ∈ cs → is_Some (users q' !! i))
    ∧ (∀ i, is_Some (users q !! i) → is_Some (users q' !! i))
    ∧ (size (users q') <= size (users q) + length cs)%nat
    ∧ (∀ f i u, (f, i, u) ∈ fd_filters q' →
         (f, i, u) ∈ fd_filters q ∨ AddFd f i u ∈ cs).
Proof.
  intros Hadd Hok. revert q.
  induction cs as [|c cs IH]; intros q.
  - exists q. split; [done|]. split; [by intros i Hi%elem_of_nil|].
    split; [done|]. split; [simpl; lia | by left].
  - assert (Hc : is_add c) by (apply Hadd; left).
    assert (Hcs : ∀ c', c' ∈ cs → is_add c') by (intros c' ?; apply Hadd; by right).
    destruct c as [i| | |f i u]; try done; simpl.
    + destruct (users q !! i) as [b|] eqn:Hi.
      * destruct (IH Hcs q) as (q' & -> & Hu & Hk & Hs & Hf).
        exists q'. split; [done|]. split.
        { intros j [[= ->]|Hj]%elem_of_cons; [apply Hk; by eexists | by apply Hu]. }
        split; [done|]. split; [lia|].
        intros f j u Hj. destruct (Hf f j u Hj); [by left | right; by right].
      * destruct (IH Hcs {| users := <[i := false]> (users q);
                            fd_filters := fd_filters q |})
          as (q' & -> & Hu & Hk & Hs & Hf).
        exists q'. split; [done|]. simpl in *. split.
        { intros j [[= ->]|Hj]%elem_of_cons; [|by apply Hu].
          apply Hk. rewrite lookup_insert_eq. by eexists. }
        split.
        { intros j Hj. apply Hk. destruct (decide (i = j)) as [->|Hne].
          - rewrite lookup_insert_eq. by eexists.
          - by rewrite lookup_insert_ne. }
        split; [rewrite map_size_insert_None in Hs by done; lia|].
        intros f j u Hj. destruct (Hf f j u Hj); [by left | right; by right].
    + rewrite Hok.
      destruct (IH Hcs {| users := users q;
                          fd_filters := fd_filters q ++ [(f, i, u)] |})
        as (q' & -> & Hu & Hk & Hs & Hf).
      exists q'. split; [done|]. simpl in *. split.
      { intros j [[=]|Hj]%elem_of_cons. by apply Hu. }
      split; [done|]. split; [lia|].
      intros f' j u' Hj. destruct (Hf f' j u' Hj) as [Hin|Hin].
      * apply elem_of_app in Hin as [Hin|Hin]; [by left|].
        apply list_elem_of_singleton in Hin as [= -> -> ->]. right. left.
      * right. by right.
Qed.

(** [kevent] with a single [NOTE_TRIGGER] and no event list. *)
Lemma kevent_trigger a kq_ w q :
  kernel w !! kq_ = Some q →
  ∃ q', kernel (kevent no_os kq_ [TriggerUser a] 0 w).2 !! kq_ = Some q'
      ∧ heap (kevent no_os kq_ [TriggerUser a] 0 w).2 = heap w
      ∧ fd_filters q' = fd_filters q
      ∧ size (users q') = size (users q)
      ∧ (∀ i, is_Some (users q !! i) → is_Some (users q' !! i))
      ∧ (∀ i, users q !! i = Some true → users q' !! i = Some true)
      ∧ (is_Some (users q !! a) → users q' !! a = Some true).
Proof.
  intros Hq. unfold kevent. rewrite Hq. simpl.
  destruct (users q !! a) as [b|] eqn:Ha; simpl.
  - eexists. split; [apply lookup_insert_eq|]. simpl.
    split; [done|]. split; [done|]. split.
    { apply map_size_insert_Some. by rewrite Ha. }
    split.
    { intros i Hi. destruct (decide (a = i)) as [->|Hne].
      - rewrite lookup_insert_eq. by eexists.
      - by rewrite lookup_insert_ne. }
    split.
    { intros i Hi. destruct (decide (a = i)) as [->|Hne].
      - by rewrite lookup_insert_eq.
      - by rewrite lookup_insert_ne. }
    intros _. apply lookup_insert_eq.
  - exists q. split; [apply lookup_insert_eq|]. simpl.
    repeat (split; [done|]). by intros [? ?].
Qed.

Lemma realize_spec a kq_ w k q :
  heap w !! a = Some k → kernel w !! kq_ = Some q → kq_ ≠ -1 →
  ∃ w' q',
    _g_wakeup_kqueue_realize a kq_ w = Some w'
    ∧ kernel w' !! kq_ = Some q'
    ∧ fd_filters q' = fd_filters q
    ∧ size (users q') = size (users q)
    ∧ (∀ i, is_Some (users q !! i) → is_Some (users q' !! i))
    ∧ (∀ i, users q !! i = Some true → users q' !! i = Some true)
    ∧ (pending k ≠ 0 → is_Some (users q !! a) → users q' !! a = Some true)
    ∧ (∀ b, is_Some (heap w !! b) → is_Some (heap w' !! b))
    ∧ (∀ b, b ≠ a → heap w' !! b = heap w !! b).
Proof.
  intros Hk Hq Hkq. unfold _g_wakeup_kqueue_realize. rewrite Hk. simpl.
  assert (Hdom : ∀ (h : gmap Z GWakeup) x b,
             is_Some (h !! b) → is_Some (<[a := x]> h !! b)).
  { intros h x b Hb. destruct (decide (a = b)) as [->|Hne].
    - rewrite lookup_insert_eq. by eexists.
    - by rewrite lookup_insert_ne. }
  case_decide as Hp.
  - unfold g_wakeup_signal_unlocked. simpl. rewrite lookup_insert_eq. simpl.
    rewrite decide_True by done.
    set (w0 := with_heap w (<[a := {| kq := kq_; pending := pending k |}]> (heap w))).
    destruct (kevent_trigger a kq_ w0 q Hq)
      as (q' & Hq' & Hh & Hf & Hs & Hd & Ht & Ha).
    eexists _, q'. split; [done|]. simpl.
    split; [done|]. split; [done|]. split; [done|]. split; [done|].
    split; [done|]. split; [by intros _|]. rewrite Hh. simpl. split.
    + intros b Hb. by apply Hdom, Hdom.
    + intros b Hb. by rewrite !lookup_insert_ne.
  - eexists _, q. split; [done|]. simpl.
    repeat (split; [done|]). split.
    + intros b Hb. by apply Hdom.
    + intros b Hb. by rewrite lookup_insert_ne.
Qed.

(** The loop that realizes every wakeup entry into the queue: a handle
    of the set with a pending signal has its user event triggered. *)
Lemma realize_all_spec kq_ a ps w q :
  kq_valid_set (heap w) ps → kernel w !! kq_ = Some q → kq_ ≠ -1 →
  ∃ w' q',
    for_wakeups (λ b, _g_wakeup_kqueue_realize b kq_) ps w = Some w'
    ∧ kernel w' !! kq_ = Some q'
    ∧ fd_filters q' = fd_filters q
    ∧ size (users q') = size (users q)
    ∧ (∀ b, is_Some (heap w !! b) → is_Some (heap w' !! b))
    ∧ (users q !! a = Some true → users q' !! a = Some true)
    ∧ (is_Some (users q !! a) →
       (∃ p k, p ∈ ps ∧ is_wakeup p = true ∧ handle p = a
               ∧ heap w !! a = Some k ∧ pending k ≠ 0) →
       users q' !! a = Some true).
Proof.
  intros Hv Hq Hkq. revert w q Hv Hq.
  induction ps as [|p ps IH]; intros w q Hv Hq.
  - exists w, q. repeat (split; [done|]).
    intros _ (p & k & Hp%elem_of_nil & _). done.
  - apply kq_valid_set_cons in Hv as [Hp Hv]. simpl.
    destruct (is_wakeup p) eqn:Hw.
    + destruct (Hp eq_refl) as [k Hk].
      destruct (realize_spec (handle p) kq_ w k q Hk Hq Hkq)
        as (w1 & q1 & -> & Hq1 & Hf1 & Hs1 & Hd1 & Ht1 & Ha1 & Hh1 & Hne1).
      simpl.
      assert (Hv1 : kq_valid_set (heap w1) ps)
        by (intros p' Hp' Hw'; by apply Hh1, Hv).
      destruct (IH w1 q1 Hv1 Hq1)
        as (w' & q' & -> & Hq' & Hf' & Hs' & Hh' & Ht' & Ha').
      exists w', q'. split; [done|]. split; [done|].
      split; [congruence|]. split; [congruence|].
      split; [intros b Hb; by apply Hh', Hh1|].
      split; [intros Ht; by apply Ht', Ht1|].
      intros Hreg (p' & k' & Hin & Hw' & Hh & Hk' & Hpend).
      destruct (decide (handle p = a)) as [Heq|Hne].
      * apply Ht'. rewrite <- Heq in *. apply Ha1; [congruence | done].
      * apply Ha'; [by apply Hd1|].
        apply elem_of_cons in Hin as [->|Hin]; [done|].
        exists p', k'. repeat (split; [done|]).
        split; [|done]. rewrite Hne1; [done | congruence].
    + destruct (IH w q Hv Hq) as (w' & q' & -> & Hq' & Hf' & Hs' & Hh' & Ht' & Ha').
      exists w', q'. repeat (split; [done|]).
      intros Hreg (p' & k' & Hin & Hw' & Hh & Hk' & Hpend). apply Ha'; [done|].
      apply elem_of_cons in Hin as [->|Hin]; [congruence|].
      by exists p', k'.
Qed.

(** The collecting [kevent]. *)
Lemma kevent_collect os kq_ n w q :
  kernel w !! kq_ = Some q → collect_fails os = false → 0 < n →
  kevent os kq_ [] n w
  = (Z.of_nat (length (take (Z.to_nat n) (user_events q ++ fd_events os q))),
     take (Z.to_nat n) (user_events q ++ fd_events os q),
     with_kernel w (<[kq_ := q]> (kernel w))).
Proof.
  intros Hq Hc Hn. unfold kevent. rewrite Hq. simpl.
  rewrite decide_False by lia. by rewrite Hc.
Qed.

Definition user_event (a : Z) : kevent_t :=
  {| ident := a; filter := EVFILT_USER; flags := 0; fflags := 0; udata := None |}.

Lemma user_events_triggered q a :
  users q !! a = Some true → user_event a ∈ user_events q.
Proof.
  intros Ha. unfold user_events. apply list_elem_of_fmap.
  exists (a, true). split; [done|].
  apply elem_of_map_to_list, map_lookup_filter_Some. by split.
Qed.

Lemma user_events_length q : (length (user_events q) <= size (users q))%nat.
Proof.
  unfold user_events. rewrite length_fmap, length_map_to_list.
  apply map_subseteq_size, map_filter_subseteq.
Qed.

Lemma fd_events_udata os q ev :
  ev ∈ fd_events os q →
  ∃ f i u, (f, i, u) ∈ fd_filters q ∧ filter ev = f ∧ udata ev = Some u.
Proof.
  unfold fd_events. rewrite list_elem_of_omap.
  intros ([[f i] u] & Hin & Hev).
  destruct (fires os f i u) as [ff|]; simpl in Hev; [|done].
  injection Hev as <-. by exists f, i, u.
Qed.

(** *** The events written back *)

(** The bit [G_IO_IN] is set in [revents]. *)
Definition has_in (p : GPollFD) : Prop := Z.land (revents p) G_IO_IN = G_IO_IN.

(** [p'] is [p] with more bits in [revents], [G_IO_IN] kept if set. *)
Definition grows (p p' : GPollFD) : Prop :=
  fd p' = fd p ∧ events p' = events p ∧ handle p' = handle p
  ∧ (has_in p → has_in p').

Lemma grows_refl p : grows p p.
Proof. by repeat split. Qed.

Lemma grows_trans p1 p2 p3 : grows p1 p2 → grows p2 p3 → grows p1 p3.
Proof.
  intros (? & ? & ? & H12) (? & ? & ? & H23).
  repeat split; [congruence.. | auto].
Qed.

Lemma land_ushort x m : 0 <= m < 2 ^ 16 → Z.land (wrap_unsigned 16 x) m = Z.land x m.
Proof.
  intros Hm. unfold wrap_unsigned. rewrite <- Z.land_ones by lia.
  rewrite <- Z.land_assoc. f_equal.
  rewrite Z.land_comm, Z.land_ones by lia. apply Z.mod_small. lia.
Qed.

Lemma or_revents_grows bits p : 0 <= G_IO_IN < 2 ^ 16 → grows p (or_revents bits p).
Proof.
  intros Hm. repeat split. unfold has_in, or_revents. simpl. intros Hin.
  rewrite land_ushort by done. rewrite Z.land_lor_distr_l, Hin.
  apply Z.bits_inj'. intros n Hn.
  rewrite Z.lor_spec, Z.land_spec. by destruct (Z.testbit G_IO_IN n), (Z.testbit bits n).
Qed.

Lemma or_revents_in p : 0 <= G_IO_IN < 2 ^ 16 → has_in (or_revents G_IO_IN p).
Proof.
  intros Hm. unfold has_in, or_revents. simpl.
  rewrite land_ushort by done. rewrite Z.land_lor_distr_l, Z.land_diag.
  apply Z.bits_inj'. intros n Hn.
  rewrite Z.lor_spec, Z.land_spec.
  by destruct (Z.testbit G_IO_IN n), (Z.testbit (revents p) n).
Qed.

Lemma or_revents_if_grows c bits p :
  0 <= G_IO_IN < 2 ^ 16 → grows p (or_revents_if c bits p).
Proof.
  intros Hm. destruct c; [by apply or_revents_grows | apply grows_refl].
Qed.

Lemma handle_fd_event_grows ev p :
  0 <= G_IO_IN < 2 ^ 16 → grows p (handle_fd_event ev p).
Proof.
  intros Hm. unfold handle_fd_event. cbv zeta.
  repeat first
    [ apply grows_refl
    | apply or_revents_if_grows; exact Hm
    | eapply grows_trans;
      [|first [apply or_revents_if_grows; exact Hm | apply or_revents_grows; exact Hm]]
    | case_match ].
Qed.

Lemma handle_user_event_grows ev p :
  0 <= G_IO_IN < 2 ^ 16 → grows p (handle_user_event ev p).
Proof.
  intros Hm. unfold handle_user_event.
  case_match; [by apply or_revents_if_grows | apply grows_refl].
Qed.

Lemma handle_user_event_in a p :
  0 <= G_IO_IN < 2 ^ 16 →
  is_wakeup p = true → handle p = a → Z.land (events p) G_IO_IN ≠ 0 →
  has_in (handle_user_event (user_event a) p).
Proof.
  intros Hm Hw Ha He. unfold handle_user_event. simpl.
  rewrite Hw, bool_decide_true by done. simpl.
  unfold test_bits. rewrite bool_decide_true by done. by apply or_revents_in.
Qed.

(** An event the loop can handle: a user event, or an event that
    carries the address of an entry of the set. *)
Definition event_ok (n : nat) (ev : kevent_t) : Prop :=
  filter ev = EVFILT_USER ∨ ∃ i, udata ev = Some i ∧ (i < n)%nat.

Lemma Forall2_grows_insert l i p p' :
  l !! i = Some p → grows p p' → Forall2 grows l (<[i := p']> l).
Proof.
  intros Hi Hg. apply Forall2_same_length_lookup. split.
  - by rewrite length_insert.
  - intros j x y Hx Hy. destruct (decide (i = j)) as [->|Hne].
    + rewrite list_lookup_insert_eq in Hy by (by eapply lookup_lt_Some).
      injection Hy as <-. congruence.
    + rewrite list_lookup_insert_ne in Hy by done.
      assert (x = y) as -> by congruence. apply grows_refl.
Qed.

Lemma handle_event_spec l ev :
  0 <= G_IO_IN < 2 ^ 16 → Z.of_nat (length l) <= G_MAXINT →
  event_ok (length l) ev →
  ∃ l', handle_event l ev = Some l' ∧ Forall2 grows l l'
      ∧ ∀ a, ev = user_event a →
             l' = handle_user_event (user_event a) <$> l.
Proof.
  intros Hm Hl Hok. unfold handle_event.
  assert (Hfd : ∀ i, udata ev = Some i → (i < length l)%nat →
            filter ev ≠ EVFILT_USER →
            ∃ l', (i ← udata ev; p ← l !! i; Some (<[i := handle_fd_event ev p]> l))
                  = Some l' ∧ Forall2 grows l l'
                ∧ ∀ a, ev = user_event a →
                       l' = handle_user_event (user_event a) <$> l).
  { intros i Hi Hlt Hf. rewrite Hi. simpl.
    destruct (lookup_lt_is_Some_2 l i Hlt) as [p Hp]. rewrite Hp. simpl.
    eexists. split; [done|]. split.
    - eapply Forall2_grows_insert; [done | by apply handle_fd_event_grows].
    - intros a ->. done. }
  destruct (filter ev) eqn:Hf.
  - destruct Hok as [?|(i & Hi & Hlt)]; [congruence|].
    apply (Hfd i); [done | done | congruence].
  - destruct Hok as [?|(i & Hi & Hlt)]; [congruence|].
    apply (Hfd i); [done | done | congruence].
  - destruct have_EVFILT_EXCEPT.
    + destruct Hok as [?|(i & Hi & Hlt)]; [congruence|].
    apply (Hfd i); [done | done | congruence].
    + exists l. split; [done|]. split.
      * apply Forall_Forall2_diag, Forall_forall. intros ? _. apply grows_refl.
      * intros a ->. done.
  - rewrite for_fds_fmap by done. eexists. split; [done|]. split.
    + apply Forall2_fmap_r, Forall_Forall2_diag, Forall_forall.
      intros p _. by apply handle_user_event_grows.
    + by intros a ->.
Qed.

Lemma Forall2_grows_trans l1 l2 l3 :
  Forall2 grows l1 l2 → Forall2 grows l2 l3 → Forall2 grows l1 l3.
Proof.
  intros H12. revert l3. induction H12; intros l3 H23;
    inversion H23; subst; constructor; eauto using grows_trans.
Qed.

(** The loop over the events: it ends, every entry keeps its
    descriptor, and an entry for a handle whose user event is in the
    list has [G_IO_IN] in the end. *)
Lemma handle_events_spec l evs :
  0 <= G_IO_IN < 2 ^ 16 → Z.of_nat (length l) <= G_MAXINT →
  Forall (event_ok (length l)) evs →
  ∃ l', handle_events l evs = Some l' ∧ Forall2 grows l l'
      ∧ ∀ a i p, user_event a ∈ evs → l !! i = Some p →
                 is_wakeup p = true → handle p = a →
                 Z.land (events p) G_IO_IN ≠ 0 →
                 ∃ p', l' !! i = Some p' ∧ has_in p'.
Proof.
  intros Hm Hl Hok. revert l Hl Hok.
  induction evs as [|ev evs IH]; intros l Hl Hok; simpl.
  - exists l. split; [done|]. split.
    + apply Forall_Forall2_diag, Forall_forall. intros ? _. apply grows_refl.
    + by intros a i p Hin%elem_of_nil.
  - apply Forall_cons in Hok as [Hev Hok].
    destruct (handle_event_spec l ev Hm Hl Hev) as (l1 & -> & Hg1 & Hu1). simpl.
    assert (Hlen : length l1 = length l) by (symmetry; by eapply Forall2_length).
    rewrite <- Hlen in Hl, Hok.
    destruct (IH l1 Hl Hok) as (l' & -> & Hg' & Hu').
    exists l'. split; [done|]. split; [by eapply Forall2_grows_trans|].
    intros a i p Hin Hi Hw Ha He.
    destruct (Forall2_lookup_l _ _ _ _ _ Hg1 Hi) as (p1 & Hi1 & Hgp).
    destruct Hgp as (Hfd & Hevs & Hh & _).
    apply elem_of_cons in Hin as [<-|Hin].
    + rewrite (Hu1 a eq_refl), list_lookup_fmap, Hi in Hi1.
      injection Hi1 as <-.
      destruct (Forall2_lookup_l _ _ _ _ _ Hg' (eq_trans
                  (f_equal (λ x, x !! i) (Hu1 a eq_refl))
                  (eq_trans (list_lookup_fmap _ _ _) (f_equal _ Hi))))
        as (p' & Hi' & Hgp').
      exists p'. split; [done|]. apply Hgp'. by apply handle_user_event_in.
    + apply (Hu' a i p1); try done; try congruence.
      unfold is_wakeup in *. by rewrite Hfd.
Qed.

(** *** The recount and the way out *)

(** Number of entries with a [revents] that is not 0. *)
Definition nonzero_revents (l : list GPollFD) : nat :=
  length (base.filter (λ p, revents p ≠ 0) l).

Lemma count_ready_spec l r :
  0 <= r → r + Z.of_nat (length l) <= G_MAXINT →
  count_ready l r = r + Z.of_nat (nonzero_revents l).
Proof.
  unfold nonzero_revents. revert r.
  induction l as [|p l IH]; intros r Hr Hl; simpl in *; [lia|].
  case_decide as Hp.
  - rewrite filter_cons_True by done. simpl.
    rewrite to_gint_id by (change (2 ^ 31) with 2147483648; lia).
    rewrite IH by lia. lia.
  - rewrite filter_cons_False by (intros ?; done). apply IH; lia.
Qed.

Lemma nonzero_revents_zeroed (l : list GPollFD) :
  nonzero_revents ((λ p, set_revents p 0) <$> l) = 0%nat.
Proof.
  unfold nonzero_revents. induction l as [|p l IH]; [done|].
  rewrite fmap_cons, filter_cons_False by (simpl; lia). apply IH.
Qed.

Lemma nonzero_revents_pos l i p :
  l !! i = Some p → revents p ≠ 0 → (0 < nonzero_revents l)%nat.
Proof.
  intros Hi Hp. unfold nonzero_revents.
  assert (Hf : p ∈ base.filter (λ p, revents p ≠ 0) l).
  { apply list_elem_of_filter. split; [done|]. by eapply list_elem_of_lookup_2. }
  destruct (base.filter _ l); [by apply elem_of_nil in Hf | simpl; lia].
Qed.

Lemma unrealize_all_total ps w :
  kq_valid_set (heap w) ps →
  is_Some (for_wakeups _g_wakeup_kqueue_unrealize ps w).
Proof.
  revert w. induction ps as [|p ps IH]; intros w Hv; simpl; [by eexists|].
  apply kq_valid_set_cons in Hv as [Hp Hv].
  destruct (is_wakeup p); [|by apply IH].
  destruct (Hp eq_refl) as [k Hk].
  replace (_g_wakeup_kqueue_unrealize (handle p) w) with
    (Some (with_heap w (<[handle p := {| kq := -1; pending := pending k |}]> (heap w))))
    by (unfold _g_wakeup_kqueue_unrealize; by rewrite Hk).
  simpl. apply IH. intros p' Hp' Hw'. simpl.
  destruct (decide (handle p = handle p')) as [->|Hne].
  - rewrite lookup_insert_eq. by eexists.
  - rewrite lookup_insert_ne by done. by apply Hv.
Qed.

(** What [collect_results] returns, when it returns: [revents] built
    up from 0, and their count or the kernel's 0 or -1. *)
Lemma collect_results_inv kq_ l ret evs w l' ret' w' :
  Z.of_nat (length l) <= G_MAXINT →
  collect_results kq_ l ret evs w = Some (l', ret', w') →
  handle_events ((λ p, set_revents p 0) <$> l) (take (Z.to_nat ret) evs) = Some l'
  ∧ ret' = (if decide (ret > 0) then count_ready (take (int_nfds l') l') 0 else ret).
Proof.
  intros Hl. unfold collect_results, beach. rewrite for_fds_fmap by done.
  destruct (handle_events _ _) as [l1|]; simpl; [|done].
  destruct (if decide (num_wakeup_fds l1 > 0) then _ else _) as [w1|]; simpl; [|done].
  by intros [= <- <- <-].
Qed.

Lemma handle_event_length l ev l' : handle_event l ev = Some l' → length l' = length l.
Proof.
  unfold handle_event, for_fds.
  assert (Hfd : (i ← udata ev; p ← l !! i; Some (<[i := handle_fd_event ev p]> l))
                = Some l' → length l' = length l).
  { destruct (udata ev) as [i|]; simpl; [|done].
    destruct (l !! i); simpl; [|done]. intros [= <-]. apply length_insert. }
  destruct (filter ev); try done.
  - destruct have_EVFILT_EXCEPT; [done | by intros [= <-]].
  - intros [= <-]. rewrite length_app, length_fmap, length_take, length_drop. lia.
Qed.

Lemma handle_events_length l evs l' :
  handle_events l evs = Some l' → length l' = length l.
Proof.
  revert l. induction evs as [|ev evs IH]; intros l; simpl; [by intros [= <-]|].
  destruct (handle_event l ev) as [l1|] eqn:H1; simpl; [|done].
  intros H2. rewrite (IH _ H2). by eapply handle_event_length.
Qed.

(** The return value of the kqueue [g_poll], when it is not negative,
    is the number of entries it leaves with a [revents] that is not 0;
    so a call that returns 0 leaves every [revents] at 0. *)
Lemma kqueue_g_poll_counts_ready_entries os l timeout w l' ret w' :
  Z.of_nat (length l) <= G_MAXINT →
  g_poll os l timeout w = Some (l', ret, w') → 0 <= ret →
  ret = Z.of_nat (nonzero_revents l').
Proof.
  intros Hl Hpoll Hret.
  assert (Hcr : ∀ kq_ ret0 evs w0,
            collect_results kq_ l ret0 evs w0 = Some (l', ret, w') →
            ret = Z.of_nat (nonzero_revents l')).
  { intros kq_ ret0 evs w0 Hc.
    apply collect_results_inv in Hc as [Hev ->]; [|done].
    pose proof (handle_events_length _ _ _ Hev) as Hlen.
    rewrite length_fmap in Hlen.
    case_decide as Hr0.
    - rewrite take_int_nfds by lia. rewrite count_ready_spec by lia. lia.
    - assert (Z.to_nat ret0 = 0%nat) as Hz by lia.
      rewrite Hz, take_0 in Hev. injection Hev as <-.
      rewrite nonzero_revents_zeroed. lia. }
  unfold g_poll in Hpoll. destruct (kqueue os w) as [kq_ w0].
  case_decide; [injection Hpoll as <- <- <-; lia|].
  case_decide.
  - destruct (kevent os kq_ (changelist l) _ w0) as [[ret0 evs] w1].
    by eapply Hcr.
  - destruct (kevent os kq_ (changelist l) 0 w0) as [[ret0 evs0] w1].
    case_decide.
    + unfold beach in Hpoll.
      destruct (if decide (num_wakeup_fds l > 0) then _ else _); simpl in Hpoll;
        [|done].
      injection Hpoll as <- <- <-. lia.
    + destruct (for_wakeups _ _ w1) as [w2|]; simpl in Hpoll; [|done].
      destruct (kevent os kq_ [] _ w2) as [[ret1 evs1] w3]. by eapply Hcr.
Qed.

(** *** A signal that precedes the call *)

Lemma g_wakeup_signal_unrealized a w k :
  heap w !! a = Some k → kq k = -1 →
  g_wakeup_signal a w
  = Some (with_heap w (<[a := {| kq := -1; pending := to_guint (pending k + 1) |}]>
                         (heap w))).
Proof.
  intros Hk Hkq. unfold g_wakeup_signal, g_wakeup_signal_unlocked.
  rewrite Hk. simpl. rewrite decide_False by (rewrite Hkq; intros ?; done).
  by rewrite Hkq.
Qed.

Lemma kevent_with_heap os kq_ cs n w h :
  kernel (kevent os kq_ cs n (with_heap w h)).2 = kernel (kevent os kq_ cs n w).2.
Proof.
  unfold kevent. simpl. destruct (kernel w !! kq_) as [q|]; [|done].
  destruct (apply_changes os cs (Z.to_nat n) q) as [[q' errs] ok].
  by repeat case_match.
Qed.

Lemma realize_pending a q w k :
  heap w !! a = Some k → pending k ≠ 0 → q ≠ -1 →
  ∃ w2, _g_wakeup_kqueue_realize a q w = Some w2
      ∧ kernel w2 = kernel (kevent no_os q [TriggerUser a] 0 w).2
      ∧ heap w2 !! a = Some {| kq := q; pending := to_guint (pending k + 1) |}.
Proof.
  intros Hk Hp Hq. unfold _g_wakeup_kqueue_realize. rewrite Hk. simpl.
  rewrite decide_True by done.
  unfold g_wakeup_signal_unlocked. simpl. rewrite lookup_insert_eq. simpl.
  rewrite decide_True by done.
  eexists. split; [done|]. simpl. split.
  - apply kevent_with_heap.
  - by rewrite lookup_insert_eq.
Qed.

Lemma kq_valid_set_insert h l a k :
  kq_valid_set h l → kq_valid_set (<[a := k]> h) l.
Proof.
  intros Hv p Hp Hw. destruct (decide (a = handle p)) as [->|Hne].
  - rewrite lookup_insert_eq. by eexists.
  - rewrite lookup_insert_ne by done. by apply Hv.
Qed.

Lemma num_wakeup_fds_pos l i p :
  Z.of_nat (length l) <= G_MAXINT → l !! i = Some p → is_wakeup p = true →
  num_wakeup_fds l > 0.
Proof.
  intros Hl Hi Hw. unfold num_wakeup_fds. rewrite take_int_nfds by done.
  assert (Hf : p ∈ base.filter (λ p, is_wakeup p = true) l).
  { apply list_elem_of_filter. split; [done|]. by eapply list_elem_of_lookup_2. }
  pose proof (length_filter (λ p, is_wakeup p = true) l) as Hle.
  assert (0 < length (base.filter (λ p, is_wakeup p = true) l))%nat
    by (destruct (base.filter _ l); [by apply elem_of_nil in Hf | simpl; lia]).
  rewrite to_guint_id; [lia|]. unfold G_MAXINT in Hl.
  change (2 ^ 31) with 2147483648 in Hl. change (2 ^ 32) with 4294967296. lia.
Qed.

Lemma kevent_register os kq_ cs w q q' :
  kernel w !! kq_ = Some q → apply_changes os cs (Z.to_nat 0) q = (q', [], true) →
  kevent os kq_ cs 0 w = (0, [], with_kernel w (<[kq_ := q']> (kernel w))).
Proof. intros Hq Hc. unfold kevent. by rewrite Hq, Hc. Qed.

(** The call of [g_poll] on a set with an entry for a handle that has
    a signal pending, on a system whose calls succeed. *)
Lemma g_poll_observes_pending os a k l i p timeout w :
  heap w !! a = Some k → pending k ≠ 0 →
  kq_valid_set (heap w) l → Z.of_nat (length l) * 3 <= G_MAXINT →
  l !! i = Some p → is_wakeup p = true → handle p = a →
  Z.land (events p) G_IO_IN ≠ 0 →
  kqueue_ret os ≠ -1 → (∀ f d, fd_add_ok os f d = true) →
  collect_fails os = false → 0 < G_IO_IN < 2 ^ 16 →
  ∃ l' ret w', g_poll os l timeout w = Some (l', ret, w') ∧ ret >= 1
    ∧ ∃ p', l' !! i = Some p' ∧ has_in p'.
Proof.
  intros Hk Hpend Hv Hl3 Hi Hw Ha He Hkq Hadd Hcol Hm.
  assert (Hl : Z.of_nat (length l) <= G_MAXINT) by lia.
  assert (Hlen1 : (1 <= length l)%nat) by (apply lookup_lt_Some in Hi; lia).
  pose proof (num_wakeup_fds_pos l i p Hl Hi Hw) as Hnw.
  unfold g_poll, kqueue. rewrite decide_False by done.
  rewrite decide_False by done. rewrite decide_False by lia.
  set (kq_ := kqueue_ret os).
  set (w0 := with_kernel w (<[kq_ := empty_queue]> (kernel w))).
  (* the registration *)
  destruct (apply_changes_adds os (changelist l) (Z.to_nat 0) empty_queue
              (changelist_adds l) Hadd) as (q1 & Hq1 & Hreg & _ & Hsize & Hfil).
  assert (Hk0 : kernel w0 !! kq_ = Some empty_queue) by apply lookup_insert_eq.
  rewrite (kevent_register os kq_ _ w0 _ q1 Hk0 Hq1).
  rewrite decide_False by done.
  set (w1 := with_kernel w0 (<[kq_ := q1]> (kernel w0))).
  assert (Hk1 : kernel w1 !! kq_ = Some q1) by apply lookup_insert_eq.
  (* the realization of the handles *)
  rewrite take_int_nfds by done.
  destruct (realize_all_spec kq_ a l w1 q1 Hv Hk1 Hkq)
    as (w2 & q2 & -> & Hk2 & Hf2 & Hs2 & Hh2 & _ & Htrig). simpl.
  assert (Ha2 : users q2 !! a = Some true).
  { apply Htrig.
    - apply Hreg. rewrite <- Ha. by eapply changelist_wakeup.
    - exists p, k. repeat (split; [done|]). split; [|done].
      by eapply list_elem_of_lookup_2. }
  (* the collecting call *)
  assert (Hmax : to_gint (to_guint (Z.of_nat (length l) * 3))
                 = Z.of_nat (length l) * 3).
  { unfold G_MAXINT in Hl3. change (2 ^ 31) with 2147483648 in Hl3.
    rewrite to_guint_id by (change (2 ^ 32) with 4294967296; lia).
    apply to_gint_id. unfold G_MAXINT.
    change (2 ^ 31) with 2147483648. lia. }
  rewrite Hmax, (kevent_collect os kq_ _ w2 q2 Hk2 Hcol) by lia.
  set (evs := take (Z.to_nat (Z.of_nat (length l) * 3))
                (user_events q2 ++ fd_events os q2)).
  assert (Hsz : (size (users q2) <= 3 * length l)%nat).
  { rewrite Hs2. pose proof (changelist_length l).
    change (size (users empty_queue)) with (size (∅ : gmap Z bool)) in Hsize.
    rewrite map_size_empty in Hsize. lia. }
  assert (Hua : user_event a ∈ evs).
  { unfold evs. apply elem_of_take.
    pose proof (user_events_triggered q2 a Ha2) as Hin.
    apply list_elem_of_lookup in Hin as [j Hj]. exists j.
    pose proof (lookup_lt_Some _ _ _ Hj) as Hjl.
    pose proof (user_events_length q2).
    split; [by rewrite lookup_app_l | lia]. }
  assert (Hoks : Forall (event_ok (length ((λ p, set_revents p 0) <$> l))) evs).
  { apply Forall_forall. intros ev Hev. unfold evs in Hev.
    apply elem_of_take in Hev as (j & Hj & _).
    apply list_elem_of_lookup_2, elem_of_app in Hj as [Hu|Hf].
    - left. unfold user_events in Hu.
      apply list_elem_of_fmap in Hu as (x & -> & _). done.
    - right. apply fd_events_udata in Hf as (f & d & u & Hin & _ & Hud).
      exists u. split; [done|]. rewrite length_fmap.
      rewrite Hf2 in Hin. destruct (Hfil f d u Hin) as [Hin'|Hin'].
      + by apply elem_of_nil in Hin'.
      + by eapply changelist_index. }
  (* the events written back *)
  unfold collect_results. rewrite for_fds_fmap by done.
  rewrite Nat2Z.id, firstn_all.
  destruct (handle_events_spec ((λ p, set_revents p 0) <$> l) evs)
    as (l1 & -> & Hg & Hin1); [lia | by rewrite length_fmap | done |]. simpl.
  destruct (Hin1 a i (set_revents p 0)) as (p' & Hi' & Hp');
    [done | by rewrite list_lookup_fmap, Hi | done | done | done |].
  assert (Hlen' : length l1 = length l).
  { rewrite <- (Forall2_length _ _ _ Hg). apply length_fmap. }
  assert (Hnz : revents p' ≠ 0).
  { unfold has_in in Hp'. intros Hz. rewrite Hz, Z.land_0_l in Hp'. lia. }
  pose proof (nonzero_revents_pos l1 i p' Hi' Hnz) as Hpos.
  (* the way out *)
  assert (Hv1 : kq_valid_set (heap w2) l1).
  { intros p1 Hp1 Hw1. apply list_elem_of_lookup in Hp1 as [j Hj].
    destruct (Forall2_lookup_r _ _ _ _ _ Hg Hj) as (p0 & Hj0 & Hfd & _ & Hh & _).
    rewrite list_lookup_fmap in Hj0.
    destruct (l !! j) as [pj|] eqn:Hjl; [|done]. injection Hj0 as <-.
    simpl in Hfd, Hh. rewrite Hh. apply Hh2. simpl.
    apply Hv; [by eapply list_elem_of_lookup_2|].
    unfold is_wakeup in *. by rewrite <- Hfd. }
  unfold beach.
  assert (Hnw1 : num_wakeup_fds l1 > 0).
  { apply (num_wakeup_fds_pos l1 i p'); [lia | done |].
    destruct (Forall2_lookup_r _ _ _ _ _ Hg Hi') as (p0 & Hj0 & Hfd & _).
    rewrite list_lookup_fmap, Hi in Hj0. injection Hj0 as <-.
    simpl in Hfd. unfold is_wakeup in *. by rewrite Hfd. }
  rewrite (decide_True (P := num_wakeup_fds l1 > 0)) by done.
  rewrite !(take_int_nfds l1) by lia.
  destruct (unrealize_all_total l1 (with_kernel w2 (<[kq_ := q2]> (kernel w2))) Hv1)
    as [w4 ->]. simpl.
  eexists _, _, _. split; [done|]. split; [|by exists p'].
  assert (Z.of_nat (length evs) > 0)
    by (destruct evs; [by apply elem_of_nil in Hua | simpl; lia]).
  rewrite decide_True by done.
  rewrite count_ready_spec by lia. lia.
Qed.

(** A signal before the poll, when the count does not wrap.  For a
    handle that is realized into no queue ([kq == -1]):
    [g_wakeup_signal] adds one to [pending] (a [guint]) and issues no
    [kevent]; a realization into a queue [q] afterwards issues the
    [NOTE_TRIGGER] on [q], the count being other than 0; and a [g_poll]
    that follows the signal, on a set with an entry for the handle that
    asks for [G_IO_IN], returns at least 1 with [G_IO_IN] in the
    [revents] of that entry.  The calls [g_poll] makes to the system
    ([kqueue], both [kevent]) are taken to succeed, the set to hold live
    handles, and the count the signal leaves to be other than 0. *)
Theorem kqueue_signal_before_poll_is_observed os a k l i p timeout w :
  heap w !! a = Some k → kq k = -1 →
  to_guint (pending k + 1) ≠ 0 →
  kq_valid_set (heap w) l → Z.of_nat (length l) * 3 <= G_MAXINT →
  l !! i = Some p → is_wakeup p = true → handle p = a →
  Z.land (events p) G_IO_IN ≠ 0 →
  kqueue_ret os ≠ -1 → (∀ f d, fd_add_ok os f d = true) →
  collect_fails os = false → 0 < G_IO_IN < 2 ^ 16 →
  ∃ w1,
    g_wakeup_signal a w = Some w1
    ∧ heap w1 !! a = Some {| kq := -1; pending := to_guint (pending k + 1) |}
    ∧ kernel w1 = kernel w
    ∧ (∀ q, q ≠ -1 →
         ∃ w2, _g_wakeup_kqueue_realize a q w1 = Some w2
             ∧ kernel w2 = kernel (kevent no_os q [TriggerUser a] 0 w1).2)
    ∧ ∃ l' ret w',
        g_poll os l timeout w1 = Some (l', ret, w') ∧ ret >= 1
        ∧ ∃ p', l' !! i = Some p' ∧ Z.land (revents p') G_IO_IN = G_IO_IN.
Proof.
  intros Hk Hkq Hpend Hv Hl Hi Hw Ha He Hos1 Hos2 Hos3 Hm.
  eexists. split; [by apply g_wakeup_signal_unrealized|]. simpl.
  assert (Hk1 : <[a := {| kq := -1; pending := to_guint (pending k + 1) |}]> (heap w)
                !! a = Some {| kq := -1; pending := to_guint (pending k + 1) |})
    by apply lookup_insert_eq.
  split; [done|]. split; [done|]. split.
  - intros q Hq.
    destruct (realize_pending a q
                (with_heap w (<[a := {| kq := -1; pending := to_guint (pending k + 1) |}]>
                                (heap w))) _ Hk1 Hpend Hq)
      as (w2 & Hr & Hker & _).
    by exists w2.
  - eapply (g_poll_observes_pending os a _ l i p timeout); try done.
    by apply kq_valid_set_insert.
Qed.

(** *** Many signals *)

(** [n] calls of [g_wakeup_signal] on a handle that is in no queue. *)
Definition signal_times (n : N) (a : Z) (w : World) : option World :=
  N.iter n (λ o, o ≫= g_wakeup_signal a) (Some w).

Lemma signal_times_unrealized n a w k :
  heap w !! a = Some k → kq k = -1 →
  signal_times (N.succ n) a w
  = Some (with_heap w
            (<[a := {| kq := -1;
                       pending := to_guint (pending k + Z.of_N (N.succ n)) |}]>
               (heap w))).
Proof.
  intros Hk Hkq. unfold signal_times.
  induction n as [|n IH] using N.peano_ind.
  - simpl. rewrite (g_wakeup_signal_unrealized a w k Hk Hkq). done.
  - rewrite N.iter_succ, IH. simpl.
    erewrite g_wakeup_signal_unrealized; [|apply lookup_insert_eq | done].
    simpl. rewrite insert_insert_eq. do 4 f_equal.
    unfold to_guint, wrap_unsigned. rewrite Zplus_mod_idemp_l. f_equal. lia.
Qed.

End KqueueFacts.

(** *** Sample runs of the HAVE_KQUEUE implementation *)

(** The [G_IO_*] values of GLib's headers, the [EV_*] values of the BSD
    <sys/event.h>, and a sample value for the wakeup sentinel. *)
Definition kqueue_config : Kqueue.Config :=
  {| Kqueue.G_IO_IN := 1;
     Kqueue.G_IO_OUT := 4;
     Kqueue.G_IO_PRI := 2;
     Kqueue.G_IO_ERR := 8;
     Kqueue.G_IO_HUP := 16;
     Kqueue.G_KQUEUE_WAKEUP_HANDLE := -3;
     Kqueue.EV_EOF := 32768;
     Kqueue.EV_ERROR := 16384;
     Kqueue.EV_OOBAND := Some 8192;
     Kqueue.have_EVFILT_EXCEPT := true |}.

(** A system on which [kqueue ()] returns the descriptor 7, every filter
    can be attached, and no descriptor has an event. *)
Definition quiet_os : Kqueue.OS :=
  {| Kqueue.kqueue_ret := 7;
     Kqueue.fd_add_ok := λ _ _, true;
     Kqueue.collect_fails := false;
     Kqueue.fires := λ _ _ _, None |}.

(** One new handle at the address 10, and the entry for it. *)
Definition one_handle : Kqueue.World :=
  Kqueue.g_wakeup_new 10 {| Kqueue.heap := ∅; Kqueue.kernel := ∅ |}.

Definition kq_wakeup_pollfd (a : Z) : Kqueue.GPollFD :=
  Kqueue.g_wakeup_get_pollfd (cfg := kqueue_config) a
    {| Kqueue.fd := 0; Kqueue.events := 0; Kqueue.revents := 0;
       Kqueue.handle := 0 |}.

Lemma kqueue_signal_before_poll_is_observed_witness :
  ∃ w1 l' ret w',
    Kqueue.g_wakeup_signal (cfg := kqueue_config) 10 one_handle = Some w1
    ∧ Kqueue.g_poll (cfg := kqueue_config) quiet_os [kq_wakeup_pollfd 10] 0 w1
      = Some (l', ret, w')
    ∧ ret >= 1.
Proof.
  destruct (kqueue_signal_before_poll_is_observed (cfg := kqueue_config)
              quiet_os 10 {| Kqueue.kq := -1; Kqueue.pending := 0 |}
              [kq_wakeup_pollfd 10] 0%nat (kq_wakeup_pollfd 10) 0 one_handle)
    as (w1 & Hs & _ & _ & _ & l' & ret & w' & Hp & Hr & _).
  - vm_compute. reflexivity.
  - reflexivity.
  - vm_compute. discriminate.
  - apply kq_valid_set_Forall. apply (bool_decide_unpack _). vm_compute. exact I.
  - vm_compute. discriminate.
  - reflexivity.
  - reflexivity.
  - reflexivity.
  - vm_compute. discriminate.
  - vm_compute. discriminate.
  - reflexivity.
  - reflexivity.
  - vm_compute. split; reflexivity.
  - by exists w1, l', ret, w'.
Defined.

(** C4 on the kqueue variant.  A new handle that is signalled 2^32
    times while it is in no queue is left as it was before the first
    signal, and a [g_poll] on it finds nothing; after one signal the same
    call returns 1 with [G_IO_IN]. *)
Lemma kqueue_signals_wrap_pending_counter :
  signal_times (cfg := kqueue_config) (2 ^ 32) 10 one_handle = Some one_handle
  ∧ (∃ l' w',
       Kqueue.g_poll (cfg := kqueue_config) quiet_os [kq_wakeup_pollfd 10] 0
         one_handle = Some (l', 0, w')
       ∧ Kqueue.revents <$> l' = [0])
  ∧ (∃ w1 l' w',
       signal_times (cfg := kqueue_config) 1 10 one_handle = Some w1
       ∧ Kqueue.g_poll (cfg := kqueue_config) quiet_os [kq_wakeup_pollfd 10] 0
           w1 = Some (l', 1, w')
       ∧ Kqueue.revents <$> l' = [1]).
Proof.
  split; [|split].
  - change (2 ^ 32)%N with (N.succ 4294967295).
    rewrite (signal_times_unrealized (cfg := kqueue_config) _ 10 one_handle
               {| Kqueue.kq := -1; Kqueue.pending := 0 |});
      [| vm_compute; reflexivity | reflexivity].
    vm_compute. reflexivity.
  - eexists _, _. split; vm_compute; reflexivity.
  - eexists _, _, _. repeat split; vm_compute; reflexivity.
Qed.

(** ** The select(2) emulation *)

Section SelectFacts.
Import SelectEmu.
Context {cfg : Config}.
Variable select :
  Z -> gset Z -> gset Z -> gset Z -> option timeval -> select_result.

(** The emulation hands on what [select] returned. *)
Lemma select_g_poll_return_value l timeout l' ready :
  g_poll select l timeout = Some (l', ready) →
  ∃ nfds rset wset xset tv, ready = sel_ret (select nfds rset wset xset tv).
Proof.
  unfold g_poll.
  destruct (build_sets l ∅ ∅ ∅ 0) as [[[[rset wset] xset] maxfd]|]; simpl; [|done].
  case_decide.
  - destruct (mapM _ l); simpl; [|done]. intros [= <- <-]. by eexists _, _, _, _, _.
  - intros [= <- <-]. by eexists _, _, _, _, _.
Qed.

(** The second loop runs under [if (ready > 0)] only: a call that
    returns 0 or -1 hands the set back as it got it. *)
Lemma select_g_poll_not_ready_keeps_revents l timeout l' ready :
  g_poll select l timeout = Some (l', ready) → ready <= 0 → l' = l.
Proof.
  unfold g_poll.
  destruct (build_sets l ∅ ∅ ∅ 0) as [[[[rset wset] xset] maxfd]|]; simpl; [|done].
  case_decide.
  - destruct (mapM _ l); simpl; [|done]. intros [= <- <-] ?. lia.
  - by intros [= <- <-].
Qed.

End SelectFacts.

(** *** Sample runs of the select(2) emulation *)

(** The [G_IO_*] values of GLib's headers and the usual [FD_SETSIZE]. *)
Definition select_config : SelectEmu.Config :=
  {| SelectEmu.G_IO_IN := 1;
     SelectEmu.G_IO_OUT := 4;
     SelectEmu.G_IO_PRI := 2;
     SelectEmu.FD_SETSIZE := 1024 |}.

(** C1 on the select(2) emulation.  One entry asks for [G_IO_IN] and
    [G_IO_OUT] on the descriptor 3, which is ready for both: [g_poll]
    returns 2, and one entry has a [revents] that is not 0. *)
Lemma select_g_poll_counts_bits_not_entries :
  SelectEmu.g_poll (cfg := select_config)
    (SelectEmu.posix_select {[3]} {[3]} ∅)
    [{| SelectEmu.fd := 3; SelectEmu.events := 5; SelectEmu.revents := 0 |}] 0
  = Some ([{| SelectEmu.fd := 3; SelectEmu.events := 5; SelectEmu.revents := 5 |}], 2).
Proof. vm_compute. reflexivity. Qed.

(** C2 on the select(2) emulation.  The entry comes in with [G_IO_IN]
    left in [revents] by an earlier call; nothing is ready, [g_poll]
    returns 0, and [revents] still holds [G_IO_IN]. *)
Lemma select_g_poll_timeout_keeps_stale_revents :
  SelectEmu.g_poll (cfg := select_config)
    (SelectEmu.posix_select ∅ ∅ ∅)
    [{| SelectEmu.fd := 3; SelectEmu.events := 1; SelectEmu.revents := 1 |}] 0
  = Some ([{| SelectEmu.fd := 3; SelectEmu.events := 1; SelectEmu.revents := 1 |}], 0).
Proof. vm_compute. reflexivity. Qed.

(** ** The G_OS_WIN32 implementation *)

Section Win32Facts.
Import Win32.
Context {cfg : Config}.

(** A pointer into a set of [n] entries. *)
Definition wf_ptr (n : nat) (f : ptr) : Prop :=
  match f with
  | StopFd => True
  | Fd i => (i < n)%nat
  end.

Definition wf_slots (n : nat) (sl : list (Z * ptr)) : Prop :=
  Forall (λ hf, wf_ptr n hf.2) sl.

(** [m'] is [m] after some wait calls on at most [k] objects each; the
    set has kept its length and the stop event its handle. *)
Definition waited (k : Z) (m m' : Mem) : Prop :=
  length (fds m') = length (fds m)
  ∧ fd (stop_event m') = fd (stop_event m)
  ∧ ∃ new, calls m' = calls m ++ new ∧ Forall (λ c, nCount c <= k) new.

(** [m'] is [m] after stores to [revents] fields. *)
Definition same_shape (m m' : Mem) : Prop :=
  length (fds m') = length (fds m)
  ∧ fd (stop_event m') = fd (stop_event m)
  ∧ calls m' = calls m.

Lemma waited_refl k m : waited k m m.
Proof. split; [done|]. split; [done|]. exists []. by rewrite app_nil_r. Qed.

Lemma waited_trans k m1 m2 m3 : waited k m1 m2 → waited k m2 m3 → waited k m1 m3.
Proof.
  intros (Hl1 & Hs1 & n1 & Hc1 & Hf1) (Hl2 & Hs2 & n2 & Hc2 & Hf2).
  split; [congruence|]. split; [congruence|].
  exists (n1 ++ n2). split; [by rewrite Hc2, Hc1, app_assoc | by apply Forall_app].
Qed.

Lemma waited_mono k k' m m' : k <= k' → waited k m m' → waited k' m m'.
Proof.
  intros Hk (Hl & Hs & n & Hc & Hf). split; [done|]. split; [done|].
  exists n. split; [done|]. eapply Forall_impl; [done|]. simpl. lia.
Qed.

Lemma waited_same_shape k m m1 m2 : waited k m m1 → same_shape m1 m2 → waited k m m2.
Proof.
  intros (Hl & Hs & n & Hc & Hf) (Hl2 & Hs2 & Hc2).
  split; [congruence|]. split; [congruence|]. exists n. by rewrite Hc2.
Qed.

Lemma do_wait_waited os c m : waited (nCount c) m (do_wait os c m).2.
Proof.
  split; [done|]. split; [done|]. exists [c]. split; [done|]. by repeat constructor.
Qed.

Lemma do_wait_range os c m : 0 <= (do_wait os c m).1 < 2 ^ 32.
Proof. simpl. unfold to_DWORD, wrap_unsigned. by apply Z.mod_pos_bound. Qed.

Lemma first_wait_waited os msg sl timeout m :
  waited (Z.max 1 (Z.of_nat (length sl))) m (first_wait os msg sl timeout m).2.
Proof.
  unfold first_wait. destruct msg.
  - eapply waited_mono; [|apply do_wait_waited]. simpl. rewrite length_fmap. lia.
  - repeat case_decide.
    + apply waited_refl.
    + eapply waited_mono; [|apply do_wait_waited]. simpl. lia.
    + eapply waited_mono; [|apply do_wait_waited]. simpl. rewrite length_fmap. lia.
Qed.

(** With [WAIT_OBJECT_0 = 0], a result that stands for a handle is the
    index of one of the handles that were waited on. *)
Lemma classify_handle_index os msg sl timeout m idx :
  WAIT_OBJECT_0 = 0 → Z.of_nat (length sl) < 2 ^ 32 →
  classify msg (Z.of_nat (length sl)) (first_wait os msg sl timeout m).1 = Handle idx →
  (idx < length sl)%nat.
Proof.
  intros HW0 Hlen Hc.
  assert (Hcases : (first_wait os msg sl timeout m).1 = WAIT_FAILED
                   ∨ (first_wait os msg sl timeout m).1 = WAIT_TIMEOUT
                   ∨ 0 <= (first_wait os msg sl timeout m).1 < 2 ^ 32).
  { unfold first_wait. destruct msg; [right; right; apply do_wait_range|].
    repeat case_decide; [by left | right; by left | right; right; apply do_wait_range]. }
  revert Hc. unfold classify. rewrite HW0.
  generalize dependent ((first_wait os msg sl timeout m).1). intros ready Hr.
  rewrite Z.sub_0_r, Z.add_0_l.
  unfold to_DWORD, wrap_unsigned. rewrite (Z.mod_small (Z.of_nat (length sl))) by lia.
  repeat case_decide; destruct msg; try discriminate;
    repeat case_decide; try discriminate; intros [= <-];
    (destruct Hr as [?|[?|Hr]]; [done | naive_solver |]);
    rewrite Z.mod_small by lia; lia.
Qed.

Lemma write_revents_shape p r m m' :
  write_revents p r m = Some m' → same_shape m m'.
Proof.
  destruct p as [|i]; simpl.
  - by intros [= <-].
  - destruct (fds m !! i); simpl; [|done]. intros [= <-].
    split; [apply length_insert | done].
Qed.

Lemma write_revents_total p r m :
  wf_ptr (length (fds m)) p → is_Some (write_revents p r m).
Proof.
  destruct p as [|i]; simpl; [by eexists|]. intros Hi.
  destruct (lookup_lt_is_Some_2 _ _ Hi) as [f ->]. by eexists.
Qed.

Lemma read_fd_total p m : wf_ptr (length (fds m)) p → is_Some (read_fd p m).
Proof.
  destruct p as [|i]; simpl; [by eexists|]. apply lookup_lt_is_Some_2.
Qed.

Lemma or_revents_total p bits m :
  wf_ptr (length (fds m)) p →
  ∃ m', or_revents p bits m = Some m' ∧ same_shape m m'.
Proof.
  intros Hp. unfold or_revents.
  destruct (read_fd_total p m Hp) as [f ->]. simpl.
  destruct (write_revents_total p (wrap_unsigned 16 (Z.lor (revents f) bits)) m Hp)
    as [m' Hm']. exists m'. split; [done|]. by eapply write_revents_shape.
Qed.

Lemma classify_message msg n ready mf :
  classify msg n ready = Message mf → msg = Some mf.
Proof.
  unfold classify. repeat case_decide; destruct msg; try discriminate;
    repeat case_decide; try discriminate; by intros [= ->].
Qed.

Lemma add_recursed_spec k retval rec m0 :
  0 <= retval →
  (∃ r m', rec = Some (r, m') ∧ -1 <= r ∧ waited k m0 m') →
  ∃ r m', add_recursed retval rec = Some (r, m') ∧ -1 <= r ∧ waited k m0 m'.
Proof.
  intros Hr (r & m' & -> & Hr' & Hw). simpl.
  eexists _, m'. split; [done|]. split; [case_decide; lia | done].
Qed.

(** [poll_rest] returns: -1, or a count that is not negative; it waits
    on the handles it is given, or on fewer. *)
Lemma poll_rest_spec os msg stop sl timeout m :
  WAIT_OBJECT_0 = 0 → Z.of_nat (length sl) < 2 ^ 32 →
  wf_slots (length (fds m)) sl →
  (∀ mf, msg = Some mf → wf_ptr (length (fds m)) mf) →
  ∃ r m', poll_rest os msg stop sl timeout m = Some (r, m')
        ∧ -1 <= r
        ∧ waited (Z.max 1 (Z.of_nat (length sl))) m m'.
Proof.
  funelim (poll_rest os msg stop sl timeout m);
    intros HW0 Hlen Hsl Hmsg;
    pose proof (first_wait_waited os msg sl timeout m) as Hfw.
  - eexists _, _. split; [done|]. split; [lia | done].
  - eexists _, _. split; [done|]. split; [lia | done].
  - pose proof (classify_message _ _ _ _ e) as Hm.
    pose proof Hfw as (Hfl & _).
    destruct (or_revents_total mf G_IO_IN (first_wait os msg sl timeout m).2)
      as (m2 & -> & Hsh); [rewrite Hfl; by apply Hmsg|].
    assert (Hw2 : waited (Z.max 1 (Z.of_nat (length sl))) m m2)
      by (by eapply waited_same_shape).
    case_decide as Hd.
    + eexists _, _. split; [done|]. split; [lia | done].
    + apply add_recursed_spec; [lia|].
      destruct (H m2 Hd HW0 Hlen) as (r & m' & Hr & Hr1 & Hw');
        [destruct Hw2 as [-> _]; done | done |].
      exists r, m'. split; [done|]. split; [done|]. by eapply waited_trans.
  - eexists _, _. split; [done|]. split; [lia | done].
  - pose proof (classify_handle_index _ _ _ _ _ _ HW0 Hlen e) as Hidx.
    pose proof (f_equal length e0) as Hd. simpl in Hd.
    rewrite length_drop in Hd. lia.
  - pose proof (classify_handle_index _ _ _ _ _ _ HW0 Hlen e) as Hidx.
    pose proof (f_equal length e0) as Hd. simpl in Hd. rewrite length_drop in Hd.
    assert (Hin : (h, f) ∈ sl).
    { apply (list_elem_of_lookup_2 _ idx).
      rewrite <- (Nat.add_0_r idx), <- lookup_drop. simpl in e0.
      by rewrite e0. }
    assert (Hf : wf_ptr (length (fds m)) f).
    { unfold wf_slots in Hsl. rewrite Forall_forall in Hsl. apply (Hsl _ Hin). }
    pose proof Hfw as (Hfl & _).
    destruct (read_fd_total f (first_wait os msg sl timeout m).2) as [g ->];
      [by rewrite Hfl|].
    destruct (write_revents_total f (events g) (first_wait os msg sl timeout m).2)
      as [m2 Hm2]; [by rewrite Hfl|].
    rewrite Hm2. apply write_revents_shape in Hm2.
    assert (Hw2 : waited (Z.max 1 (Z.of_nat (length sl))) m m2)
      by (by eapply waited_same_shape).
    case_decide as Hd2.
    + apply add_recursed_spec; [case_decide; lia|].
      destruct (H g m2 Hd2 HW0) as (r & m' & Hr & Hr1 & Hw').
      * lia.
      * destruct Hw2 as [-> _]. unfold wf_slots in *.
        apply (Forall_drop _ (idx + 1)) in Hsl.
        simpl in e0. by rewrite <- drop_drop, e0 in Hsl.
      * done.
      * exists r, m'. split; [done|]. split; [done|].
        eapply waited_trans; [done|]. eapply waited_mono; [|done]. lia.
    + eexists _, _. split; [done|]. split; [case_decide; lia | done].
Qed.

(** Thread data whose pointers are in the set and whose handles fit
    the arrays of [MAXIMUM_WAIT_OBJECTS] elements. *)
Definition wf_data (n : nat) (data : GWin32PollThreadData) : Prop :=
  wf_slots n (slots data)
  ∧ (∀ mf, msg_fd data = Some mf → wf_ptr n mf)
  ∧ Z.of_nat (length (slots data)) <= MAXIMUM_WAIT_OBJECTS.

Lemma poll_single_thread_spec os data m :
  WAIT_OBJECT_0 = 0 → 1 <= MAXIMUM_WAIT_OBJECTS < 2 ^ 32 →
  wf_data (length (fds m)) data →
  ∃ r m', poll_single_thread os data m = Some (r, m')
        ∧ -1 <= r ∧ waited MAXIMUM_WAIT_OBJECTS m m'.
Proof.
  intros HW0 HM (Hsl & Hmsg & Hn).
  assert (Hstep : ∀ timeout m0, length (fds m0) = length (fds m) →
            ∃ r m', poll_rest os (msg_fd data) (stop_fd data) (slots data)
                      timeout m0 = Some (r, m')
                  ∧ -1 <= r ∧ waited MAXIMUM_WAIT_OBJECTS m0 m').
  { intros timeout m0 Hl0.
    destruct (poll_rest_spec os (msg_fd data) (stop_fd data) (slots data)
                timeout m0 HW0) as (r & m' & Hr & Hr1 & Hw);
      [lia | by rewrite Hl0 | by rewrite Hl0 |].
    exists r, m'. split; [done|]. split; [done|].
    eapply waited_mono; [|done]. lia. }
  unfold poll_single_thread. case_decide.
  - destruct (Hstep 0 m eq_refl) as (r & m1 & -> & Hr & Hw1). simpl.
    case_decide.
    + destruct (Hstep (timeout_ms data) m1) as (r2 & m2 & -> & Hr2 & Hw2);
        [by destruct Hw1|].
      exists r2, m2. split; [done|]. split; [done|]. by eapply waited_trans.
    + by exists r, m1.
  - by apply Hstep.
Qed.

(** *** [fill_poll_thread_data] *)

Lemma wf_data_add_slot n h i data :
  (i < n)%nat → Z.of_nat (length (slots data)) < MAXIMUM_WAIT_OBJECTS →
  wf_data n data → wf_data n (add_slot h (Fd i) data).
Proof.
  intros Hi Hlt (Hsl & Hmsg & Hn). split; [|split]; simpl.
  - apply Forall_app. split; [done|]. by repeat constructor.
  - done.
  - rewrite length_app. simpl. lia.
Qed.

Lemma fill_loop_spec idxs data m :
  Forall (λ i, (i < length (fds m))%nat) idxs →
  wf_data (length (fds m)) data →
  ∃ data' m',
    fill_loop idxs data m = Some (data', m')
    ∧ length (fds m') = length (fds m) ∧ calls m' = calls m
    ∧ stop_event m' = stop_event m
    ∧ wf_data (length (fds m)) data'
    ∧ stop_fd data' = stop_fd data ∧ timeout_ms data' = timeout_ms data
    ∧ (∃ more, slots data' = slots data ++ more
               ∧ (length more <= length idxs)%nat).
Proof.
  revert data m. induction idxs as [|i idxs IH]; intros data m Hidx Hwf; simpl.
  - exists data, m. repeat (split; [done|]). exists []. by rewrite app_nil_r.
  - apply Forall_cons in Hidx as [Hi Hidx]. case_decide as Hbrk.
    + exists data, m. repeat (split; [done|]). exists [].
      rewrite app_nil_r. split; [done | simpl; lia].
    + destruct (lookup_lt_is_Some_2 _ _ Hi) as [f Hf]. rewrite Hf. simpl.
      set (m1 := {| fds := <[i := set_revents f 0]> (fds m);
                    stop_event := stop_event m; calls := calls m |}).
      assert (Hl1 : length (fds m1) = length (fds m)) by apply length_insert.
      set (data1 := if decide (fd f = G_WIN32_MSG_HANDLE ∧ Z.land (events f) G_IO_IN ≠ 0)
                    then set_msg_fd (Some (Fd i)) data
                    else if decide (fd f > 0) then add_slot (fd f) (Fd i) data
                         else data).
      assert (Hwf1 : wf_data (length (fds m)) data1
                     ∧ stop_fd data1 = stop_fd data
                     ∧ timeout_ms data1 = timeout_ms data
                     ∧ ∃ more, slots data1 = slots data ++ more
                               ∧ (length more <= 1)%nat).
      { unfold data1. destruct Hwf as (Hsl & Hmsg & Hn). repeat case_decide.
        - split; [|split; [done|split; [done|]]].
          + split; [done|]. split; [|done]. simpl. by intros mf [= <-].
          + exists []. rewrite app_nil_r. split; [done | simpl; lia].
        - split; [|split; [done|split; [done|]]].
          + apply wf_data_add_slot; [done | | done]. lia.
          + exists [(fd f, Fd i)]. split; [done | simpl; lia].
        - split; [done|]. split; [done|]. split; [done|].
          exists []. rewrite app_nil_r. split; [done | simpl; lia]. }
      destruct Hwf1 as (Hwf1 & Hs1 & Ht1 & more1 & Hm1 & Hlen1).
      destruct (IH data1 m1) as (data' & m' & -> & Hl' & Hc' & Hse' & Hwf' & Hs' & Ht' & more & Hm' & Hlen');
        [by rewrite Hl1 | by rewrite Hl1 |].
      exists data', m'. split; [done|]. split; [congruence|].
      split; [done|]. split; [done|]. split; [by rewrite <- Hl1|].
      split; [congruence|]. split; [congruence|].
      exists (more1 ++ more). split.
      * by rewrite Hm', Hm1, app_assoc.
      * rewrite length_app. simpl. lia.
Qed.

(** The data of a group of [n] entries from [base] on: the pointers are
    in the set, at most [MAXIMUM_WAIT_OBJECTS] handles are filled in,
    and with a stop event the first of them is the stop event. *)
Lemma fill_poll_thread_data_spec base n timeout stop m :
  1 <= MAXIMUM_WAIT_OBJECTS →
  (base + n <= length (fds m))%nat →
  (stop = None ∨ stop = Some StopFd) →
  ∃ data m',
    fill_poll_thread_data base n timeout stop zero_data m = Some (data, m')
    ∧ length (fds m') = length (fds m) ∧ calls m' = calls m
    ∧ stop_event m' = stop_event m
    ∧ wf_data (length (fds m)) data
    ∧ stop_fd data = stop ∧ timeout_ms data = timeout
    ∧ ∃ more, (length more <= n)%nat
        ∧ slots data = match stop with
                       | Some _ => [(fd (stop_event m), StopFd)]
                       | None => []
                       end ++ more.
Proof.
  intros HM Hrange Hstop. unfold fill_poll_thread_data.
  assert (Hidx : Forall (λ i, (i < length (fds m))%nat) (seq base n)).
  { apply Forall_forall. intros i Hi%elem_of_seq. lia. }
  destruct Hstop as [->| ->]; simpl.
  - destruct (fill_loop_spec (seq base n)
                {| slots := []; msg_fd := None; stop_fd := None;
                   timeout_ms := timeout |} m Hidx)
      as (data & m' & -> & Hl & Hc & Hse & Hwf & Hs & Ht & more & Hm & Hlen).
    { split; [constructor|]. split; [done | simpl; lia]. }
    exists data, m'. repeat (split; [done|]). exists more.
    rewrite length_seq in Hlen. by split.
  - rewrite decide_True by lia. simpl.
    destruct (fill_loop_spec (seq base n)
                {| slots := [(fd (stop_event m), StopFd)]; msg_fd := None;
                   stop_fd := Some StopFd; timeout_ms := timeout |} m Hidx)
      as (data & m' & -> & Hl & Hc & Hse & Hwf & Hs & Ht & more & Hm & Hlen).
    { split; [by repeat constructor|]. split; [done | simpl; lia]. }
    exists data, m'. repeat (split; [done|]). exists more.
    rewrite length_seq in Hlen. by split.
Qed.

(** *** The groups *)

Lemma ceil_div_cases N per :
  0 < per → 0 <= N →
  (N + per - 1) / per = N / per + (if decide (N mod per > 0) then 1 else 0).
Proof.
  intros Hper HN. pose proof (Z.div_mod N per ltac:(lia)) as Hdm.
  pose proof (Z.mod_pos_bound N per Hper) as Hr.
  case_decide.
  - symmetry. apply (Z.div_unique _ _ _ (N mod per - 1)); lia.
  - symmetry. apply (Z.div_unique _ _ _ (per - 1)); lia.
Qed.

(** Lines 439-448: the number of groups is the ceiling of N / (C - 1),
    cut down to C - 1. *)
Lemma nthreads_spec N :
  2 <= MAXIMUM_WAIT_OBJECTS → 0 <= N < 2 ^ 32 →
  nthreads N
  = Z.min ((N + MAXIMUM_WAIT_OBJECTS - 2) / (MAXIMUM_WAIT_OBJECTS - 1))
          (MAXIMUM_WAIT_OBJECTS - 1).
Proof.
  intros HC HN. unfold nthreads, threads_remain, MAXIMUM_WAIT_OBJECTS_PER_THREAD.
  set (per := MAXIMUM_WAIT_OBJECTS - 1).
  replace (N + MAXIMUM_WAIT_OBJECTS - 2) with (N + per - 1) by (unfold per; lia).
  rewrite ceil_div_cases by (unfold per; lia).
  pose proof (Z.div_mod N per ltac:(unfold per; lia)) as Hdm.
  pose proof (Z.mod_pos_bound N per ltac:(unfold per; lia)) as Hr.
  assert (0 <= N / per) by (apply Z.div_pos; unfold per; lia).
  assert (N / per <= N) by (apply Z.div_le_upper_bound; unfold per; nia).
  destruct (decide (N mod per > 0)).
  - rewrite to_guint_id by nia. case_decide; lia.
  - case_decide; lia.
Qed.

Lemma nthreads_range N :
  2 <= MAXIMUM_WAIT_OBJECTS → 1 <= N < 2 ^ 32 →
  1 <= nthreads N <= MAXIMUM_WAIT_OBJECTS - 1 ∧ nthreads N <= N.
Proof.
  intros HC HN. rewrite nthreads_spec by lia.
  assert (1 <= (N + MAXIMUM_WAIT_OBJECTS - 2) / (MAXIMUM_WAIT_OBJECTS - 1))
    by (apply Z.div_le_lower_bound; lia).
  assert ((N + MAXIMUM_WAIT_OBJECTS - 2) / (MAXIMUM_WAIT_OBJECTS - 1) < N + 1)
    by (apply Z.div_lt_upper_bound; nia).
  lia.
Qed.

Lemma thread_fds_range N i :
  2 <= MAXIMUM_WAIT_OBJECTS →
  1 <= thread_fds N i <= MAXIMUM_WAIT_OBJECTS - 1.
Proof.
  intros HC. unfold thread_fds, threads_remain, MAXIMUM_WAIT_OBJECTS_PER_THREAD.
  assert (Hper : 0 < MAXIMUM_WAIT_OBJECTS - 1) by lia.
  pose proof (Z.mod_pos_bound N (MAXIMUM_WAIT_OBJECTS - 1) Hper).
  case_decide; lia.
Qed.

Lemma thread_fds_inner N i :
  2 <= MAXIMUM_WAIT_OBJECTS → 1 <= N < 2 ^ 32 →
  Z.of_nat i < nthreads N - 1 →
  thread_fds N i = MAXIMUM_WAIT_OBJECTS - 1.
Proof.
  intros HC HN Hi. unfold thread_fds, MAXIMUM_WAIT_OBJECTS_PER_THREAD.
  pose proof (nthreads_range N HC HN).
  rewrite to_guint_id by lia. rewrite decide_False by lia. done.
Qed.

(** The groups lie within the set: the group [i] ends at or before the
    last entry. *)
Lemma thread_fds_fits N i :
  2 <= MAXIMUM_WAIT_OBJECTS → 1 <= N < 2 ^ 32 →
  Z.of_nat i < nthreads N →
  Z.of_nat i * (MAXIMUM_WAIT_OBJECTS - 1) + thread_fds N i <= N.
Proof.
  intros HC HN Hi. pose proof (nthreads_range N HC HN) as Hn.
  revert Hi. unfold thread_fds. rewrite (to_guint_id (nthreads N - 1)) by lia.
  unfold nthreads, threads_remain, MAXIMUM_WAIT_OBJECTS_PER_THREAD.
  set (per := MAXIMUM_WAIT_OBJECTS - 1).
  pose proof (Z.div_mod N per ltac:(unfold per; lia)) as Hdm.
  pose proof (Z.mod_pos_bound N per ltac:(unfold per; lia)) as Hr.
  assert (0 <= N / per) by (apply Z.div_pos; unfold per; lia).
  assert (N / per <= N) by (apply Z.div_le_upper_bound; unfold per; nia).
  repeat case_decide; rewrite ?to_guint_id in * by nia; intros Hi; nia.
Qed.

(** Up to (C - 1)^2 entries the groups cover the set. *)
Lemma thread_fds_last N :
  2 <= MAXIMUM_WAIT_OBJECTS → 1 <= N < 2 ^ 32 →
  N <= (MAXIMUM_WAIT_OBJECTS - 1) * (MAXIMUM_WAIT_OBJECTS - 1) →
  (nthreads N - 1) * (MAXIMUM_WAIT_OBJECTS - 1)
  + thread_fds N (Z.to_nat (nthreads N - 1)) = N.
Proof.
  intros HC HN Hsq. pose proof (nthreads_range N HC HN) as Hn.
  unfold thread_fds. rewrite (to_guint_id (nthreads N - 1)) by lia.
  rewrite Z2Nat.id by lia. revert Hn.
  unfold nthreads, threads_remain, MAXIMUM_WAIT_OBJECTS_PER_THREAD.
  set (per := MAXIMUM_WAIT_OBJECTS - 1) in *.
  pose proof (Z.div_mod N per ltac:(unfold per; lia)) as Hdm.
  pose proof (Z.mod_pos_bound N per ltac:(unfold per; lia)) as Hr.
  assert (0 <= N / per) by (apply Z.div_pos; unfold per; lia).
  assert (N / per <= N) by (apply Z.div_le_upper_bound; unfold per; nia).
  assert (N / per <= per) by (apply Z.div_le_upper_bound; lia).
  repeat case_decide; rewrite ?to_guint_id in * by nia; intros Hn; nia.
Qed.

(** *** The workers *)

(** The data of a worker: no message queue, the stop event in the first
    slot, and at most [k] more handles. *)
Definition worker_data (stop_handle : Z) (k : nat) (data : GWin32PollThreadData)
  : Prop :=
  msg_fd data = None
  ∧ ∃ more, slots data = (stop_handle, StopFd) :: more ∧ (length more <= k)%nat.

(** What [GetExitCodeThread] finds for a worker: nothing if the thread
    was not created, else the [DWORD] of what its poll returned. *)
Definition worker_exit_code (code : option Z) : Prop :=
  code = None ∨ ∃ r, -1 <= r ∧ code = Some (to_DWORD r).

Definition group_size (N : Z) (i : nat) : nat := Z.to_nat (thread_fds N i).

Lemma spawn_thread_spec os T N i st :
  WAIT_OBJECT_0 = 0 → 2 <= MAXIMUM_WAIT_OBJECTS < 2 ^ 32 →
  (fds_idx st + group_size N i <= length (fds (mem st)))%nat →
  (∀ mf, main_msg_fd st = Some mf → wf_ptr (length (fds (mem st))) mf) →
  ∃ st' data code,
    spawn_thread os T N i st = Some st'
    ∧ fds_idx st' = (fds_idx st + group_size N i)%nat
    ∧ waited MAXIMUM_WAIT_OBJECTS (mem st) (mem st')
    ∧ threads_data st' = threads_data st ++ [data]
    ∧ worker_data (fd (stop_event (mem st))) (group_size N i) data
    ∧ exit_codes st' = exit_codes st ++ [code]
    ∧ worker_exit_code code
    ∧ (∀ mf, main_msg_fd st' = Some mf → wf_ptr (length (fds (mem st))) mf).
Proof.
  intros HW0 HC Hfit Hmsg. unfold spawn_thread. fold (group_size N i).
  destruct (fill_poll_thread_data_spec (fds_idx st) (group_size N i) T
              (Some StopFd) (mem st))
    as (data & m1 & -> & Hl1 & Hc1 & Hs1 & Hwf & Hstop & Ht & more & Hlen & Hsl);
    [lia | done | by right |]. simpl.
  assert (Hwf' : wf_data (length (fds m1)) (set_msg_fd None data)).
  { rewrite Hl1. destruct Hwf as (? & ? & ?). by repeat split. }
  assert (Hsh : waited MAXIMUM_WAIT_OBJECTS (mem st) m1).
  { eapply waited_same_shape; [apply waited_refl|]. repeat split; [done| |done].
    by rewrite Hs1. }
  assert (Hmain : ∀ mf, match msg_fd data with
                        | Some f => Some f
                        | None => main_msg_fd st
                        end = Some mf → wf_ptr (length (fds (mem st))) mf).
  { intros mf. destruct (msg_fd data) as [f|] eqn:Hmf; [|apply Hmsg].
    intros [= <-]. destruct Hwf as (_ & Hm & _). by apply Hm. }
  assert (Hwd : worker_data (fd (stop_event (mem st))) (group_size N i)
                  (set_msg_fd None data)).
  { split; [done|]. exists more. by split. }
  case_decide.
  - simpl. eexists _, _, _. split; [done|]. simpl.
    repeat (split; [done|]). split; [by left | done].
  - destruct (poll_single_thread_spec os (set_msg_fd None data) m1 HW0)
      as (r & m2 & -> & Hr & Hw); [lia | done |]. simpl.
    eexists _, _, _. split; [done|]. simpl.
    split; [done|]. split; [by eapply waited_trans|].
    repeat (split; [done|]). split; [right; by exists r | done].
Qed.

Lemma spawn_threads_spec os T N ids st :
  WAIT_OBJECT_0 = 0 → 2 <= MAXIMUM_WAIT_OBJECTS < 2 ^ 32 →
  (fds_idx st + sum_list_with (group_size N) ids <= length (fds (mem st)))%nat →
  (∀ mf, main_msg_fd st = Some mf → wf_ptr (length (fds (mem st))) mf) →
  ∃ st' datas codes,
    spawn_threads os T N ids st = Some st'
    ∧ fds_idx st' = (fds_idx st + sum_list_with (group_size N) ids)%nat
    ∧ waited MAXIMUM_WAIT_OBJECTS (mem st) (mem st')
    ∧ threads_data st' = threads_data st ++ datas
    ∧ Forall2 (λ i, worker_data (fd (stop_event (mem st))) (group_size N i))
        ids datas
    ∧ exit_codes st' = exit_codes st ++ codes
    ∧ Forall worker_exit_code codes
    ∧ (∀ mf, main_msg_fd st' = Some mf → wf_ptr (length (fds (mem st))) mf).
Proof.
  intros HW0 HC. revert st. induction ids as [|i ids IH]; intros st Hfit Hmsg.
  - exists st, [], []. simpl. rewrite !app_nil_r, Nat.add_0_r.
    repeat (split; [done|]). split; [apply waited_refl|].
    repeat (split; [done|]). done.
  - simpl in Hfit.
    destruct (spawn_thread_spec os T N i st HW0 HC)
      as (st1 & data & code & Hsp & Hidx & Hw & Hd & Hwd & Hc & Hcode & Hmsg1);
      [lia | done |].
    destruct Hw as (Hl & Hs & Hcalls).
    destruct (IH st1) as (st' & datas & codes & Hsp' & Hidx' & Hw' & Hd' & Hwd' & Hc' & Hcodes & Hmsg');
      [rewrite Hl, Hidx; lia | by rewrite Hl |].
    exists st', (data :: datas), (code :: codes). simpl. rewrite Hsp. simpl.
    split; [done|]. split; [lia|].
    split; [eapply waited_trans; [|done]; by repeat split|].
    split; [by rewrite Hd', Hd, <- app_assoc|].
    split; [constructor; [done | by rewrite <- Hs]|].
    split; [by rewrite Hc', Hc, <- app_assoc|].
    split; [by constructor|]. by rewrite <- Hl.
Qed.

(** The entries handed to the groups: all of the set up to (C - 1)^2
    entries, the first of them beyond. *)
Lemma group_sizes_sum N :
  2 <= MAXIMUM_WAIT_OBJECTS → 1 <= N < 2 ^ 32 →
  Z.of_nat (sum_list_with (group_size N) (seq 0 (Z.to_nat (nthreads N)))) <= N
  ∧ (N <= (MAXIMUM_WAIT_OBJECTS - 1) * (MAXIMUM_WAIT_OBJECTS - 1) →
     Z.of_nat (sum_list_with (group_size N) (seq 0 (Z.to_nat (nthreads N)))) = N).
Proof.
  intros HC HN. pose proof (nthreads_range N HC HN) as [Hn HnN].
  assert (Hinner : ∀ k, Z.of_nat k <= nthreads N - 1 →
            Z.of_nat (sum_list_with (group_size N) (seq 0 k))
            = Z.of_nat k * (MAXIMUM_WAIT_OBJECTS - 1)).
  { induction k as [|k IH]; intros Hk; [done|].
    rewrite seq_S, sum_list_with_app. simpl.
    unfold group_size at 2.
    rewrite (thread_fds_inner N k HC HN) by lia.
    rewrite Nat2Z.inj_add, IH by lia. lia. }
  replace (Z.to_nat (nthreads N)) with (S (Z.to_nat (nthreads N - 1))) by lia.
  rewrite seq_S, sum_list_with_app. simpl.
  rewrite Nat2Z.inj_add, Hinner by lia. unfold group_size.
  pose proof (thread_fds_range N (Z.to_nat (nthreads N - 1)) HC).
  rewrite Nat.add_0_r, !Z2Nat.id by lia. split.
  - pose proof (thread_fds_fits N (Z.to_nat (nthreads N - 1)) HC HN) as Hfit.
    rewrite Z2Nat.id in Hfit by lia. lia.
  - intros Hsq. by apply thread_fds_last.
Qed.

(** *** [g_poll] *)

Lemma merge_exit_code_failed codes : foldl merge_exit_code (-1) codes = -1.
Proof.
  induction codes as [|[c|] codes IH]; simpl; done.
Qed.

Lemma merge_exit_code_error retval :
  merge_exit_code retval (Some (to_DWORD (-1))) = -1.
Proof.
  unfold merge_exit_code. destruct (decide (retval = -1)); [done|].
  by destruct (decide (to_DWORD (-1) = to_DWORD (-1))).
Qed.

(** One exit code of -1 makes the merged value -1. *)
Lemma merge_exit_codes_error retval codes :
  Some (to_DWORD (-1)) ∈ codes → foldl merge_exit_code retval codes = -1.
Proof.
  revert retval. induction codes as [|c codes IH]; intros retval Hin.
  - by apply elem_of_nil in Hin.
  - change (foldl merge_exit_code (merge_exit_code retval c) codes = -1).
    apply elem_of_cons in Hin as [<-|Hin].
    + rewrite merge_exit_code_error. apply merge_exit_code_failed.
    + by apply IH.
Qed.

Lemma reset_revents_zero m : Forall (λ f, revents f = 0) (fds (reset_revents m)).
Proof. simpl. apply Forall_fmap, Forall_forall. by intros f _. Qed.

Lemma reset_revents_length m : length (fds (reset_revents m)) = length (fds m).
Proof. simpl. apply length_fmap. Qed.

(** The path without threads. *)
Lemma g_poll_single_spec os l timeout :
  WAIT_OBJECT_0 = 0 → 2 <= MAXIMUM_WAIT_OBJECTS < 2 ^ 32 →
  Z.of_nat (length l) <= MAXIMUM_WAIT_OBJECTS →
  ∃ data m1 r m2,
    fill_poll_thread_data 0 (length l) (timeout_arg timeout) None zero_data
      (single_mem l) = Some (data, m1)
    ∧ poll_single_thread os data m1 = Some (r, m2)
    ∧ g_poll os l timeout
      = Some (fds (if decide (r = -1) then reset_revents m2 else m2), r,
              calls (if decide (r = -1) then reset_revents m2 else m2))
    ∧ length (fds m2) = length l
    ∧ Forall (λ c, nCount c <= MAXIMUM_WAIT_OBJECTS) (calls m2).
Proof.
  intros HW0 HC Hn. unfold g_poll. rewrite decide_True by done.
  destruct (fill_poll_thread_data_spec 0 (length l) (timeout_arg timeout) None
              (single_mem l))
    as (data & m1 & Hfill & Hl1 & Hc1 & _ & Hwf & _); [lia | done | by left |].
  rewrite Hfill. simpl.
  destruct (poll_single_thread_spec os data m1 HW0) as (r & m2 & Hp & _ & Hw);
    [lia | by rewrite Hl1 |].
  rewrite Hp. simpl. exists data, m1, r, m2. repeat (split; [done|]).
  destruct Hw as (Hl2 & _ & new & Hc2 & Hnew). split; [by rewrite Hl2, Hl1|].
  by rewrite Hc2, Hc1.
Qed.

(** The path with threads. *)
Lemma g_poll_threads_spec os l timeout :
  WAIT_OBJECT_0 = 0 → 2 <= MAXIMUM_WAIT_OBJECTS < 2 ^ 32 →
  MAXIMUM_WAIT_OBJECTS < Z.of_nat (length l) < 2 ^ 32 →
  ∃ st m4 r0,
    spawn_all os l timeout = Some st
    ∧ fds_idx st
      = sum_list_with (group_size (Z.of_nat (length l)))
          (seq 0 (Z.to_nat (nthreads (Z.of_nat (length l)))))
    ∧ Forall2 (λ i, worker_data (CreateEventW_ret os)
                      (group_size (Z.of_nat (length l)) i))
        (seq 0 (Z.to_nat (nthreads (Z.of_nat (length l))))) (threads_data st)
    ∧ Forall worker_exit_code (exit_codes st)
    ∧ length (fds m4) = length l
    ∧ Forall (λ c, nCount c <= MAXIMUM_WAIT_OBJECTS) (calls m4)
    ∧ g_poll os l timeout
      = Some (fds (if decide (foldl merge_exit_code r0 (exit_codes st) = -1)
                   then reset_revents m4 else m4),
              foldl merge_exit_code r0 (exit_codes st),
              calls m4).
Proof.
  intros HW0 HC HN. set (N := Z.of_nat (length l)) in *.
  pose proof (nthreads_range N ltac:(lia) ltac:(lia)) as [Hn _].
  pose proof (group_sizes_sum N ltac:(lia) ltac:(lia)) as [Hsum _].
  unfold g_poll. fold N. rewrite decide_False by lia.
  unfold spawn_all. fold N.
  destruct (spawn_threads_spec os (timeout_arg timeout) N
              (seq 0 (Z.to_nat (nthreads N)))
              {| fds_idx := 0; main_msg_fd := None; threads_data := [];
                 exit_codes := []; mem := threads_mem os l |} HW0 HC)
    as (st & datas & codes & Hsp & Hidx & Hw & Hd & Hwd & Hc & Hcodes & Hmsg);
    [simpl; lia | done |].
  simpl in Hidx, Hw, Hd, Hwd, Hc, Hmsg. subst datas codes.
  rewrite Hsp. simpl.
  destruct Hw as (Hl & Hs & new & Hcalls & Hnew). simpl in Hcalls.
  set (hs := thread_handle os <$> seq 0 (Z.to_nat (nthreads N))).
  assert (Hhs : Z.of_nat (length hs) <= MAXIMUM_WAIT_OBJECTS).
  { unfold hs. rewrite length_fmap, length_seq. lia. }
  assert (Hfinal : ∀ (c1 : wait_call) m4,
            nCount c1 <= MAXIMUM_WAIT_OBJECTS →
            same_shape (do_wait os (WaitForMultipleObjects hs true INFINITE)
                          (do_wait os c1 (mem st)).2).2 m4 →
            length (fds m4) = length l
            ∧ Forall (λ c, nCount c <= MAXIMUM_WAIT_OBJECTS) (calls m4)).
  { intros c1 m4 Hc1 (Hl4 & _ & Hc4). split; [by rewrite Hl4; simpl|].
    rewrite Hc4. simpl. rewrite Hcalls. repeat (apply Forall_app; split); [done|..].
    - by repeat constructor.
    - repeat constructor. simpl. fold hs. done. }
  destruct (main_msg_fd st) as [mf|] eqn:Hmf.
  - simpl. case_decide.
    + destruct (or_revents_total mf G_IO_IN
                  (do_wait os (WaitForMultipleObjects hs true INFINITE)
                     (do_wait os (MsgWaitForMultipleObjectsEx hs (timeout_arg timeout))
                        (mem st)).2).2) as (m4 & Hor & Hsh).
      { simpl. rewrite Hl. by apply Hmsg. }
      simpl in Hor. rewrite Hor. simpl.
      destruct (Hfinal (MsgWaitForMultipleObjectsEx hs (timeout_arg timeout)) m4)
        as [Hl4 Hc4]; [done | done |].
      exists st, m4, 1. repeat (split; [done|]).
      by destruct (decide (foldl merge_exit_code 1 (exit_codes st) = -1)).
    + simpl.
      destruct (Hfinal (MsgWaitForMultipleObjectsEx hs (timeout_arg timeout)) _
                  Hhs (conj eq_refl (conj eq_refl eq_refl))) as [Hl4 Hc4].
      eexists st, _, 0. repeat (split; [done|]).
      by destruct (decide (foldl merge_exit_code 0 (exit_codes st) = -1)).
  - simpl.
    destruct (Hfinal (WaitForMultipleObjects hs false (timeout_arg timeout)) _
                Hhs (conj eq_refl (conj eq_refl eq_refl))) as [Hl4 Hc4].
    eexists st, _, 0. repeat (split; [done|]).
    by destruct (decide (foldl merge_exit_code 0 (exit_codes st) = -1)).
Qed.


(** *** Errors *)

(** The timeout of the first wait of [poll_single_thread]. *)
Definition first_timeout (data : GWin32PollThreadData) : Z :=
  if decide ((1 < length (slots data))%nat
             ∨ ((0 < length (slots data))%nat ∧ msg_fd data ≠ None))
  then 0 else timeout_ms data.

Lemma classify_failed msg n : classify msg n WAIT_FAILED = Failed.
Proof. unfold classify. by rewrite decide_True. Qed.

Lemma poll_rest_wait_failed os msg stop sl timeout m :
  (first_wait os msg sl timeout m).1 = WAIT_FAILED →
  poll_rest os msg stop sl timeout m
  = Some (-1, (first_wait os msg sl timeout m).2).
Proof.
  funelim (poll_rest os msg stop sl timeout m); intros Hf; try done;
    pose proof e as E; rewrite Hf, classify_failed in E; discriminate.
Qed.

Lemma poll_single_thread_wait_failed os data m :
  (first_wait os (msg_fd data) (slots data) (first_timeout data) m).1
  = WAIT_FAILED →
  ∃ m', poll_single_thread os data m = Some (-1, m').
Proof.
  unfold poll_single_thread, first_timeout. intros Hf.
  destruct (decide ((1 < length (slots data))%nat
                    ∨ ((0 < length (slots data))%nat ∧ msg_fd data ≠ None))).
  - rewrite (poll_rest_wait_failed _ _ _ _ _ _ Hf). simpl. by eexists.
  - rewrite (poll_rest_wait_failed _ _ _ _ _ _ Hf). by eexists.
Qed.

(** [g_poll] returns for every set; when it returns -1 every
    [revents] of the set is 0.  Without threads it returns -1 when the
    first wait fails, and whenever [poll_single_thread] returns -1.
    With threads it returns -1 as soon as one worker's exit code is the
    [DWORD] of -1. *)
Lemma g_poll_error_cases os l timeout :
  WAIT_OBJECT_0 = 0 → 2 <= MAXIMUM_WAIT_OBJECTS < 2 ^ 32 →
  Z.of_nat (length l) < 2 ^ 32 →
  ∃ l' ret cs,
    g_poll os l timeout = Some (l', ret, cs)
    ∧ length l' = length l
    ∧ (ret = -1 → Forall (λ f, revents f = 0) l')
    ∧ (Z.of_nat (length l) <= MAXIMUM_WAIT_OBJECTS →
       ∀ data m1,
         fill_poll_thread_data 0 (length l) (timeout_arg timeout) None
           zero_data (single_mem l) = Some (data, m1) →
         (first_wait os (msg_fd data) (slots data) (first_timeout data) m1).1
         = WAIT_FAILED
         ∨ (∃ m2, poll_single_thread os data m1 = Some (-1, m2)) →
         ret = -1)
    ∧ (MAXIMUM_WAIT_OBJECTS < Z.of_nat (length l) →
       ∀ st, spawn_all os l timeout = Some st →
             Some (to_DWORD (-1)) ∈ exit_codes st → ret = -1).
Proof.
  intros HW0 HC HN.
  destruct (decide (Z.of_nat (length l) <= MAXIMUM_WAIT_OBJECTS)) as [Hle|Hgt].
  - destruct (g_poll_single_spec os l timeout HW0 HC Hle)
      as (data & m1 & r & m2 & Hfill & Hp & Hg & Hl2 & _).
    eexists _, r, _. split; [exact Hg|].
    split; [|split; [|split]].
    + destruct (decide (r = -1)); [by rewrite reset_revents_length | done].
    + intros ->. rewrite decide_True by done. apply reset_revents_zero.
    + intros _ data' m1' Hfill' Hfail. rewrite Hfill in Hfill'.
      injection Hfill' as <- <-.
      destruct Hfail as [Hf|[m2' Hp']].
      * destruct (poll_single_thread_wait_failed os data m1 Hf) as [m2' Hp'].
        rewrite Hp in Hp'. by injection Hp' as -> _.
      * rewrite Hp in Hp'. by injection Hp' as -> _.
    + intros Hgt. lia.
  - destruct (g_poll_threads_spec os l timeout HW0 HC)
      as (st & m4 & r0 & Hsp & _ & _ & _ & Hl4 & _ & Hg); [lia|].
    eexists _, _, _. split; [exact Hg|].
    split; [|split; [|split]].
    + destruct (decide (foldl merge_exit_code r0 (exit_codes st) = -1));
        [by rewrite reset_revents_length | done].
    + intros ->. rewrite decide_True by done. apply reset_revents_zero.
    + intros Hle. lia.
    + intros _ st' Hsp' Hin. rewrite Hsp in Hsp'. injection Hsp' as <-.
      by apply merge_exit_codes_error.
Qed.

(** *** The partition *)

(** A set of N > C entries is given to min (ceil (N / (C - 1)), C - 1)
    workers; the i-th has the stop event in its first slot and at most
    [group_size N i] <= C - 1 more handles; the groups take N entries
    when N <= (C - 1)^2, so that the number of workers is then
    ceil (N / (C - 1)), and not more than N otherwise; no wait call of
    the run is given more than C objects. *)
Lemma g_poll_group_count os l timeout :
  WAIT_OBJECT_0 = 0 → 2 <= MAXIMUM_WAIT_OBJECTS < 2 ^ 32 →
  MAXIMUM_WAIT_OBJECTS < Z.of_nat (length l) < 2 ^ 32 →
  ∃ st l' ret cs,
    spawn_all os l timeout = Some st
    ∧ g_poll os l timeout = Some (l', ret, cs)
    ∧ Z.of_nat (length (threads_data st))
      = Z.min ((Z.of_nat (length l) + MAXIMUM_WAIT_OBJECTS - 2)
               / (MAXIMUM_WAIT_OBJECTS - 1))
              (MAXIMUM_WAIT_OBJECTS - 1)
    ∧ Forall2 (λ i data,
                 worker_data (CreateEventW_ret os)
                   (group_size (Z.of_nat (length l)) i) data
                 ∧ Z.of_nat (group_size (Z.of_nat (length l)) i)
                   <= MAXIMUM_WAIT_OBJECTS - 1
                 ∧ Z.of_nat (length (slots data)) <= MAXIMUM_WAIT_OBJECTS)
        (seq 0 (length (threads_data st))) (threads_data st)
    ∧ (fds_idx st <= length l)%nat
    ∧ (Z.of_nat (length l)
       <= (MAXIMUM_WAIT_OBJECTS - 1) * (MAXIMUM_WAIT_OBJECTS - 1) →
       fds_idx st = length l
       ∧ Z.of_nat (length (threads_data st))
         = (Z.of_nat (length l) + MAXIMUM_WAIT_OBJECTS - 2)
           / (MAXIMUM_WAIT_OBJECTS - 1))
    ∧ Forall (λ c, nCount c <= MAXIMUM_WAIT_OBJECTS) cs.
Proof.
  intros HW0 HC HN. set (N := Z.of_nat (length l)) in *.
  assert (HC2 : 2 <= MAXIMUM_WAIT_OBJECTS) by lia.
  assert (HN1 : 1 <= N < 2 ^ 32) by lia.
  destruct (g_poll_threads_spec os l timeout HW0 HC HN)
    as (st & m4 & r0 & Hsp & Hidx & Hwd & _ & _ & Hcs & Hg).
  fold N in Hidx, Hwd.
  pose proof (nthreads_range N HC2 HN1) as [Hn _].
  assert (HN0 : 0 <= N < 2 ^ 32) by lia.
  pose proof (nthreads_spec N HC2 HN0) as Hnt.
  pose proof (group_sizes_sum N HC2 HN1) as [Hsum Hall].
  pose proof (Forall2_length _ _ _ Hwd) as Hlen. rewrite length_seq in Hlen.
  eexists st, _, _, _. split; [exact Hsp|]. split; [exact Hg|].
  split; [by rewrite <- Hlen, Z2Nat.id, Hnt by lia|].
  split; [|split; [|split]].
  - rewrite <- Hlen. eapply Forall2_impl; [exact Hwd|].
    intros i data Hd. split; [done|].
    pose proof (thread_fds_range N i HC2) as Hr. unfold group_size in *.
    split; [lia|]. destruct Hd as (_ & more & -> & Hmore).
    rewrite length_cons. lia.
  - rewrite Hidx. lia.
  - intros Hsq. split; [rewrite Hidx; specialize (Hall Hsq); lia|].
    rewrite <- Hlen, Z2Nat.id, Hnt by lia.
    apply Z.min_l. apply Z.lt_succ_r, Z.div_lt_upper_bound; nia.
  - done.
Qed.

End Win32Facts.

(** *** Sample runs *)

(** The constants of the Windows headers. *)
Definition win32_config : Win32.Config :=
  {| Win32.G_IO_IN := 1; Win32.G_WIN32_MSG_HANDLE := 19981206;
     Win32.MAXIMUM_WAIT_OBJECTS := 64; Win32.INFINITE := 4294967295;
     Win32.WAIT_OBJECT_0 := 0; Win32.WAIT_TIMEOUT := 258;
     Win32.WAIT_IO_COMPLETION := 192; Win32.WAIT_FAILED := 4294967295 |}.

(** A system on which every wait times out. *)
Definition idle_os : Win32.OS :=
  {| Win32.wait_result := λ _ _, 258; Win32.CreateEventW_ret := 7;
     Win32.thread_handle := λ i, Z.of_nat (100 + i) |}.

(** The entry of the handle [1000 + i], with a result left by an
    earlier call. *)
Definition handle_fd (i : nat) : Win32.GPollFD :=
  {| Win32.fd := Z.of_nat (1000 + i); Win32.events := 1; Win32.revents := 1 |}.

(** A set of 3970 entries, with C = 64: 63 workers, not
    ceil (3970 / 63) = 64; the last of them takes one entry, the workers
    take 3907 entries together, and the 63 entries after these come
    back as they went in, with a return value of 0. *)
Lemma g_poll_caps_the_number_of_workers :
  (3970 + Win32.MAXIMUM_WAIT_OBJECTS (Config := win32_config) - 2)
  / (Win32.MAXIMUM_WAIT_OBJECTS (Config := win32_config) - 1) = 64
  ∧ Win32.nthreads (cfg := win32_config) 3970 = 63
  ∧ (Win32.spawn_all (cfg := win32_config) idle_os (handle_fd <$> seq 0 3970) 0
     ≫= λ st, Some (length (Win32.threads_data st), Win32.fds_idx st))
    = Some (63%nat, 3907%nat)
  ∧ (Win32.g_poll (cfg := win32_config) idle_os (handle_fd <$> seq 0 3970) 0
     ≫= λ '(l', ret, _),
          Some (ret, length (base.filter (λ f, Win32.revents f ≠ 0) l'),
                drop 3907 l'))
    = Some (0, 63%nat, handle_fd <$> seq 3907 63).
Proof.
  split; [reflexivity|]. split; [reflexivity|].
  split; vm_compute; reflexivity.
Qed.

(** * Further properties *)

(** ** G_OS_NONE: what a call does *)

Section BareMetalBehaviour.
Import BareMetal.
Context {cfg : Config}.
Variable g_wait_sleep : Z -> Z -> World -> World.

Lemma mark_mark h h' (l : list GPollFD) : mark h' <$> (mark h <$> l) = mark h' <$> l.
Proof. rewrite <- list_fmap_compose. by apply list_fmap_ext. Qed.

Lemma ready_count_mark h h' (l : list GPollFD) : ready_count h' (mark h <$> l) = ready_count h' l.
Proof.
  induction l as [|p l IH]; [done|].
  rewrite fmap_cons, !ready_count_cons, IH. done.
Qed.

(** What an entry looks like after a readiness pass. *)
Definition polled (p p' : GPollFD) : Prop :=
  fd p' = fd p ∧ events p' = events p ∧ user_data p' = user_data p
  ∧ (revents p' = 0 ∨ (revents p' = G_IO_IN ∧ fd p = G_WAIT_WAKEUP_HANDLE)).

Lemma polled_mark h (l : list GPollFD) : Forall2 polled l (mark h <$> l).
Proof.
  apply Forall2_fmap_r, Forall_Forall2_diag, Forall_forall. intros p _.
  unfold polled, mark. simpl. repeat (split; [done|]).
  destruct (is_ready h p) eqn:Hr; [right | by left]. split; [done|].
  unfold is_ready in Hr. apply andb_prop in Hr as [Hfd _].
  by apply bool_decide_eq_true_1 in Hfd.
Qed.

(** X1: The result of [g_poll], whatever the timeout: the call returns, the
    return value is the number of entries with a [revents] other than 0,
    every entry keeps [fd], [events] and [user_data], and [revents] is
    0 or, for a wakeup entry only, [G_IO_IN]. *)
Theorem g_poll_result tok l timeout w :
  valid_set (heap w) l → sleep_keeps_handles g_wait_sleep l →
  Z.of_nat (length l) <= G_MAXINT → G_IO_IN ≠ 0 →
  ∃ l' r w',
    g_poll g_wait_sleep tok l timeout w = Some (l', r, w')
    ∧ r = Z.of_nat (length (base.filter (λ p, revents p ≠ 0) l'))
    ∧ 0 <= r <= Z.of_nat (length l)
    ∧ Forall2 polled l l'.
Proof.
  intros Hv Hkeep Hlen Hin.
  destruct (g_poll_unfold g_wait_sleep tok l timeout w Hv Hkeep)
    as (h1 & l' & r & w2 & h3 & Hh1 & Hloop & _ & Hpoll & _).
  exists l', r, (with_heap w2 h3). split; [done|].
  pose proof (g_poll_counts_ready_entries g_wait_sleep tok l timeout w _ _ _
                Hv Hkeep Hlen Hin Hpoll) as Hr.
  assert (Hv1 : valid_set (heap (with_heap w h1)) l)
    by (eapply set_tokens_valid; eauto).
  assert (Hpl : Forall2 polled l l').
  { destruct (poll_loop_cases g_wait_sleep tok timeout (compute_deadline timeout w)
                l (with_heap w h1) Hv1 Hkeep) as (r1 & _ & Hcases).
    destruct Hcases as [[_ Hpl] | (t & r2 & _ & _ & Hpl)];
      rewrite Hpl in Hloop; injection Hloop as <- _ _.
    - apply polled_mark.
    - rewrite mark_mark. apply polled_mark. }
  split; [done|]. split; [|done].
  rewrite Hr. pose proof (length_filter (λ p, revents p ≠ 0) l').
  apply Forall2_length in Hpl. lia.
Qed.

(** X2: The calls that do not block: [timeout = 0], and a negative
    [timeout] other than -1, whose deadline lies before the call.  One
    readiness pass is made on the state at the call, the sleep hook is
    not called (clock and wake log are as before, and the result is the
    same under any hook), no flag is written. *)
Theorem g_poll_without_sleep tok l timeout w :
  valid_set (heap w) l → Z.of_nat (length l) <= G_MAXINT →
  timeout = 0
  ∨ (timeout < -1 ∧ 0 <= G_TIME_SPAN_MILLISECOND
     ∧ - 2 ^ 63 <= now w + timeout * G_TIME_SPAN_MILLISECOND
     ∧ now w <= G_MAXINT64) →
  ∃ h3,
    g_poll g_wait_sleep tok l timeout w
    = Some (mark (heap w) <$> l, Z.of_nat (ready_count (heap w) l), with_heap w h3)
    ∧ (∀ a, signalled <$> h3 !! a = signalled <$> heap w !! a)
    ∧ (∀ p, p ∈ l → fd p = G_WAIT_WAKEUP_HANDLE →
         ∃ k, h3 !! user_data p = Some k ∧ token k = NULL).
Proof.
  intros Hv Hlen Ht.
  destruct (set_tokens_total tok l (heap w) Hv) as [h1 Hh1].
  assert (Hv1 : valid_set h1 l) by (eapply set_tokens_valid; eauto).
  assert (Hs1 : ∀ a, signalled <$> h1 !! a = signalled <$> heap w !! a)
    by (intros a; by eapply set_tokens_signalled).
  destruct (set_tokens_total NULL l h1 Hv1) as [h3 Hh3].
  assert (Hdone : ∀ r, after_check timeout (compute_deadline timeout w) false r
                         (with_heap w h1) = Done).
  { intros r. unfold after_check.
    destruct Ht as [->|(Hneg & Hms & Hlo & Hhi)];
      [rewrite decide_True by (right; by left); done|].
    case_decide; [done|]. rewrite decide_False by lia.
    unfold compute_deadline, g_get_monotonic_time.
    rewrite (decide_False (P := timeout = -1)) by lia.
    simpl. rewrite to_gint64_id by (unfold G_MAXINT64 in *; nia).
    rewrite decide_True by nia. done. }
  exists h3. split; [|split].
  - unfold g_poll. rewrite Hh1. cbn -[after_check compute_deadline].
    rewrite (check_fds_spec h1 l Hv1 Hlen). cbn -[after_check compute_deadline].
    rewrite Hdone.
    cbn. rewrite (set_tokens_same_ids NULL l _ h1 (same_ids_mark h1 l)), Hh3.
    simpl. rewrite (mark_ext (heap w) h1 l Hs1).
    rewrite <- (list_fmap_id l) at 2.
    rewrite (ready_count_ext (heap w) h1 id l); [done|].
    intros p _. by apply is_ready_ext.
  - intros a. by rewrite (set_tokens_signalled _ _ _ _ a Hh3).
  - intros p. by apply (set_tokens_sets _ _ _ _ _ Hh3).
Qed.

Lemma ready_count_signalled h h' (l : list GPollFD) :
  (∀ a, signalled <$> h' !! a = signalled <$> h !! a) →
  ready_count h' l = ready_count h l.
Proof.
  intros Hs. induction l as [|p l IH]; [done|].
  by rewrite !ready_count_cons, IH, (is_ready_ext h h' p).
Qed.

Lemma ready_count_zero h (l : list GPollFD) :
  ready_count h l = 0%nat ↔ ¬ Exists (λ p, is_ready h p = true) l.
Proof.
  induction l as [|p l IH].
  - split; [intros _ H; inversion H | done].
  - rewrite ready_count_cons, Exists_cons. destruct (is_ready h p).
    + split; [lia | intros H; exfalso; apply H; by left].
    + rewrite Nat.add_0_l, IH. intuition discriminate.
Qed.

(** X3: The call that waits without a limit: [timeout = -1], when no
    handle of the set is signalled at the call.  The clock is not read.
    The hook is called once, with the call's token and
    [G_WAIT_INFINITE], in a state where every wakeup handle of the set
    carries the token and [g_wait_is_set] answers FALSE; after it one
    more pass is made, and its count is returned, 0 included: the call
    does not go back to sleep after a wake that has signalled none of
    its handles. *)
Theorem g_poll_sleeps_once tok l w :
  valid_set (heap w) l → sleep_keeps_handles g_wait_sleep l →
  Z.of_nat (length l) <= G_MAXINT →
  ready_count (heap w) l = 0%nat →
  ∃ h1 h3,
    set_tokens tok l (heap w) = Some h1
    ∧ (∀ p, p ∈ l → fd p = G_WAIT_WAKEUP_HANDLE →
         ∃ k, h1 !! user_data p = Some k ∧ token k = tok)
    ∧ g_wait_is_set {| fds := l |} (with_heap w h1) = Some false
    ∧ let ws := g_wait_sleep tok G_WAIT_INFINITE (with_heap w h1) in
      g_poll g_wait_sleep tok l (-1) w
      = Some (mark (heap ws) <$> l, Z.of_nat (ready_count (heap ws) l),
              with_heap ws h3).
Proof.
  intros Hv Hkeep Hlen Hnone.
  destruct (set_tokens_total tok l (heap w) Hv) as [h1 Hh1].
  assert (Hv1 : valid_set h1 l) by (eapply set_tokens_valid; eauto).
  assert (Hs1 : ∀ a, signalled <$> h1 !! a = signalled <$> heap w !! a)
    by (intros a; by eapply set_tokens_signalled).
  assert (Hr1 : ready_count h1 l = 0%nat).
  { by rewrite (ready_count_signalled (heap w) h1 l Hs1). }
  assert (Hsleep : ∀ deadline,
            after_check (-1) deadline false 0 (with_heap w h1)
            = Sleep G_WAIT_INFINITE).
  { intros deadline. unfold after_check.
    rewrite decide_False by (intros [?|[?|?]]; done).
    by rewrite decide_True by done. }
  set (ws := g_wait_sleep tok G_WAIT_INFINITE (with_heap w h1)).
  assert (Hvs : valid_set (heap ws) l) by (by apply Hkeep).
  destruct (set_tokens_total NULL l (heap ws) Hvs) as [h3 Hh3].
  exists h1, h3. split; [done|].
  split; [intros p; by apply (set_tokens_sets _ _ _ _ _ Hh1)|]. split.
  - unfold g_wait_is_set. simpl. rewrite (g_wait_is_set_loop_spec _ _ Hv1).
    f_equal. apply bool_decide_eq_false_2. by apply ready_count_zero.
  - cbn zeta. fold ws. unfold g_poll. rewrite Hh1.
    cbn -[after_check compute_deadline].
    rewrite (check_fds_spec h1 l Hv1 Hlen), Hr1.
    cbn -[after_check compute_deadline]. change (Z.of_nat 0) with 0.
    rewrite Hsleep. fold ws.
    rewrite (check_fds_spec (heap ws) (mark h1 <$> l)).
    + cbn -[after_check compute_deadline]. rewrite after_check_slept.
      cbn. rewrite mark_mark, ready_count_mark.
      rewrite (set_tokens_same_ids NULL l _ _ (same_ids_mark (heap ws) l)), Hh3.
      done.
    + eapply valid_set_same_ids; [apply same_ids_mark | done].
    + by rewrite length_fmap.
Qed.

(** X4: [g_wakeup_signal] and a call of [g_poll] with the token [tok] (the
    address of a local, so not [NULL]) on a set that holds the handle
    [a]: a signal that arrives while the call is in its wait loop sets
    the flag and calls [g_wait_wake (tok)]; a signal after the call has
    returned sets the flag and wakes nobody. *)
Theorem g_wakeup_signal_wakes_the_running_poll tok l timeout w p :
  valid_set (heap w) l → sleep_keeps_handles g_wait_sleep l →
  tok ≠ NULL → p ∈ l → fd p = G_WAIT_WAKEUP_HANDLE →
  ∃ h1 l' r w',
    set_tokens tok l (heap w) = Some h1
    ∧ g_poll g_wait_sleep tok l timeout w = Some (l', r, w')
    ∧ (∃ w1, g_wakeup_signal (user_data p) (with_heap w h1) = Some w1
           ∧ wake_log w1 = tok :: wake_log w
           ∧ is_ready (heap w1) p = true)
    ∧ (∃ w1, g_wakeup_signal (user_data p) w' = Some w1
           ∧ wake_log w1 = wake_log w'
           ∧ is_ready (heap w1) p = true).
Proof.
  intros Hv Hkeep Htok Hp Hfd.
  destruct (g_poll_unfold g_wait_sleep tok l timeout w Hv Hkeep)
    as (h1 & l' & r & w2 & h3 & Hh1 & _ & Hh3 & Hpoll & _).
  exists h1, l', r, (with_heap w2 h3). split; [done|]. split; [done|].
  assert (Hready : ∀ h t, is_ready
            (<[user_data p := {| signalled := TRUE; token := t |}]> h) p = true).
  { intros h t. unfold is_ready. rewrite bool_decide_true by done.
    rewrite lookup_insert_eq. done. }
  split.
  - destruct (set_tokens_sets _ _ _ _ _ Hh1 Hp Hfd) as (k & Hk & Hkt).
    unfold g_wakeup_signal. simpl. rewrite Hk. simpl. rewrite Hkt.
    rewrite decide_True by done. eexists. split; [done|]. split; [done|].
    apply Hready.
  - destruct (set_tokens_sets _ _ _ _ _ Hh3 Hp Hfd) as (k & Hk & Hkt).
    unfold g_wakeup_signal. simpl. rewrite Hk. simpl. rewrite Hkt.
    rewrite decide_False by (intros H; by apply H). eexists.
    split; [done|]. split; [done|]. apply Hready.
Qed.

(** X5: [g_wait_is_set] answers what a call of [g_poll] with [timeout = 0]
    on the same set would find: TRUE exactly when that call returns a
    count above 0. *)
Theorem g_wait_is_set_agrees_with_g_poll tok l w :
  valid_set (heap w) l → Z.of_nat (length l) <= G_MAXINT →
  ∃ b l' r w',
    g_wait_is_set {| fds := l |} w = Some b
    ∧ g_poll g_wait_sleep tok l 0 w = Some (l', r, w')
    ∧ (b = true ↔ r > 0).
Proof.
  intros Hv Hlen.
  destruct (g_poll_nonblocking g_wait_sleep tok l w Hv Hlen) as (h3 & Hpoll & _).
  eexists _, _, _, _. split; [|split; [exact Hpoll|]].
  - unfold g_wait_is_set. simpl. apply (g_wait_is_set_loop_spec _ _ Hv).
  - pose proof (ready_count_zero (heap w) l) as Hz.
    rewrite bool_decide_eq_true. split.
    + intros Hex. destruct (ready_count (heap w) l); [|lia].
      exfalso. by apply Hz.
    + intros Hpos. destruct (decide (Exists (λ p, is_ready (heap w) p = true) l))
        as [|Hno]; [done|]. apply Hz in Hno. lia.
Qed.

(** X6: The flag of a handle under sequences of calls: signals coalesce,
    an acknowledge undoes any number of them, a second acknowledge
    changes nothing, and neither call touches the token or another
    handle. *)
Theorem g_wakeup_flag_laws a w :
  heap <$> (g_wakeup_signal a w ≫= g_wakeup_signal a)
  = heap <$> g_wakeup_signal a w
  ∧ heap <$> (g_wakeup_signal a w ≫= g_wakeup_acknowledge a)
    = heap <$> g_wakeup_acknowledge a w
  ∧ g_wakeup_acknowledge a w ≫= g_wakeup_acknowledge a
    = g_wakeup_acknowledge a w
  ∧ (∀ w' b, g_wakeup_signal a w = Some w' ∨ g_wakeup_acknowledge a w = Some w' →
       token <$> heap w' !! b = token <$> heap w !! b
       ∧ (b ≠ a → heap w' !! b = heap w !! b)).
Proof.
  destruct (heap w !! a) as [k|] eqn:Hk.
  - destruct (g_wakeup_signal_heap a w k Hk) as (w1 & Hs & Hh1 & _).
    assert (Hk1 : heap w1 !! a = Some {| signalled := TRUE; token := token k |})
      by (by rewrite Hh1, lookup_insert_eq).
    destruct (g_wakeup_signal_heap a w1 _ Hk1) as (w2 & Hs2 & Hh2 & _).
    rewrite Hs, (g_wakeup_acknowledge_heap a w k Hk). simpl.
    rewrite Hs2, (g_wakeup_acknowledge_heap a w1 _ Hk1). simpl.
    rewrite Hh2, Hh1. simpl. rewrite !insert_insert_eq.
    split; [done|]. split; [done|]. split.
    + unfold g_wakeup_acknowledge. simpl. rewrite lookup_insert_eq. simpl.
      by rewrite insert_insert_eq.
    + intros w' b [[= <-]|[= <-]].
      * rewrite Hh1.
        destruct (decide (b = a)) as [->|Hne].
        -- rewrite lookup_insert_eq, Hk. done.
        -- rewrite lookup_insert_ne by done. done.
      * simpl. destruct (decide (b = a)) as [->|Hne].
        -- rewrite lookup_insert_eq, Hk. done.
        -- rewrite lookup_insert_ne by done. done.
  - unfold g_wakeup_signal, g_wakeup_acknowledge. rewrite Hk. simpl.
    repeat (split; [done|]). by intros w' b [?|?].
Qed.

End BareMetalBehaviour.

(** *** Sample runs *)

Lemma g_poll_result_witness :
  ∃ l' r w',
    BareMetal.g_poll (cfg := bare_metal_config) timed_sleep 99
      [wakeup_pollfd 10; wakeup_pollfd 20] 5 two_handles = Some (l', r, w')
    ∧ r = Z.of_nat (length (base.filter (λ p, BareMetal.revents p ≠ 0) l'))
    ∧ 0 <= r <= 2.
Proof.
  destruct (g_poll_result (cfg := bare_metal_config) timed_sleep 99
              [wakeup_pollfd 10; wakeup_pollfd 20] 5 two_handles)
    as (l' & r & w' & Hp & Hr & Hb & _).
  - apply valid_set_Forall. apply (bool_decide_unpack _). vm_compute. exact I.
  - intros tok t w Hv. exact Hv.
  - vm_compute. discriminate.
  - vm_compute. discriminate.
  - exists l', r, w'. split; [exact Hp|]. split; [exact Hr | exact Hb].
Defined.

Lemma g_poll_without_sleep_witness :
  ∃ l' w',
    BareMetal.g_poll (cfg := bare_metal_config) timed_sleep 99
      [wakeup_pollfd 10; wakeup_pollfd 20] (-5) two_handles = Some (l', 0, w')
    ∧ BareMetal.now w' = 0.
Proof.
  destruct (g_poll_without_sleep (cfg := bare_metal_config) timed_sleep 99
              [wakeup_pollfd 10; wakeup_pollfd 20] (-5) two_handles)
    as (h3 & Hp & _).
  - apply valid_set_Forall. apply (bool_decide_unpack _). vm_compute. exact I.
  - vm_compute. discriminate.
  - right. split; [lia|]. split; [vm_compute; discriminate|].
    split; vm_compute; discriminate.
  - eexists _, _. split; [exact Hp | reflexivity].
Defined.

Lemma g_poll_sleeps_once_witness :
  ∃ l' w',
    BareMetal.g_poll (cfg := bare_metal_config) signal_during_sleep 99
      [wakeup_pollfd 10; wakeup_pollfd 20] (-1) two_handles = Some (l', 1, w')
    ∧ BareMetal.revents <$> l' = [0; 1]
    ∧ BareMetal.now w' = -1.
Proof.
  destruct (g_poll_sleeps_once (cfg := bare_metal_config) signal_during_sleep 99
              [wakeup_pollfd 10; wakeup_pollfd 20] two_handles)
    as (h1 & h3 & Hh1 & _ & _ & Hp).
  - apply valid_set_Forall. apply (bool_decide_unpack _). vm_compute. exact I.
  - apply signal_during_sleep_keeps_handles.
  - vm_compute. discriminate.
  - vm_compute. reflexivity.
  - vm_compute in Hh1. injection Hh1 as <-. cbn zeta in Hp.
    eexists _, _. split; [exact Hp|]. split; vm_compute; reflexivity.
Defined.

Lemma g_wakeup_signal_wakes_the_running_poll_witness :
  ∃ h1 w1,
    BareMetal.set_tokens (cfg := bare_metal_config) 99
      [wakeup_pollfd 10; wakeup_pollfd 20] (BareMetal.heap two_handles) = Some h1
    ∧ BareMetal.g_wakeup_signal 10 (BareMetal.with_heap two_handles h1) = Some w1
    ∧ BareMetal.wake_log w1 = [99].
Proof.
  destruct (g_wakeup_signal_wakes_the_running_poll (cfg := bare_metal_config)
              timed_sleep 99 [wakeup_pollfd 10; wakeup_pollfd 20] 5 two_handles
              (wakeup_pollfd 10))
    as (h1 & l' & r & w' & Hs & _ & (w1 & Hw1 & Hlog & _) & _).
  - apply valid_set_Forall. apply (bool_decide_unpack _). vm_compute. exact I.
  - intros tok t w Hv. exact Hv.
  - vm_compute. discriminate.
  - left.
  - reflexivity.
  - exists h1, w1. split; [exact Hs|]. split; [exact Hw1 | exact Hlog].
Defined.

Lemma g_wait_is_set_agrees_with_g_poll_witness :
  ∃ b l' r w',
    BareMetal.g_wait_is_set (cfg := bare_metal_config)
      {| BareMetal.fds := [wakeup_pollfd 10; wakeup_pollfd 20] |} two_handles
    = Some b
    ∧ BareMetal.g_poll (cfg := bare_metal_config) timed_sleep 99
        [wakeup_pollfd 10; wakeup_pollfd 20] 0 two_handles = Some (l', r, w')
    ∧ (b = true ↔ r > 0).
Proof.
  apply (g_wait_is_set_agrees_with_g_poll (cfg := bare_metal_config) timed_sleep 99
           [wakeup_pollfd 10; wakeup_pollfd 20] two_handles).
  - apply valid_set_Forall. apply (bool_decide_unpack _). vm_compute. exact I.
  - vm_compute. discriminate.
Defined.

(** ** The select(2) emulation: what is asked of select, and what is
    made of its answer *)

Section SelectBehaviour.
Import SelectEmu.
Context {cfg : Config}.
Variable select :
  Z -> gset Z -> gset Z -> gset Z -> option timeval -> select_result.

(** The entry asks for one of the three conditions on a descriptor
    that is not negative. *)
Definition asks (mask : Z) (f : GPollFD) : Prop :=
  fd f >= 0 ∧ test_bits (events f) mask = true.

Lemma test_bits_lor x a b :
  test_bits x (Z.lor a b) = test_bits x a || test_bits x b.
Proof.
  unfold test_bits. rewrite Z.land_lor_distr_r.
  pose proof (Z.lor_eq_0_iff (Z.land x a) (Z.land x b)) as H.
  destruct (decide (Z.land x a = 0)), (decide (Z.land x b = 0));
    repeat case_bool_decide; simpl; try done; exfalso; tauto.
Qed.

Lemma FD_SET_if_spec c d s :
  (c = true → 0 <= d < FD_SETSIZE) →
  ∃ s', FD_SET_if c d s = Some s' ∧ ∀ e, e ∈ s' ↔ e ∈ s ∨ (c = true ∧ e = d).
Proof.
  intros Hd. unfold FD_SET_if, FD_SET. destruct c.
  - rewrite decide_True by auto. eexists. split; [done|]. intros e.
    rewrite elem_of_union, elem_of_singleton. tauto.
  - eexists. split; [done|]. intros e. intuition discriminate.
Qed.

(** The first loop, from any state of the sets. *)
Lemma build_sets_spec l rset wset xset maxfd :
  Forall (λ f, fd f < FD_SETSIZE) l →
  ∃ r' w' x' m',
    build_sets l rset wset xset maxfd = Some (r', w', x', m')
    ∧ (∀ d, d ∈ r' ↔ d ∈ rset ∨ ∃ f, f ∈ l ∧ fd f = d ∧ asks G_IO_IN f)
    ∧ (∀ d, d ∈ w' ↔ d ∈ wset ∨ ∃ f, f ∈ l ∧ fd f = d ∧ asks G_IO_OUT f)
    ∧ (∀ d, d ∈ x' ↔ d ∈ xset ∨ ∃ f, f ∈ l ∧ fd f = d ∧ asks G_IO_PRI f)
    ∧ maxfd <= m'
    ∧ (m' = maxfd ∨ ∃ f, f ∈ l ∧ fd f = m')
    ∧ (∀ f, f ∈ l → asks G_IO_IN f ∨ asks G_IO_OUT f ∨ asks G_IO_PRI f →
         fd f <= m').
Proof.
  intros Hall. revert rset wset xset maxfd.
  induction Hall as [|f l Hf _ IH]; intros rset wset xset maxfd.
  - exists rset, wset, xset, maxfd. split; [done|].
    assert (Hnil : ∀ (s : gset Z) (P : GPollFD → Prop) d,
              d ∈ s ↔ d ∈ s ∨ ∃ f, f ∈ [] ∧ fd f = d ∧ P f).
    { intros s P d. split; [by left|].
      intros [?|(f & Hin & _)]; [done | by apply elem_of_nil in Hin]. }
    split; [apply Hnil|]. split; [apply Hnil|]. split; [apply Hnil|].
    split; [lia|]. split; [by left|].
    intros f Hin. by apply elem_of_nil in Hin.
  - simpl. destruct (decide (fd f >= 0)) as [Hpos|Hneg].
    + destruct (FD_SET_if_spec (test_bits (events f) G_IO_IN) (fd f) rset)
        as (r1 & -> & Hr1); [lia|].
      destruct (FD_SET_if_spec (test_bits (events f) G_IO_OUT) (fd f) wset)
        as (w1 & -> & Hw1); [lia|].
      destruct (FD_SET_if_spec (test_bits (events f) G_IO_PRI) (fd f) xset)
        as (x1 & -> & Hx1); [lia|].
      simpl.
      set (m1 := if bool_decide (fd f > maxfd)
                    && test_bits (events f) (Z.lor (Z.lor G_IO_IN G_IO_OUT) G_IO_PRI)
                 then fd f else maxfd).
      destruct (IH r1 w1 x1 m1) as (r' & w' & x' & m' & -> & Hr & Hw & Hx & Hm & Hm' & Hle).
      exists r', w', x', m'. split; [done|].
      assert (Hm1 : maxfd <= m1).
      { unfold m1. destruct (bool_decide (fd f > maxfd)) eqn:Hb; simpl; [|lia].
        apply bool_decide_eq_true_1 in Hb.
        destruct (test_bits (events f) (Z.lor (Z.lor G_IO_IN G_IO_OUT) G_IO_PRI));
          simpl; lia. }
      assert (Hany : asks G_IO_IN f ∨ asks G_IO_OUT f ∨ asks G_IO_PRI f → fd f <= m1).
      { unfold asks, m1. rewrite !test_bits_lor. intros Ha.
        destruct (bool_decide (fd f > maxfd)) eqn:Hb; simpl.
        - destruct (test_bits (events f) G_IO_IN), (test_bits (events f) G_IO_OUT),
            (test_bits (events f) G_IO_PRI); simpl; try lia;
            destruct Ha as [[_ ?]|[[_ ?]|[_ ?]]]; discriminate.
        - apply bool_decide_eq_false_1 in Hb. lia. }
      split; [|split; [|split; [|split; [|split]]]].
      * intros d. rewrite Hr, Hr1. unfold asks. split.
        -- intros [[?|[? ->]]|(g & ? & ? & ?)]; [by left | |].
           ++ right. exists f. split; [left|]. done.
           ++ right. exists g. split; [by right|]. done.
        -- intros [?|(g & [->|Hin]%elem_of_cons & Hd & Hp & Ht)];
             [by left; left | left; right; by subst | right; by exists g].
      * intros d. rewrite Hw, Hw1. unfold asks. split.
        -- intros [[?|[? ->]]|(g & ? & ? & ?)]; [by left | |].
           ++ right. exists f. split; [left|]. done.
           ++ right. exists g. split; [by right|]. done.
        -- intros [?|(g & [->|Hin]%elem_of_cons & Hd & Hp & Ht)];
             [by left; left | left; right; by subst | right; by exists g].
      * intros d. rewrite Hx, Hx1. unfold asks. split.
        -- intros [[?|[? ->]]|(g & ? & ? & ?)]; [by left | |].
           ++ right. exists f. split; [left|]. done.
           ++ right. exists g. split; [by right|]. done.
        -- intros [?|(g & [->|Hin]%elem_of_cons & Hd & Hp & Ht)];
             [by left; left | left; right; by subst | right; by exists g].
      * lia.
      * destruct Hm' as [->|(g & Hg & <-)].
        -- unfold m1. destruct (_ && _); [right; exists f; split; [left|done] | by left].
        -- right. exists g. split; [by right | done].
      * intros g [->|Hin]%elem_of_cons Ha; [specialize (Hany Ha); lia | by apply Hle].
    + destruct (IH rset wset xset maxfd)
        as (r' & w' & x' & m' & -> & Hr & Hw & Hx & Hm & Hm' & Hle).
      exists r', w', x', m'. split; [done|].
      assert (Hno : ∀ mask, ¬ asks mask f) by (intros mask [? _]; lia).
      split; [|split; [|split; [|split; [|split]]]].
      * intros d. rewrite Hr. split.
        -- intros [?|(g & ? & ? & ?)]; [by left | right; exists g; split; [by right | done]].
        -- intros [?|(g & [->|Hin]%elem_of_cons & Hd & Ha)];
             [by left | by apply Hno in Ha | right; by exists g].
      * intros d. rewrite Hw. split.
        -- intros [?|(g & ? & ? & ?)]; [by left | right; exists g; split; [by right | done]].
        -- intros [?|(g & [->|Hin]%elem_of_cons & Hd & Ha)];
             [by left | by apply Hno in Ha | right; by exists g].
      * intros d. rewrite Hx. split.
        -- intros [?|(g & ? & ? & ?)]; [by left | right; exists g; split; [by right | done]].
        -- intros [?|(g & [->|Hin]%elem_of_cons & Hd & Ha)];
             [by left | by apply Hno in Ha | right; by exists g].
      * done.
      * destruct Hm' as [->|(g & Hg & <-)]; [by left|].
        right. exists g. split; [by right | done].
      * intros g [->|Hin]%elem_of_cons Ha; [|by apply Hle].
        destruct Ha as [Ha|[Ha|Ha]]; by apply Hno in Ha.
Qed.

Lemma derive_revents_total r f :
  fd f < FD_SETSIZE → is_Some (derive_revents r f).
Proof.
  intros Hf. unfold derive_revents, FD_ISSET. case_decide; [|by eexists].
  rewrite !decide_True by lia. simpl. by eexists.
Qed.

(** The timeout as select gets it. *)
Definition poll_timeval (timeout : Z) : option timeval :=
  if decide (timeout = -1) then None
  else Some {| tv_sec := Z.quot timeout 1000;
               tv_usec := Z.rem timeout 1000 * 1000 |}.

(** X7: What [g_poll] asks of select, for a set whose descriptors are
    below [FD_SETSIZE]: a descriptor is in the read set exactly when an
    entry with an [fd] that is not negative asks for [G_IO_IN] on it,
    and so for the other two sets; the first argument is above every
    member of the three sets; the timeout is [NULL] for -1 and else a
    [struct timeval] of the same length in time, normalised when
    [timeout >= 0] and with no positive field when [timeout < -1].
    The call returns what select returns. *)
Theorem select_g_poll_arguments l timeout :
  Forall (λ f, fd f < FD_SETSIZE) l → FD_SETSIZE <= G_MAXINT →
  ∃ rset wset xset maxfd l',
    g_poll select l timeout
    = Some (l', sel_ret (select (maxfd + 1) rset wset xset (poll_timeval timeout)))
    ∧ (∀ d, d ∈ rset ↔ ∃ f, f ∈ l ∧ fd f = d ∧ asks G_IO_IN f)
    ∧ (∀ d, d ∈ wset ↔ ∃ f, f ∈ l ∧ fd f = d ∧ asks G_IO_OUT f)
    ∧ (∀ d, d ∈ xset ↔ ∃ f, f ∈ l ∧ fd f = d ∧ asks G_IO_PRI f)
    ∧ (∀ d, d ∈ rset ∪ wset ∪ xset → 0 <= d < maxfd + 1)
    ∧ (timeout = -1 → poll_timeval timeout = None)
    ∧ (timeout ≠ -1 →
       ∃ tv, poll_timeval timeout = Some tv
           ∧ tv_sec tv * 1000000 + tv_usec tv = timeout * 1000
           ∧ (0 <= timeout → 0 <= tv_sec tv ∧ 0 <= tv_usec tv < 1000000)
           ∧ (timeout < 0 → tv_sec tv <= 0 ∧ tv_usec tv <= 0)).
Proof.
  intros Hall Hsize.
  destruct (build_sets_spec l ∅ ∅ ∅ 0 Hall)
    as (rset & wset & xset & maxfd & Hb & Hr & Hw & Hx & Hm0 & Hm & Hle).
  assert (Hempty : ∀ (d : Z) (P : Prop), d ∈ (∅ : gset Z) ∨ P ↔ P).
  { intros d P. split; [intros [H|H]; [by apply elem_of_empty in H | done] | by right]. }
  setoid_rewrite Hempty in Hr. setoid_rewrite Hempty in Hw.
  setoid_rewrite Hempty in Hx.
  assert (Hmax : maxfd + 1 <= G_MAXINT).
  { destruct Hm as [->|(f & Hf & <-)]; [unfold G_MAXINT; lia|].
    rewrite Forall_forall in Hall. specialize (Hall f Hf). lia. }
  assert (Hg : ∃ l', g_poll select l timeout
             = Some (l', sel_ret (select (maxfd + 1) rset wset xset
                                    (poll_timeval timeout)))).
  { unfold g_poll. rewrite Hb. simpl. rewrite to_gint_id by (unfold G_MAXINT in *; lia).
    unfold poll_timeval. destruct (decide (timeout = -1)) as [->|Hne]; simpl.
    - case_decide; [|by eexists].
      destruct (mapM_is_Some_2 (derive_revents
                  (select (maxfd + 1) rset wset xset None)) l) as [l' ->];
        [|by eexists].
      eapply Forall_impl; [exact Hall|]. intros f. apply derive_revents_total.
    - case_decide; [|by eexists].
      match goal with |- context [mapM (derive_revents ?r) l] =>
        destruct (mapM_is_Some_2 (derive_revents r) l) as [l' ->] end;
        [|by eexists].
      eapply Forall_impl; [exact Hall|]. intros f. apply derive_revents_total. }
  destruct Hg as [l' Hg]. exists rset, wset, xset, maxfd, l'.
  split; [done|]. split; [done|]. split; [done|]. split; [done|].
  split; [|split].
  - intros d Hd. apply elem_of_union in Hd as [Hd|Hd];
      [apply elem_of_union in Hd as [Hd|Hd]|].
    + apply Hr in Hd as (f & Hf & <- & Ha). pose proof (Hle f Hf (or_introl Ha)).
      destruct Ha. lia.
    + apply Hw in Hd as (f & Hf & <- & Ha).
      pose proof (Hle f Hf (or_intror (or_introl Ha))). destruct Ha. lia.
    + apply Hx in Hd as (f & Hf & <- & Ha).
      pose proof (Hle f Hf (or_intror (or_intror Ha))). destruct Ha. lia.
  - intros ->. done.
  - intros Hne. unfold poll_timeval. rewrite decide_False by done.
    eexists. split; [done|]. simpl.
    pose proof (Z.quot_rem' timeout 1000) as Hqr.
    split; [lia|]. split.
    + intros Hpos. pose proof (Z.rem_bound_pos timeout 1000 Hpos).
      pose proof (Z.quot_pos timeout 1000 Hpos). lia.
    + intros Hneg. pose proof (Z.rem_nonpos timeout 1000).
      pose proof (Z.quot_le_mono timeout 0 1000). 
      rewrite Z.quot_0_l in * by lia. lia.
Qed.

(** The three sets and select's answer, as the first half of [g_poll]
    gets them. *)
Definition select_answer (l : list GPollFD) (timeout : Z) : option select_result :=
  '(rset, wset, xset, maxfd) ← build_sets l ∅ ∅ ∅ 0;
  Some (select (to_gint (maxfd + 1)) rset wset xset (poll_timeval timeout)).

Definition or_if (c : bool) (bits x : Z) : Z :=
  if c then wrap_unsigned 16 (Z.lor x bits) else x.

(** The [revents] the second loop computes for the descriptor [d]. *)
Definition reported (r : select_result) (d : Z) : Z :=
  if decide (d >= 0) then
    or_if (bool_decide (d ∈ sel_xset r)) G_IO_PRI
      (or_if (bool_decide (d ∈ sel_wset r)) G_IO_OUT
         (or_if (bool_decide (d ∈ sel_rset r)) G_IO_IN 0))
  else 0.

Lemma derive_revents_inv r f f' :
  derive_revents r f = Some f' → f' = set_revents f (reported r (fd f)).
Proof.
  unfold derive_revents, reported, FD_ISSET. case_decide; [|by intros [= <-]].
  case_decide; simpl; [|done]. intros [= <-].
  by destruct (bool_decide (fd f ∈ sel_rset r)), (bool_decide (fd f ∈ sel_wset r)),
       (bool_decide (fd f ∈ sel_xset r)).
Qed.

Lemma g_poll_select_answer l timeout :
  g_poll select l timeout
  = r ← select_answer l timeout;
    if decide (sel_ret r > 0)
    then l' ← mapM (derive_revents r) l; Some (l', sel_ret r)
    else Some (l, sel_ret r).
Proof.
  unfold g_poll, select_answer, poll_timeval.
  destruct (build_sets l ∅ ∅ ∅ 0) as [[[[rset wset] xset] maxfd]|]; simpl; [|done].
  by destruct (decide (timeout = -1)).
Qed.

(** X8: What [g_poll] makes of select's answer [r], for a set whose
    descriptors are below [FD_SETSIZE].  When select returns 0 or -1 the
    set comes back as it went in, with the [revents] of the caller.
    When select returns more, every entry keeps [fd] and [events], and
    its [revents] is a function of [fd] and the answer alone: 0 for a
    negative [fd], and the same bits for two entries of one descriptor,
    whatever each of them asked for. *)
Theorem select_g_poll_results l timeout :
  Forall (λ f, fd f < FD_SETSIZE) l →
  ∃ r l',
    select_answer l timeout = Some r
    ∧ g_poll select l timeout = Some (l', sel_ret r)
    ∧ (sel_ret r <= 0 → l' = l)
    ∧ (sel_ret r > 0 → l' = (λ f, set_revents f (reported r (fd f))) <$> l)
    ∧ (∀ d, d < 0 → reported r d = 0).
Proof.
  intros Hall. rewrite g_poll_select_answer. unfold select_answer.
  destruct (build_sets_spec l ∅ ∅ ∅ 0 Hall)
    as (rset & wset & xset & maxfd & -> & _). simpl.
  set (r := select _ _ _ _ _).
  assert (Hneg : ∀ d, d < 0 → reported r d = 0)
    by (intros d Hd; unfold reported; by rewrite decide_False by lia).
  destruct (decide (sel_ret r > 0)) as [Hpos|Hnpos].
  - destruct (mapM_is_Some_2 (derive_revents r) l) as [l' Hl'].
    { eapply Forall_impl; [exact Hall|]. intros f. apply derive_revents_total. }
    rewrite Hl'. simpl. exists r, l'. split; [done|]. split; [done|].
    split; [lia|]. split; [|done]. intros _. apply mapM_Some in Hl'.
    symmetry. apply list_eq_Forall2, Forall2_fmap_l.
    eapply Forall2_impl; [exact Hl'|]. intros f f' Hd. simpl.
    symmetry. by apply derive_revents_inv.
  - exists r, l. split; [done|]. split; [done|]. split; [done|]. split; [lia|done].
Qed.

Lemma or_if_land c bits x m :
  0 <= m < 2 ^ 16 → Z.land bits m = 0 → Z.land (or_if c bits x) m = Z.land x m.
Proof.
  intros Hm Hb. unfold or_if. destruct c; [|done].
  rewrite land_ushort by done. rewrite Z.land_lor_distr_l, Hb. apply Z.lor_0_r.
Qed.

Lemma or_if_false_land bits x m :
  Z.land (or_if false bits x) m = Z.land x m.
Proof. done. Qed.

(** X9: A select that gives back members of the sets it was given only,
    and [G_IO_*] values that are separate bits of a [gushort]: a
    condition is reported on an entry only if an entry for the same
    descriptor asked for it. *)
Theorem select_g_poll_reports_what_was_asked l timeout l' ready f' :
  (∀ n rs ws xs tv,
     sel_rset (select n rs ws xs tv) ⊆ rs
     ∧ sel_wset (select n rs ws xs tv) ⊆ ws
     ∧ sel_xset (select n rs ws xs tv) ⊆ xs) →
  0 <= G_IO_IN < 2 ^ 16 → 0 <= G_IO_OUT < 2 ^ 16 → 0 <= G_IO_PRI < 2 ^ 16 →
  Z.land G_IO_IN G_IO_OUT = 0 → Z.land G_IO_IN G_IO_PRI = 0 →
  Z.land G_IO_OUT G_IO_PRI = 0 →
  Forall (λ f, fd f < FD_SETSIZE) l →
  g_poll select l timeout = Some (l', ready) → ready > 0 → f' ∈ l' →
  (test_bits (revents f') G_IO_IN = true →
     ∃ g, g ∈ l ∧ fd g = fd f' ∧ asks G_IO_IN g)
  ∧ (test_bits (revents f') G_IO_OUT = true →
     ∃ g, g ∈ l ∧ fd g = fd f' ∧ asks G_IO_OUT g)
  ∧ (test_bits (revents f') G_IO_PRI = true →
     ∃ g, g ∈ l ∧ fd g = fd f' ∧ asks G_IO_PRI g).
Proof.
  intros Hsub Hin Hout Hpri Hio Hip Hop Hall Hpoll Hready Hf'.
  destruct (build_sets_spec l ∅ ∅ ∅ 0 Hall)
    as (rset & wset & xset & maxfd & Hb & Hr & Hw & Hx & _).
  assert (Hempty : ∀ (d : Z) (P : Prop), d ∈ (∅ : gset Z) ∨ P ↔ P).
  { intros d P. split; [intros [H|H]; [by apply elem_of_empty in H | done] | by right]. }
  setoid_rewrite Hempty in Hr. setoid_rewrite Hempty in Hw.
  setoid_rewrite Hempty in Hx.
  rewrite g_poll_select_answer in Hpoll. unfold select_answer in Hpoll.
  rewrite Hb in Hpoll. simpl in Hpoll.
  destruct (Hsub (to_gint (maxfd + 1)) rset wset xset (poll_timeval timeout))
    as (Hsr & Hsw & Hsx).
  set (r := select _ _ _ _ _) in *.
  destruct (decide (sel_ret r > 0)) as [Hpos|Hnpos];
    [|injection Hpoll as <- <-; lia].
  destruct (mapM (derive_revents r) l) as [l0|] eqn:Hl0; simpl in Hpoll; [|done].
  injection Hpoll as <- <-. apply mapM_Some in Hl0.
  destruct (proj1 (list_elem_of_lookup l0 f') Hf') as [i Hi].
  destruct (Forall2_lookup_r _ _ _ _ _ Hl0 Hi) as (f & Hfi & Hd).
  apply derive_revents_inv in Hd. subst f'. simpl.
  assert (Hf : f ∈ l) by (by eapply list_elem_of_lookup_2).
  unfold test_bits, reported.
  destruct (decide (fd f >= 0)) as [Hfd|Hfd];
    [|rewrite !Z.land_0_l; repeat split; intros Hb'%bool_decide_eq_true_1; done].
  assert (L1 : ∀ a b, Z.land a b = 0 → Z.land b a = 0)
    by (intros a b; by rewrite Z.land_comm).
  split; [|split]; intros Hbit%bool_decide_eq_true_1.
  - rewrite !or_if_land in Hbit by auto.
    destruct (bool_decide (fd f ∈ sel_rset r)) eqn:Hmem;
      [|by rewrite or_if_false_land, Z.land_0_l in Hbit].
    apply bool_decide_eq_true_1 in Hmem. by apply Hr, Hsr.
  - rewrite or_if_land in Hbit by auto.
    destruct (bool_decide (fd f ∈ sel_wset r)) eqn:Hmem.
    + apply bool_decide_eq_true_1 in Hmem. by apply Hw, Hsw.
    + rewrite or_if_false_land, or_if_land, Z.land_0_l in Hbit by auto. done.
  - destruct (bool_decide (fd f ∈ sel_xset r)) eqn:Hmem.
    + apply bool_decide_eq_true_1 in Hmem. by apply Hx, Hsx.
    + rewrite or_if_false_land, !or_if_land, Z.land_0_l in Hbit by auto. done.
Qed.

Lemma build_sets_beyond l rset wset xset maxfd f :
  f ∈ l → FD_SETSIZE <= fd f →
  asks G_IO_IN f ∨ asks G_IO_OUT f ∨ asks G_IO_PRI f →
  build_sets l rset wset xset maxfd = None.
Proof.
  intros Hin Hbig Hasks. revert rset wset xset maxfd.
  induction l as [|g l IH]; intros rset wset xset maxfd;
    [by apply elem_of_nil in Hin|].
  simpl. apply elem_of_cons in Hin as [<-|Hin].
  - rewrite decide_True by (destruct Hasks as [[? _]|[[? _]|[? _]]]; done).
    unfold FD_SET_if, FD_SET.
    destruct (decide (0 <= fd f < FD_SETSIZE)) as [?|_]; [lia|].
    destruct Hasks as [[_ ->]|[[_ ->]|[_ ->]]].
    + done.
    + by destruct (test_bits (events f) G_IO_IN).
    + by destruct (test_bits (events f) G_IO_IN), (test_bits (events f) G_IO_OUT).
  - case_decide; [|by apply IH].
    destruct (FD_SET_if _ _ rset); simpl; [|done].
    destruct (FD_SET_if _ _ wset); simpl; [|done].
    destruct (FD_SET_if _ _ xset); simpl; [|done]. by apply IH.
Qed.

(** X10: The emulation does not compare a descriptor with [FD_SETSIZE]: an
    entry that asks for a condition on a descriptor at or above it makes
    [FD_SET] write outside the set, which is undefined behaviour. *)
Theorem select_g_poll_beyond_FD_SETSIZE l timeout f :
  f ∈ l → FD_SETSIZE <= fd f →
  asks G_IO_IN f ∨ asks G_IO_OUT f ∨ asks G_IO_PRI f →
  g_poll select l timeout = None.
Proof.
  intros Hin Hbig Hasks. unfold g_poll.
  by rewrite (build_sets_beyond l ∅ ∅ ∅ 0 f Hin Hbig Hasks).
Qed.

End SelectBehaviour.

(** *** Sample runs *)

(** An entry that asks for [G_IO_IN] and [G_IO_OUT] on the descriptor
    [d]. *)
Definition in_out_fd (d : Z) : SelectEmu.GPollFD :=
  {| SelectEmu.fd := d; SelectEmu.events := 5; SelectEmu.revents := 0 |}.

Lemma select_g_poll_arguments_witness :
  ∃ rset wset xset maxfd l',
    SelectEmu.g_poll (cfg := select_config) (SelectEmu.posix_select {[3]} ∅ ∅)
      [in_out_fd 3; in_out_fd 7] 250
    = Some (l', SelectEmu.sel_ret
                  (SelectEmu.posix_select {[3]} ∅ ∅ (maxfd + 1) rset wset xset
                     (poll_timeval 250)))
    ∧ (∀ d, d ∈ rset ∪ wset ∪ xset → 0 <= d < maxfd + 1).
Proof.
  destruct (select_g_poll_arguments (cfg := select_config)
              (SelectEmu.posix_select {[3]} ∅ ∅) [in_out_fd 3; in_out_fd 7] 250)
    as (rset & wset & xset & maxfd & l' & Hp & _ & _ & _ & Hmax & _).
  - repeat constructor.
  - vm_compute. discriminate.
  - exists rset, wset, xset, maxfd, l'. split; [exact Hp | exact Hmax].
Defined.

Lemma select_g_poll_results_witness :
  ∃ r l',
    SelectEmu.g_poll (cfg := select_config) (SelectEmu.posix_select {[3]} ∅ ∅)
      [in_out_fd 3; in_out_fd 7] 250 = Some (l', SelectEmu.sel_ret r)
    ∧ (SelectEmu.sel_ret r <= 0 → l' = [in_out_fd 3; in_out_fd 7]).
Proof.
  destruct (select_g_poll_results (cfg := select_config)
              (SelectEmu.posix_select {[3]} ∅ ∅) [in_out_fd 3; in_out_fd 7] 250)
    as (r & l' & _ & Hp & Hkeep & _).
  - repeat constructor.
  - exists r, l'. split; [exact Hp | exact Hkeep].
Defined.

Lemma select_g_poll_reports_what_was_asked_witness :
  ∃ g, g ∈ [in_out_fd 3; in_out_fd 7] ∧ SelectEmu.fd g = 3
       ∧ asks 1 g.
Proof.
  apply (select_g_poll_reports_what_was_asked (cfg := select_config)
           (SelectEmu.posix_select {[3]} ∅ ∅) [in_out_fd 3; in_out_fd 7] 250
           [{| SelectEmu.fd := 3; SelectEmu.events := 5; SelectEmu.revents := 1 |};
            in_out_fd 7] 1
           {| SelectEmu.fd := 3; SelectEmu.events := 5; SelectEmu.revents := 1 |}).
  - intros n rs ws xs tv. unfold SelectEmu.posix_select. simpl.
    repeat split; intros d Hd; apply elem_of_filter in Hd as [_ Hd];
      by apply elem_of_intersection in Hd as [? _].
  - vm_compute. split; [discriminate | reflexivity].
  - vm_compute. split; [discriminate | reflexivity].
  - vm_compute. split; [discriminate | reflexivity].
  - reflexivity.
  - reflexivity.
  - reflexivity.
  - repeat constructor.
  - vm_compute. reflexivity.
  - lia.
  - left.
  - reflexivity.
Defined.

Lemma select_g_poll_beyond_FD_SETSIZE_witness :
  SelectEmu.g_poll (cfg := select_config) (SelectEmu.posix_select ∅ ∅ ∅)
    [in_out_fd 3; in_out_fd 1024] 0 = None.
Proof.
  apply (select_g_poll_beyond_FD_SETSIZE (cfg := select_config) _ _ 0
           (in_out_fd 1024)).
  - right. left.
  - vm_compute. discriminate.
  - left. split; [vm_compute; discriminate | reflexivity].
Defined.

(** ** HAVE_KQUEUE: what a call returns and what it leaves behind *)

Section KqueueBehaviour.
Import Kqueue.
Context {cfg : Config}.

(** *** Bits *)

(** Every bit of [x] is a bit of [m]. *)
Definition bits_within (x m : Z) : Prop := Z.land x m = x.

Lemma bits_within_0 m : bits_within 0 m.
Proof. apply Z.land_0_l. Qed.

Lemma bits_within_lor x y m :
  bits_within x m → bits_within y m → bits_within (Z.lor x y) m.
Proof. unfold bits_within. intros Hx Hy. by rewrite Z.land_lor_distr_l, Hx, Hy. Qed.

Lemma bits_within_ushort x m :
  bits_within x m → bits_within (wrap_unsigned 16 x) m.
Proof.
  unfold bits_within, wrap_unsigned. intros Hx.
  rewrite <- !Z.land_ones by lia.
  by rewrite <- Z.land_assoc, (Z.land_comm (Z.ones 16)), Z.land_assoc, Hx.
Qed.

Lemma bits_within_lor_l a b : bits_within a (Z.lor a b).
Proof.
  apply Z.bits_inj. intros n. rewrite Z.land_spec, Z.lor_spec.
  by destruct (Z.testbit a n), (Z.testbit b n).
Qed.

Lemma bits_within_lor_r a b : bits_within b (Z.lor a b).
Proof.
  apply Z.bits_inj. intros n. rewrite Z.land_spec, Z.lor_spec.
  by destruct (Z.testbit a n), (Z.testbit b n).
Qed.

Lemma bits_within_trans x m m' :
  bits_within x m → bits_within m m' → bits_within x m'.
Proof.
  unfold bits_within. intros Hx Hm. by rewrite <- Hx, <- Z.land_assoc, Hm.
Qed.

(** *** What an entry may be told *)

(** The conditions the entry asks for, as the tests of the code see
    them. *)
Definition asked (p : GPollFD) : Z :=
  Z.lor (if test_bits (events p) G_IO_IN then G_IO_IN else 0)
    (Z.lor (if test_bits (events p) G_IO_OUT then G_IO_OUT else 0)
           (if test_bits (events p) G_IO_PRI then G_IO_PRI else 0)).

(** The bits [g_poll] can set in the [revents] of the entry. *)
Definition may_report (p : GPollFD) : Z :=
  if is_wakeup p then (if test_bits (events p) G_IO_IN then G_IO_IN else 0)
  else if decide (fd p >= 0) then Z.lor (asked p) (Z.lor G_IO_HUP G_IO_ERR)
       else 0.

(** [p'] is the entry [p] with another [revents]. *)
Definition kept (p p' : GPollFD) : Prop :=
  fd p' = fd p ∧ events p' = events p ∧ handle p' = handle p.

(** [p'] is [p] after events were handled: the same entry, with a
    [revents] that holds bits of [may_report p] only. *)
Definition told (p p' : GPollFD) : Prop :=
  kept p p' ∧ bits_within (revents p') (may_report p).

Lemma kept_refl p : kept p p.
Proof. done. Qed.

Lemma kept_trans p1 p2 p3 : kept p1 p2 → kept p2 p3 → kept p1 p3.
Proof. intros (? & ? & ?) (? & ? & ?). repeat split; congruence. Qed.

Lemma or_revents_if_kept c bits p : kept p (or_revents_if c bits p).
Proof. by destruct c. Qed.

Lemma or_revents_if_within c bits p m :
  (c = true → bits_within bits m) → bits_within (revents p) m →
  bits_within (revents (or_revents_if c bits p)) m.
Proof.
  intros Hb Hp. destruct c; [|done]. simpl.
  apply bits_within_ushort, bits_within_lor; auto.
Qed.

Lemma asked_in p : test_bits (events p) G_IO_IN = true → bits_within G_IO_IN (asked p).
Proof. intros H. unfold asked. rewrite H. apply bits_within_lor_l. Qed.

Lemma asked_out p : test_bits (events p) G_IO_OUT = true → bits_within G_IO_OUT (asked p).
Proof.
  intros H. unfold asked. rewrite H.
  eapply bits_within_trans; [apply bits_within_lor_l | apply bits_within_lor_r].
Qed.

Lemma asked_pri p : test_bits (events p) G_IO_PRI = true → bits_within G_IO_PRI (asked p).
Proof.
  intros H. unfold asked. rewrite H.
  eapply bits_within_trans; [apply bits_within_lor_r | apply bits_within_lor_r].
Qed.

(** The cases of the [switch] for a descriptor: bits asked for, and
    [G_IO_HUP] and [G_IO_ERR]. *)
Lemma handle_fd_event_within ev p m :
  bits_within (Z.lor (asked p) (Z.lor G_IO_HUP G_IO_ERR)) m →
  bits_within (revents p) m →
  kept p (handle_fd_event ev p)
  ∧ bits_within (revents (handle_fd_event ev p)) m.
Proof.
  intros Hm Hp.
  assert (Hin : test_bits (events p) G_IO_IN = true → bits_within G_IO_IN m).
  { intros H. eapply bits_within_trans; [by apply asked_in|].
    eapply bits_within_trans; [apply bits_within_lor_l | done]. }
  assert (Hout : test_bits (events p) G_IO_OUT = true → bits_within G_IO_OUT m).
  { intros H. eapply bits_within_trans; [by apply asked_out|].
    eapply bits_within_trans; [apply bits_within_lor_l | done]. }
  assert (Hpri : test_bits (events p) G_IO_PRI = true → bits_within G_IO_PRI m).
  { intros H. eapply bits_within_trans; [by apply asked_pri|].
    eapply bits_within_trans; [apply bits_within_lor_l | done]. }
  assert (Hhup : bits_within G_IO_HUP m).
  { eapply bits_within_trans; [apply bits_within_lor_l|].
    eapply bits_within_trans; [apply bits_within_lor_r | done]. }
  assert (Herr : bits_within G_IO_ERR m).
  { eapply bits_within_trans; [apply bits_within_lor_r|].
    eapply bits_within_trans; [apply bits_within_lor_r | done]. }
  assert (Hstep : ∀ c bits q,
            kept p q ∧ bits_within (revents q) m →
            (c = true → bits_within bits m) →
            kept p (or_revents_if c bits q)
            ∧ bits_within (revents (or_revents_if c bits q)) m).
  { intros c bits q [Hk Hq] Hb. split.
    - eapply kept_trans; [done | apply or_revents_if_kept].
    - by apply or_revents_if_within. }
  assert (Hstep1 : ∀ bits q,
            kept p q ∧ bits_within (revents q) m → bits_within bits m →
            kept p (or_revents bits q)
            ∧ bits_within (revents (or_revents bits q)) m).
  { intros bits q Hq Hb. by apply (Hstep true bits q). }
  assert (H0 : kept p p ∧ bits_within (revents p) m) by done.
  unfold handle_fd_event. destruct (filter ev); cbv zeta.
  - apply Hstep; [|done].
    assert (H1 : kept p (or_revents_if (test_bits (events p) G_IO_IN) G_IO_IN p)
                 ∧ bits_within (revents (or_revents_if (test_bits (events p) G_IO_IN)
                                           G_IO_IN p)) m) by (by apply Hstep).
    set (p1 := or_revents_if (test_bits (events p) G_IO_IN) G_IO_IN p) in *.
    assert (H2 : kept p (match EV_OOBAND with
                         | Some oob => or_revents_if (test_bits (events p1) G_IO_PRI
                                          && test_bits (flags ev) oob) G_IO_PRI p1
                         | None => p1 end)
                 ∧ bits_within (revents (match EV_OOBAND with
                         | Some oob => or_revents_if (test_bits (events p1) G_IO_PRI
                                          && test_bits (flags ev) oob) G_IO_PRI p1
                         | None => p1 end)) m).
    { destruct EV_OOBAND as [oob|]; [|done]. apply Hstep; [done|].
      destruct H1 as [(_ & -> & _) _]. intros [? _]%andb_prop. auto. }
    set (p2 := match EV_OOBAND with Some _ => _ | None => _ end) in *.
    destruct (test_bits (flags ev) EV_EOF); [|done].
    apply Hstep; [|done]. by apply Hstep1.
  - apply Hstep; [|done]. by apply Hstep.
  - apply Hstep; [|done]. apply Hstep; [|done]. by apply Hstep.
  - done.
Qed.

(** An event the loop can be given: a user event, or an event with
    the address of an entry that has a descriptor filter. *)
Definition from_set (l : list GPollFD) (ev : kevent_t) : Prop :=
  filter ev = EVFILT_USER
  ∨ ∃ i p, udata ev = Some i ∧ l !! i = Some p ∧ is_wakeup p = false ∧ fd p >= 0.

Lemma told_kept l0 l : Forall2 told l0 l → Forall2 kept l0 l.
Proof. intros H. eapply Forall2_impl; [exact H|]. by intros p p' [? _]. Qed.

Lemma handle_event_told l0 l ev :
  Z.of_nat (length l) <= G_MAXINT →
  Forall2 told l0 l → from_set l0 ev →
  ∃ l', handle_event l ev = Some l' ∧ Forall2 told l0 l'.
Proof.
  intros Hlen Ht Hev. unfold handle_event.
  assert (Hfd : filter ev ≠ EVFILT_USER →
            ∃ l', (i ← udata ev; p ← l !! i; Some (<[i := handle_fd_event ev p]> l))
                  = Some l' ∧ Forall2 told l0 l').
  { intros Hf. destruct Hev as [?|(i & p0 & -> & Hi & Hw & Hpos)]; [done|]. simpl.
    destruct (Forall2_lookup_l _ _ _ _ _ Ht Hi) as (p & Hpi & Hk & Hp).
    rewrite Hpi. simpl. eexists. split; [done|].
    assert (Hmask : may_report p0 = Z.lor (asked p) (Z.lor G_IO_HUP G_IO_ERR)).
    { unfold may_report. rewrite Hw, decide_True by done.
      unfold asked. destruct Hk as (_ & -> & _). done. }
    rewrite Hmask in Hp.
    destruct (handle_fd_event_within ev p _ (Z.land_diag _) Hp) as [Hk' Hp'].
    apply Forall2_same_length_lookup. split.
    - rewrite length_insert. by eapply Forall2_length.
    - intros j x y Hx Hy. destruct (decide (i = j)) as [->|Hne].
      + rewrite list_lookup_insert_eq in Hy by (by eapply lookup_lt_Some).
        injection Hy as <-. assert (x = p0) as -> by congruence.
        split; [by eapply kept_trans | by rewrite Hmask].
      + rewrite list_lookup_insert_ne in Hy by done.
        by eapply Forall2_lookup_lr. }
  destruct (filter ev) eqn:Hf.
  - by apply Hfd.
  - by apply Hfd.
  - destruct have_EVFILT_EXCEPT; [by apply Hfd | by exists l].
  - rewrite for_fds_fmap by done. eexists. split; [done|].
    apply Forall2_fmap_r. eapply Forall2_impl; [exact Ht|].
    intros p0 p [Hk Hp]. unfold compose, handle_user_event.
    destruct (is_wakeup p && bool_decide (handle p = ident ev)) eqn:Hc; [|by split].
    apply andb_prop in Hc as [Hw _]. split.
    + eapply kept_trans; [done | apply or_revents_if_kept].
    + apply or_revents_if_within; [|done]. intros Hin.
      unfold may_report. destruct Hk as (Hfd' & Hev' & _).
      unfold is_wakeup in *. rewrite <- Hfd', Hw, <- Hev', Hin.
      apply Z.land_diag.
Qed.

Lemma handle_events_told l0 l evs :
  Z.of_nat (length l0) <= G_MAXINT →
  Forall2 told l0 l → Forall (from_set l0) evs →
  ∃ l', handle_events l evs = Some l' ∧ Forall2 told l0 l'.
Proof.
  intros Hlen. revert l. induction evs as [|ev evs IH]; intros l Ht Hevs; simpl.
  - by exists l.
  - apply Forall_cons in Hevs as [Hev Hevs].
    destruct (handle_event_told l0 l ev) as (l1 & -> & Ht1);
      [by rewrite <- (Forall2_length _ _ _ Ht) | done | done |].
    simpl. by apply IH.
Qed.

Lemma told_zeroed (l : list GPollFD) :
  Forall2 told l ((λ p, set_revents p 0) <$> l).
Proof.
  apply Forall2_fmap_r, Forall_Forall2_diag, Forall_forall. intros p _.
  split; [done | apply bits_within_0].
Qed.

(** *** The kernel during a call *)

(** The filters of the queue and the events of a [kevent] carry
    addresses taken from the changelist. *)
Lemma apply_changes_trace (P : nat → Prop) os cs room q :
  (∀ f i u, (f, i, u) ∈ fd_filters q → P u) →
  (∀ f i u, AddFd f i u ∈ cs → P u) →
  (∀ f i u, (f, i, u) ∈ fd_filters (apply_changes os cs room q).1.1 → P u)
  ∧ Forall (λ ev, filter ev = EVFILT_USER ∨ ∃ u, udata ev = Some u ∧ P u)
      (apply_changes os cs room q).1.2
  ∧ (room = 0%nat → (apply_changes os cs room q).1.2 = []).
Proof.
  revert room q. induction cs as [|c cs IH]; intros room q Hq Hcs; simpl.
  - done.
  - assert (Hcs' : ∀ f i u, AddFd f i u ∈ cs → P u)
      by (intros f i u Hin; apply (Hcs f i u); by right).
    destruct (apply_change os c q) as [q1|] eqn:Hc.
    + apply IH; [|done]. intros f i u Hin.
      destruct c as [a|a|a|f' i' u']; simpl in Hc.
      * destruct (users q !! a); injection Hc as <-; by eapply Hq.
      * destruct (users q !! a); [|done]. injection Hc as <-. by eapply Hq.
      * destruct (users q !! a); [|done]. injection Hc as <-. by eapply Hq.
      * destruct (fd_add_ok os f' i'); [|done]. injection Hc as <-. simpl in Hin.
        apply elem_of_app in Hin as [Hin|Hin]; [by eapply Hq|].
        apply list_elem_of_singleton in Hin as [= -> -> ->].
        apply (Hcs f' i' u'). left.
    + destruct room as [|room]; [done|].
      destruct (IH room q Hq Hcs') as (Hf & Hev & _).
      destruct (apply_changes os cs room q) as [[q' errs] ok]. simpl in *.
      split; [done|]. split; [|done]. constructor; [|done].
      destruct c as [a|a|a|f' i' u']; simpl; [by left.. |].
      right. exists u'. split; [done|]. apply (Hcs f' i' u'). left.
Qed.

Lemma kevent_trace (P : nat → Prop) os kq_ cs n w q :
  kernel w !! kq_ = Some q →
  (∀ f i u, (f, i, u) ∈ fd_filters q → P u) →
  (∀ f i u, AddFd f i u ∈ cs → P u) →
  ∃ ret evs q',
    kevent os kq_ cs n w = (ret, evs, with_kernel w (<[kq_ := q']> (kernel w)))
    ∧ -1 <= ret
    ∧ Forall (λ ev, filter ev = EVFILT_USER ∨ ∃ u, udata ev = Some u ∧ P u) evs
    ∧ (∀ f i u, (f, i, u) ∈ fd_filters q' → P u)
    ∧ (n = 0 → ret = -1 ∨ ret = 0).
Proof.
  intros Hq HP Hcs. unfold kevent. rewrite Hq.
  destruct (apply_changes_trace P os cs (Z.to_nat n) q HP Hcs) as (Hf & Hev & Hroom).
  destruct (apply_changes os cs (Z.to_nat n) q) as [[q' errs] ok]. simpl in *.
  destruct ok; simpl.
  - destruct (decide (errs ≠ [])) as [Herrs|Herrs].
    + eexists _, _, q'. split; [done|]. split; [lia|]. split; [done|].
      split; [done|]. intros ->. by rewrite Hroom in Herrs.
    + destruct (decide (n <= 0)).
      * eexists _, _, q'. split; [done|]. split; [lia|]. split; [done|].
        split; [done|]. by right.
      * destruct (collect_fails os).
        -- eexists _, _, q'. split; [done|]. split; [lia|]. split; [done|].
           split; [done|]. by left.
        -- eexists _, _, q'. split; [done|]. split; [lia|]. split; [|split; [done|lia]].
           apply Forall_take, Forall_app. split.
           ++ apply Forall_forall. intros ev Hin. left.
              unfold user_events in Hin. apply list_elem_of_fmap in Hin as (x & -> & _).
              done.
           ++ apply Forall_forall. intros ev Hin. right.
              apply fd_events_udata in Hin as (f & i & u & Hin & _ & Hu).
              exists u. split; [done|]. by eapply Hf.
  - eexists _, _, q'. split; [done|]. split; [lia|]. split; [done|].
    split; [done|]. by left.
Qed.

(** *** The loops over the wakeup entries *)

Lemma realize_trace a kq_ w k q :
  heap w !! a = Some k → kernel w !! kq_ = Some q → kq_ ≠ -1 →
  ∃ w' k' q',
    _g_wakeup_kqueue_realize a kq_ w = Some w'
    ∧ heap w' = <[a := k']> (heap w)
    ∧ kernel w' = <[kq_ := q']> (kernel w)
    ∧ fd_filters q' = fd_filters q
    ∧ (pending k = 0 → pending k' = 0 ∧ q' = q).
Proof.
  intros Hk Hq Hkq. unfold _g_wakeup_kqueue_realize. rewrite Hk. simpl.
  case_decide as Hp.
  - unfold g_wakeup_signal_unlocked. simpl. rewrite lookup_insert_eq. simpl.
    rewrite decide_True by done.
    set (w0 := with_heap w (<[a := {| kq := kq_; pending := pending k |}]> (heap w))).
    destruct (kevent_trace (λ _, True) no_os kq_ [TriggerUser a] 0 w0 q Hq)
      as (ret & evs & q' & Hkev & _); [done | done |].
    rewrite Hkev. simpl. eexists _, _, q'. split; [done|]. simpl.
    split; [apply insert_insert_eq|]. split; [done|]. split; [|done].
    unfold kevent in Hkev. subst w0. simpl in Hkev. rewrite Hq in Hkev.
    simpl in Hkev.
    destruct (users q !! a) as [b|]; simpl in Hkev.
    + injection Hkev as _ _ Hins.
      apply (f_equal (λ m, m !! kq_)) in Hins. rewrite !lookup_insert_eq in Hins.
      by injection Hins as <-.
    + injection Hkev as _ _ Hins.
      apply (f_equal (λ m, m !! kq_)) in Hins. rewrite !lookup_insert_eq in Hins.
      by injection Hins as <-.
  - eexists _, _, q. split; [done|]. simpl. split; [done|].
    split; [by rewrite insert_id|]. split; [done|]. intros Hz. by split.
Qed.

Lemma realize_all_trace kq_ ps w q :
  kq_valid_set (heap w) ps → kernel w !! kq_ = Some q → kq_ ≠ -1 →
  ∃ w' q',
    for_wakeups (λ b, _g_wakeup_kqueue_realize b kq_) ps w = Some w'
    ∧ kernel w' = <[kq_ := q']> (kernel w)
    ∧ fd_filters q' = fd_filters q
    ∧ (∀ b, is_Some (heap w !! b) → is_Some (heap w' !! b))
    ∧ (∀ a, (∀ p, p ∈ ps → is_wakeup p = true → handle p ≠ a) →
         heap w' !! a = heap w !! a)
    ∧ ((∀ p, p ∈ ps → is_wakeup p = true →
          ∃ k, heap w !! handle p = Some k ∧ pending k = 0) →
       q' = q).
Proof.
  revert w q. induction ps as [|p ps IH]; intros w q Hv Hq Hkq; simpl.
  - exists w, q. split; [done|]. split; [by rewrite insert_id|]. done.
  - apply kq_valid_set_cons in Hv as [Hp Hv].
    destruct (is_wakeup p) eqn:Hw.
    + destruct (Hp eq_refl) as [k Hk].
      destruct (realize_trace (handle p) kq_ w k q Hk Hq Hkq)
        as (w1 & k1 & q1 & -> & Hh1 & Hk1 & Hf1 & Hz1). simpl.
      assert (Hdom : ∀ b, is_Some (heap w !! b) → is_Some (heap w1 !! b)).
      { intros b Hb. rewrite Hh1. destruct (decide (handle p = b)) as [->|Hne].
        - rewrite lookup_insert_eq. by eexists.
        - by rewrite lookup_insert_ne. }
      destruct (IH w1 q1) as (w' & q' & -> & Hk' & Hf' & Hd' & Hfr' & Hz');
        [intros p' Hp' Hw'; by apply Hdom, Hv
        | by rewrite Hk1, lookup_insert_eq | done |].
      exists w', q'. split; [done|].
      split; [by rewrite Hk', Hk1, insert_insert_eq|].
      split; [congruence|]. split; [intros b Hb; by apply Hd', Hdom|]. split.
      * intros a Ha. rewrite Hfr' by (intros p' Hp'; apply Ha; by right).
        rewrite Hh1, lookup_insert_ne; [done|]. apply Ha; [left | done].
      * intros Hall. destruct (Hall p) as (k0 & Hk0 & Hp0); [left | done |].
        assert (k0 = k) as -> by congruence.
        destruct (Hz1 Hp0) as [Hpk1 ->]. apply Hz'.
        intros p' Hp' Hw'. rewrite Hh1.
        destruct (decide (handle p = handle p')) as [<-|Hne].
        -- rewrite lookup_insert_eq. by eexists.
        -- rewrite lookup_insert_ne by done. apply Hall; [by right | done].
    + destruct (IH w q Hv Hq Hkq) as (w' & q' & -> & Hk' & Hf' & Hd' & Hfr' & Hz').
      exists w', q'. repeat (split; [done|]). split.
      * intros a Ha. apply Hfr'. intros p' Hp'. apply Ha. by right.
      * intros Hall. apply Hz'. intros p' Hp'. apply Hall. by right.
Qed.

Lemma unrealize_all_trace ps w :
  kq_valid_set (heap w) ps →
  ∃ w',
    for_wakeups _g_wakeup_kqueue_unrealize ps w = Some w'
    ∧ kernel w' = kernel w
    ∧ (∀ a k, heap w !! a = Some k →
         ∃ k', heap w' !! a = Some k' ∧ pending k' = pending k
               ∧ (kq k = -1 → kq k' = -1))
    ∧ (∀ p, p ∈ ps → is_wakeup p = true →
         ∃ k, heap w' !! handle p = Some k ∧ kq k = -1)
    ∧ (∀ a, (∀ p, p ∈ ps → is_wakeup p = true → handle p ≠ a) →
         heap w' !! a = heap w !! a).
Proof.
  revert w. induction ps as [|p ps IH]; intros w Hv; simpl.
  - exists w. split; [done|]. split; [done|]. split; [by eauto|].
    split; [by intros p Hp%elem_of_nil | done].
  - apply kq_valid_set_cons in Hv as [Hp Hv].
    destruct (is_wakeup p) eqn:Hw.
    + destruct (Hp eq_refl) as [k Hk].
      set (w1 := with_heap w (<[handle p := {| kq := -1; pending := pending k |}]>
                                (heap w))).
      replace (_g_wakeup_kqueue_unrealize (handle p) w) with (Some w1)
        by (unfold _g_wakeup_kqueue_unrealize; by rewrite Hk).
      simpl.
      destruct (IH w1) as (w' & -> & Hker & Hkeep & Hset & Hfr).
      { intros p' Hp' Hw'. simpl.
        destruct (decide (handle p = handle p')) as [->|Hne].
        - rewrite lookup_insert_eq. by eexists.
        - rewrite lookup_insert_ne by done. by apply Hv. }
      exists w'. split; [done|]. split; [done|]. split; [|split].
      * intros a ka Ha. destruct (decide (handle p = a)) as [<-|Hne].
        -- destruct (Hkeep (handle p) {| kq := -1; pending := pending k |})
             as (k' & Hk' & Hpe & Hkq); [apply lookup_insert_eq|].
           exists k'. split; [done|]. assert (ka = k) as -> by congruence.
           split; [done|]. intros _. by apply Hkq.
        -- apply Hkeep. simpl. by rewrite lookup_insert_ne.
      * intros p' [->|Hp']%elem_of_cons Hw'; [|by apply Hset].
        destruct (Hkeep (handle p) {| kq := -1; pending := pending k |})
          as (k' & Hk' & _ & Hkq); [apply lookup_insert_eq|].
        exists k'. split; [done|]. by apply Hkq.
      * intros a Ha. rewrite Hfr by (intros p' Hp'; apply Ha; by right).
        simpl. rewrite lookup_insert_ne; [done|]. apply Ha; [left | done].
    + destruct (IH w Hv) as (w' & -> & Hker & Hkeep & Hset & Hfr).
      exists w'. repeat (split; [done|]). split.
      * intros p' [->|Hp']%elem_of_cons Hw'; [congruence|]. by apply Hset.
      * intros a Ha. apply Hfr. intros p' Hp'. apply Ha. by right.
Qed.

Lemma for_wakeups_kept f (l l' : list GPollFD) w :
  Forall2 kept l l' → for_wakeups f l' w = for_wakeups f l w.
Proof.
  intros Hk. revert w. induction Hk as [|p p' l l' (Hfd & _ & Hh) _ IH]; intros w;
    [done|].
  simpl. unfold is_wakeup. rewrite Hfd, Hh.
  destruct (bool_decide (fd p = G_KQUEUE_WAKEUP_HANDLE)); [|apply IH].
  destruct (f (handle p) w); simpl; [apply IH | done].
Qed.

Lemma num_wakeup_fds_kept (l l' : list GPollFD) :
  Z.of_nat (length l) <= G_MAXINT →
  Forall2 kept l l' → num_wakeup_fds l' = num_wakeup_fds l.
Proof.
  intros Hlen Hk. unfold num_wakeup_fds.
  assert (Hlen' : Z.of_nat (length l') <= G_MAXINT)
    by (by rewrite <- (Forall2_length _ _ _ Hk)).
  rewrite (take_int_nfds l), (take_int_nfds l') by done. clear Hlen'.
  do 2 f_equal. induction Hk as [|p p' l0 l0' (Hfd & _) _ IH]; [done|].
  simpl in Hlen. unfold is_wakeup in *.
  destruct (bool_decide (fd p = G_KQUEUE_WAKEUP_HANDLE)) eqn:Hb.
  - rewrite !filter_cons_True by (rewrite ?Hfd; exact Hb).
    simpl. rewrite IH; [done | lia].
  - rewrite !filter_cons_False by (rewrite ?Hfd, Hb; done). apply IH. lia.
Qed.

Lemma num_wakeup_fds_zero (l : list GPollFD) p :
  Z.of_nat (length l) <= G_MAXINT → num_wakeup_fds l = 0 →
  p ∈ l → is_wakeup p = false.
Proof.
  intros Hlen Hz Hp. unfold num_wakeup_fds in Hz. rewrite take_int_nfds in Hz by done.
  pose proof (length_filter (λ p, is_wakeup p = true) l) as Hle.
  rewrite to_guint_id in Hz by (unfold G_MAXINT in *; lia).
  destruct (is_wakeup p) eqn:Hw; [|done].
  assert (Hin : p ∈ base.filter (λ p, is_wakeup p = true) l)
    by (by apply list_elem_of_filter).
  destruct (base.filter _ l); [by apply elem_of_nil in Hin | simpl in Hz; lia].
Qed.

(** *** The call *)

Lemma changelist_from_set l f d u :
  AddFd f d u ∈ changelist l →
  ∃ p, l !! u = Some p ∧ is_wakeup p = false ∧ fd p >= 0.
Proof.
  unfold changelist. rewrite elem_of_concat_imap.
  intros (i & p & Hi & Hc). pose proof (fd_changes_index _ _ _ _ _ Hc) as ->.
  exists p. split; [by apply lookup_take_Some in Hi as [? _]|].
  unfold fd_changes in Hc. destruct (is_wakeup p).
  - apply list_elem_of_singleton in Hc. done.
  - split; [done|]. case_decide; [done | by apply elem_of_nil in Hc].
Qed.

Lemma collect_results_trace kq_ l ret evs w :
  Z.of_nat (length l) <= G_MAXINT → -1 <= ret →
  Forall (from_set l) evs → kq_valid_set (heap w) l →
  ∃ l' ret' w1,
    collect_results kq_ l ret evs w = Some (l', ret', close kq_ w1)
    ∧ -1 <= ret' ∧ Forall2 told l l'
    ∧ (if decide (num_wakeup_fds l > 0)
       then for_wakeups _g_wakeup_kqueue_unrealize l w = Some w1
       else w1 = w).
Proof.
  intros Hlen Hret Hevs Hv. unfold collect_results, beach.
  rewrite for_fds_fmap by done.
  destruct (handle_events_told l ((λ p, set_revents p 0) <$> l)
              (take (Z.to_nat ret) evs) Hlen (told_zeroed l))
    as (l1 & -> & Ht); [by apply Forall_take|]. simpl.
  pose proof (told_kept _ _ Ht) as Hk.
  assert (Hlen1 : Z.of_nat (length l1) <= G_MAXINT)
    by (by rewrite <- (Forall2_length _ _ _ Hk)).
  rewrite (num_wakeup_fds_kept l l1 Hlen Hk), (take_int_nfds l1 Hlen1).
  rewrite (for_wakeups_kept _ l l1 w Hk).
  assert (Hret' : -1 <= (if decide (ret > 0) then count_ready l1 0 else ret)).
  { case_decide; [|done]. rewrite count_ready_spec by lia. lia. }
  destruct (decide (num_wakeup_fds l > 0)).
  - destruct (unrealize_all_trace l w Hv) as (w1 & Hw1 & _). rewrite Hw1. simpl.
    by eexists _, _, w1.
  - simpl. by eexists _, _, w.
Qed.

(** A call on a system where [kqueue ()] succeeds, step by step. *)
Lemma kqueue_g_poll_trace os l timeout w :
  kq_valid_set (heap w) l → Z.of_nat (length l) * 3 <= G_MAXINT →
  kqueue_ret os ≠ -1 →
  ∃ l' ret w',
    g_poll os l timeout w = Some (l', ret, w')
    ∧ -1 <= ret
    ∧ Forall2 kept l l'
    ∧ (0 <= ret → Forall2 told l l')
    ∧ kernel w' = delete (kqueue_ret os) (kernel w)
    ∧ (∀ a k, heap w !! a = Some k →
         ∃ k', heap w' !! a = Some k' ∧ (kq k = -1 → kq k' = -1))
    ∧ (∀ p, p ∈ l → is_wakeup p = true →
         ∃ k, heap w' !! handle p = Some k ∧ kq k = -1)
    ∧ (∀ a, (∀ p, p ∈ l → is_wakeup p = true → handle p ≠ a) →
         heap w' !! a = heap w !! a).
Proof.
  intros Hv Hl3 Hkq.
  assert (Hlen : Z.of_nat (length l) <= G_MAXINT) by lia.
  unfold g_poll, kqueue. rewrite decide_False by done.
  rewrite decide_False by done.
  set (kq_ := kqueue_ret os).
  set (w0 := with_kernel w (<[kq_ := empty_queue]> (kernel w))).
  assert (Hk0 : kernel w0 !! kq_ = Some empty_queue) by apply lookup_insert_eq.
  set (P := λ u : nat, ∃ p, l !! u = Some p ∧ is_wakeup p = false ∧ fd p >= 0).
  assert (HP0 : ∀ f i u, (f, i, u) ∈ fd_filters empty_queue → P u)
    by (intros f i u Hin; by apply elem_of_nil in Hin).
  assert (HPc : ∀ f i u, AddFd f i u ∈ changelist l → P u)
    by (intros f i u; apply changelist_from_set).
  assert (Hfrom : ∀ evs,
            Forall (λ ev, filter ev = EVFILT_USER ∨ ∃ u, udata ev = Some u ∧ P u) evs →
            Forall (from_set l) evs).
  { intros evs H. eapply Forall_impl; [exact H|].
    intros ev [?|(u & Hu & p & Hp)]; [by left|].
    right. by exists u, p. }
  assert (Hmax : to_gint (to_guint (Z.of_nat (length l) * 3))
                 = Z.of_nat (length l) * 3).
  { rewrite to_guint_id by (unfold G_MAXINT in *; lia).
    apply to_gint_id. unfold G_MAXINT in *. lia. }
  rewrite Hmax.
  assert (Hdel : ∀ (m : gmap Z KQueue) q, delete kq_ (<[kq_ := q]> m) = delete kq_ m)
    by (intros m q; apply delete_insert_eq).
  destruct (decide (num_wakeup_fds l = 0)) as [Hnw|Hnw].
  - destruct (kevent_trace P os kq_ (changelist l) (Z.of_nat (length l) * 3) w0
                empty_queue Hk0 HP0 HPc) as (ret & evs & q1 & -> & Hret & Hevs & _).
    destruct (collect_results_trace kq_ l ret evs
                (with_kernel w0 (<[kq_ := q1]> (kernel w0))) Hlen Hret
                (Hfrom _ Hevs) Hv) as (l' & ret' & w1 & -> & Hret' & Ht & Hw1).
    rewrite decide_False in Hw1 by lia. subst w1.
    exists l', ret', (close kq_ (with_kernel w0 (<[kq_ := q1]> (kernel w0)))).
    split; [done|]. split; [done|]. split; [by apply told_kept|].
    split; [done|]. split; [simpl; by rewrite !Hdel|]. simpl.
    split; [by eauto|]. split; [|done].
    intros p Hp Hw. by rewrite (num_wakeup_fds_zero l p Hlen Hnw Hp) in Hw.
  - assert (Hpos : num_wakeup_fds l > 0).
    { unfold num_wakeup_fds, to_guint, wrap_unsigned in *.
      pose proof (Z.mod_pos_bound
                    (Z.of_nat (length (base.filter (λ p, is_wakeup p = true)
                                         (take (int_nfds l) l)))) (2 ^ 32)).
      lia. }
    destruct (kevent_trace P os kq_ (changelist l) 0 w0 empty_queue Hk0 HP0 HPc)
      as (ret & evs & q1 & -> & Hret & Hevs & HP1 & Hzero).
    set (w1 := with_kernel w0 (<[kq_ := q1]> (kernel w0))).
    destruct (Hzero eq_refl) as [-> | ->].
    + rewrite decide_True by done. unfold beach.
      rewrite decide_True by done. rewrite take_int_nfds by done.
      destruct (unrealize_all_trace l w1 Hv) as (w2 & -> & Hker & Hkeep & Hset & Hfr).
      simpl. exists l, (-1), (close kq_ w2). split; [done|]. split; [done|].
      split; [apply Forall_Forall2_diag, Forall_forall; by intros|].
      split; [lia|]. split; [simpl; rewrite Hker; simpl; by rewrite !Hdel|].
      simpl. split; [|by split].
      intros a k Ha. destruct (Hkeep a k Ha) as (k' & ? & _ & ?). by exists k'.
    + rewrite decide_False by done. rewrite take_int_nfds by done.
      assert (Hk1 : kernel w1 !! kq_ = Some q1) by apply lookup_insert_eq.
      destruct (realize_all_trace kq_ l w1 q1 Hv Hk1 Hkq)
        as (w2 & q2 & -> & Hker2 & Hf2 & Hdom2 & Hfr2 & _). simpl.
      assert (Hk2 : kernel w2 !! kq_ = Some q2)
        by (rewrite Hker2; apply lookup_insert_eq).
      destruct (kevent_trace P os kq_ [] (Z.of_nat (length l) * 3) w2 q2 Hk2)
        as (ret2 & evs2 & q3 & -> & Hret' & Hevs' & _).
      { intros f i u. rewrite Hf2. apply HP1. }
      { intros f i u Hin. by apply elem_of_nil in Hin. }
      set (w3 := with_kernel w2 (<[kq_ := q3]> (kernel w2))).
      assert (Hv3 : kq_valid_set (heap w3) l)
        by (intros p Hp Hw; by apply Hdom2, Hv).
      destruct (collect_results_trace kq_ l ret2 evs2 w3 Hlen Hret'
                  (Hfrom _ Hevs') Hv3) as (l' & ret' & w4 & -> & Hret'' & Ht & Hw4).
      rewrite decide_True in Hw4 by done.
      destruct (unrealize_all_trace l w3 Hv3) as (w4' & Hw4' & Hker & Hkeep & Hset & Hfr).
      rewrite Hw4 in Hw4'. injection Hw4' as <-.
      exists l', ret', (close kq_ w4). split; [done|]. split; [done|].
      split; [by apply told_kept|]. split; [done|].
      split; [simpl; rewrite Hker; simpl; rewrite Hker2; simpl; by rewrite !Hdel|].
      simpl. split; [|split; [done|]].
      * intros a k Ha. destruct (Hdom2 a) as [k2 Hk2']; [by eexists|].
        destruct (Hkeep a k2 Hk2') as (k' & Hk' & _ & Hkq').
        exists k'. split; [done|]. intros Hm1.
        destruct (decide (Exists (λ p, is_wakeup p = true ∧ handle p = a) l))
          as [(p & Hp & Hw & <-)%Exists_exists|Hno].
        -- destruct (Hset p Hp Hw) as (k'' & Hk'' & ?). congruence.
        -- apply Hkq'. assert (Hsame : heap w2 !! a = heap w1 !! a).
           { apply Hfr2. intros p Hp Hw Heq. apply Hno, Exists_exists. by exists p. }
           simpl in Hsame. rewrite Hk2', Ha in Hsame. by injection Hsame as ->.
      * intros a Ha. rewrite (Hfr a Ha). simpl. by rewrite (Hfr2 a Ha).
Qed.

(** X11: [g_poll] returns for every set whose wakeup entries point to live
    handles (of at most [G_MAXINT] / 3 entries, so that the event array
    has the size the code gives it).  It returns -1, or the number of
    entries it leaves with a [revents] other than 0; every entry keeps
    [fd], [events] and [handle].  When [kqueue ()] fails it returns -1
    at once and changes nothing, the [revents] of the caller
    included. *)
Theorem kqueue_g_poll_returns_count os l timeout w :
  kq_valid_set (heap w) l → Z.of_nat (length l) * 3 <= G_MAXINT →
  ∃ l' ret w',
    g_poll os l timeout w = Some (l', ret, w')
    ∧ (ret = -1 ∨ ret = Z.of_nat (nonzero_revents l'))
    ∧ Forall2 kept l l'
    ∧ (kqueue_ret os = -1 → l' = l ∧ ret = -1 ∧ w' = w).
Proof.
  intros Hv Hl3. destruct (decide (kqueue_ret os = -1)) as [Hkq|Hkq].
  - exists l, (-1), w. unfold g_poll, kqueue. rewrite decide_True by done.
    rewrite decide_True by done. split; [done|]. split; [by left|].
    split; [|done]. apply Forall_Forall2_diag, Forall_forall. by intros.
  - destruct (kqueue_g_poll_trace os l timeout w Hv Hl3 Hkq)
      as (l' & ret & w' & Hpoll & Hret & Hk & _).
    exists l', ret, w'. split; [done|]. split; [|split; [done|by intros]].
    destruct (decide (ret = -1)) as [|Hne]; [by left|]. right.
    eapply kqueue_g_poll_counts_ready_entries; [|done|]; lia.
Qed.

(** X12: The bits of [revents] after a call that does not return -1: a
    wakeup entry has [G_IO_IN] at most, and that only if it asked for
    it; an entry with a negative [fd] has 0; another entry has, of
    [G_IO_IN], [G_IO_OUT] and [G_IO_PRI], those it asked for at most,
    and besides them [G_IO_HUP] and [G_IO_ERR] only. *)
Theorem kqueue_g_poll_reports_what_was_asked os l timeout w :
  kq_valid_set (heap w) l → Z.of_nat (length l) * 3 <= G_MAXINT →
  ∃ l' ret w',
    g_poll os l timeout w = Some (l', ret, w')
    ∧ (0 <= ret →
       Forall2 (λ p p', bits_within (revents p') (may_report p)) l l'
       ∧ ∀ i p p', l !! i = Some p → l' !! i = Some p' →
           is_wakeup p = false → fd p < 0 → revents p' = 0).
Proof.
  intros Hv Hl3. destruct (decide (kqueue_ret os = -1)) as [Hkq|Hkq].
  - exists l, (-1), w. unfold g_poll, kqueue. rewrite decide_True by done.
    rewrite decide_True by done. split; [done | lia].
  - destruct (kqueue_g_poll_trace os l timeout w Hv Hl3 Hkq)
      as (l' & ret & w' & Hpoll & _ & _ & Ht & _).
    exists l', ret, w'. split; [done|]. intros Hret. specialize (Ht Hret). split.
    + eapply Forall2_impl; [exact Ht|]. by intros p p' [_ ?].
    + intros i p p' Hi Hi' Hw Hfd.
      destruct (Forall2_lookup_lr _ _ _ _ _ _ Ht Hi Hi') as [_ Hb].
      unfold may_report in Hb. rewrite Hw, decide_False in Hb by lia.
      unfold bits_within in Hb. by rewrite Z.land_0_r in Hb.
Qed.

(** X13: What a call leaves behind when [kqueue ()] has succeeded, on
    every way out: the queue it made is closed and no other queue of
    the process is touched; every wakeup handle of the set is back in
    no queue ([kq = -1]); no handle is freed, and a handle that is not
    in the set is as it was. *)
Theorem kqueue_g_poll_cleans_up os l timeout w :
  kq_valid_set (heap w) l → Z.of_nat (length l) * 3 <= G_MAXINT →
  kqueue_ret os ≠ -1 →
  ∃ l' ret w',
    g_poll os l timeout w = Some (l', ret, w')
    ∧ kernel w' !! kqueue_ret os = None
    ∧ (∀ q, q ≠ kqueue_ret os → kernel w' !! q = kernel w !! q)
    ∧ (∀ p, p ∈ l → is_wakeup p = true →
         ∃ k, heap w' !! handle p = Some k ∧ kq k = -1)
    ∧ (∀ a, is_Some (heap w !! a) → is_Some (heap w' !! a))
    ∧ (∀ a, (∀ p, p ∈ l → is_wakeup p = true → handle p ≠ a) →
         heap w' !! a = heap w !! a).
Proof.
  intros Hv Hl3 Hkq.
  destruct (kqueue_g_poll_trace os l timeout w Hv Hl3 Hkq)
    as (l' & ret & w' & Hpoll & _ & _ & _ & Hker & Hdom & Hset & Hfr).
  exists l', ret, w'. split; [done|]. rewrite Hker.
  split; [apply lookup_delete_eq|].
  split; [intros q Hq; by rewrite lookup_delete_ne|].
  split; [done|]. split; [|done].
  intros a [k Hk]. destruct (Hdom a k Hk) as (k' & Hk' & _). by eexists.
Qed.

(** *** After the acknowledge *)

(** No user event of the queue is triggered. *)
Definition untriggered (q : KQueue) : Prop :=
  ∀ i b, users q !! i = Some b → b = false.

Lemma apply_changes_untriggered os cs room q :
  (∀ c, c ∈ cs → is_add c) → untriggered q →
  untriggered (apply_changes os cs room q).1.1.
Proof.
  revert room q. induction cs as [|c cs IH]; intros room q Hadd Hq; [done|].
  assert (Hc : is_add c) by (apply Hadd; left).
  assert (Hcs : ∀ c', c' ∈ cs → is_add c') by (intros c' ?; apply Hadd; by right).
  simpl. destruct (apply_change os c q) as [q1|] eqn:H1.
  - apply IH; [done|]. destruct c as [a| | |f i u]; try done; simpl in H1.
    + destruct (users q !! a) eqn:Ha; injection H1 as <-; [done|].
      intros i b. simpl. destruct (decide (a = i)) as [->|Hne].
      * rewrite lookup_insert_eq. by intros [= <-].
      * rewrite lookup_insert_ne by done. apply Hq.
    + destruct (fd_add_ok os f i); [|done]. by injection H1 as <-.
  - destruct room as [|room]; [done|].
    specialize (IH room q Hcs Hq).
    by destruct (apply_changes os cs room q) as [[q' errs] ok].
Qed.

Lemma user_events_untriggered q : untriggered q → user_events q = [].
Proof.
  intros Hq. unfold user_events.
  replace (base.filter (λ iu : Z * bool, iu.2 = true) (users q)) with (∅ : gmap Z bool);
    [by rewrite map_to_list_empty|].
  symmetry. apply map_empty. intros i. apply map_lookup_filter_None. right.
  intros b Hb. simpl. rewrite (Hq i b Hb). done.
Qed.

Lemma fd_events_none os q :
  (∀ f d u, fires os f d u = None) → fd_events os q = [].
Proof.
  intros Hf. unfold fd_events. induction (fd_filters q) as [|[[f i] u] fs IH];
    [done|].
  simpl. by rewrite Hf.
Qed.

Lemma kevent_heap os kq_ cs n w : heap (kevent os kq_ cs n w).2 = heap w.
Proof.
  unfold kevent. destruct (kernel w !! kq_) as [q|]; [|done].
  destruct (apply_changes os cs (Z.to_nat n) q) as [[q' errs] ok].
  by repeat case_match.
Qed.

(** A [kevent] on a queue with nothing to report. *)
Lemma kevent_nothing os kq_ cs n w q q' :
  kernel w !! kq_ = Some q →
  apply_changes os cs (Z.to_nat n) q = (q', [], true) →
  collect_fails os = false → untriggered q' →
  (∀ f d u, fires os f d u = None) →
  kevent os kq_ cs n w = (0, [], with_kernel w (<[kq_ := q']> (kernel w))).
Proof.
  intros Hq Hc Hcf Hu Hf. unfold kevent. rewrite Hq, Hc. simpl.
  case_decide; [done|]. rewrite Hcf.
  by rewrite (user_events_untriggered q' Hu), (fd_events_none os q' Hf),
    app_nil_r, take_nil.
Qed.

Lemma collect_results_nothing kq_ l w :
  Z.of_nat (length l) <= G_MAXINT → kq_valid_set (heap w) l →
  ∃ w', collect_results kq_ l 0 [] w = Some ((λ p, set_revents p 0) <$> l, 0, w').
Proof.
  intros Hlen Hv.
  destruct (collect_results_trace kq_ l 0 [] w Hlen) as (l' & ret' & w1 & Hc & _);
    [lia | done | done |].
  pose proof Hc as Hc'. apply collect_results_inv in Hc' as [He ->]; [|done].
  simpl in He. injection He as <-. rewrite decide_False in Hc by lia.
  by eexists.
Qed.

(** A call on a set whose wakeup handles have no signal pending, on a
    system whose calls succeed and where no descriptor has an event. *)
Lemma kqueue_g_poll_nothing_pending os l timeout w :
  kq_valid_set (heap w) l → Z.of_nat (length l) * 3 <= G_MAXINT →
  kqueue_ret os ≠ -1 → (∀ f d, fd_add_ok os f d = true) →
  collect_fails os = false → (∀ f d u, fires os f d u = None) →
  (∀ p, p ∈ l → is_wakeup p = true →
     ∃ k, heap w !! handle p = Some k ∧ pending k = 0) →
  ∃ w', g_poll os l timeout w = Some ((λ p, set_revents p 0) <$> l, 0, w').
Proof.
  intros Hv Hl3 Hkq Hadd Hcf Hfires Hpend.
  assert (Hlen : Z.of_nat (length l) <= G_MAXINT) by lia.
  unfold g_poll, kqueue. rewrite decide_False by done.
  rewrite decide_False by done.
  set (kq_ := kqueue_ret os).
  set (w0 := with_kernel w (<[kq_ := empty_queue]> (kernel w))).
  assert (Hk0 : kernel w0 !! kq_ = Some empty_queue) by apply lookup_insert_eq.
  assert (Hmax : to_gint (to_guint (Z.of_nat (length l) * 3))
                 = Z.of_nat (length l) * 3).
  { rewrite to_guint_id by (unfold G_MAXINT in *; lia).
    apply to_gint_id. unfold G_MAXINT in *. lia. }
  rewrite Hmax.
  assert (Hreg : ∀ room, ∃ q1,
            apply_changes os (changelist l) room empty_queue = (q1, [], true)
            ∧ untriggered q1).
  { intros room.
    destruct (apply_changes_adds os (changelist l) room empty_queue
                (changelist_adds l) Hadd) as (q1 & Hq1 & _).
    exists q1. split; [done|].
    pose proof (apply_changes_untriggered os (changelist l) room empty_queue
                  (changelist_adds l)) as Hu.
    rewrite Hq1 in Hu. apply Hu. intros i b Hb. simpl in Hb.
    by rewrite lookup_empty in Hb. }
  destruct (decide (num_wakeup_fds l = 0)) as [Hnw|Hnw].
  - destruct (Hreg (Z.to_nat (Z.of_nat (length l) * 3))) as (q1 & Hq1 & Hu1).
    rewrite (kevent_nothing os kq_ _ _ w0 _ q1 Hk0 Hq1 Hcf Hu1 Hfires).
    by apply collect_results_nothing.
  - destruct (Hreg (Z.to_nat 0)) as (q1 & Hq1 & Hu1).
    rewrite (kevent_nothing os kq_ _ _ w0 _ q1 Hk0 Hq1 Hcf Hu1 Hfires).
    rewrite decide_False by done. rewrite take_int_nfds by done.
    set (w1 := with_kernel w0 (<[kq_ := q1]> (kernel w0))).
    assert (Hk1 : kernel w1 !! kq_ = Some q1) by apply lookup_insert_eq.
    destruct (realize_all_trace kq_ l w1 q1 Hv Hk1 Hkq)
      as (w2 & q2 & -> & Hker2 & _ & Hdom2 & _ & Hq2). simpl.
    rewrite (Hq2 Hpend) in Hker2.
    assert (Hk2 : kernel w2 !! kq_ = Some q1)
      by (rewrite Hker2; apply lookup_insert_eq).
    rewrite (kevent_nothing os kq_ [] _ w2 q1 q1 Hk2 eq_refl Hcf Hu1 Hfires).
    apply collect_results_nothing; [done|].
    intros p Hp Hw. simpl. by apply Hdom2, Hv.
Qed.

(** X14: After [g_wakeup_acknowledge] the handle is not reported: a call on
    a set in which the other wakeup handles have no signal pending
    either returns 0 with every [revents] at 0, on a system whose calls
    succeed and where no descriptor has an event.  The acknowledge works
    on a handle that is in no queue as well, where its [kevent] fails
    and is ignored. *)
Theorem kqueue_poll_after_acknowledge os a l timeout w :
  kq_valid_set (heap w) l → Z.of_nat (length l) * 3 <= G_MAXINT →
  kqueue_ret os ≠ -1 → (∀ f d, fd_add_ok os f d = true) →
  collect_fails os = false → (∀ f d u, fires os f d u = None) →
  is_Some (heap w !! a) →
  (∀ p, p ∈ l → is_wakeup p = true → handle p ≠ a →
     ∃ k, heap w !! handle p = Some k ∧ pending k = 0) →
  ∃ w1 w',
    g_wakeup_acknowledge a w = Some w1
    ∧ g_poll os l timeout w1 = Some ((λ p, set_revents p 0) <$> l, 0, w').
Proof.
  intros Hv Hl3 Hkq Hadd Hcf Hfires [k Hk] Hothers.
  unfold g_wakeup_acknowledge. rewrite Hk. simpl.
  set (w0 := (kevent no_os (kq k) [DeleteUser a; AddUser a] 0 w).2).
  set (w1 := with_heap w0 (<[a := {| kq := kq k; pending := 0 |}]> (heap w0))).
  assert (Hh0 : heap w0 = heap w) by apply kevent_heap.
  destruct (kqueue_g_poll_nothing_pending os l timeout w1) as [w' Hw'];
    try done; simpl; rewrite ?Hh0.
  - by apply kq_valid_set_insert.
  - intros p Hp Hw. destruct (decide (handle p = a)) as [->|Hne].
    + rewrite lookup_insert_eq. by eexists.
    + rewrite lookup_insert_ne by done. by apply Hothers.
  - by exists w1, w'.
Qed.

(** X15: A handle that is in a queue, as it is while a call of [g_poll]
    waits on it: [g_wakeup_signal] triggers its user event in that
    queue and counts the signal; [g_wakeup_acknowledge] puts a fresh,
    untriggered user event in its place and sets the count to 0. *)
Theorem g_wakeup_signal_acknowledge_in_queue a w k q b :
  heap w !! a = Some k → kq k ≠ -1 →
  kernel w !! kq k = Some q → users q !! a = Some b →
  ∃ w1 q1 w2 q2,
    g_wakeup_signal a w = Some w1
    ∧ heap w1 !! a = Some {| kq := kq k; pending := to_guint (pending k + 1) |}
    ∧ kernel w1 !! kq k = Some q1
    ∧ user_event a ∈ user_events q1
    ∧ g_wakeup_acknowledge a w1 = Some w2
    ∧ heap w2 !! a = Some {| kq := kq k; pending := 0 |}
    ∧ kernel w2 !! kq k = Some q2
    ∧ users q2 !! a = Some false
    ∧ user_event a ∉ user_events q2.
Proof.
  intros Hk Hkq Hq Hb.
  unfold g_wakeup_signal, g_wakeup_signal_unlocked. rewrite Hk. simpl.
  rewrite decide_True by done.
  assert (Hkev : kevent no_os (kq k) [TriggerUser a] 0 w
                 = (0, [], with_kernel w
                             (<[kq k := {| users := <[a := true]> (users q);
                                           fd_filters := fd_filters q |}]> (kernel w)))).
  { unfold kevent. rewrite Hq. simpl. rewrite Hb. simpl. done. }
  rewrite Hkev. simpl.
  set (q1 := {| users := <[a := true]> (users q); fd_filters := fd_filters q |}).
  eexists _, q1, _, _. split; [done|]. simpl.
  split; [apply lookup_insert_eq|]. split; [apply lookup_insert_eq|].
  split; [apply user_events_triggered; apply lookup_insert_eq|].
  unfold g_wakeup_acknowledge. simpl. rewrite lookup_insert_eq. simpl.
  set (w1 := with_heap (with_kernel w (<[kq k := q1]> (kernel w)))
               (<[a := {| kq := kq k; pending := to_guint (pending k + 1) |}]>
                  (heap w))).
  assert (Hack : kevent no_os (kq k) [DeleteUser a; AddUser a] 0 w1
                 = (0, [], with_kernel w1
                             (<[kq k := {| users := <[a := false]>
                                                      (delete a (users q1));
                                           fd_filters := fd_filters q |}]>
                                (kernel w1)))).
  { unfold kevent. simpl. rewrite lookup_insert_eq. simpl.
    rewrite lookup_insert_eq. simpl. rewrite lookup_delete_eq. done. }
  rewrite Hack. simpl. split; [done|].
  split; [apply lookup_insert_eq|]. split; [apply lookup_insert_eq|].
  split; [apply lookup_insert_eq|].
  unfold user_events. simpl. intros Hin.
  apply list_elem_of_fmap in Hin as ([i b'] & Heq & Hin).
  apply elem_of_map_to_list, map_lookup_filter_Some in Hin as [Hl Hp].
  unfold user_event in Heq. injection Heq as ->. simpl in *.
  rewrite lookup_insert_eq in Hl. by injection Hl as <-.
Qed.

(** *** A signal that the count loses *)

Lemma realize_nothing_pending a q w k :
  heap w !! a = Some k → pending k = 0 →
  ∃ w2, _g_wakeup_kqueue_realize a q w = Some w2 ∧ kernel w2 = kernel w.
Proof.
  intros Hk Hp. unfold _g_wakeup_kqueue_realize. rewrite Hk. simpl.
  rewrite decide_False by (intros H; by apply H). by eexists.
Qed.

(** C9: a signal that precedes the poll is lost when it wraps the
    count.  A handle that is realized into no queue ([kq == -1]) and
    has been signalled [2^32 - 1] times without an acknowledge: the next [g_wakeup_signal] adds one to [pending], a
    [guint], which is 0 after it; a realization into a queue then
    issues no [NOTE_TRIGGER], and the [g_poll] that follows the signal
    returns 0 with every [revents] at 0, on a system whose calls
    succeed and where nothing else is pending: the signal that came
    before the call is not observed. *)
Theorem kqueue_signal_at_full_count_is_lost os a k l timeout w :
  heap w !! a = Some k → kq k = -1 → pending k = 2 ^ 32 - 1 →
  kq_valid_set (heap w) l → Z.of_nat (length l) * 3 <= G_MAXINT →
  kqueue_ret os ≠ -1 → (∀ f d, fd_add_ok os f d = true) →
  collect_fails os = false → (∀ f d u, fires os f d u = None) →
  (∀ p, p ∈ l → is_wakeup p = true → handle p ≠ a →
     ∃ k', heap w !! handle p = Some k' ∧ pending k' = 0) →
  ∃ w1,
    g_wakeup_signal a w = Some w1
    ∧ heap w1 !! a = Some {| kq := -1; pending := 0 |}
    ∧ kernel w1 = kernel w
    ∧ (∀ q, q ≠ -1 →
         ∃ w2, _g_wakeup_kqueue_realize a q w1 = Some w2
             ∧ kernel w2 = kernel w1)
    ∧ ∃ w', g_poll os l timeout w1 = Some ((λ p, set_revents p 0) <$> l, 0, w').
Proof.
  intros Hk Hkq Hfull Hv Hl Hos1 Hos2 Hos3 Hos4 Hothers.
  rewrite (g_wakeup_signal_unrealized a w k Hk Hkq).
  assert (Hwrap : to_guint (pending k + 1) = 0) by (by rewrite Hfull).
  rewrite Hwrap.
  set (w1 := with_heap w (<[a := {| kq := -1; pending := 0 |}]> (heap w))).
  assert (Hk1 : heap w1 !! a = Some {| kq := -1; pending := 0 |})
    by apply lookup_insert_eq.
  exists w1. split; [done|]. split; [done|]. split; [done|]. split.
  - intros q _. by apply (realize_nothing_pending a q w1 _ Hk1).
  - apply kqueue_g_poll_nothing_pending; try done.
    + by apply kq_valid_set_insert.
    + intros p Hp Hw. simpl. destruct (decide (handle p = a)) as [->|Hne].
      * rewrite lookup_insert_eq. by eexists.
      * rewrite lookup_insert_ne by done. by apply Hothers.
Qed.

End KqueueBehaviour.

(** *** Sample runs *)

(** A system like [quiet_os] on which the descriptor 5 is readable. *)
Definition readable_os : Kqueue.OS :=
  {| Kqueue.kqueue_ret := 7;
     Kqueue.fd_add_ok := λ _ _, true;
     Kqueue.collect_fails := false;
     Kqueue.fires := λ f d _,
       match f with
       | Kqueue.EVFILT_READ => if decide (d = 5) then Some (0, 0) else None
       | _ => None
       end |}.

(** An entry that asks for [G_IO_IN] and [G_IO_OUT] on the descriptor
    [d]. *)
Definition kq_in_out_fd (d : Z) : Kqueue.GPollFD :=
  {| Kqueue.fd := d; Kqueue.events := 5; Kqueue.revents := 0; Kqueue.handle := 0 |}.

(** The handle at 10 after one signal, in no queue; and the same handle
    in the queue 7, as during a call of [g_poll]. *)
Definition signalled_handle : Kqueue.World :=
  {| Kqueue.heap := {[ 10 := {| Kqueue.kq := -1; Kqueue.pending := 1 |} ]};
     Kqueue.kernel := ∅ |}.

Definition realized_handle : Kqueue.World :=
  {| Kqueue.heap := {[ 10 := {| Kqueue.kq := 7; Kqueue.pending := 0 |} ]};
     Kqueue.kernel :=
       {[ 7 := {| Kqueue.users := {[ 10 := false ]}; Kqueue.fd_filters := [] |} ]} |}.

Lemma kqueue_g_poll_returns_count_witness :
  ∃ l' ret w',
    Kqueue.g_poll (cfg := kqueue_config) readable_os
      [kq_wakeup_pollfd 10; kq_in_out_fd 5] 0 signalled_handle = Some (l', ret, w')
    ∧ (ret = -1 ∨ ret = Z.of_nat (nonzero_revents l')).
Proof.
  destruct (kqueue_g_poll_returns_count (cfg := kqueue_config) readable_os
              [kq_wakeup_pollfd 10; kq_in_out_fd 5] 0 signalled_handle)
    as (l' & ret & w' & Hp & Hr & _).
  - apply kq_valid_set_Forall. apply (bool_decide_unpack _). vm_compute. exact I.
  - vm_compute. discriminate.
  - by exists l', ret, w'.
Defined.

Lemma kqueue_g_poll_reports_what_was_asked_witness :
  ∃ l' ret w',
    Kqueue.g_poll (cfg := kqueue_config) readable_os
      [kq_wakeup_pollfd 10; kq_in_out_fd 5] 0 signalled_handle = Some (l', ret, w')
    ∧ (0 <= ret →
       Forall2 (λ p p', bits_within (Kqueue.revents p')
                          (may_report (cfg := kqueue_config) p))
         [kq_wakeup_pollfd 10; kq_in_out_fd 5] l').
Proof.
  destruct (kqueue_g_poll_reports_what_was_asked (cfg := kqueue_config) readable_os
              [kq_wakeup_pollfd 10; kq_in_out_fd 5] 0 signalled_handle)
    as (l' & ret & w' & Hp & Hr).
  - apply kq_valid_set_Forall. apply (bool_decide_unpack _). vm_compute. exact I.
  - vm_compute. discriminate.
  - exists l', ret, w'. split; [exact Hp|]. intros H. exact (proj1 (Hr H)).
Defined.

Lemma kqueue_g_poll_cleans_up_witness :
  ∃ l' ret w' k,
    Kqueue.g_poll (cfg := kqueue_config) readable_os
      [kq_wakeup_pollfd 10; kq_in_out_fd 5] 0 signalled_handle = Some (l', ret, w')
    ∧ Kqueue.kernel w' !! 7 = None
    ∧ Kqueue.heap w' !! 10 = Some k ∧ Kqueue.kq k = -1.
Proof.
  destruct (kqueue_g_poll_cleans_up (cfg := kqueue_config) readable_os
              [kq_wakeup_pollfd 10; kq_in_out_fd 5] 0 signalled_handle)
    as (l' & ret & w' & Hp & Hk & _ & Hset & _).
  - apply kq_valid_set_Forall. apply (bool_decide_unpack _). vm_compute. exact I.
  - vm_compute. discriminate.
  - vm_compute. discriminate.
  - destruct (Hset (kq_wakeup_pollfd 10)) as (k & Hk1 & Hk2); [left | reflexivity |].
    exists l', ret, w', k. split; [exact Hp|]. split; [exact Hk|].
    split; [exact Hk1 | exact Hk2].
Defined.

Lemma kqueue_poll_after_acknowledge_witness :
  ∃ w1 w',
    Kqueue.g_wakeup_acknowledge (cfg := kqueue_config) 10 signalled_handle = Some w1
    ∧ Kqueue.g_poll (cfg := kqueue_config) quiet_os
        [kq_wakeup_pollfd 10; kq_in_out_fd 5] 0 w1
      = Some ((λ p, Kqueue.set_revents p 0)
                <$> [kq_wakeup_pollfd 10; kq_in_out_fd 5], 0, w').
Proof.
  apply (kqueue_poll_after_acknowledge (cfg := kqueue_config) quiet_os 10
           [kq_wakeup_pollfd 10; kq_in_out_fd 5] 0 signalled_handle).
  - apply kq_valid_set_Forall. apply (bool_decide_unpack _). vm_compute. exact I.
  - vm_compute. discriminate.
  - vm_compute. discriminate.
  - reflexivity.
  - reflexivity.
  - reflexivity.
  - vm_compute. eexists. reflexivity.
  - intros p Hp Hw Hne. exfalso.
    apply elem_of_cons in Hp as [->|Hp]; [by apply Hne|].
    apply list_elem_of_singleton in Hp as ->. vm_compute in Hw. discriminate.
Defined.

Lemma g_wakeup_signal_acknowledge_in_queue_witness :
  ∃ w1 q1 w2 q2,
    Kqueue.g_wakeup_signal (cfg := kqueue_config) 10 realized_handle = Some w1
    ∧ Kqueue.kernel w1 !! 7 = Some q1
    ∧ user_event 10 ∈ Kqueue.user_events q1
    ∧ Kqueue.g_wakeup_acknowledge (cfg := kqueue_config) 10 w1 = Some w2
    ∧ Kqueue.kernel w2 !! 7 = Some q2
    ∧ user_event 10 ∉ Kqueue.user_events q2.
Proof.
  destruct (g_wakeup_signal_acknowledge_in_queue (cfg := kqueue_config) 10
              realized_handle {| Kqueue.kq := 7; Kqueue.pending := 0 |}
              {| Kqueue.users := {[ 10 := false ]}; Kqueue.fd_filters := [] |} false)
    as (w1 & q1 & w2 & q2 & H1 & _ & H2 & H3 & H4 & _ & H5 & _ & H6).
  - reflexivity.
  - vm_compute. discriminate.
  - reflexivity.
  - reflexivity.
  - exists w1, q1, w2, q2. repeat (split; [assumption|]). assumption.
Defined.

(** The handle at 10 after [2^32 - 1] signals, in no queue. *)
Definition full_count_handle : Kqueue.World :=
  {| Kqueue.heap := {[ 10 := {| Kqueue.kq := -1; Kqueue.pending := 2 ^ 32 - 1 |} ]};
     Kqueue.kernel := ∅ |}.

Lemma kqueue_signal_at_full_count_is_lost_witness :
  signal_times (cfg := kqueue_config) (2 ^ 32 - 1) 10 one_handle
  = Some full_count_handle
  ∧ ∃ w1 w',
      Kqueue.g_wakeup_signal (cfg := kqueue_config) 10 full_count_handle = Some w1
      ∧ Kqueue.g_poll (cfg := kqueue_config) quiet_os [kq_wakeup_pollfd 10] 0 w1
        = Some ([Kqueue.set_revents (kq_wakeup_pollfd 10) 0], 0, w').
Proof.
  split.
  - change (2 ^ 32 - 1)%N with (N.succ 4294967294).
    rewrite (signal_times_unrealized (cfg := kqueue_config) _ 10 one_handle
               {| Kqueue.kq := -1; Kqueue.pending := 0 |});
      [| vm_compute; reflexivity | reflexivity].
    vm_compute. reflexivity.
  - destruct (kqueue_signal_at_full_count_is_lost (cfg := kqueue_config) quiet_os 10
                {| Kqueue.kq := -1; Kqueue.pending := 2 ^ 32 - 1 |}
                [kq_wakeup_pollfd 10] 0 full_count_handle)
      as (w1 & Hs & _ & _ & _ & w' & Hp).
    + reflexivity.
    + reflexivity.
    + reflexivity.
    + apply kq_valid_set_Forall. apply (bool_decide_unpack _). vm_compute. exact I.
    + vm_compute. discriminate.
    + vm_compute. discriminate.
    + reflexivity.
    + reflexivity.
    + reflexivity.
    + intros p [->|[]%elem_of_nil]%elem_of_cons _ Hne. by destruct Hne.
    + exists w1, w'. split; [exact Hs | exact Hp].
Defined.

(** ** G_OS_WIN32: the handles of a call, its waits and its answers *)

Section Win32Behaviour.
Import Win32.
Context {cfg : Config}.

(** *** [fill_poll_thread_data] *)

(** The entry for the message queue. *)
Definition is_msg (f : GPollFD) : Prop :=
  fd f = G_WIN32_MSG_HANDLE ∧ Z.land (events f) G_IO_IN ≠ 0.

(** The handles of the entries [l], the first of which is [fds[base]]:
    those with a positive [fd], but for the message queue. *)
Fixpoint handle_slots (base : nat) (l : list GPollFD) : list (Z * ptr) :=
  match l with
  | [] => []
  | f :: rest =>
      (if decide (is_msg f) then []
       else if decide (fd f > 0) then [(fd f, Fd base)] else [])
      ++ handle_slots (S base) rest
  end.

(** The last entry for the message queue among [l], or [acc]. *)
Fixpoint msg_entry (base : nat) (l : list GPollFD) (acc : option ptr)
  : option ptr :=
  match l with
  | [] => acc
  | f :: rest =>
      msg_entry (S base) rest (if decide (is_msg f) then Some (Fd base) else acc)
  end.

Definition zeroed (l : list GPollFD) : list GPollFD :=
  (λ f, set_revents f 0) <$> l.

Lemma handle_slots_length base l : (length (handle_slots base l) <= length l)%nat.
Proof.
  revert base. induction l as [|f l IH]; intros base; simpl; [lia|].
  rewrite length_app. specialize (IH (S base)).
  repeat case_decide; simpl; lia.
Qed.

Lemma handle_slots_elem base l h p :
  (h, p) ∈ handle_slots base l ↔
  ∃ i f, l !! i = Some f ∧ p = Fd (base + i) ∧ h = fd f ∧ fd f > 0 ∧ ¬ is_msg f.
Proof.
  revert base. induction l as [|f l IH]; intros base; simpl.
  - rewrite elem_of_nil. split; [done | by intros (i & f & Hi & _)].
  - rewrite elem_of_app, IH. split.
    + intros [Hin|(i & g & Hi & -> & -> & Hg)].
      * repeat case_decide; try (by apply elem_of_nil in Hin).
        apply list_elem_of_singleton in Hin as [= -> ->].
        exists 0%nat, f. rewrite Nat.add_0_r. done.
      * exists (S i), g. split; [done|]. split; [f_equal; lia | done].
    + intros ([|i] & g & Hi & -> & -> & Hpos & Hmsg).
      * injection Hi as <-. left. rewrite decide_False, decide_True by done.
        rewrite Nat.add_0_r. left.
      * right. exists i, g. split; [done|]. split; [f_equal; lia | done].
Qed.

Lemma msg_entry_cases base l acc :
  msg_entry base l acc = acc
  ∨ ∃ i f, l !! i = Some f ∧ is_msg f ∧ msg_entry base l acc = Some (Fd (base + i)).
Proof.
  revert base acc. induction l as [|f l IH]; intros base acc; simpl; [by left|].
  destruct (IH (S base) (if decide (is_msg f) then Some (Fd base) else acc))
    as [->|(i & g & Hi & Hg & ->)].
  - case_decide; [|by left]. right. exists 0%nat, f. by rewrite Nat.add_0_r.
  - right. exists (S i), g. split; [done|]. split; [done|]. do 2 f_equal. lia.
Qed.

Lemma insert_middle {A} (pre : list A) x y r :
  <[length pre := y]> (pre ++ x :: r) = pre ++ y :: r.
Proof. rewrite insert_app_r_alt by done. by rewrite Nat.sub_diag. Qed.

(** The loop over a group of entries that fits: it runs to the end. *)
Lemma fill_loop_collects l pre post data s c :
  Z.of_nat (length (slots data))
  + match msg_fd data with Some _ => 1 | None => 0 end
  + Z.of_nat (length l) <= MAXIMUM_WAIT_OBJECTS →
  fill_loop (seq (length pre) (length l)) data
    {| fds := pre ++ l ++ post; stop_event := s; calls := c |}
  = Some ({| slots := slots data ++ handle_slots (length pre) l;
             msg_fd := msg_entry (length pre) l (msg_fd data);
             stop_fd := stop_fd data; timeout_ms := timeout_ms data |},
          {| fds := pre ++ zeroed l ++ post; stop_event := s; calls := c |}).
Proof.
  revert pre data. induction l as [|f l IH]; intros pre data Hfit.
  - simpl. rewrite app_nil_r. by destruct data.
  - cbn [length seq fill_loop]. cbn [length] in Hfit.
    change ((f :: l) ++ post) with (f :: (l ++ post)).
    rewrite decide_False by (destruct (msg_fd data); intros [?|[? ?]]; try lia; done).
    cbn [fds]. rewrite list_lookup_middle by done. cbn [mbind option_bind].
    replace (<[length pre := set_revents f 0]> (pre ++ f :: l ++ post))
      with ((pre ++ [set_revents f 0]) ++ l ++ post)
      by (rewrite <- app_assoc; simpl; symmetry; apply insert_middle).
    cbn [write_revents fds mbind option_bind].
    rewrite list_lookup_middle by done. cbn [mbind option_bind stop_event calls].
    replace (<[length pre := set_revents f 0]> (pre ++ f :: l ++ post))
      with ((pre ++ [set_revents f 0]) ++ l ++ post)
      by (rewrite <- app_assoc; simpl; symmetry; apply insert_middle).
    replace (S (length pre)) with (length (pre ++ [set_revents f 0]))
      by (rewrite length_app; simpl; lia).
    rewrite IH.
    + rewrite length_app. cbn [length]. rewrite Nat.add_1_r.
      f_equal. f_equal.
      * cbn [handle_slots msg_entry]. unfold is_msg.
        repeat case_decide; simpl; by rewrite <- ?app_assoc.
      * unfold zeroed. rewrite fmap_cons, <- app_assoc. done.
    + repeat case_decide; simpl; rewrite ?length_app; simpl;
        destruct (msg_fd data); lia.
Qed.

(** [fill_poll_thread_data] on a group that fits. *)
Lemma fill_poll_thread_data_group base n timeout stop m :
  (base + n <= length (fds m))%nat →
  (stop = None ∧ Z.of_nat n <= MAXIMUM_WAIT_OBJECTS)
  ∨ (stop = Some StopFd ∧ Z.of_nat n <= MAXIMUM_WAIT_OBJECTS - 1) →
  fill_poll_thread_data base n timeout stop zero_data m
  = Some ({| slots := match stop with
                      | Some _ => [(fd (stop_event m), StopFd)]
                      | None => []
                      end ++ handle_slots base (take n (drop base (fds m)));
             msg_fd := msg_entry base (take n (drop base (fds m))) None;
             stop_fd := stop; timeout_ms := timeout |},
          {| fds := take base (fds m) ++ zeroed (take n (drop base (fds m)))
                    ++ drop (base + n) (fds m);
             stop_event := stop_event m; calls := calls m |}).
Proof.
  intros Hrange Hstop. unfold fill_poll_thread_data.
  set (pre := take base (fds m)). set (l := take n (drop base (fds m))).
  set (post := drop (base + n) (fds m)).
  assert (Hm : m = {| fds := pre ++ l ++ post; stop_event := stop_event m;
                      calls := calls m |}).
  { destruct m as [fs s c]. simpl in *. f_equal. unfold pre, l, post.
    rewrite <- drop_drop, take_drop. by rewrite take_drop. }
  assert (Hpre : length pre = base) by (unfold pre; rewrite length_take; lia).
  assert (Hl : length l = n).
  { unfold l. rewrite length_take, length_drop. lia. }
  destruct Hstop as [[-> Hn]|[-> Hn]]; simpl.
  - rewrite Hm at 1. rewrite <- Hpre at 1. rewrite <- Hl at 1.
    rewrite fill_loop_collects by (simpl; lia). by rewrite Hpre.
  - rewrite decide_True by lia. simpl.
    rewrite Hm at 2. rewrite <- Hpre at 1. rewrite <- Hl at 1.
    rewrite fill_loop_collects by (simpl; lia). by rewrite Hpre.
Qed.

(** X16: [fill_poll_thread_data] on a group of [n] entries from [fds[base]]
    on, as [g_poll] calls it: on the whole set without a stop event
    ([n <= MAXIMUM_WAIT_OBJECTS]), or on the group of a worker with the
    stop event ([n <= MAXIMUM_WAIT_OBJECTS - 1]).  The loop is never
    left at its "too many handles" check: every entry of the group has
    its [revents] cleared, the handles are those of the entries with a
    positive [fd] that are not the message queue, in the order of the
    set and after the stop event, and [msg_fd] is the last entry for
    the message queue.  Entries outside the group are not touched. *)
Theorem fill_poll_thread_data_collects base n timeout stop m :
  (base + n <= length (fds m))%nat →
  (stop = None ∧ Z.of_nat n <= MAXIMUM_WAIT_OBJECTS)
  ∨ (stop = Some StopFd ∧ Z.of_nat n <= MAXIMUM_WAIT_OBJECTS - 1) →
  fill_poll_thread_data base n timeout stop zero_data m
  = Some ({| slots := match stop with
                      | Some _ => [(fd (stop_event m), StopFd)]
                      | None => []
                      end ++ handle_slots base (take n (drop base (fds m)));
             msg_fd := msg_entry base (take n (drop base (fds m))) None;
             stop_fd := stop; timeout_ms := timeout |},
          {| fds := take base (fds m) ++ zeroed (take n (drop base (fds m)))
                    ++ drop (base + n) (fds m);
             stop_event := stop_event m; calls := calls m |}).
Proof. apply fill_poll_thread_data_group. Qed.

(** *** The answers *)

Lemma first_wait_fds os msg sl timeout m :
  fds (first_wait os msg sl timeout m).2 = fds m.
Proof. unfold first_wait. destruct msg; repeat case_decide; done. Qed.

Lemma add_recursed_inv retval rec r m' :
  add_recursed retval rec = Some (r, m') → ∃ r0, rec = Some (r0, m').
Proof.
  destruct rec as [[r0 m0]|]; simpl; [|done]. intros [= _ <-]. by exists r0.
Qed.

(** The entry [f] at [fds[i]], where [l] is the set at the call, the
    handles of the call are among [sl] and [mp] is its message queue
    entry.  [fd] and [events] are those of the call.  One of the first
    [n] entries, which have been cleared, has been told nothing since,
    or its handle was signalled and it is told all it asked for, or it
    is the message queue entry and is told [G_IO_IN]; another entry is
    as it was at the call. *)
Definition answer_ok (n : nat) (l : list GPollFD) (sl : list (Z * ptr))
    (mp : option ptr) (i : nat) (f : GPollFD) : Prop :=
  ∃ f0, l !! i = Some f0 ∧ fd f = fd f0 ∧ events f = events f0
    ∧ if decide (i < n)%nat
      then revents f = 0
           ∨ ((∃ h, (h, Fd i) ∈ sl) ∧ revents f = events f0)
           ∨ (mp = Some (Fd i) ∧ revents f = wrap_unsigned 16 G_IO_IN)
      else revents f = revents f0.

Definition answered (n : nat) (l : list GPollFD) (sl : list (Z * ptr))
    (mp : option ptr) (m : Mem) : Prop :=
  ∀ i f, fds m !! i = Some f → answer_ok n l sl mp i f.

(** The pointers of [sl] are to the first [n] entries. *)
Definition below (n : nat) (sl : list (Z * ptr)) : Prop :=
  ∀ h i, (h, Fd i) ∈ sl → (i < n)%nat.

Lemma wrap_lor_idem x : wrap_unsigned 16 (Z.lor (wrap_unsigned 16 x) x) = wrap_unsigned 16 x.
Proof.
  unfold wrap_unsigned. rewrite <- !Z.land_ones by lia.
  apply Z.bits_inj. intros k.
  rewrite !Z.land_spec, Z.lor_spec, Z.land_spec.
  by destruct (Z.testbit x k), (Z.testbit (Z.ones 16) k).
Qed.

Lemma answered_write n l sl mp m h p g m' :
  answered n l sl mp m → (∀ i, p = Fd i → (h, p) ∈ sl ∧ (i < n)%nat) →
  read_fd p m = Some g → write_revents p (events g) m = Some m' →
  answered n l sl mp m'.
Proof.
  intros Ha Hin Hr Hw. destruct p as [|i]; simpl in *.
  - by injection Hw as <-.
  - rewrite Hr in Hw. simpl in Hw. injection Hw as <-. intros j f Hj. simpl in Hj.
    destruct (Hin i eq_refl) as [Hsl Hlt].
    destruct (decide (i = j)) as [<-|Hne].
    + rewrite list_lookup_insert_eq in Hj by (by eapply lookup_lt_Some).
      injection Hj as <-. destruct (Ha i g Hr) as (f0 & Hf0 & Hfd & Hev & _).
      exists f0. split; [done|]. split; [done|]. split; [done|].
      rewrite decide_True by done.
      right. left. split; [by exists h | done].
    + rewrite list_lookup_insert_ne in Hj by done. by apply Ha.
Qed.

Lemma answered_or n l sl mp m p m' :
  answered n l sl mp m → mp = Some p → (∀ h, (h, p) ∉ sl) →
  (∀ i, p = Fd i → (i < n)%nat) →
  or_revents p G_IO_IN m = Some m' → answered n l sl mp m'.
Proof.
  intros Ha -> Hnot Hlt. unfold or_revents. destruct p as [|i]; simpl.
  - by intros [= <-].
  - destruct (fds m !! i) as [g|] eqn:Hg; simpl; [|done].
    intros [= <-]. intros j f Hj. simpl in Hj.
    destruct (decide (i = j)) as [<-|Hne].
    + rewrite list_lookup_insert_eq in Hj by (by eapply lookup_lt_Some).
      injection Hj as <-. destruct (Ha i g Hg) as (f0 & Hf0 & Hfd & Hev & Hrev).
      exists f0. split; [done|]. split; [done|]. split; [done|].
      rewrite decide_True in * by (by apply Hlt).
      right. right. split; [done|]. simpl.
      destruct Hrev as [->|[[[h Hh] _]|[_ ->]]].
      * by rewrite Z.lor_0_l.
      * by apply Hnot in Hh.
      * apply wrap_lor_idem.
    + rewrite list_lookup_insert_ne in Hj by done. by apply Ha.
Qed.

Lemma answered_fds n l sl mp m m' :
  fds m' = fds m → answered n l sl mp m → answered n l sl mp m'.
Proof. intros Hf Ha i f. rewrite Hf. apply Ha. Qed.

(** [poll_rest] on some of the handles of the call. *)
Lemma poll_rest_answered os msg stop sl timeout m :
  ∀ n l SL mp r m',
    (∀ h i, (h, Fd i) ∈ sl → (h, Fd i) ∈ SL) → below n sl →
    (msg = None ∨ msg = mp) →
    (∀ p, mp = Some p → (∀ h, (h, p) ∉ SL) ∧ ∀ i, p = Fd i → (i < n)%nat) →
    answered n l SL mp m →
    poll_rest os msg stop sl timeout m = Some (r, m') →
    answered n l SL mp m'.
Proof.
  funelim (poll_rest os msg stop sl timeout m);
    intros n l SL mp r m' Hsub Hbelow Hmsg Hnot Hans Hres;
    pose proof (first_wait_fds os msg sl timeout m) as Hfw;
    assert (Hans1 : answered n l SL mp (first_wait os msg sl timeout m).2)
      by (by eapply answered_fds).
  - by injection Hres as <- <-.
  - by injection Hres as <- <-.
  - pose proof (classify_message _ _ _ _ e) as Hm.
    destruct (or_revents mf G_IO_IN (first_wait os msg sl timeout m).2)
      as [m2|] eqn:Hor; [|done].
    assert (Hmp : mp = Some mf) by (destruct Hmsg; congruence).
    destruct (Hnot mf Hmp) as [Hnot1 Hnot2].
    assert (Hans2 : answered n l SL mp m2)
      by (eapply answered_or; [exact Hans1 | exact Hmp | exact Hnot1
                              | exact Hnot2 | exact Hor]).
    case_decide as Hd.
    + by injection Hres as <- <-.
    + apply add_recursed_inv in Hres as [r0 Hrec].
      eapply (H m2 Hd n l SL mp r0 m'); try done. by left.
  - by injection Hres as <- <-.
  - done.
  - assert (Hin : (h, f) ∈ sl).
    { apply (list_elem_of_lookup_2 _ idx).
      rewrite <- (Nat.add_0_r idx), <- lookup_drop. simpl in e0. by rewrite e0. }
    destruct (read_fd f (first_wait os msg sl timeout m).2) as [g|] eqn:Hg; [|done].
    destruct (write_revents f (events g) (first_wait os msg sl timeout m).2)
      as [m2|] eqn:Hw; [|done].
    assert (Hans2 : answered n l SL mp m2).
    { eapply answered_write; [exact Hans1 | | exact Hg | exact Hw].
      intros i ->. split; [by apply Hsub | by eapply Hbelow]. }
    assert (Hshorter : ∀ x, x ∈ shorter → x ∈ sl).
    { intros x Hx. apply (subseteq_drop (idx + 1) sl).
      simpl in e0. by rewrite <- drop_drop, e0. }
    case_decide as Hd2.
    + apply add_recursed_inv in Hres as [r0 Hrec].
      eapply (H g m2 Hd2 n l SL mp r0 m'); try done; [| |by left].
      * intros h0 i Hi. by apply Hsub, Hshorter.
      * intros h0 i Hi. eapply Hbelow. by apply Hshorter.
    + by injection Hres as <- <-.
Qed.

Lemma poll_single_thread_answered os data n l SL mp m r m' :
  (∀ h i, (h, Fd i) ∈ slots data → (h, Fd i) ∈ SL) → below n (slots data) →
  (msg_fd data = None ∨ msg_fd data = mp) →
  (∀ p, mp = Some p → (∀ h, (h, p) ∉ SL) ∧ ∀ i, p = Fd i → (i < n)%nat) →
  answered n l SL mp m →
  poll_single_thread os data m = Some (r, m') →
  answered n l SL mp m'.
Proof.
  intros Hsub Hbelow Hmsg Hnot Hans. unfold poll_single_thread. case_decide.
  - destruct (poll_rest os (msg_fd data) (stop_fd data) (slots data) 0 m)
      as [[r1 m1]|] eqn:H1; simpl; [|done].
    assert (Hans1 : answered n l SL mp m1).
    { eapply poll_rest_answered; [| | | |exact Hans|exact H1]; done. }
    case_decide.
    + intros H2. eapply poll_rest_answered; [| | | |exact Hans1|exact H2]; done.
    + by intros [= <- <-].
  - intros H1. eapply poll_rest_answered; [| | | |exact Hans|exact H1]; done.
Qed.

(** What [g_poll] may tell the entry [f] of the set. *)
Definition answer (f f' : GPollFD) : Prop :=
  fd f' = fd f ∧ events f' = events f
  ∧ (revents f' = 0
     ∨ (fd f > 0 ∧ ¬ is_msg f ∧ revents f' = events f)
     ∨ (is_msg f ∧ revents f' = wrap_unsigned 16 G_IO_IN)).

(** The message queue entry of a call is one of the first [n] entries
    of the set. *)
Definition msg_ok (n : nat) (l : list GPollFD) (mp : option ptr) : Prop :=
  ∀ p, mp = Some p → ∃ j f, p = Fd j ∧ (j < n)%nat ∧ l !! j = Some f ∧ is_msg f.

Lemma answered_zeroed l sl mp s c :
  answered (length l) l sl mp {| fds := zeroed l; stop_event := s; calls := c |}.
Proof.
  intros i f Hi. simpl in Hi. unfold zeroed in Hi.
  apply list_lookup_fmap_Some in Hi as (f0 & -> & Hf0).
  exists f0. split; [done|]. split; [done|]. split; [done|].
  rewrite decide_True by (by eapply lookup_lt_Some). by left.
Qed.

Lemma answered_reset l sl mp m :
  answered (length l) l sl mp m → answered (length l) l sl mp (reset_revents m).
Proof.
  intros Ha i f Hi. simpl in Hi.
  apply list_lookup_fmap_Some in Hi as (f1 & -> & Hf1).
  destruct (Ha i f1 Hf1) as (f0 & Hf0 & Hfd & Hev & _).
  exists f0. split; [done|]. split; [done|]. split; [done|].
  rewrite decide_True by (by eapply lookup_lt_Some). by left.
Qed.

Lemma msg_entry_ok base l group acc :
  (∀ i f, group !! i = Some f → l !! (base + i)%nat = Some f) →
  msg_ok base l acc →
  msg_ok (base + length group) l (msg_entry base group acc).
Proof.
  intros Hgroup Hacc.
  destruct (msg_entry_cases base group acc) as [->|(i & f & Hi & Hf & ->)].
  - intros p Hp. destruct (Hacc p Hp) as (j & f & -> & Hj & Hl & Hm).
    exists j, f. split; [done|]. split; [lia | done].
  - intros p [= <-]. exists (base + i)%nat, f. split; [done|].
    split; [apply lookup_lt_Some in Hi; lia|]. split; [by apply Hgroup | done].
Qed.

Lemma msg_ok_not_handle n l mp p :
  msg_ok n l mp → mp = Some p →
  (∀ h, (h, p) ∉ handle_slots 0 l) ∧ ∀ i, p = Fd i → (i < n)%nat.
Proof.
  intros Hok Hp. destruct (Hok p Hp) as (j & f & -> & Hj & Hl & Hm). split.
  - intros h Hin.
    apply handle_slots_elem in Hin as (i & g & Hi & [= Hij] & _ & _ & Hg).
    simpl in Hij. subst i. congruence.
  - by intros i [= <-].
Qed.

Lemma handle_slots_below base l : below (base + length l) (handle_slots base l).
Proof.
  intros h i Hin.
  apply handle_slots_elem in Hin as (j & g & Hj & [= ->] & _).
  apply lookup_lt_Some in Hj. lia.
Qed.

Lemma answered_answer l mp m :
  length (fds m) = length l →
  msg_ok (length l) l mp →
  answered (length l) l (handle_slots 0 l) mp m →
  Forall2 answer l (fds m).
Proof.
  intros Hlen Hok Ha. apply Forall2_same_length_lookup_2; [done|].
  intros i f f' Hf Hf'. destruct (Ha i f' Hf') as (f0 & Hf0 & Hfd & Hev & Hrev).
  assert (f0 = f) by congruence. subst f0.
  rewrite decide_True in Hrev by (by eapply lookup_lt_Some).
  split; [done|]. split; [done|].
  destruct Hrev as [Hz|[[[h Hh] Hr]|[Hm Hr]]].
  - by left.
  - right. left.
    apply handle_slots_elem in Hh as (j & g & Hj & [= Hij] & _ & Hpos & Hg).
    simpl in Hij. subst j. assert (g = f) by congruence. subst g. done.
  - right. right. split; [|done].
    destruct (Hok _ Hm) as (j & g & [= <-] & _ & Hj & Hg).
    assert (g = f) by congruence. by subst g.
Qed.

(** X17: On a set that one thread can wait on, [g_poll] returns, and tells
    every entry one of three things: nothing ([revents] is 0); or, for
    an entry with a positive [fd] that is not the message queue, all
    the conditions it asked for, [revents = events], whatever made the
    handle signalled; or, for the entry of the message queue,
    [G_IO_IN].  [fd] and [events] are never changed, and an entry whose
    [fd] is 0 or negative is told nothing. *)
Theorem g_poll_answers os l timeout :
  WAIT_OBJECT_0 = 0 → 2 <= MAXIMUM_WAIT_OBJECTS < 2 ^ 32 →
  Z.of_nat (length l) <= MAXIMUM_WAIT_OBJECTS →
  ∃ l' ret cs,
    g_poll os l timeout = Some (l', ret, cs)
    ∧ -1 <= ret
    ∧ Forall2 answer l l'
    ∧ (∀ f f', (f, f') ∈ zip l l' → fd f <= 0 → ¬ is_msg f → revents f' = 0).
Proof.
  intros HW0 HC Hn.
  destruct (fill_poll_thread_data_spec 0 (length l) (timeout_arg timeout) None
              (single_mem l))
    as (data & m1 & Hfill & Hl1 & _ & _ & Hwf & _); [lia | done | by left |].
  pose proof Hfill as Hdata.
  rewrite fill_poll_thread_data_group in Hdata
    by (simpl; first [lia | left; split; [done | lia]]).
  simpl in Hdata.
  rewrite drop_0, firstn_all, drop_all, app_nil_r in Hdata.
  injection Hdata as Hd Hm1.
  destruct (poll_single_thread_spec os data m1 HW0) as (r & m2 & Hp & Hr & Hw);
    [lia | by rewrite Hl1 |].
  assert (Hok : msg_ok (length l) l (msg_fd data)).
  { rewrite <- Hd. simpl. apply (msg_entry_ok 0 l l None); [done|]. by intros p. }
  assert (Hans : answered (length l) l (handle_slots 0 l) (msg_fd data) m2).
  { eapply poll_single_thread_answered; [| | | | |exact Hp].
    - rewrite <- Hd. simpl. done.
    - rewrite <- Hd. simpl. apply (handle_slots_below 0).
    - by right.
    - intros p Hmp. by eapply msg_ok_not_handle.
    - rewrite <- Hm1. apply answered_zeroed. }
  set (m3 := if decide (r = -1) then reset_revents m2 else m2).
  assert (Hans3 : answered (length l) l (handle_slots 0 l) (msg_fd data) m3).
  { unfold m3. case_decide; [by apply answered_reset | done]. }
  assert (Hlen3 : length (fds m3) = length l).
  { unfold m3. destruct Hw as (Hl2 & _). simpl in Hl1.
    case_decide; rewrite ?reset_revents_length; congruence. }
  assert (Hall : Forall2 answer l (fds m3))
    by (by eapply answered_answer).
  exists (fds m3), r, (calls m3). split.
  { unfold g_poll. rewrite decide_True by done. rewrite Hfill. simpl.
    rewrite Hp. done. }
  split; [done|]. split; [done|].
  intros f f' Hin Hfd Hmsg.
  apply elem_of_lookup_zip_with in Hin as (i & x & y & [= <- <-] & Hx & Hy).
  destruct (Forall2_lookup_lr _ _ _ _ _ _ Hall Hx Hy) as (_ & _ & [Hz|[(Hpos & _)|(Hm & _)]]);
    [done | lia | done].
Qed.

(** *** The path with threads *)

Lemma answered_no_msg n l SL mp m : answered n l SL None m → answered n l SL mp m.
Proof.
  intros Ha i f Hi. destruct (Ha i f Hi) as (f0 & Hf0 & Hfd & Hev & Hrev).
  exists f0. repeat (split; [done|]). case_decide; [|done].
  destruct Hrev as [?|[?|[? _]]]; [by left | right; by left | done].
Qed.

(** The entries that have not been cleared are those of the call. *)
Lemma answered_group n0 k l SL mp m i f :
  answered n0 l SL mp m →
  take k (drop n0 (fds m)) !! i = Some f → l !! (n0 + i)%nat = Some f.
Proof.
  intros Ha Hi. apply lookup_take_Some in Hi as [Hi _].
  rewrite lookup_drop in Hi.
  destruct (Ha _ _ Hi) as (f0 & Hf0 & Hfd & Hev & Hrev).
  rewrite decide_False in Hrev by lia. rewrite Hf0. f_equal.
  destruct f, f0. simpl in *. congruence.
Qed.

(** Clearing the next [k] entries. *)
Lemma answered_fill n0 k l SL mp m s c :
  answered n0 l SL mp m → (n0 + k <= length (fds m))%nat →
  answered (n0 + k) l SL mp
    {| fds := take n0 (fds m) ++ zeroed (take k (drop n0 (fds m)))
              ++ drop (n0 + k) (fds m);
       stop_event := s; calls := c |}.
Proof.
  intros Ha Hlen i f Hi. simpl in Hi.
  assert (Hl0 : length (take n0 (fds m)) = n0) by (rewrite length_take; lia).
  assert (Hl1 : length (zeroed (take k (drop n0 (fds m)))) = k).
  { unfold zeroed. rewrite length_fmap, length_take, length_drop. lia. }
  destruct (decide (i < n0)%nat) as [H0|H0].
  - rewrite lookup_app_l in Hi by lia. apply lookup_take_Some in Hi as [Hi _].
    destruct (Ha _ _ Hi) as (f0 & Hf0 & Hfd & Hev & Hrev).
    exists f0. repeat (split; [done|]).
    rewrite decide_True in Hrev by done. by rewrite decide_True by lia.
  - rewrite lookup_app_r in Hi by lia. rewrite Hl0 in Hi.
    destruct (decide (i < n0 + k)%nat) as [H1|H1].
    + rewrite lookup_app_l in Hi by lia. unfold zeroed in Hi.
      apply list_lookup_fmap_Some in Hi as (g & -> & Hg).
      apply lookup_take_Some in Hg as [Hg _]. rewrite lookup_drop in Hg.
      replace (n0 + (i - n0))%nat with i in Hg by lia.
      destruct (Ha _ _ Hg) as (f0 & Hf0 & Hfd & Hev & _).
      exists f0. repeat (split; [done|]). rewrite decide_True by lia. by left.
    + rewrite lookup_app_r in Hi by lia. rewrite Hl1, lookup_drop in Hi.
      replace (n0 + k + (i - n0 - k))%nat with i in Hi by lia.
      destruct (Ha _ _ Hi) as (f0 & Hf0 & Hfd & Hev & Hrev).
      exists f0. repeat (split; [done|]).
      rewrite decide_False in Hrev by done. by rewrite decide_False by lia.
Qed.

Lemma handle_slots_group n0 l group h i :
  (∀ j f, group !! j = Some f → l !! (n0 + j)%nat = Some f) →
  (h, Fd i) ∈ handle_slots n0 group → (h, Fd i) ∈ handle_slots 0 l.
Proof.
  intros Hgroup Hin.
  apply handle_slots_elem in Hin as (j & f & Hj & [= ->] & -> & Hpos & Hmsg).
  apply handle_slots_elem. exists (n0 + j)%nat, f.
  split; [by apply Hgroup | done].
Qed.

(** A worker clears the entries of its group and answers them. *)
Lemma spawn_thread_answered os T N i st st' l :
  spawn_thread os T N i st = Some st' →
  (fds_idx st + group_size N i <= length (fds (mem st)))%nat →
  Z.of_nat (group_size N i) <= MAXIMUM_WAIT_OBJECTS - 1 →
  answered (fds_idx st) l (handle_slots 0 l) None (mem st) →
  msg_ok (fds_idx st) l (main_msg_fd st) →
  answered (fds_idx st') l (handle_slots 0 l) None (mem st')
  ∧ msg_ok (fds_idx st') l (main_msg_fd st').
Proof.
  unfold spawn_thread. fold (group_size N i).
  intros Hsp Hfit Hk Hans Hok.
  rewrite fill_poll_thread_data_group in Hsp
    by first [done | right; split; [done | lia]].
  simpl in Hsp.
  set (group := take (group_size N i) (drop (fds_idx st) (fds (mem st)))) in *.
  assert (Hgroup : ∀ j f, group !! j = Some f → l !! (fds_idx st + j)%nat = Some f)
    by (intros j f; by eapply answered_group).
  assert (Hglen : length group = group_size N i).
  { unfold group. rewrite length_take, length_drop. lia. }
  set (m1 := {| fds := take (fds_idx st) (fds (mem st)) ++ zeroed group
                       ++ drop (fds_idx st + group_size N i) (fds (mem st));
                stop_event := stop_event (mem st); calls := calls (mem st) |}) in *.
  assert (Hans1 : answered (fds_idx st + group_size N i) l (handle_slots 0 l) None m1)
    by (by apply answered_fill).
  assert (Hok' : msg_ok (fds_idx st + group_size N i) l
                   match msg_entry (fds_idx st) group None with
                   | Some f => Some f
                   | None => main_msg_fd st
                   end).
  { pose proof (msg_entry_ok (fds_idx st) l group None Hgroup) as Hnew.
    rewrite Hglen in Hnew.
    destruct (msg_entry (fds_idx st) group None) as [f|] eqn:Hm.
    - apply Hnew. by intros p.
    - intros p Hp. destruct (Hok p Hp) as (j & f & -> & Hj & Hl & Hf).
      exists j, f. split; [done|]. split; [lia | done]. }
  case_decide.
  - injection Hsp as <-. simpl. by split.
  - set (data' := set_msg_fd None _) in Hsp.
    destruct (poll_single_thread os data' m1) as [[retval m2]|] eqn:Hp;
      simpl in Hsp; [|done].
    injection Hsp as <-. simpl. split; [|done].
    eapply (poll_single_thread_answered os data'); [| | | |exact Hans1|exact Hp].
    + simpl. intros h j [[=]|Hin]%elem_of_cons.
      by eapply handle_slots_group.
    + simpl. intros h j [[=]|Hin]%elem_of_cons.
      rewrite <- Hglen. by eapply handle_slots_below.
    + by left.
    + by intros p.
Qed.

Lemma spawn_threads_answered os T N ids : ∀ st st' l,
  WAIT_OBJECT_0 = 0 → 2 <= MAXIMUM_WAIT_OBJECTS < 2 ^ 32 →
  spawn_threads os T N ids st = Some st' →
  (fds_idx st + sum_list_with (group_size N) ids <= length (fds (mem st)))%nat →
  (∀ mf, main_msg_fd st = Some mf → wf_ptr (length (fds (mem st))) mf) →
  answered (fds_idx st) l (handle_slots 0 l) None (mem st) →
  msg_ok (fds_idx st) l (main_msg_fd st) →
  answered (fds_idx st') l (handle_slots 0 l) None (mem st')
  ∧ msg_ok (fds_idx st') l (main_msg_fd st').
Proof.
  induction ids as [|i ids IH]; intros st st' l HW0 HC Hsp Hfit Hmsg Hans Hok.
  - simpl in Hsp. injection Hsp as <-. by split.
  - simpl in Hsp, Hfit.
    destruct (spawn_thread_spec os T N i st HW0 HC)
      as (st1 & data & code & Hsp1 & Hidx & Hw & _ & _ & _ & _ & Hmsg1);
      [lia | done |].
    rewrite Hsp1 in Hsp. simpl in Hsp.
    pose proof (thread_fds_range N i (proj1 HC)) as Hr.
    destruct (spawn_thread_answered os T N i st st1 l Hsp1) as [Hans1 Hok1];
      [lia | unfold group_size; lia | done | done |].
    destruct Hw as (Hl & _).
    eapply (IH st1 st' l HW0 HC Hsp); [rewrite Hl, Hidx; lia | by rewrite Hl | done | done].
Qed.

(** X18: On a set that takes worker threads, of up to
    [(MAXIMUM_WAIT_OBJECTS - 1)^2] entries, [g_poll] returns and tells
    every entry what it tells on the path without threads: nothing, or
    all that the entry asked for (an entry with a positive [fd] that is
    not the message queue), or [G_IO_IN] (an entry for the message
    queue).  [fd] and [events] are never changed, and an entry without
    a handle is told nothing. *)
Theorem g_poll_threads_answers os l timeout :
  WAIT_OBJECT_0 = 0 → 2 <= MAXIMUM_WAIT_OBJECTS < 2 ^ 32 →
  MAXIMUM_WAIT_OBJECTS < Z.of_nat (length l) < 2 ^ 32 →
  Z.of_nat (length l)
  <= (MAXIMUM_WAIT_OBJECTS - 1) * (MAXIMUM_WAIT_OBJECTS - 1) →
  ∃ l' ret cs,
    g_poll os l timeout = Some (l', ret, cs)
    ∧ Forall2 answer l l'
    ∧ (∀ f f', (f, f') ∈ zip l l' → fd f <= 0 → ¬ is_msg f → revents f' = 0).
Proof.
  intros HW0 HC HN32 HN. set (N := Z.of_nat (length l)) in *.
  destruct (g_poll_threads_spec os l timeout HW0 HC HN32)
    as (st & _ & _ & Hsp & Hidx & _).
  assert (HN1 : 1 <= N < 2 ^ 32) by lia.
  pose proof (group_sizes_sum N (proj1 HC) HN1) as [Hsum Hsq].
  specialize (Hsq HN). fold N in Hidx.
  assert (Hn : fds_idx st = length l) by lia.
  pose proof Hsp as Hsp'. unfold spawn_all in Hsp'. fold N in Hsp'.
  destruct (spawn_threads_spec os (timeout_arg timeout) N
              (seq 0 (Z.to_nat (nthreads N)))
              {| fds_idx := 0; main_msg_fd := None; threads_data := [];
                 exit_codes := []; mem := threads_mem os l |} HW0 HC)
    as (st0 & _ & _ & Hsp0 & _ & Hw & _ & _ & _ & _ & Hmsg);
    [simpl; lia | done |].
  rewrite Hsp' in Hsp0. injection Hsp0 as <-.
  destruct Hw as (Hl & _). simpl in Hl, Hmsg.
  destruct (spawn_threads_answered os (timeout_arg timeout) N
              (seq 0 (Z.to_nat (nthreads N))) _ st l HW0 HC Hsp')
    as [Hans Hok]; [simpl; lia | done | | by intros p |].
  { intros i f Hi. simpl in Hi. exists f. repeat (split; [done|]).
    simpl. destruct (decide (i < 0)%nat); [lia | done]. }
  rewrite Hn in Hans, Hok.
  assert (Hfin : ∀ m4 r0,
            length (fds m4) = length l →
            answered (length l) l (handle_slots 0 l) (main_msg_fd st) m4 →
            let r := foldl merge_exit_code r0 (exit_codes st) in
            let m5 := if decide (r = -1) then reset_revents m4 else m4 in
            Forall2 answer l (fds m5)).
  { intros m4 r0 Hl4 Ha4 r m5. eapply answered_answer; [| exact Hok |].
    - unfold m5. case_decide; rewrite ?reset_revents_length; done.
    - unfold m5. case_decide; [by apply answered_reset | done]. }
  assert (Hzero : ∀ l', Forall2 answer l l' →
            ∀ f f', (f, f') ∈ zip l l' → fd f <= 0 → ¬ is_msg f → revents f' = 0).
  { intros l' Hall f f' Hin Hfd Hm.
    apply elem_of_lookup_zip_with in Hin as (i & x & y & [= <- <-] & Hx & Hy).
    destruct (Forall2_lookup_lr _ _ _ _ _ _ Hall Hx Hy)
      as (_ & _ & [Hz|[(Hpos & _)|(Hm' & _)]]); [done | lia | done]. }
  unfold g_poll. fold N. rewrite decide_False by lia. rewrite Hsp. simpl.
  set (hs := thread_handle os <$> seq 0 (Z.to_nat (nthreads N))).
  destruct (main_msg_fd st) as [mf|] eqn:Hmf.
  - simpl. case_decide.
    + destruct (or_revents_total mf G_IO_IN
                  (do_wait os (WaitForMultipleObjects hs true INFINITE)
                     (do_wait os (MsgWaitForMultipleObjectsEx hs (timeout_arg timeout))
                        (mem st)).2).2) as (m4 & Hor & Hsh).
      { simpl. rewrite Hl. by apply Hmsg. }
      pose proof Hor as Hor'. simpl in Hor'. rewrite Hor'. simpl.
      assert (Ha4 : answered (length l) l (handle_slots 0 l) (Some mf) m4).
      { destruct (msg_ok_not_handle _ _ _ _ Hok eq_refl) as [H1 H2].
        eapply answered_or; [| reflexivity | exact H1 | exact H2 | exact Hor].
        eapply answered_fds; [|by apply answered_no_msg]. done. }
      eexists _, _, _. split; [done|].
      assert (Hall := Hfin m4 1 ltac:(destruct Hsh as [-> _]; simpl; lia) Ha4).
      split; [exact Hall | by apply Hzero].
    + simpl. eexists _, _, _. split; [done|].
      assert (Hall := Hfin (do_wait os (WaitForMultipleObjects hs true INFINITE)
                              (do_wait os (MsgWaitForMultipleObjectsEx hs
                                             (timeout_arg timeout)) (mem st)).2).2
                        0 Hl ltac:(eapply answered_fds;
                                   [|by apply answered_no_msg]; done)).
      split; [exact Hall | by apply Hzero].
  - simpl. eexists _, _, _. split; [done|].
    assert (Hall := Hfin (do_wait os (WaitForMultipleObjects hs true INFINITE)
                            (do_wait os (WaitForMultipleObjects hs false
                                           (timeout_arg timeout)) (mem st)).2).2
                      0 Hl ltac:(eapply answered_fds;
                                 [|by apply answered_no_msg]; done)).
    split; [exact Hall | by apply Hzero].
Qed.

(** *** A set without handles *)

Lemma poll_rest_nothing os msg stop sl timeout m :
  classify msg (Z.of_nat (length sl)) (first_wait os msg sl timeout m).1 = Nothing →
  poll_rest os msg stop sl timeout m = Some (0, (first_wait os msg sl timeout m).2).
Proof.
  funelim (poll_rest os msg stop sl timeout m); intros Hf; try done;
    pose proof e as E; rewrite Hf in E; discriminate.
Qed.

Lemma no_handle_slots base l :
  Forall (λ f, fd f <= 0 ∧ ¬ is_msg f) l →
  handle_slots base l = [] ∧ ∀ acc, msg_entry base l acc = acc.
Proof.
  intros Hl. revert base. induction Hl as [|f l [Hfd Hmsg] _ IH]; intros base; [done|].
  simpl. destruct (IH (S base)) as [-> Hm]. split.
  - rewrite decide_False by done. by rewrite decide_False by lia.
  - intros acc. rewrite Hm. by rewrite decide_False by done.
Qed.

(** X19: A set without any handle: every [fd] is 0 or negative, and no
    entry is the message queue; the empty set is one.  With an
    infinite timeout [g_poll] does not block: it returns -1 at once,
    without any wait call.  With another timeout it sleeps for that
    time in one [WaitForSingleObjectEx] and returns 0.  Every
    [revents] is cleared. *)
Theorem g_poll_without_handles os l timeout :
  WAIT_TIMEOUT ≠ WAIT_FAILED →
  Z.of_nat (length l) <= MAXIMUM_WAIT_OBJECTS →
  Forall (λ f, fd f <= 0 ∧ ¬ is_msg f) l →
  g_poll os l timeout
  = Some (zeroed l,
          if decide (timeout_arg timeout = INFINITE) then -1 else 0,
          if decide (timeout_arg timeout = INFINITE) then []
          else [WaitForSingleObjectEx (timeout_arg timeout)])
  ∧ (INFINITE = 2 ^ 32 - 1 → timeout_arg (-1) = INFINITE).
Proof.
  intros HT Hn Hl. split.
  - unfold g_poll. rewrite decide_True by done.
    rewrite fill_poll_thread_data_group
      by (simpl; first [lia | left; split; [done | lia]]).
    simpl. rewrite drop_0, firstn_all, drop_all, app_nil_r.
    destruct (no_handle_slots 0 l Hl) as [-> ->].
    unfold poll_single_thread. cbn [slots msg_fd stop_fd timeout_ms length].
    rewrite decide_False by (intros [?|[? _]]; lia).
    destruct (decide (timeout_arg timeout = INFINITE)) as [Hinf|Hfin].
    + rewrite poll_rest_wait_failed
        by (unfold first_wait; simpl; by rewrite decide_True by done).
      unfold first_wait. simpl. rewrite (decide_True (P := timeout_arg timeout = INFINITE)) by done.
      simpl. unfold zeroed. rewrite <- list_fmap_compose.
      do 3 f_equal.
    + rewrite poll_rest_nothing.
      * unfold first_wait. simpl.
        by rewrite (decide_False (P := timeout_arg timeout = INFINITE)) by done.
      * unfold first_wait. simpl.
        rewrite (decide_False (P := timeout_arg timeout = INFINITE)) by done.
        simpl. unfold classify. rewrite decide_False by done.
        by rewrite decide_True by (by left).
  - intros HI. unfold timeout_arg. rewrite decide_True by done. rewrite HI.
    reflexivity.
Qed.

(** *** The waits of a call *)

Definition call_timeout (c : wait_call) : Z :=
  match c with
  | MsgWaitForMultipleObjectsEx _ t
  | WaitForMultipleObjectsEx _ t
  | WaitForSingleObjectEx t
  | WaitForMultipleObjects _ _ t => t
  end.

(** [m'] is [m] after the wait calls [new]. *)
Definition waits (new : list wait_call) (m m' : Mem) : Prop :=
  calls m' = calls m ++ new.

Lemma first_wait_waits os msg sl timeout m :
  ∃ new, waits new m (first_wait os msg sl timeout m).2
         ∧ (length new <= 1)%nat
         ∧ Forall (λ c, call_timeout c = timeout) new.
Proof.
  unfold first_wait, waits. destruct msg; [|repeat case_decide]; simpl.
  - eexists [_]. split; [done|]. split; [simpl; lia | by repeat constructor].
  - exists []. rewrite app_nil_r. split; [done|]. split; [simpl; lia | done].
  - eexists [_]. split; [done|]. split; [simpl; lia | by repeat constructor].
  - eexists [_]. split; [done|]. split; [simpl; lia | by repeat constructor].
Qed.

Lemma or_revents_calls p bits m m' : or_revents p bits m = Some m' → calls m' = calls m.
Proof.
  unfold or_revents. destruct (read_fd p m); simpl; [|done].
  intros Hw. by apply write_revents_shape in Hw as (_ & _ & ?).
Qed.

(** [poll_rest] passes its timeout to every wait, and calls itself
    only if the timeout is 0. *)
Lemma poll_rest_waits os msg stop sl timeout m :
  ∀ r m', poll_rest os msg stop sl timeout m = Some (r, m') →
  ∃ new, waits new m m'
         ∧ Forall (λ c, call_timeout c = timeout) new
         ∧ (timeout ≠ 0 → (length new <= 1)%nat).
Proof.
  funelim (poll_rest os msg stop sl timeout m); intros r m' Hres;
    destruct (first_wait_waits os msg sl timeout m) as (fw & Hfw & Hlen & Hall).
  - injection Hres as <- <-. by exists fw.
  - injection Hres as <- <-. by exists fw.
  - destruct (or_revents mf G_IO_IN (first_wait os msg sl timeout m).2)
      as [m2|] eqn:Hor; [|done].
    apply or_revents_calls in Hor.
    case_decide as Hd.
    + injection Hres as <- <-. exists fw. split; [|done]. unfold waits in *. congruence.
    + apply add_recursed_inv in Hres as [r0 Hrec].
      destruct (H m2 Hd r0 m' Hrec) as (new & Hnew & Hall2 & _).
      assert (timeout = 0) by (destruct (decide (timeout = 0)); [done|]; exfalso; apply Hd; by left).
      subst timeout. exists (fw ++ new). split; [|split; [by apply Forall_app | done]].
      unfold waits in *. rewrite Hnew, Hor, Hfw. by rewrite app_assoc.
  - injection Hres as <- <-. by exists fw.
  - done.
  - destruct (read_fd f (first_wait os msg sl timeout m).2) as [g|] eqn:Hg; [|done].
    destruct (write_revents f (events g) (first_wait os msg sl timeout m).2)
      as [m2|] eqn:Hw; [|done].
    apply write_revents_shape in Hw as (_ & _ & Hw).
    case_decide as Hd2.
    + apply add_recursed_inv in Hres as [r0 Hrec].
      destruct (H g m2 Hd2 r0 m' Hrec) as (new & Hnew & Hall2 & _).
      destruct Hd2 as [-> _].
      exists (fw ++ new). split; [|split; [by apply Forall_app | done]].
      unfold waits in *. rewrite Hnew, Hw, Hfw. by rewrite app_assoc.
    + injection Hres as <- <-. exists fw. split; [|done]. unfold waits in *. congruence.
Qed.

(** X20: On a set that one thread can wait on, the wait calls of [g_poll]
    are a number of calls that do not block (their timeout is 0), and
    then at most one call with the timeout that [g_poll] was given:
    [g_poll] blocks at most once, in its last wait. *)
Theorem g_poll_blocks_at_most_once os l timeout :
  WAIT_OBJECT_0 = 0 → 2 <= MAXIMUM_WAIT_OBJECTS < 2 ^ 32 →
  Z.of_nat (length l) <= MAXIMUM_WAIT_OBJECTS →
  ∃ l' ret quick last,
    g_poll os l timeout = Some (l', ret, quick ++ last)
    ∧ Forall (λ c, call_timeout c = 0) quick
    ∧ Forall (λ c, call_timeout c = timeout_arg timeout) last
    ∧ (length last <= 1)%nat
    ∧ Forall (λ c, nCount c <= MAXIMUM_WAIT_OBJECTS) (quick ++ last).
Proof.
  intros HW0 HC Hn.
  destruct (g_poll_single_spec os l timeout HW0 HC Hn)
    as (data & m1 & r & m2 & Hfill & Hp & Hg & Hl2 & Hcount).
  destruct (fill_poll_thread_data_spec 0 (length l) (timeout_arg timeout) None
              (single_mem l))
    as (data' & m1' & Hfill' & _ & Hc1 & _ & _ & _ & Ht & _); [lia | done | by left |].
  rewrite Hfill in Hfill'. injection Hfill' as <- <-.
  set (m3 := if decide (r = -1) then reset_revents m2 else m2) in *.
  assert (Hcalls : calls m3 = calls m2) by (unfold m3; by case_decide).
  clearbody m3. rewrite Hcalls in Hg. simpl in Hc1.
  assert (∃ quick last, calls m2 = quick ++ last
            ∧ Forall (λ c, call_timeout c = 0) quick
            ∧ Forall (λ c, call_timeout c = timeout_arg timeout) last
            ∧ (length last <= 1)%nat) as (quick & last & Hq & Hq0 & Hlast & Hone).
  { revert Hp. unfold poll_single_thread. case_decide.
    - destruct (poll_rest os (msg_fd data) (stop_fd data) (slots data) 0 m1)
        as [[r1 m1']|] eqn:H1; simpl; [|done].
      destruct (poll_rest_waits _ _ _ _ _ _ _ _ H1) as (new1 & Hn1 & Hall1 & _).
      unfold waits in Hn1. rewrite Hc1 in Hn1. simpl in Hn1.
      case_decide as Hd.
      + intros H2. destruct (poll_rest_waits _ _ _ _ _ _ _ _ H2) as (new2 & Hn2 & Hall2 & Hlen2).
        rewrite Ht in *. unfold waits in Hn2.
        destruct (decide (timeout_arg timeout = 0)) as [H0|H0].
        * exists (new1 ++ new2), []. rewrite app_nil_r. rewrite H0 in Hall2.
          split; [by rewrite Hn2, Hn1|].
          split; [by apply Forall_app|]. split; [done | simpl; lia].
        * exists new1, new2. split; [congruence|]. split; [done|].
          split; [done | by apply Hlen2].
      + intros [= <- <-]. exists new1, []. rewrite app_nil_r.
        split; [done|]. split; [done|]. split; [done | simpl; lia].
    - intros H1. destruct (poll_rest_waits _ _ _ _ _ _ _ _ H1) as (new & Hn1 & Hall & Hlen).
      unfold waits in Hn1. rewrite Hc1 in Hn1. simpl in Hn1. rewrite Ht in *.
      destruct (decide (timeout_arg timeout = 0)) as [H0|H0].
      + exists new, []. rewrite app_nil_r. rewrite H0 in Hall.
        split; [done|]. split; [done|]. split; [done | simpl; lia].
      + exists [], new. split; [done|]. split; [done|]. split; [done | by apply Hlen]. }
  exists (fds m3), r, quick, last. rewrite <- Hq. done.
Qed.

(** *** A wait that fails *)

(** The calls whose result [poll_rest] reads: all but the wait on the
    process itself, which is there to sleep. *)
Definition result_read (c : wait_call) : Prop :=
  match c with
  | WaitForSingleObjectEx _ => False
  | _ => True
  end.

(** The [i]-th wait of the run is such a call, and the system lets it
    fail. *)
Definition wait_fails (os : OS) (cs : list wait_call) (i : nat) : Prop :=
  ∃ c, cs !! i = Some c ∧ result_read c
       ∧ to_DWORD (wait_result os i c) = WAIT_FAILED.

Lemma wait_fails_earlier os cs new i :
  (i < length cs)%nat → wait_fails os (cs ++ new) i → wait_fails os cs i.
Proof.
  intros Hi (c & Hc & Hr & Hf). exists c. by rewrite lookup_app_l in Hc.
Qed.

Lemma wait_fails_range os cs i : wait_fails os cs i → (i < length cs)%nat.
Proof. intros (c & Hc & _). by apply lookup_lt_Some in Hc. Qed.

Lemma first_wait_fails os msg sl timeout m i :
  (length (calls m) <= i)%nat →
  wait_fails os (calls (first_wait os msg sl timeout m).2) i →
  (first_wait os msg sl timeout m).1 = WAIT_FAILED.
Proof.
  assert (Hlast : ∀ c0 c, (calls m ++ [c0]) !! i = Some c →
            (length (calls m) <= i)%nat → i = length (calls m) ∧ c = c0).
  { intros c0 c Hc Hi. pose proof (lookup_lt_Some _ _ _ Hc) as Hlt.
    rewrite length_app in Hlt. simpl in Hlt.
    assert (i = length (calls m)) as -> by lia.
    rewrite list_lookup_middle in Hc by done. by injection Hc as <-. }
  intros Hi (c & Hc & Hr & Hf). revert Hc. unfold first_wait.
  destruct msg; [|repeat case_decide]; simpl; intros Hc.
  - destruct (Hlast _ _ Hc Hi) as [-> ->]. done.
  - done.
  - destruct (Hlast _ _ Hc Hi) as [-> ->]. done.
  - destruct (Hlast _ _ Hc Hi) as [-> ->]. done.
Qed.

Lemma add_recursed_failed retval rec r m' :
  add_recursed retval rec = Some (r, m') →
  ∃ r0, rec = Some (r0, m') ∧ (r0 = -1 → r = -1).
Proof.
  destruct rec as [[r0 m0]|]; simpl; [|done]. intros [= <- <-].
  exists r0. split; [done|]. intros ->. by rewrite decide_True.
Qed.

(** A wait of [poll_rest] that fails, at any depth, makes it return -1. *)
Lemma poll_rest_fails os msg stop sl timeout m :
  ∀ r m' i, poll_rest os msg stop sl timeout m = Some (r, m') →
  (length (calls m) <= i)%nat → wait_fails os (calls m') i → r = -1.
Proof.
  funelim (poll_rest os msg stop sl timeout m); intros r m' i Hres Hi Hf;
    destruct (first_wait_waits os msg sl timeout m) as (fw & Hfw & _ & _);
    unfold waits in Hfw;
    pose proof (first_wait_fails os msg sl timeout m i Hi) as Hfirst.
  - by injection Hres as <- _.
  - injection Hres as <- <-. specialize (Hfirst Hf).
    pose proof e as E. rewrite Hfirst, classify_failed in E. discriminate.
  - destruct (or_revents mf G_IO_IN (first_wait os msg sl timeout m).2)
      as [m2|] eqn:Hor; [|done].
    apply or_revents_calls in Hor.
    assert (Hnot : ¬ wait_fails os (calls m2) i).
    { rewrite Hor. intros Hf2. specialize (Hfirst Hf2).
      pose proof e as E. rewrite Hfirst, classify_failed in E. discriminate. }
    case_decide as Hd.
    + injection Hres as <- <-. done.
    + apply add_recursed_failed in Hres as (r0 & Hrec & Hm1).
      apply Hm1.
      destruct (poll_rest_waits _ _ _ _ _ _ _ _ Hrec) as (new & Hnew & _).
      unfold waits in Hnew.
      destruct (decide (i < length (calls m2))%nat) as [Hlt|Hge].
      * exfalso. apply Hnot. rewrite Hnew in Hf. by eapply wait_fails_earlier.
      * eapply (H m2 Hd r0 m' i Hrec); [lia | done].
  - injection Hres as <- <-. specialize (Hfirst Hf).
    pose proof e as E. rewrite Hfirst, classify_failed in E. discriminate.
  - done.
  - destruct (read_fd f (first_wait os msg sl timeout m).2) as [g|] eqn:Hg; [|done].
    destruct (write_revents f (events g) (first_wait os msg sl timeout m).2)
      as [m2|] eqn:Hw; [|done].
    apply write_revents_shape in Hw as (_ & _ & Hw).
    assert (Hnot : ¬ wait_fails os (calls m2) i).
    { rewrite Hw. intros Hf2. specialize (Hfirst Hf2).
      pose proof e as E. rewrite Hfirst, classify_failed in E. discriminate. }
    case_decide as Hd2.
    + apply add_recursed_failed in Hres as (r0 & Hrec & Hm1).
      apply Hm1.
      destruct (poll_rest_waits _ _ _ _ _ _ _ _ Hrec) as (new & Hnew & _).
      unfold waits in Hnew.
      destruct (decide (i < length (calls m2))%nat) as [Hlt|Hge].
      * exfalso. apply Hnot. rewrite Hnew in Hf. by eapply wait_fails_earlier.
      * eapply (H g m2 Hd2 r0 m' i Hrec); [lia | done].
    + injection Hres as <- <-. done.
Qed.

Lemma poll_single_thread_waits os data m r m' :
  poll_single_thread os data m = Some (r, m') →
  ∃ new, calls m' = calls m ++ new.
Proof.
  unfold poll_single_thread. case_decide.
  - destruct (poll_rest os (msg_fd data) (stop_fd data) (slots data) 0 m)
      as [[r1 m1]|] eqn:H1; simpl; [|done].
    destruct (poll_rest_waits _ _ _ _ _ _ _ _ H1) as (new1 & Hn1 & _).
    case_decide.
    + intros H2. destruct (poll_rest_waits _ _ _ _ _ _ _ _ H2) as (new2 & Hn2 & _).
      unfold waits in *. exists (new1 ++ new2). by rewrite Hn2, Hn1, app_assoc.
    + intros [= <- <-]. by exists new1.
  - intros H1. destruct (poll_rest_waits _ _ _ _ _ _ _ _ H1) as (new & Hn & _).
    by exists new.
Qed.

(** So does [poll_single_thread]: it polls again only after a 0. *)
Lemma poll_single_thread_fails os data m r m' i :
  poll_single_thread os data m = Some (r, m') →
  (length (calls m) <= i)%nat → wait_fails os (calls m') i → r = -1.
Proof.
  unfold poll_single_thread. case_decide.
  - destruct (poll_rest os (msg_fd data) (stop_fd data) (slots data) 0 m)
      as [[r1 m1]|] eqn:H1; simpl; [|done].
    case_decide as Hd.
    + intros H2 Hi Hf.
      destruct (poll_rest_waits _ _ _ _ _ _ _ _ H1) as (new1 & Hn1 & _).
      destruct (poll_rest_waits _ _ _ _ _ _ _ _ H2) as (new2 & Hn2 & _).
      unfold waits in *.
      destruct (decide (i < length (calls m1))%nat) as [Hlt|Hge].
      * rewrite Hn2 in Hf. apply wait_fails_earlier in Hf; [|done].
        pose proof (poll_rest_fails _ _ _ _ _ _ _ _ _ H1 Hi Hf) as Hr1.
        destruct Hd as [Hd _]. congruence.
      * apply (poll_rest_fails _ _ _ _ _ _ _ _ i H2); [lia | done].
    + intros [= <- <-] Hi Hf. by apply (poll_rest_fails _ _ _ _ _ _ _ _ i H1).
  - intros H1 Hi Hf. by apply (poll_rest_fails _ _ _ _ _ _ _ _ i H1).
Qed.

Lemma fill_loop_calls idxs : ∀ data m data' m',
  fill_loop idxs data m = Some (data', m') → calls m' = calls m.
Proof.
  induction idxs as [|i idxs IH]; intros data m data' m'; simpl.
  - by intros [= _ <-].
  - case_decide; [by intros [= _ <-]|].
    destruct (fds m !! i) as [f|] eqn:Hfi; simpl; [|done].
    intros Hl. by apply IH in Hl.
Qed.

Lemma fill_poll_thread_data_calls base n timeout stop data m data' m' :
  fill_poll_thread_data base n timeout stop data m = Some (data', m') →
  calls m' = calls m.
Proof.
  unfold fill_poll_thread_data.
  destruct stop as [s|]; [case_decide; [destruct (read_fd s m)|]|]; simpl;
    try done; apply fill_loop_calls.
Qed.

(** A worker whose wait fails ends with the exit code of -1; the
    workers before it keep theirs. *)
Lemma spawn_thread_waits os T N i st st' :
  spawn_thread os T N i st = Some st' →
  (∃ new, calls (mem st') = calls (mem st) ++ new)
  ∧ (∃ code, exit_codes st' = exit_codes st ++ [code])
  ∧ ∀ j, (length (calls (mem st)) <= j)%nat →
         wait_fails os (calls (mem st')) j →
         Some (to_DWORD (-1)) ∈ exit_codes st'.
Proof.
  unfold spawn_thread.
  destruct (fill_poll_thread_data (fds_idx st) (Z.to_nat (thread_fds N i)) T
              (Some StopFd) zero_data (mem st)) as [[data m1]|] eqn:Hfill;
    simpl; [|done].
  apply fill_poll_thread_data_calls in Hfill.
  case_decide.
  - simpl. intros [= <-]. simpl. rewrite Hfill.
    split; [exists []; by rewrite app_nil_r|]. split; [by eexists|].
    intros j Hj Hf. apply wait_fails_range in Hf. lia.
  - destruct (poll_single_thread os (set_msg_fd None data) m1)
      as [[r m2]|] eqn:Hp; simpl; [|done].
    intros [= <-]. simpl.
    destruct (poll_single_thread_waits _ _ _ _ _ Hp) as [new Hnew].
    split; [exists new; congruence|]. split; [by eexists|].
    intros j Hj Hf.
    rewrite (poll_single_thread_fails _ _ _ _ _ j Hp); [|congruence|done].
    apply elem_of_app. right. apply elem_of_cons. by left.
Qed.

Lemma spawn_threads_waits os T N ids : ∀ st st',
  spawn_threads os T N ids st = Some st' →
  (∃ new, calls (mem st') = calls (mem st) ++ new)
  ∧ (∃ codes, exit_codes st' = exit_codes st ++ codes)
  ∧ ∀ j, (length (calls (mem st)) <= j)%nat →
         wait_fails os (calls (mem st')) j →
         Some (to_DWORD (-1)) ∈ exit_codes st'.
Proof.
  induction ids as [|i ids IH]; intros st st'; simpl.
  - intros [= <-]. split; [exists []; by rewrite app_nil_r|].
    split; [exists []; by rewrite app_nil_r|].
    intros j Hj Hf. apply wait_fails_range in Hf. lia.
  - destruct (spawn_thread os T N i st) as [st1|] eqn:H1; simpl; [|done].
    intros Hrest.
    destruct (spawn_thread_waits _ _ _ _ _ _ H1) as ([n1 Hn1] & [c1 Hc1] & Hf1).
    destruct (IH _ _ Hrest) as ([n2 Hn2] & [c2 Hc2] & Hf2).
    split; [exists (n1 ++ n2); by rewrite Hn2, Hn1, app_assoc|].
    split; [exists ([c1] ++ c2); by rewrite Hc2, Hc1, app_assoc|].
    intros j Hj Hf.
    destruct (decide (j < length (calls (mem st1)))%nat) as [Hlt|Hge].
    + rewrite Hn2 in Hf. apply wait_fails_earlier in Hf; [|done].
      rewrite Hc2. apply elem_of_app. left. by apply (Hf1 j).
    + apply (Hf2 j); [lia | done].
Qed.

(** The waits of the path with threads: those of the workers, and the
    two of the main thread, on the workers. *)
Lemma g_poll_threads_waits os l timeout l' ret cs :
  MAXIMUM_WAIT_OBJECTS < Z.of_nat (length l) →
  g_poll os l timeout = Some (l', ret, cs) →
  ∃ st c1 c2 r0,
    spawn_all os l timeout = Some st
    ∧ cs = calls (mem st) ++ [c1; c2]
    ∧ ret = foldl merge_exit_code r0 (exit_codes st).
Proof.
  intros HN. unfold g_poll. rewrite decide_False by lia.
  destruct (spawn_all os l timeout) as [st|]; simpl; [|done].
  set (hs := thread_handle os <$> _).
  destruct (main_msg_fd st) as [mf|]; simpl.
  - case_decide.
    + match goal with |- context [or_revents mf G_IO_IN ?m] =>
        destruct (or_revents mf G_IO_IN m) as [m4|] eqn:Hor end; simpl; [|done].
      apply or_revents_calls in Hor. simpl in Hor.
      intros [= <- <- <-]. eexists st, _, _, 1. split; [done|].
      split; [|done].
      replace (calls (if decide (foldl merge_exit_code 1 (exit_codes st) = -1)
                      then reset_revents m4 else m4)) with (calls m4)
        by (by case_decide).
      by rewrite Hor, <- app_assoc.
    + simpl. intros [= <- <- <-]. eexists st, _, _, 0. split; [done|].
      split; [|done]. case_decide; simpl; by rewrite <- app_assoc.
  - intros [= <- <- <-]. eexists st, _, _, 0. split; [done|].
    split; [|done]. case_decide; simpl; by rewrite <- app_assoc.
Qed.

(** C5.  [g_poll] returns for every set, and when it returns -1 every
    [revents] of the set is 0.  It returns -1 whenever a wait fails
    whose result [poll_rest] reads.  On the path without threads this
    is any wait of the call: the first, or one that [poll_rest] makes
    when it calls itself after it has marked an entry, or one of the
    second poll of [poll_single_thread]; so is the case in which
    [poll_rest] sets [WAIT_FAILED] itself, and any -1 of
    [poll_single_thread].  On the path with threads it is any wait of a
    worker: the waits of the call are those of the workers, and then
    the two waits of the main thread on the workers; a worker that ends
    with -1 has the exit code of (DWORD) -1, and one such exit code
    makes the call return -1. *)
Theorem g_poll_error_resets_all_revents os l timeout :
  WAIT_OBJECT_0 = 0 → 2 <= MAXIMUM_WAIT_OBJECTS < 2 ^ 32 →
  Z.of_nat (length l) < 2 ^ 32 →
  ∃ l' ret cs,
    g_poll os l timeout = Some (l', ret, cs)
    ∧ length l' = length l
    ∧ (ret = -1 → Forall (λ f, revents f = 0) l')
    ∧ (Z.of_nat (length l) <= MAXIMUM_WAIT_OBJECTS →
       (∀ i, wait_fails os cs i → ret = -1)
       ∧ ∀ data m1,
           fill_poll_thread_data 0 (length l) (timeout_arg timeout) None
             zero_data (single_mem l) = Some (data, m1) →
           (first_wait os (msg_fd data) (slots data) (first_timeout data) m1).1
           = WAIT_FAILED
           ∨ (∃ m2, poll_single_thread os data m1 = Some (-1, m2)) →
           ret = -1)
    ∧ (MAXIMUM_WAIT_OBJECTS < Z.of_nat (length l) →
       ∃ st c1 c2,
         spawn_all os l timeout = Some st
         ∧ cs = calls (mem st) ++ [c1; c2]
         ∧ (∀ i, (i < length (calls (mem st)))%nat → wait_fails os cs i →
                 ret = -1)
         ∧ (Some (to_DWORD (-1)) ∈ exit_codes st → ret = -1)).
Proof.
  intros HW0 HC HN.
  destruct (g_poll_error_cases os l timeout HW0 HC HN)
    as (l' & ret & cs & Hg & Hlen & Hzero & Hsingle & Hthreads).
  exists l', ret, cs. repeat (split; [done|]). split.
  - intros Hle. split; [|by apply Hsingle].
    intros i Hf.
    destruct (g_poll_single_spec os l timeout HW0 HC Hle)
      as (data & m1 & r & m2 & Hfill & Hp & Hg' & _).
    rewrite Hg in Hg'. injection Hg' as _ -> ->.
    apply fill_poll_thread_data_calls in Hfill. simpl in Hfill.
    eapply (poll_single_thread_fails _ _ _ _ _ i Hp).
    + rewrite Hfill. simpl. lia.
    + by destruct (decide (r = -1)).
  - intros Hgt.
    destruct (g_poll_threads_waits _ _ _ _ _ _ Hgt Hg)
      as (st & c1 & c2 & r0 & Hsp & -> & ->).
    exists st, c1, c2. repeat (split; [done|]). split.
    + intros i Hi Hf. apply wait_fails_earlier in Hf; [|done].
      apply merge_exit_codes_error.
      unfold spawn_all in Hsp.
      apply spawn_threads_waits in Hsp as (_ & _ & Hfail).
      apply (Hfail i); [simpl; lia | done].
    + intros Hin. by apply merge_exit_codes_error.
Qed.

(** *** The groups of the workers *)

(** The data of the worker that is given the [n] entries from
    [fds[base]] on: the stop event, then the handles of these entries. *)
Definition worker_of (l : list GPollFD) (stop T : Z) (base n : nat)
  : GWin32PollThreadData :=
  {| slots := (stop, StopFd) :: handle_slots base (take n (drop base l));
     msg_fd := None; stop_fd := Some StopFd; timeout_ms := T |}.

(** The workers [ids], the first of which starts at [fds[base]]. *)
Fixpoint workers_of (l : list GPollFD) (stop T N : Z) (base : nat)
    (ids : list nat) : list GWin32PollThreadData :=
  match ids with
  | [] => []
  | i :: rest =>
      worker_of l stop T base (group_size N i)
      :: workers_of l stop T N (base + group_size N i) rest
  end.

Lemma answered_group_eq n0 k l SL mp m :
  answered n0 l SL mp m → length (fds m) = length l →
  take k (drop n0 (fds m)) = take k (drop n0 l).
Proof.
  intros Ha Hlen. apply list_eq. intros i.
  destruct (take k (drop n0 (fds m)) !! i) as [f|] eqn:Hi.
  - symmetry. pose proof (answered_group _ _ _ _ _ _ _ _ Ha Hi) as Hl.
    apply lookup_take_Some in Hi as [_ Hk].
    apply lookup_take_Some. split; [by rewrite lookup_drop | done].
  - symmetry. apply lookup_ge_None. apply lookup_ge_None in Hi.
    rewrite length_take, length_drop in *. lia.
Qed.

(** The entries from [fds[n]] on are those of the call. *)
Lemma answered_rest n l SL mp m j :
  answered n l SL mp m → length (fds m) = length l → (n <= j)%nat →
  fds m !! j = l !! j.
Proof.
  intros Ha Hlen Hj. destruct (fds m !! j) as [f|] eqn:Hf.
  - destruct (Ha _ _ Hf) as (f0 & Hf0 & Hfd & Hev & Hrev).
    rewrite decide_False in Hrev by lia. rewrite Hf0. f_equal.
    destruct f, f0. simpl in *. congruence.
  - symmetry. apply lookup_ge_None. apply lookup_ge_None in Hf. lia.
Qed.

Lemma spawn_thread_group os T N i st st' l :
  spawn_thread os T N i st = Some st' →
  (fds_idx st + group_size N i <= length (fds (mem st)))%nat →
  Z.of_nat (group_size N i) <= MAXIMUM_WAIT_OBJECTS - 1 →
  length (fds (mem st)) = length l →
  answered (fds_idx st) l (handle_slots 0 l) None (mem st) →
  threads_data st'
  = threads_data st
    ++ [worker_of l (fd (stop_event (mem st))) T (fds_idx st) (group_size N i)].
Proof.
  unfold spawn_thread. fold (group_size N i). intros Hsp Hfit Hk Hlen Hans.
  rewrite fill_poll_thread_data_group in Hsp
    by first [done | right; split; [done | lia]].
  simpl in Hsp. rewrite (answered_group_eq _ _ _ _ _ _ Hans Hlen) in Hsp.
  case_decide.
  - by injection Hsp as <-.
  - match type of Hsp with context [poll_single_thread os ?d ?m1] =>
      destruct (poll_single_thread os d m1) as [[retval m2]|] end;
      simpl in Hsp; [|done].
    by injection Hsp as <-.
Qed.

Lemma spawn_threads_groups os T N ids : ∀ st st' l,
  WAIT_OBJECT_0 = 0 → 2 <= MAXIMUM_WAIT_OBJECTS < 2 ^ 32 →
  spawn_threads os T N ids st = Some st' →
  (fds_idx st + sum_list_with (group_size N) ids <= length (fds (mem st)))%nat →
  (∀ mf, main_msg_fd st = Some mf → wf_ptr (length (fds (mem st))) mf) →
  length (fds (mem st)) = length l →
  answered (fds_idx st) l (handle_slots 0 l) None (mem st) →
  msg_ok (fds_idx st) l (main_msg_fd st) →
  threads_data st'
  = threads_data st
    ++ workers_of l (fd (stop_event (mem st))) T N (fds_idx st) ids.
Proof.
  induction ids as [|i ids IH]; intros st st' l HW0 HC Hsp Hfit Hmsg Hlen Hans Hok.
  - simpl in Hsp. injection Hsp as <-. simpl. by rewrite app_nil_r.
  - simpl in Hsp, Hfit.
    destruct (spawn_thread_spec os T N i st HW0 HC)
      as (st1 & data & code & Hsp1 & Hidx & Hw & _ & _ & _ & _ & Hmsg1);
      [lia | done |].
    rewrite Hsp1 in Hsp. simpl in Hsp.
    pose proof (thread_fds_range N i (proj1 HC)) as Hr.
    assert (Hk : Z.of_nat (group_size N i) <= MAXIMUM_WAIT_OBJECTS - 1)
      by (unfold group_size; lia).
    destruct (spawn_thread_answered os T N i st st1 l Hsp1) as [Hans1 Hok1];
      [lia | done | done | done |].
    pose proof (spawn_thread_group os T N i st st1 l Hsp1 ltac:(lia) Hk Hlen Hans)
      as Hd1.
    destruct Hw as (Hl & Hs & _).
    rewrite (IH st1 st' l HW0 HC Hsp);
      [| rewrite Hl, Hidx; lia | by rewrite Hl | congruence | done | done].
    rewrite Hd1, Hs, Hidx, <- app_assoc. done.
Qed.

Lemma workers_of_lookup l stop T N ids : ∀ base i d,
  workers_of l stop T N base ids !! i = Some d →
  ∃ j, ids !! i = Some j
       ∧ d = worker_of l stop T
               (base + sum_list_with (group_size N) (take i ids))
               (group_size N j).
Proof.
  induction ids as [|j ids IH]; intros base i d; simpl; [done|].
  destruct i as [|i]; simpl.
  - intros [= <-]. exists j. by rewrite Nat.add_0_r.
  - intros Hd. destruct (IH _ _ _ Hd) as (j' & Hj' & ->).
    exists j'. split; [done|]. f_equal. lia.
Qed.

Lemma workers_of_length l stop T N ids : ∀ base,
  length (workers_of l stop T N base ids) = length ids.
Proof. induction ids as [|j ids IH]; intros base; simpl; [done | by rewrite IH]. Qed.

(** All groups but the last have C - 1 entries. *)
Lemma group_sizes_inner N k :
  2 <= MAXIMUM_WAIT_OBJECTS → 1 <= N < 2 ^ 32 →
  Z.of_nat k <= nthreads N - 1 →
  sum_list_with (group_size N) (seq 0 k)
  = (k * Z.to_nat (MAXIMUM_WAIT_OBJECTS - 1))%nat.
Proof.
  intros HC HN. induction k as [|k IH]; intros Hk; [done|].
  rewrite seq_S, sum_list_with_app. simpl. unfold group_size at 2.
  rewrite (thread_fds_inner N k HC HN) by lia. rewrite IH by lia. lia.
Qed.

(** The state when the workers have ended, and the set that [g_poll]
    leaves: the first [fds_idx] entries have been cleared and answered,
    the others are as at the call. *)
Lemma g_poll_threads_state os l timeout :
  WAIT_OBJECT_0 = 0 → 2 <= MAXIMUM_WAIT_OBJECTS < 2 ^ 32 →
  MAXIMUM_WAIT_OBJECTS < Z.of_nat (length l) < 2 ^ 32 →
  ∃ st m4 ret cs,
    spawn_all os l timeout = Some st
    ∧ g_poll os l timeout
      = Some (fds (if decide (ret = -1) then reset_revents m4 else m4), ret, cs)
    ∧ length (fds m4) = length l
    ∧ answered (fds_idx st) l (handle_slots 0 l) (main_msg_fd st) m4
    ∧ msg_ok (fds_idx st) l (main_msg_fd st)
    ∧ threads_data st
      = workers_of l (CreateEventW_ret os) (timeout_arg timeout)
          (Z.of_nat (length l)) 0
          (seq 0 (Z.to_nat (nthreads (Z.of_nat (length l))))).
Proof.
  intros HW0 HC HN32. set (N := Z.of_nat (length l)) in *.
  destruct (g_poll_threads_spec os l timeout HW0 HC HN32)
    as (st & _ & _ & Hsp & Hidx & _).
  assert (HN1 : 1 <= N < 2 ^ 32) by lia.
  pose proof (group_sizes_sum N (proj1 HC) HN1) as [Hsum _].
  fold N in Hidx.
  pose proof Hsp as Hsp'. unfold spawn_all in Hsp'. fold N in Hsp'.
  destruct (spawn_threads_spec os (timeout_arg timeout) N
              (seq 0 (Z.to_nat (nthreads N)))
              {| fds_idx := 0; main_msg_fd := None; threads_data := [];
                 exit_codes := []; mem := threads_mem os l |} HW0 HC)
    as (st0 & _ & _ & Hsp0 & _ & Hw & _ & _ & _ & _ & Hmsg);
    [simpl; lia | done |].
  rewrite Hsp' in Hsp0. injection Hsp0 as <-.
  destruct Hw as (Hl & _). simpl in Hl, Hmsg.
  assert (Hans0 : answered 0 l (handle_slots 0 l) None (threads_mem os l)).
  { intros i f Hi. simpl in Hi. exists f. repeat (split; [done|]).
    simpl. destruct (decide (i < 0)%nat); [lia | done]. }
  destruct (spawn_threads_answered os (timeout_arg timeout) N
              (seq 0 (Z.to_nat (nthreads N))) _ st l HW0 HC Hsp')
    as [Hans Hok]; [simpl; lia | done | done | by intros p |].
  pose proof (spawn_threads_groups os (timeout_arg timeout) N
                (seq 0 (Z.to_nat (nthreads N))) _ st l HW0 HC Hsp') as Hdata.
  simpl in Hdata. specialize (Hdata ltac:(lia) ltac:(done) eq_refl Hans0).
  specialize (Hdata ltac:(by intros p)).
  unfold g_poll. fold N. rewrite decide_False by lia. rewrite Hsp. simpl.
  set (hs := thread_handle os <$> seq 0 (Z.to_nat (nthreads N))).
  destruct (main_msg_fd st) as [mf|] eqn:Hmf.
  - simpl. case_decide.
    + destruct (or_revents_total mf G_IO_IN
                  (do_wait os (WaitForMultipleObjects hs true INFINITE)
                     (do_wait os (MsgWaitForMultipleObjectsEx hs (timeout_arg timeout))
                        (mem st)).2).2) as (m4 & Hor & Hsh).
      { simpl. rewrite Hl. by apply Hmsg. }
      pose proof Hor as Hor'. simpl in Hor'. rewrite Hor'. simpl.
      assert (Ha4 : answered (fds_idx st) l (handle_slots 0 l) (Some mf) m4).
      { destruct (msg_ok_not_handle _ _ _ _ Hok eq_refl) as [H1 H2].
        eapply answered_or; [| reflexivity | exact H1 | exact H2 | exact Hor].
        eapply answered_fds; [|by apply answered_no_msg]. done. }
      eexists st, m4, _, _. rewrite Hmf. split; [done|]. split; [done|].
      split; [destruct Hsh as [-> _]; simpl; lia|]. done.
    + simpl. eexists st, _, _, _. rewrite Hmf. split; [done|]. split; [done|].
      split; [exact Hl|]. split; [|done].
      eapply answered_fds; [|by apply answered_no_msg]. done.
  - simpl. eexists st, _, _, _. rewrite Hmf. split; [done|]. split; [done|].
    split; [exact Hl|]. split; [|done].
    eapply answered_fds; [|by apply answered_no_msg]. done.
Qed.

(** The first entry of the group [i]: the groups before it are full. *)
Definition group_start (i : nat) : nat :=
  (i * Z.to_nat MAXIMUM_WAIT_OBJECTS_PER_THREAD)%nat.

(** C8.  A set of N entries, C < N < 2^32, is given to
    min (ceil (N / (C - 1)), C - 1) workers.  The worker [i] has the
    entries [fds[i * (C - 1)]], ... , [group_size N i] of them: its
    slots are the stop event and then the handles of these entries, in
    their order, and it has no message queue entry.  Every group but
    the last has C - 1 entries, the last has between 1 and C - 1, and
    the groups end at [fds_idx].  Up to (C - 1)^2 entries the groups
    take the whole set, and the workers are ceil (N / (C - 1)).  Beyond
    that there are C - 1 workers and [fds_idx < N]; an entry from
    [fds[fds_idx]] on is in no worker's slots, is not the message queue
    entry that the main thread waits for, and comes back as it went in,
    or with [revents] cleared if [g_poll] returns -1.  No wait call of
    the run is given more than C objects. *)
Theorem g_poll_groups os l timeout :
  WAIT_OBJECT_0 = 0 → 2 <= MAXIMUM_WAIT_OBJECTS < 2 ^ 32 →
  MAXIMUM_WAIT_OBJECTS < Z.of_nat (length l) < 2 ^ 32 →
  ∃ st l' ret cs,
    spawn_all os l timeout = Some st
    ∧ g_poll os l timeout = Some (l', ret, cs)
    ∧ Z.of_nat (length (threads_data st))
      = Z.min ((Z.of_nat (length l) + MAXIMUM_WAIT_OBJECTS - 2)
               / (MAXIMUM_WAIT_OBJECTS - 1))
              (MAXIMUM_WAIT_OBJECTS - 1)
    ∧ (∀ i data, threads_data st !! i = Some data →
         data = worker_of l (CreateEventW_ret os) (timeout_arg timeout)
                  (group_start i) (group_size (Z.of_nat (length l)) i)
         ∧ 1 <= Z.of_nat (group_size (Z.of_nat (length l)) i)
             <= MAXIMUM_WAIT_OBJECTS - 1
         ∧ ((i + 1 < length (threads_data st))%nat →
            Z.of_nat (group_size (Z.of_nat (length l)) i)
            = MAXIMUM_WAIT_OBJECTS - 1)
         ∧ (group_start i + group_size (Z.of_nat (length l)) i
            <= fds_idx st)%nat
         ∧ Z.of_nat (length (slots data)) <= MAXIMUM_WAIT_OBJECTS)
    ∧ fds_idx st
      = (group_start (length (threads_data st) - 1)
         + group_size (Z.of_nat (length l)) (length (threads_data st) - 1))%nat
    ∧ (fds_idx st <= length l)%nat
    ∧ (Z.of_nat (length l)
       <= (MAXIMUM_WAIT_OBJECTS - 1) * (MAXIMUM_WAIT_OBJECTS - 1) →
       fds_idx st = length l
       ∧ Z.of_nat (length (threads_data st))
         = (Z.of_nat (length l) + MAXIMUM_WAIT_OBJECTS - 2)
           / (MAXIMUM_WAIT_OBJECTS - 1))
    ∧ ((MAXIMUM_WAIT_OBJECTS - 1) * (MAXIMUM_WAIT_OBJECTS - 1)
       < Z.of_nat (length l) →
       Z.of_nat (length (threads_data st)) = MAXIMUM_WAIT_OBJECTS - 1
       ∧ (fds_idx st < length l)%nat)
    ∧ (∀ j, (fds_idx st <= j)%nat →
         (∀ data h, data ∈ threads_data st → (h, Fd j) ∉ slots data)
         ∧ main_msg_fd st ≠ Some (Fd j)
         ∧ l' !! j = if decide (ret = -1)
                     then (λ f, set_revents f 0) <$> l !! j
                     else l !! j)
    ∧ Forall (λ c, nCount c <= MAXIMUM_WAIT_OBJECTS) cs.
Proof.
  intros HW0 HC HN. set (N := Z.of_nat (length l)) in *.
  unfold group_start, MAXIMUM_WAIT_OBJECTS_PER_THREAD.
  set (per := Z.to_nat (MAXIMUM_WAIT_OBJECTS - 1)).
  assert (HC2 : 2 <= MAXIMUM_WAIT_OBJECTS) by lia.
  assert (HN1 : 1 <= N < 2 ^ 32) by (unfold N; lia).
  destruct (g_poll_group_count os l timeout HW0 HC HN)
    as (st & l' & ret & cs & Hsp & Hg & Hcount & Hwd & Hle & Hsq & Hcs).
  destruct (g_poll_threads_state os l timeout HW0 HC HN)
    as (st' & m4 & ret' & cs' & Hsp' & Hg' & Hl4 & Hans & Hok & Hdata).
  rewrite Hsp in Hsp'. injection Hsp' as <-.
  rewrite Hg in Hg'. injection Hg' as Hl' <- <-.
  fold N in Hcount, Hsq, Hdata.
  pose proof (nthreads_range N HC2 HN1) as [Hn _].
  pose proof (nthreads_spec N HC2 ltac:(lia)) as Hnt.
  assert (Hlen : length (threads_data st) = Z.to_nat (nthreads N)).
  { rewrite Hdata, workers_of_length, length_seq. done. }
  assert (Hidx : fds_idx st
                 = ((length (threads_data st) - 1) * per
                    + group_size N (length (threads_data st) - 1))%nat).
  { destruct (g_poll_threads_spec os l timeout HW0 HC HN)
      as (st' & _ & _ & Hsp' & Hidx & _).
    rewrite Hsp in Hsp'. injection Hsp' as <-. fold N in Hidx.
    rewrite Hidx, Hlen.
    replace (Z.to_nat (nthreads N)) with (S (Z.to_nat (nthreads N) - 1)) at 1 by lia.
    rewrite seq_S, sum_list_with_app. simpl.
    rewrite group_sizes_inner by lia. fold per. lia. }
  assert (Hgroup : ∀ i, (i < length (threads_data st))%nat →
            (1 <= group_size N i <= per)%nat
            ∧ ((i + 1 < length (threads_data st))%nat → group_size N i = per)
            ∧ (i * per + group_size N i <= fds_idx st)%nat).
  { intros i Hi. pose proof (thread_fds_range N i HC2) as Hr.
    assert (Hin : (i + 1 < length (threads_data st))%nat → group_size N i = per).
    { intros Hi1. unfold group_size, per.
      rewrite (thread_fds_inner N i HC2 HN1) by lia. done. }
    split; [unfold group_size, per; lia|]. split; [done|].
    rewrite Hidx.
    destruct (decide (i + 1 < length (threads_data st))%nat) as [Hi1|Hi1].
    - rewrite (Hin Hi1).
      pose proof (thread_fds_range N (length (threads_data st) - 1) HC2).
      unfold group_size at 1. nia.
    - replace (length (threads_data st) - 1)%nat with i by lia. done. }
  exists st, l', ret, cs. split; [done|]. split; [done|]. split; [done|].
  split; [|split; [done|]; split; [done|]; split; [done|]; split; [|split; [|done]]].
  - intros i data Hi. pose proof (lookup_lt_Some _ _ _ Hi) as Hlt.
    destruct (Hgroup i Hlt) as (Hr & Hin & Hend).
    pose proof Hi as Hi'. rewrite Hdata in Hi'.
    apply workers_of_lookup in Hi' as (j & Hj & ->).
    apply lookup_seq in Hj as [-> _]. simpl.
    rewrite take_seq, Nat.min_l by lia.
    rewrite group_sizes_inner by lia. fold per.
    split; [done|]. split; [unfold per in Hr; lia|].
    split; [intros Hi1; specialize (Hin Hi1); unfold per in Hin; lia|].
    split; [done|].
    simpl. pose proof (handle_slots_length (i * per)
                         (take (group_size N i) (drop (i * per) l))) as Hh.
    rewrite length_take in Hh. unfold per in *. lia.
  - intros Hbig.
    assert (Hcnt : Z.of_nat (length (threads_data st)) = MAXIMUM_WAIT_OBJECTS - 1).
    { rewrite Hcount. apply Z.min_r. apply Z.div_le_lower_bound; lia. }
    split; [done|].
    pose proof (thread_fds_range N (length (threads_data st) - 1) HC2) as Hr.
    rewrite Hidx. unfold group_size, per. unfold N in Hbig. nia.
  - intros j Hj. split; [|split].
    + intros data h Hin Hslot.
      apply list_elem_of_lookup_1 in Hin as [i Hi].
      pose proof (lookup_lt_Some _ _ _ Hi) as Hlt.
      destruct (Hgroup i Hlt) as (_ & _ & Hend).
      rewrite Hdata in Hi. apply workers_of_lookup in Hi as (i' & Hi' & ->).
      apply lookup_seq in Hi' as [-> _]. simpl in Hslot.
      rewrite take_seq, Nat.min_l in Hslot by lia.
      rewrite group_sizes_inner in Hslot by lia. fold per in Hslot.
      apply elem_of_cons in Hslot as [[=]|Hslot].
      apply handle_slots_below in Hslot. rewrite length_take in Hslot. lia.
    + intros Hm. destruct (Hok _ Hm) as (j' & f & [= <-] & Hlt & _). lia.
    + rewrite Hl'. case_decide.
      * simpl. rewrite list_lookup_fmap. f_equal. by eapply answered_rest.
      * by eapply answered_rest.
Qed.

End Win32Behaviour.

(** *** Sample runs *)

(** A system on which the first handle of every wait is signalled. *)
Definition first_signalled_os : Win32.OS :=
  {| Win32.wait_result := λ _ _, 0; Win32.CreateEventW_ret := 7;
     Win32.thread_handle := λ i, Z.of_nat (100 + i) |}.

(** An entry without a handle. *)
Definition no_handle_fd : Win32.GPollFD :=
  {| Win32.fd := -1; Win32.events := 1; Win32.revents := 1 |}.

Lemma fill_poll_thread_data_collects_witness :
  Win32.fill_poll_thread_data (cfg := win32_config) 1 2 5 None Win32.zero_data
    (Win32.single_mem [handle_fd 0; handle_fd 1; no_handle_fd; handle_fd 3])
  = Some ({| Win32.slots := [(1001, Win32.Fd 1)]; Win32.msg_fd := None;
             Win32.stop_fd := None; Win32.timeout_ms := 5 |},
          Win32.single_mem
            [handle_fd 0; Win32.set_revents (handle_fd 1) 0;
             Win32.set_revents no_handle_fd 0; handle_fd 3]).
Proof.
  rewrite (fill_poll_thread_data_collects (cfg := win32_config) 1 2 5 None
             (Win32.single_mem [handle_fd 0; handle_fd 1; no_handle_fd; handle_fd 3])).
  - reflexivity.
  - simpl. lia.
  - left. split; [reflexivity|]. change (2 <= 64). lia.
Defined.

Lemma g_poll_answers_witness :
  ∃ l' cs,
    Win32.g_poll (cfg := win32_config) first_signalled_os
      [handle_fd 0; no_handle_fd; handle_fd 1] 0 = Some (l', 2, cs)
    ∧ Forall2 (answer (cfg := win32_config))
        [handle_fd 0; no_handle_fd; handle_fd 1] l'.
Proof.
  destruct (g_poll_answers (cfg := win32_config) first_signalled_os
              [handle_fd 0; no_handle_fd; handle_fd 1] 0)
    as (l' & ret & cs & Hg & _ & Hall & _).
  - reflexivity.
  - change (2 <= 64 < 2 ^ 32). lia.
  - change (3 <= 64). lia.
  - assert (Hret : ret = 2).
    { assert (Hc : Win32.g_poll (cfg := win32_config) first_signalled_os
                     [handle_fd 0; no_handle_fd; handle_fd 1] 0
                   = Some ([handle_fd 0; Win32.set_revents no_handle_fd 0; handle_fd 1], 2,
                           [Win32.WaitForMultipleObjectsEx [1000; 1001] 0;
                            Win32.WaitForMultipleObjectsEx [1001] 0]))
        by (vm_compute; reflexivity).
      rewrite Hc in Hg. by injection Hg as _ <- _. }
    subst ret. exists l', cs. split; [exact Hg | exact Hall].
Defined.

Lemma g_poll_without_handles_witness :
  Win32.g_poll (cfg := win32_config) idle_os [no_handle_fd] (-1)
  = Some ([Win32.set_revents no_handle_fd 0], -1, [])
  ∧ Win32.g_poll (cfg := win32_config) idle_os [] 5
    = Some ([], 0, [Win32.WaitForSingleObjectEx 5]).
Proof.
  split.
  - apply (g_poll_without_handles (cfg := win32_config) idle_os [no_handle_fd] (-1)).
    + vm_compute. discriminate.
    + change (1 <= 64). lia.
    + repeat constructor; [simpl; lia | intros [Hfd _]; vm_compute in Hfd; discriminate].
  - apply (g_poll_without_handles (cfg := win32_config) idle_os [] 5).
    + vm_compute. discriminate.
    + change (0 <= 64). lia.
    + constructor.
Defined.

Lemma g_poll_blocks_at_most_once_witness :
  ∃ l' ret quick last,
    Win32.g_poll (cfg := win32_config) idle_os [handle_fd 0; handle_fd 1] 5
    = Some (l', ret, quick ++ last)
    ∧ Forall (λ c, call_timeout c = 0) quick
    ∧ Forall (λ c, call_timeout c = 5) last
    ∧ (length last <= 1)%nat.
Proof.
  destruct (g_poll_blocks_at_most_once (cfg := win32_config) idle_os
              [handle_fd 0; handle_fd 1] 5)
    as (l' & ret & quick & last & Hg & Hq & Hl & Hone & _).
  - reflexivity.
  - change (2 <= 64 < 2 ^ 32). lia.
  - change (2 <= 64). lia.
  - exists l', ret, quick, last. split; [exact Hg|]. split; [exact Hq|].
    split; [exact Hl | exact Hone].
Defined.

Lemma g_poll_threads_answers_witness :
  ∃ l' ret cs,
    Win32.g_poll (cfg := win32_config) first_signalled_os
      (handle_fd <$> seq 0 65) 0 = Some (l', ret, cs)
    ∧ Forall2 (answer (cfg := win32_config)) (handle_fd <$> seq 0 65) l'.
Proof.
  destruct (g_poll_threads_answers (cfg := win32_config) first_signalled_os
              (handle_fd <$> seq 0 65) 0)
    as (l' & ret & cs & Hg & Hall & _).
  - reflexivity.
  - change (2 <= 64 < 2 ^ 32). lia.
  - vm_compute. split; reflexivity.
  - vm_compute. discriminate.
  - exists l', ret, cs. split; [exact Hg | exact Hall].
Defined.

(** A system on which the first wait of a call finds the object
    [first] signalled, and every later wait fails. *)
Definition late_failing_os (first : Z) : Win32.OS :=
  {| Win32.wait_result := λ n _, if decide (n = 0%nat) then first else 4294967295;
     Win32.CreateEventW_ret := 7;
     Win32.thread_handle := λ i, Z.of_nat (100 + i) |}.

Lemma g_poll_error_resets_all_revents_witness :
  (∃ l' cs,
     Win32.g_poll (cfg := win32_config) (late_failing_os 0)
       [handle_fd 0; handle_fd 1] 0 = Some (l', -1, cs)
     ∧ cs = [Win32.WaitForMultipleObjectsEx [1000; 1001] 0;
             Win32.WaitForMultipleObjectsEx [1001] 0]
     ∧ Forall (λ f, Win32.revents f = 0) l')
  ∧ (∃ l' cs,
       Win32.g_poll (cfg := win32_config) (late_failing_os 1)
         (handle_fd <$> seq 0 65) 0 = Some (l', -1, cs)
       ∧ cs !! 1%nat
         = Some (Win32.WaitForMultipleObjectsEx
                   ((λ i, Z.of_nat (1000 + i)) <$> seq 1 62) 0)
       ∧ Forall (λ f, Win32.revents f = 0) l').
Proof.
  split.
  - destruct (g_poll_error_resets_all_revents (cfg := win32_config)
                (late_failing_os 0) [handle_fd 0; handle_fd 1] 0)
      as (l' & ret & cs & Hg & _ & Hzero & Hsingle & _).
    + reflexivity.
    + change (2 <= 64 < 2 ^ 32). lia.
    + change (2 < 2 ^ 32). lia.
    + assert (Hcs : cs = [Win32.WaitForMultipleObjectsEx [1000; 1001] 0;
                          Win32.WaitForMultipleObjectsEx [1001] 0]).
      { pose proof Hg as Hg'. vm_compute in Hg'. by injection Hg' as _ _ <-. }
      assert (Hret : ret = -1).
      { destruct Hsingle as [Hfail _]; [vm_compute; discriminate|].
        apply (Hfail 1%nat). rewrite Hcs.
        eexists. split; [reflexivity|]. split; [exact I | reflexivity]. }
      subst ret. exists l', cs. split; [exact Hg|]. split; [exact Hcs|].
      by apply Hzero.
  - destruct (g_poll_error_resets_all_revents (cfg := win32_config)
                (late_failing_os 1) (handle_fd <$> seq 0 65) 0)
      as (l' & ret & cs & Hg & _ & Hzero & _ & Hthreads).
    + reflexivity.
    + change (2 <= 64 < 2 ^ 32). lia.
    + vm_compute. reflexivity.
    + destruct Hthreads as (st & c1 & c2 & Hsp & Hcs & Hfail & _);
        [vm_compute; reflexivity|].
      assert (Hcalls : take 2 (Win32.calls (Win32.mem st))
                       = [Win32.WaitForMultipleObjectsEx
                            (7 :: ((λ i, Z.of_nat (1000 + i)) <$> seq 0 63)) 0;
                          Win32.WaitForMultipleObjectsEx
                            ((λ i, Z.of_nat (1000 + i)) <$> seq 1 62) 0]).
      { pose proof Hsp as Hsp'. vm_compute in Hsp'. injection Hsp' as <-.
        vm_compute. reflexivity. }
      assert (Hc1 : Win32.calls (Win32.mem st) !! 1%nat
                    = Some (Win32.WaitForMultipleObjectsEx
                              ((λ i, Z.of_nat (1000 + i)) <$> seq 1 62) 0)).
      { assert (Ht : take 2 (Win32.calls (Win32.mem st)) !! 1%nat
                     = Some (Win32.WaitForMultipleObjectsEx
                               ((λ i, Z.of_nat (1000 + i)) <$> seq 1 62) 0))
          by (by rewrite Hcalls).
        by apply lookup_take_Some in Ht as [Ht _]. }
      pose proof (lookup_lt_Some _ _ _ Hc1) as Hlt.
      assert (Hcs1 : cs !! 1%nat
                     = Some (Win32.WaitForMultipleObjectsEx
                               ((λ i, Z.of_nat (1000 + i)) <$> seq 1 62) 0))
        by (by rewrite Hcs, lookup_app_l).
      assert (Hret : ret = -1).
      { apply (Hfail 1%nat Hlt).
        eexists. split; [exact Hcs1|]. split; [exact I | reflexivity]. }
      subst ret. exists l', cs. split; [exact Hg|]. split; [exact Hcs1|].
      by apply Hzero.
Defined.

Lemma g_poll_groups_witness :
  (∃ st l' ret cs,
     Win32.spawn_all (cfg := win32_config) idle_os (handle_fd <$> seq 0 65) 0
     = Some st
     ∧ Win32.g_poll (cfg := win32_config) idle_os (handle_fd <$> seq 0 65) 0
       = Some (l', ret, cs)
     ∧ length (Win32.threads_data st) = 2%nat
     ∧ Win32.fds_idx st = 65%nat
     ∧ (∀ data, Win32.threads_data st !! 1%nat = Some data →
          Win32.slots data = [(7, Win32.StopFd); (1063, Win32.Fd 63);
                              (1064, Win32.Fd 64)])
     ∧ Forall (λ c, Win32.nCount c <= 64) cs)
  ∧ (∃ st l' ret cs,
       Win32.spawn_all (cfg := win32_config) idle_os (handle_fd <$> seq 0 3970) 0
       = Some st
       ∧ Win32.g_poll (cfg := win32_config) idle_os (handle_fd <$> seq 0 3970) 0
         = Some (l', ret, cs)
       ∧ length (Win32.threads_data st) = 63%nat
       ∧ Win32.fds_idx st = 3907%nat
       ∧ (∀ j, (3907 <= j)%nat →
            (∀ data h, data ∈ Win32.threads_data st →
                       (h, Win32.Fd j) ∉ Win32.slots data)
            ∧ l' !! j = if decide (ret = -1)
                        then (λ f, Win32.set_revents f 0)
                             <$> (handle_fd <$> seq 0 3970) !! j
                        else (handle_fd <$> seq 0 3970) !! j)).
Proof.
  split.
  - destruct (g_poll_groups (cfg := win32_config) idle_os (handle_fd <$> seq 0 65) 0)
      as (st & l' & ret & cs & Hsp & Hg & Hlen & Hdata & _ & _ & Hall & _ & _ & Hcs).
    + reflexivity.
    + change (2 <= 64 < 2 ^ 32). lia.
    + vm_compute. split; reflexivity.
    + exists st, l', ret, cs. split; [exact Hsp|]. split; [exact Hg|].
      split; [|split; [|split; [|exact Hcs]]].
      * apply Nat2Z.inj. rewrite Hlen. vm_compute. reflexivity.
      * apply Hall. vm_compute. discriminate.
      * intros data Hd. destruct (Hdata _ _ Hd) as (-> & _). vm_compute. reflexivity.
  - destruct (g_poll_groups (cfg := win32_config) idle_os (handle_fd <$> seq 0 3970) 0)
      as (st & l' & ret & cs & Hsp & Hg & _ & _ & Hidx & _ & _ & Hbig & Hrest & _).
    + reflexivity.
    + change (2 <= 64 < 2 ^ 32). lia.
    + change (64 < Z.of_nat (length (handle_fd <$> seq 0 3970)) < 2 ^ 32).
      rewrite length_fmap, length_seq. lia.
    + assert (Hlarge : 63 * 63 < Z.of_nat (length (handle_fd <$> seq 0 3970)))
        by (rewrite length_fmap, length_seq; lia).
      destruct (Hbig Hlarge) as [Hcnt _].
      change (Z.of_nat (length (Win32.threads_data st)) = 63) in Hcnt.
      assert (Hn : length (Win32.threads_data st) = 63%nat) by lia.
      assert (Hi : Win32.fds_idx st = 3907%nat).
      { rewrite Hidx, Hn. vm_compute. reflexivity. }
      exists st, l', ret, cs. split; [exact Hsp|]. split; [exact Hg|].
      split; [exact Hn|]. split; [exact Hi|].
      intros j Hj. rewrite <- Hi in Hj.
      destruct (Hrest j Hj) as (Hno & _ & Hback). split; [exact Hno | exact Hback].
Defined.

(** ** Eventfd and pipes: signalling, acknowledging, creating and freeing *)

Section UnixBehaviour.
Import Unix.
Context {cfg : Config}.

(** The condition that poll(2) reports as [POLLIN]: the counter of an
    eventfd is not 0, a pipe holds a byte. *)
Definition readable (fd : Z) (w : World) : bool :=
  match files w !! fd with
  | Some (EventFd c) => bool_decide (c ≠ 0)
  | Some (PipeRead buf) => bool_decide (buf ≠ [])
  | _ => false
  end.

(** A wakeup whose descriptors are open and are what [g_wakeup_new]
    made them. *)
Definition valid_wakeup (k : GWakeup) (w : World) : Prop :=
  if decide (fds1 k = -1)
  then ∃ c, files w !! fds0 k = Some (EventFd c) ∧ 0 <= c <= EVENTFD_MAX
  else ∃ buf, files w !! fds0 k = Some (PipeRead buf)
              ∧ files w !! fds1 k = Some (PipeWrite (fds0 k))
              ∧ Z.of_nat (length buf) <= pipe_capacity.

(** The file behind [fds[0]] when nothing is pending. *)
Definition drained (k : GWakeup) : file :=
  if decide (fds1 k = -1) then EventFd 0 else PipeRead [].

(** The interrupts from the first system call on that is not
    interrupted, and those that are left after it. *)
Fixpoint drop_interrupted (l : list bool) : list bool :=
  match l with
  | true :: rest => drop_interrupted rest
  | _ => l
  end.

Definition after_interrupts (l : list bool) : list bool :=
  tail (drop_interrupted l).

Lemma read_until_empty_unfold fd w :
  read_until_empty fd w
  = if decide ((read fd 16 w).1 = 16) then read_until_empty fd (read fd 16 w).2
    else (read fd 16 w).2.
Proof.
  funelim (read_until_empty fd w); pose proof e as E; simpl in E; rewrite E; simpl.
  - by rewrite decide_True by done.
  - by rewrite decide_False by done.
Qed.

Lemma write_retry_unfold fd value count w :
  write_retry fd value count w
  = if decide ((write fd value count w).1 = -1
               ∧ errno (write fd value count w).2 = EINTR)
    then write_retry fd value count (write fd value count w).2
    else write fd value count w.
Proof.
  funelim (write_retry fd value count w); pose proof e as E; simpl in E;
    rewrite E; simpl.
  - by rewrite decide_True by done.
  - by rewrite decide_False by done.
Qed.

(** *** [g_wakeup_acknowledge] *)

Lemma read_until_empty_pipe n : ∀ fd w buf,
  length buf = n → interrupts w = [] → files w !! fd = Some (PipeRead buf) →
  ∃ e, read_until_empty fd w
       = with_errno (with_files w (<[fd := PipeRead []]> (files w))) e.
Proof.
  induction (lt_wf n) as [n _ IH]. intros fd w buf Hlen Hint Hf.
  rewrite read_until_empty_unfold. unfold read, interrupted.
  rewrite Hint. cbv beta iota. rewrite Hf.
  destruct buf as [|b buf].
  - destruct (has_writer fd (files w)); simpl.
    + exists EAGAIN. unfold with_errno, with_files. simpl.
      by rewrite insert_id by done.
    + exists (errno w). unfold with_errno, with_files. simpl.
      rewrite insert_id by done. by destruct w.
  - cbn [fst snd]. destruct (decide ((16 <= length (b :: buf))%nat)) as [Hge|Hlt].
    + rewrite Nat.min_l by done. rewrite decide_True by done.
      destruct (IH (length (drop 16 (b :: buf))) ltac:(rewrite length_drop; simpl in *; lia)
                  fd (with_files w (<[fd := PipeRead (drop 16 (b :: buf))]> (files w)))
                  (drop 16 (b :: buf)) eq_refl Hint)
        as [e He]; [simpl; by rewrite lookup_insert_eq|].
      exists e. rewrite He. unfold with_errno, with_files. simpl.
      by rewrite insert_insert_eq.
    + rewrite Nat.min_r by lia. rewrite decide_False by (simpl in *; lia).
      exists (errno w). rewrite drop_all. unfold with_errno, with_files. done.
Qed.

Lemma read_until_empty_eventfd fd w c :
  interrupts w = [] → files w !! fd = Some (EventFd c) →
  ∃ e, read_until_empty fd w
       = with_errno (with_files w (<[fd := EventFd 0]> (files w))) e.
Proof.
  intros Hint Hf. rewrite read_until_empty_unfold. unfold read, interrupted.
  rewrite Hint. cbv beta iota. rewrite Hf.
  rewrite (decide_False (P := (16 < 8)%nat)) by lia.
  destruct (decide (c = 0)) as [->|Hc]; simpl.
  - exists EAGAIN. unfold with_errno, with_files. simpl. by rewrite insert_id by done.
  - exists (errno w). unfold with_errno, with_files. done.
Qed.

Lemma g_wakeup_acknowledge_spec a k w :
  heap w !! a = Some k → valid_wakeup k w → interrupts w = [] →
  ∃ e, g_wakeup_acknowledge a w
       = Some (with_errno (with_files w (<[fds0 k := drained k]> (files w))) e).
Proof.
  intros Hk Hv Hint. unfold g_wakeup_acknowledge. rewrite Hk. simpl.
  unfold valid_wakeup, drained in *. case_decide.
  - destruct Hv as (c & Hf & _).
    destruct (read_until_empty_eventfd _ _ _ Hint Hf) as [e ->]. by exists e.
  - destruct Hv as (buf & Hf & _).
    destruct (read_until_empty_pipe _ _ _ _ eq_refl Hint Hf) as [e ->]. by exists e.
Qed.

Lemma valid_wakeup_drained k w w' :
  valid_wakeup k w →
  (∀ fd, fd ≠ fds0 k → files w' !! fd = files w !! fd) →
  files w' !! fds0 k = Some (drained k) →
  valid_wakeup k w'.
Proof.
  unfold valid_wakeup, drained. intros Hv Hother Hfd. case_decide.
  - exists 0. split; [done|]. unfold EVENTFD_MAX. lia.
  - destruct Hv as (buf & Hf0 & Hf1 & Hlen). exists []. split; [done|].
    split; [|simpl; lia]. rewrite Hother; [done|]. congruence.
Qed.

Lemma readable_drained k w :
  files w !! fds0 k = Some (drained k) → readable (fds0 k) w = false.
Proof.
  unfold readable, drained. intros ->.
  case_decide; apply bool_decide_eq_false_2; by intros Hne.
Qed.

Lemma not_readable_drained k w :
  valid_wakeup k w → readable (fds0 k) w = false →
  files w !! fds0 k = Some (drained k).
Proof.
  unfold valid_wakeup, readable, drained. case_decide.
  - intros (c & -> & _) Hr. apply bool_decide_eq_false_1 in Hr.
    destruct (decide (c = 0)) as [->|Hc]; [done | by destruct Hr].
  - intros (buf & -> & _) Hr. apply bool_decide_eq_false_1 in Hr.
    destruct buf; [done | by destruct Hr].
Qed.

(** *** [g_wakeup_signal] *)

Lemma drop_interrupted_head l : head (drop_interrupted l) ≠ Some true.
Proof. induction l as [|[] l IH]; simpl; done. Qed.

Lemma write_not_interrupted fd value count w :
  head (interrupts w) ≠ Some true →
  ¬ ((write fd value count w).1 = -1
     ∧ errno (write fd value count w).2 = EINTR).
Proof.
  unfold write, interrupted. intros Hh.
  destruct (interrupts w) as [|[] rest]; [|done|]; cbv beta iota;
    cbn [files with_interrupts];
    (destruct (files w !! fd) as [[c|buf|r]|]; simpl;
     [repeat case_decide | | destruct (files w !! r) as [[| |]|];
                              [|repeat case_decide| |] |];
     simpl; intros [? ?]; simpl in *; first [discriminate | lia | congruence]).
Qed.

Lemma write_interrupted fd value count w l :
  interrupts w = true :: l →
  write fd value count w = (-1, with_errno (with_interrupts w l) EINTR).
Proof. unfold write, interrupted. by intros ->. Qed.

(** The loop ends with the first [write] that is not interrupted. *)
Lemma write_retry_spec fd value count : ∀ l w,
  interrupts w = l →
  ∃ e, write_retry fd value count w
       = write fd value count
           (with_errno (with_interrupts w (drop_interrupted l)) e).
Proof.
  induction l as [|b l IH]; intros w Hl.
  - exists (errno w). rewrite write_retry_unfold.
    rewrite decide_False by (apply write_not_interrupted; by rewrite Hl).
    simpl. rewrite <- Hl. by destruct w.
  - destruct b.
    + rewrite write_retry_unfold, (write_interrupted _ _ _ _ _ Hl).
      cbn [fst snd errno with_errno].
      rewrite decide_True by done.
      destruct (IH (with_errno (with_interrupts w l) EINTR) eq_refl) as [e ->].
      by exists e.
    + exists (errno w). rewrite write_retry_unfold.
      rewrite decide_False by (apply write_not_interrupted; by rewrite Hl).
      simpl. rewrite <- Hl. by destruct w.
Qed.

(** The file behind [fds[0]] when something is pending. *)
Definition pending_file (k : GWakeup) (f : file) : Prop :=
  if decide (fds1 k = -1)
  then ∃ c, f = EventFd c ∧ 0 < c <= EVENTFD_MAX
  else ∃ buf, f = PipeRead buf ∧ buf ≠ []
              ∧ Z.of_nat (length buf) <= pipe_capacity.

Lemma g_wakeup_signal_spec a k w :
  0 < pipe_capacity →
  heap w !! a = Some k → valid_wakeup k w →
  ∃ f e, pending_file k f
    ∧ g_wakeup_signal a w
      = Some (with_errno
                (with_interrupts (with_files w (<[fds0 k := f]> (files w)))
                   (after_interrupts (interrupts w))) e).
Proof.
  intros Hcap Hk Hv. unfold g_wakeup_signal. rewrite Hk. simpl.
  unfold valid_wakeup, pending_file in *. case_decide as H1.
  - destruct Hv as (c & Hf & Hc).
    destruct (write_retry_spec (fds0 k) 1 8 _ w eq_refl) as [e ->].
    pose proof (drop_interrupted_head (interrupts w)) as Hh.
    unfold write, interrupted, after_interrupts. cbn [interrupts with_errno with_interrupts].
    destruct (drop_interrupted (interrupts w)) as [|[] rest]; [|done|];
      cbv beta iota; cbn [files with_errno with_interrupts]; rewrite Hf;
      rewrite (decide_False (P := (8 < 8)%nat)) by lia;
      rewrite (decide_False (P := 1 = 2 ^ 64 - 1)) by (vm_compute; congruence);
      (destruct (decide (c + 1 > EVENTFD_MAX));
       [exists (EventFd c), EAGAIN; split;
        [exists c; split; [done | unfold EVENTFD_MAX in *; lia]|];
        cbn [snd]; unfold with_errno, with_interrupts, with_files; simpl;
        by rewrite insert_id by done
       |exists (EventFd (c + 1)), e; split; [exists (c + 1); split; [done | lia]|];
        done]).
  - destruct Hv as (buf & Hf0 & Hf1 & Hlen).
    destruct (write_retry_spec (fds1 k) 1 1 _ w eq_refl) as [e ->].
    pose proof (drop_interrupted_head (interrupts w)) as Hh.
    unfold write, interrupted, after_interrupts. cbn [interrupts with_errno with_interrupts].
    destruct (drop_interrupted (interrupts w)) as [|[] rest]; [|done|];
      cbv beta iota; cbn [files with_errno with_interrupts]; rewrite Hf1, Hf0;
      (destruct (decide (Z.of_nat (length buf) + Z.of_nat 1 > pipe_capacity));
       [exists (PipeRead buf), EAGAIN; split;
        [exists buf; split; [done|]; split; [destruct buf; [simpl in *; lia | done] | done]|];
        cbn [snd]; unfold with_errno, with_interrupts, with_files; simpl;
        by rewrite insert_id by done
       |exists (PipeRead (buf ++ bytes_of 1 1)), e; split;
        [exists (buf ++ bytes_of 1 1); split; [done|]; split;
         [by destruct buf | rewrite length_app; simpl; lia]|];
        done]).
Qed.

Lemma valid_wakeup_pending k f fs w :
  valid_wakeup k w → pending_file k f →
  (∀ fd, fd ≠ fds0 k → fs !! fd = files w !! fd) →
  fs !! fds0 k = Some f →
  ∀ w', files w' = fs → valid_wakeup k w' ∧ readable (fds0 k) w' = true.
Proof.
  unfold valid_wakeup, pending_file, readable. intros Hv Hp Hother Hfd w' ->.
  rewrite Hfd. case_decide.
  - destruct Hp as (c & -> & Hc). split; [exists c; split; [done | lia]|].
    apply bool_decide_eq_true_2. lia.
  - destruct Hv as (buf0 & Hf0 & Hf1 & _). destruct Hp as (buf & -> & Hne & Hlen).
    split; [|by apply bool_decide_eq_true_2].
    exists buf. split; [done|]. split; [|done]. rewrite Hother; [done|]. congruence.
Qed.

Lemma g_wakeup_signal_effect a k w :
  0 < pipe_capacity →
  heap w !! a = Some k → valid_wakeup k w →
  ∃ w', g_wakeup_signal a w = Some w'
    ∧ readable (fds0 k) w' = true
    ∧ valid_wakeup k w'
    ∧ heap w' = heap w ∧ fd_log w' = fd_log w
    ∧ (∀ fd, fd ≠ fds0 k → files w' !! fd = files w !! fd)
    ∧ interrupts w' = after_interrupts (interrupts w).
Proof.
  intros Hcap Hk Hv.
  destruct (g_wakeup_signal_spec a k w Hcap Hk Hv) as (f & e & Hp & ->).
  eexists. split; [done|].
  assert (Hother : ∀ fd, fd ≠ fds0 k →
            (<[fds0 k := f]> (files w) : gmap Z file) !! fd = files w !! fd)
    by (intros fd Hfd; by rewrite lookup_insert_ne).
  destruct (valid_wakeup_pending k f _ w Hv Hp Hother (lookup_insert_eq _ _ _)
              (with_errno
                 (with_interrupts (with_files w (<[fds0 k := f]> (files w)))
                    (after_interrupts (interrupts w))) e) eq_refl) as [Hv' Hr'].
  done.
Qed.

(** X21: However often [g_wakeup_signal] is called, and whatever signals
    interrupt its writes, the call returns and leaves the wakeup
    readable: [fds[0]] polls as ready.  A full pipe and a counter at
    its maximum are no error: the write is dropped and the wakeup is
    readable as before.  No other file, no wakeup object and no
    callback is touched; the interrupts up to the first write that is
    not interrupted are used up. *)
Theorem g_wakeup_signal_makes_readable a k w :
  0 < pipe_capacity →
  heap w !! a = Some k → valid_wakeup k w →
  ∃ w', g_wakeup_signal a w = Some w'
    ∧ readable (fds0 k) w' = true
    ∧ valid_wakeup k w'
    ∧ heap w' = heap w ∧ fd_log w' = fd_log w
    ∧ (∀ fd, fd ≠ fds0 k → files w' !! fd = files w !! fd)
    ∧ interrupts w' = after_interrupts (interrupts w).
Proof. apply g_wakeup_signal_effect. Qed.

Lemma g_wakeup_acknowledge_effect a k w :
  heap w !! a = Some k → valid_wakeup k w → interrupts w = [] →
  ∃ w', g_wakeup_acknowledge a w = Some w'
    ∧ readable (fds0 k) w' = false
    ∧ valid_wakeup k w'
    ∧ heap w' = heap w ∧ fd_log w' = fd_log w ∧ interrupts w' = []
    ∧ files w' = <[fds0 k := drained k]> (files w).
Proof.
  intros Hk Hv Hint.
  destruct (g_wakeup_acknowledge_spec a k w Hk Hv Hint) as [e ->].
  eexists. split; [done|]. split; [|split]; [| |done].
  - apply readable_drained. simpl. by rewrite lookup_insert_eq.
  - apply (valid_wakeup_drained k w); [done | |].
    + intros fd Hfd. simpl. by rewrite lookup_insert_ne.
    + simpl. by rewrite lookup_insert_eq.
Qed.

(** X22: [g_wakeup_acknowledge], when no signal interrupts its reads,
    returns and leaves the wakeup not readable, whatever was pending:
    the counter of the eventfd is 0, the pipe is empty, also when it
    held 16 bytes or more.  No other file is touched, and if the
    wakeup was not readable no file changes at all. *)
Theorem g_wakeup_acknowledge_drains a k w :
  heap w !! a = Some k → valid_wakeup k w → interrupts w = [] →
  ∃ w', g_wakeup_acknowledge a w = Some w'
    ∧ readable (fds0 k) w' = false
    ∧ valid_wakeup k w'
    ∧ heap w' = heap w ∧ fd_log w' = fd_log w
    ∧ (∀ fd, fd ≠ fds0 k → files w' !! fd = files w !! fd)
    ∧ (readable (fds0 k) w = false → files w' = files w).
Proof.
  intros Hk Hv Hint.
  destruct (g_wakeup_acknowledge_effect a k w Hk Hv Hint)
    as (w' & Hack & Hr & Hv' & Hh & Hl & _ & Hf).
  exists w'. repeat (split; [done|]). split.
  - intros fd Hfd. rewrite Hf. by rewrite lookup_insert_ne.
  - intros Hnr. rewrite Hf. apply insert_id. by apply not_readable_drained.
Qed.

(** [n] calls of [g_wakeup_signal]. *)
Fixpoint signals (n : nat) (a : Z) (w : World) : option World :=
  match n with
  | O => Some w
  | S n' => w' ← g_wakeup_signal a w; signals n' a w'
  end.

Lemma signals_effect n : ∀ a k w,
  0 < pipe_capacity →
  heap w !! a = Some k → valid_wakeup k w →
  ∃ w', signals n a w = Some w'
    ∧ ((0 < n)%nat → readable (fds0 k) w' = true)
    ∧ valid_wakeup k w'
    ∧ heap w' = heap w ∧ fd_log w' = fd_log w
    ∧ (∀ fd, fd ≠ fds0 k → files w' !! fd = files w !! fd)
    ∧ (interrupts w = [] → interrupts w' = []).
Proof.
  induction n as [|n IH]; intros a k w Hcap Hk Hv; simpl.
  - exists w. split; [done|]. split; [lia | done].
  - destruct (g_wakeup_signal_effect a k w Hcap Hk Hv)
      as (w1 & -> & Hr1 & Hv1 & Hh1 & Hl1 & Hf1 & Hi1). simpl.
    destruct (IH a k w1 Hcap) as (w' & Hs & Hr & Hv' & Hh & Hl & Hf & Hi);
      [by rewrite Hh1 | done |].
    exists w'. split; [done|]. split.
    + intros _. destruct n as [|n]; [|apply Hr; lia].
      simpl in Hs. by injection Hs as <-.
    + split; [done|]. split; [congruence|]. split; [congruence|]. split.
      * intros fd Hfd. by rewrite Hf, Hf1.
      * intros Hnil. apply Hi. rewrite Hi1, Hnil. done.
Qed.

(** X23: One [g_wakeup_acknowledge] takes back any number of signals: after
    [n] calls of [g_wakeup_signal] the wakeup is readable (if [n] is
    not 0), after the acknowledgement it is not, and the files are
    those that the acknowledgement alone would have left.  The next
    signal makes the wakeup readable again. *)
Theorem g_wakeup_acknowledge_after_signals n a k w :
  0 < pipe_capacity →
  heap w !! a = Some k → valid_wakeup k w → interrupts w = [] →
  ∃ w1 w2 w0 w3,
    signals n a w = Some w1
    ∧ ((0 < n)%nat → readable (fds0 k) w1 = true)
    ∧ g_wakeup_acknowledge a w1 = Some w2
    ∧ readable (fds0 k) w2 = false
    ∧ g_wakeup_acknowledge a w = Some w0
    ∧ files w2 = files w0
    ∧ g_wakeup_signal a w2 = Some w3
    ∧ readable (fds0 k) w3 = true.
Proof.
  intros Hcap Hk Hv Hint.
  destruct (signals_effect n a k w Hcap Hk Hv)
    as (w1 & Hs & Hr1 & Hv1 & Hh1 & _ & Hf1 & Hi1).
  destruct (g_wakeup_acknowledge_effect a k w1) as (w2 & Ha2 & Hr2 & Hv2 & Hh2 & _ & _ & Hf2);
    [by rewrite Hh1 | done | by apply Hi1 |].
  destruct (g_wakeup_acknowledge_effect a k w) as (w0 & Ha0 & _ & _ & _ & _ & _ & Hf0);
    [done | done | done |].
  destruct (g_wakeup_signal_effect a k w2 Hcap) as (w3 & Hs3 & Hr3 & _);
    [by rewrite Hh2, Hh1 | done |].
  exists w1, w2, w0, w3. repeat (split; [done|]). split; [|done].
  rewrite Hf2, Hf0. apply map_eq. intros fd.
  destruct (decide (fd = fds0 k)) as [->|Hne].
  - by rewrite !lookup_insert_eq.
  - rewrite !lookup_insert_ne by done. by apply Hf1.
Qed.

(** *** [g_wakeup_new] and [g_wakeup_free] *)

(** The system gives [g_wakeup_new] what it needs: an eventfd where
    the code asks for one, or else two distinct descriptors of a pipe
    that can be made non-blocking. *)
Definition uses_eventfd (os : OS) : Prop :=
  linux = true ∧ TEST_EVENTFD_FALLBACK = false ∧ eventfd_ret os ≠ -1.

Definition provides (os : OS) (k : GWakeup) : Prop :=
  (uses_eventfd os ∧ k = {| fds0 := eventfd_ret os; fds1 := -1 |})
  ∨ (¬ uses_eventfd os
     ∧ pipe_ret os = Some (fds0 k, fds1 k)
     ∧ fds0 k ≠ fds1 k ∧ fds1 k ≠ -1
     ∧ nonblocking_ok os (fds0 k) = true ∧ nonblocking_ok os (fds1 k) = true).

(** The descriptors of a wakeup. *)
Definition wakeup_fds (k : GWakeup) : list Z :=
  if decide (fds1 k = -1) then [fds0 k] else [fds0 k; fds1 k].

Lemma g_wakeup_new_spec os a k w :
  provides os k →
  g_wakeup_new os a w
  = Some {| heap := <[a := k]> (heap w);
            files := if decide (fds1 k = -1)
                     then <[fds0 k := EventFd 0]> (files w)
                     else <[fds1 k := PipeWrite (fds0 k)]>
                            (<[fds0 k := PipeRead []]> (files w));
            errno := errno w; interrupts := interrupts w;
            fd_log := (on_fd_opened <$> rev (wakeup_fds k)) ++ fd_log w |}.
Proof.
  unfold provides, uses_eventfd, g_wakeup_new, wakeup_fds.
  intros [[(Hl & Ht & He) ->]|(Hno & Hp & Hne & H1 & Hn0 & Hn1)].
  - rewrite Hl, Ht. unfold eventfd. rewrite decide_False by done.
    rewrite decide_True by done. simpl. done.
  - assert (Hpipes : open_pipes os a w
              = Some {| heap := <[a := k]> (heap w);
                        files := <[fds1 k := PipeWrite (fds0 k)]>
                                   (<[fds0 k := PipeRead []]> (files w));
                        errno := errno w; interrupts := interrupts w;
                        fd_log := on_fd_opened (fds1 k) :: on_fd_opened (fds0 k)
                                  :: fd_log w |}).
    { unfold open_pipes, g_unix_open_pipe. rewrite Hp, Hn0, Hn1. simpl.
      by destruct k. }
    destruct (decide (fds1 k = -1)) as [?|_]; [done|]. simpl.
    destruct linux; [|done].
    destruct TEST_EVENTFD_FALLBACK.
    + by rewrite decide_False by (intros H; by apply H).
    + unfold eventfd. destruct (decide (eventfd_ret os = -1)) as [He|He].
      * by rewrite decide_False by (intros H; by apply H).
      * exfalso. by apply Hno.
Qed.

Lemma g_wakeup_new_valid os a k w :
  0 <= pipe_capacity → provides os k →
  ∃ w', g_wakeup_new os a w = Some w'
    ∧ heap w' = <[a := k]> (heap w)
    ∧ valid_wakeup k w'
    ∧ files w' !! fds0 k = Some (drained k)
    ∧ (∀ fd, fd ∉ wakeup_fds k → files w' !! fd = files w !! fd)
    ∧ fd_log w' = (on_fd_opened <$> rev (wakeup_fds k)) ++ fd_log w.
Proof.
  intros Hcap Hp. rewrite (g_wakeup_new_spec os a k w Hp).
  eexists. split; [done|]. simpl. split; [done|].
  assert (Hfd : fds1 k ≠ -1 → fds0 k ≠ fds1 k).
  { destruct Hp as [[Hu ->]|(Hno & _ & Hne & H1 & _)]; simpl; done. }
  split; [|split; [|split; [|done]]].
  - unfold valid_wakeup. simpl. case_decide.
    + exists 0. rewrite lookup_insert_eq. split; [done|]. unfold EVENTFD_MAX. lia.
    + exists []. rewrite lookup_insert_eq.
      rewrite lookup_insert_ne by (intros E; by apply Hfd).
      rewrite lookup_insert_eq. split; [done|]. split; [done | simpl; lia].
  - unfold drained. case_decide.
    + by rewrite lookup_insert_eq.
    + rewrite lookup_insert_ne by (intros E; by apply Hfd).
      by rewrite lookup_insert_eq.
  - unfold wakeup_fds. intros fd Hfdn. case_decide.
    + rewrite lookup_insert_ne; [done|]. intros <-. apply Hfdn. left.
    + rewrite !lookup_insert_ne; [done| |]; intros <-; apply Hfdn;
        [left | right; left].
Qed.

(** X24: When the system provides the descriptors, [g_wakeup_new] returns a
    wakeup that is valid and not readable, and [g_wakeup_get_pollfd]
    gives the entry to poll: [fds[0]] with the events [G_IO_IN].  The
    eventfd is used where the code asks for one and the call succeeds,
    the pipe otherwise.  Every descriptor is reported to
    [on_fd_opened]; no other wakeup object changes. *)
Theorem g_wakeup_new_is_not_signalled os a k w p :
  0 <= pipe_capacity → provides os k →
  ∃ w', g_wakeup_new os a w = Some w'
    ∧ heap w' !! a = Some k
    ∧ (∀ b, b ≠ a → heap w' !! b = heap w !! b)
    ∧ valid_wakeup k w'
    ∧ readable (fds0 k) w' = false
    ∧ g_wakeup_get_pollfd a p w'
      = Some {| fd := fds0 k; events := G_IO_IN; revents := revents p |}
    ∧ (fds1 k = -1 ↔ uses_eventfd os)
    ∧ fd_log w' = (on_fd_opened <$> rev (wakeup_fds k)) ++ fd_log w.
Proof.
  intros Hcap Hp.
  destruct (g_wakeup_new_valid os a k w Hcap Hp)
    as (w' & Hnew & Hh & Hv & Hd & _ & Hl).
  exists w'. split; [done|].
  split; [by rewrite Hh, lookup_insert_eq|].
  split; [intros b Hb; by rewrite Hh, lookup_insert_ne|].
  split; [done|]. split; [by apply readable_drained|].
  split; [unfold g_wakeup_get_pollfd; by rewrite Hh, lookup_insert_eq|].
  split; [|done].
  destruct Hp as [[Hu ->]|(Hno & _ & _ & H1 & _)]; simpl; [done|]. split; [done|].
  intros Hu. by destruct Hno.
Qed.

(** X25: A wakeup that is freed leaves nothing behind: if the address and
    the descriptors were not in use before [g_wakeup_new], then after
    [g_wakeup_new], any number of signals and [g_wakeup_free] the
    wakeup objects and the open files are what they were, every
    descriptor that was reported opened has been reported closed, and
    a further call on the wakeup is undefined. *)
Theorem g_wakeup_free_undoes_new os a k w n :
  0 < pipe_capacity → provides os k →
  heap w !! a = None → Forall (λ fd, files w !! fd = None) (wakeup_fds k) →
  ∃ w1 w2 w3,
    g_wakeup_new os a w = Some w1
    ∧ signals n a w1 = Some w2
    ∧ g_wakeup_free a w2 = Some w3
    ∧ heap w3 = heap w ∧ files w3 = files w
    ∧ fd_log w3 = (on_fd_closed <$> rev (wakeup_fds k))
                  ++ (on_fd_opened <$> rev (wakeup_fds k)) ++ fd_log w
    ∧ g_wakeup_signal a w3 = None ∧ g_wakeup_acknowledge a w3 = None
    ∧ g_wakeup_free a w3 = None.
Proof.
  intros Hcap Hp Ha Hfresh.
  destruct (g_wakeup_new_valid os a k w ltac:(lia) Hp)
    as (w1 & Hnew & Hh1 & Hv1 & _ & Hf1 & Hl1).
  assert (Hk1 : heap w1 !! a = Some k) by (by rewrite Hh1, lookup_insert_eq).
  destruct (signals_effect n a k w1 Hcap Hk1 Hv1)
    as (w2 & Hs & _ & Hv2 & Hh2 & Hl2 & Hf2 & _).
  assert (Hk2 : heap w2 !! a = Some k) by (by rewrite Hh2).
  exists w1, w2. eexists. split; [done|]. split; [done|].
  split; [unfold g_wakeup_free; rewrite Hk2; simpl; reflexivity|].
  assert (Hheap : delete a (heap w2) = heap w)
    by (rewrite Hh2, Hh1; by apply delete_insert_id).
  assert (Hfiles : ∀ fd, fd ∉ wakeup_fds k → files w2 !! fd = files w !! fd).
  { intros fd Hfd. rewrite Hf2, Hf1; [done | done |].
    intros ->. apply Hfd. unfold wakeup_fds. case_decide; left. }
  rewrite Forall_forall in Hfresh.
  unfold wakeup_fds in *. destruct (decide (fds1 k = -1)) as [E|E].
  - rewrite decide_False by (intros H; by apply H). simpl.
    split; [done|]. split.
    + apply map_eq. intros fd. destruct (decide (fd = fds0 k)) as [->|Hne].
      * rewrite lookup_delete_eq. symmetry. apply Hfresh. left.
      * rewrite lookup_delete_ne by done. apply Hfiles.
        by intros ->%list_elem_of_singleton.
    + split; [by rewrite Hl2, Hl1|].
      unfold g_wakeup_signal, g_wakeup_acknowledge, g_wakeup_free. simpl.
      by rewrite Hheap, Ha.
  - rewrite decide_True by done. simpl. split; [done|]. split.
    + apply map_eq. intros fd. destruct (decide (fd = fds1 k)) as [->|Hne1].
      * rewrite lookup_delete_eq. symmetry. apply Hfresh. right. left.
      * rewrite lookup_delete_ne by done.
        destruct (decide (fd = fds0 k)) as [->|Hne0].
        -- rewrite lookup_delete_eq. symmetry. apply Hfresh. left.
        -- rewrite lookup_delete_ne by done. apply Hfiles.
           intros [->|[->|[]%elem_of_nil]%elem_of_cons]%elem_of_cons; done.
    + split; [by rewrite Hl2, Hl1|].
      unfold g_wakeup_signal, g_wakeup_acknowledge, g_wakeup_free. simpl.
      by rewrite Hheap, Ha.
Qed.

End UnixBehaviour.

(** *** Sample runs *)

(** Linux with pipes of 65536 bytes. *)
Definition unix_config : Unix.Config :=
  {| Unix.G_IO_IN := 1; Unix.linux := true;
     Unix.TEST_EVENTFD_FALLBACK := false; Unix.pipe_capacity := 65536 |}.

(** A system that has eventfd, and one that has pipes only. *)
Definition eventfd_os : Unix.OS :=
  {| Unix.eventfd_ret := 5; Unix.pipe_ret := None;
     Unix.nonblocking_ok := λ _, true |}.

Definition pipe_os : Unix.OS :=
  {| Unix.eventfd_ret := -1; Unix.pipe_ret := Some (5, 6);
     Unix.nonblocking_ok := λ _, true |}.

Definition empty_world : Unix.World :=
  {| Unix.heap := ∅; Unix.files := ∅; Unix.errno := Unix.EAGAIN;
     Unix.interrupts := []; Unix.fd_log := [] |}.

(** The wakeup at address 10 on the pipe 5/6, which holds 20 bytes,
    and the same with signals that interrupt the next two system
    calls and the fourth. *)
Definition pipe_wakeup : Unix.GWakeup := {| Unix.fds0 := 5; Unix.fds1 := 6 |}.

Definition pipe_world (ints : list bool) : Unix.World :=
  {| Unix.heap := {[ 10 := pipe_wakeup ]};
     Unix.files := {[ 5 := Unix.PipeRead (replicate 20 1);
                      6 := Unix.PipeWrite 5 ]};
     Unix.errno := Unix.EAGAIN; Unix.interrupts := ints; Unix.fd_log := [] |}.

Lemma pipe_world_valid ints :
  valid_wakeup (cfg := unix_config) pipe_wakeup (pipe_world ints).
Proof.
  unfold valid_wakeup. simpl. exists (replicate 20 1).
  split; [reflexivity|]. split; [reflexivity|]. simpl. lia.
Qed.

Lemma g_wakeup_signal_makes_readable_witness :
  ∃ w', Unix.g_wakeup_signal (cfg := unix_config) 10
          (pipe_world [true; true; false; true]) = Some w'
      ∧ readable 5 w' = true
      ∧ Unix.interrupts w' = [true].
Proof.
  destruct (g_wakeup_signal_makes_readable (cfg := unix_config) 10 pipe_wakeup
              (pipe_world [true; true; false; true]))
    as (w' & Hs & Hr & _ & _ & _ & _ & Hi).
  - reflexivity.
  - reflexivity.
  - apply pipe_world_valid.
  - exists w'. split; [exact Hs|]. split; [exact Hr | exact Hi].
Defined.

Lemma g_wakeup_acknowledge_drains_witness :
  ∃ w', Unix.g_wakeup_acknowledge 10 (pipe_world []) = Some w'
      ∧ readable 5 (pipe_world []) = true
      ∧ readable 5 w' = false.
Proof.
  destruct (g_wakeup_acknowledge_drains (cfg := unix_config) 10 pipe_wakeup
              (pipe_world []))
    as (w' & Ha & Hr & _).
  - reflexivity.
  - apply pipe_world_valid.
  - reflexivity.
  - exists w'. split; [exact Ha|]. split; [reflexivity | exact Hr].
Defined.

Lemma g_wakeup_acknowledge_after_signals_witness :
  ∃ w1 w2,
    signals (cfg := unix_config) 3 10 (pipe_world []) = Some w1
    ∧ readable 5 w1 = true
    ∧ Unix.g_wakeup_acknowledge 10 w1 = Some w2
    ∧ readable 5 w2 = false.
Proof.
  destruct (g_wakeup_acknowledge_after_signals (cfg := unix_config) 3 10 pipe_wakeup
              (pipe_world []))
    as (w1 & w2 & w0 & w3 & Hs & Hr1 & Ha & Hr2 & _).
  - reflexivity.
  - reflexivity.
  - apply pipe_world_valid.
  - reflexivity.
  - exists w1, w2. split; [exact Hs|]. split; [apply Hr1; lia|].
    split; [exact Ha | exact Hr2].
Defined.

Lemma pipe_os_provides : provides (cfg := unix_config) pipe_os pipe_wakeup.
Proof.
  right. split; [intros (_ & _ & H); by apply H|].
  repeat split; simpl; congruence.
Qed.

Lemma eventfd_os_provides :
  provides (cfg := unix_config) eventfd_os {| Unix.fds0 := 5; Unix.fds1 := -1 |}.
Proof. left. split; [|reflexivity]. repeat split. simpl. lia. Qed.

Lemma g_wakeup_new_is_not_signalled_witness :
  ∃ w', Unix.g_wakeup_new (cfg := unix_config) pipe_os 10 empty_world = Some w'
      ∧ Unix.heap w' !! 10 = Some pipe_wakeup
      ∧ readable 5 w' = false
      ∧ Unix.g_wakeup_get_pollfd (cfg := unix_config) 10
          {| Unix.fd := 0; Unix.events := 0; Unix.revents := 0 |} w'
        = Some {| Unix.fd := 5; Unix.events := 1; Unix.revents := 0 |}.
Proof.
  destruct (g_wakeup_new_is_not_signalled (cfg := unix_config) pipe_os 10
              pipe_wakeup empty_world
              {| Unix.fd := 0; Unix.events := 0; Unix.revents := 0 |})
    as (w' & Hn & Hk & _ & _ & Hr & Hp & _).
  - simpl. lia.
  - apply pipe_os_provides.
  - exists w'. split; [exact Hn|]. split; [exact Hk|]. split; [exact Hr | exact Hp].
Defined.

Lemma g_wakeup_free_undoes_new_witness :
  ∃ w1 w2 w3,
    Unix.g_wakeup_new (cfg := unix_config) eventfd_os 10 empty_world = Some w1
    ∧ signals (cfg := unix_config) 2 10 w1 = Some w2
    ∧ Unix.g_wakeup_free 10 w2 = Some w3
    ∧ Unix.files w3 = ∅
    ∧ Unix.fd_log w3 = [Unix.on_fd_closed 5; Unix.on_fd_opened 5].
Proof.
  destruct (g_wakeup_free_undoes_new (cfg := unix_config) eventfd_os 10
              {| Unix.fds0 := 5; Unix.fds1 := -1 |} empty_world 2)
    as (w1 & w2 & w3 & Hn & Hs & Hf & _ & Hfiles & Hlog & _).
  - reflexivity.
  - apply eventfd_os_provides.
  - reflexivity.
  - repeat constructor.
  - exists w1, w2, w3. split; [exact Hn|]. split; [exact Hs|]. split; [exact Hf|].
    split; [exact Hfiles | exact Hlog].
Defined.
